(* ===== verification/_CoqProject ===== *)
-Q . S2P
Prelude.v
OrdMap.v
Hash.v
Status.v
Identity.v
Entropy.v
Canonical.v
Value.v
Policy.v
Document.v
Drift.v
Work.v
Authority.v
Plan.v
Lineage.v
Journal.v
Snapshot.v
StoreState.v
Store.v
Engine.v
Planner.v
Lifecycle.v
EngineRuns.v
EngineSafety.v
EngineGuards.v
Durability.v
Wire.v
WireOps.v
Render.v
Server.v
ServerSafety.v
Client.v
Json.v
JsonFacts.v
DocumentJson.v
DocumentJsonFacts.v
Cli.v
CliSafety.v
ToolLife.v
Net.v
Threads.v
Worker.v
WorkerSafety.v
Bench.v
BenchFacts.v
