(* ===== verification/Prelude.v ===== *)
(** * Fabric Reconciliation: a verification library

    The program is a C++20 runtime that keeps a fabric in line with what was declared for it.
    Operators commit an intent per scope; reporters record observations; the engine compares
    the two, plans the actions its policy licenses, issues attempts under idempotency keys,
    takes their completions and accepts a verification only on newer evidence.  All of it is
    durable: every change is a journal record, compacted into a snapshot, and a restart is a
    new incarnation (a newer epoch and a new boot identity) that ends what the previous one
    left in flight.  A service speaks a framed binary protocol to clients; a command line and a
    worker process drive the engine in processes of their own.

    ** The library, in the order of its files

    Shared:
    - Prelude: bytes, machine integers at their width, little-endian integers, the tactics and
      the hint database [fr]; OrdMap: [std::map] as sorted association lists, with the laws of
      insertion, lookup, erasure and the two-pointer walk of two maps.
    - Hash (hash.cpp): SHA-256, streaming and one-shot, hexadecimal text, FNV-1a, beside a
      reference written from FIPS 180-4.  Status (status.cpp, limits.hpp): codes, reasons,
      results as [Value] or [Failed], limits.  Identity (identity.cpp): the grammar of
      identities and the counters; Entropy: how boot and store identities are generated.
    - Canonical (canonical.cpp): the canonical writer, as a monoid of puts, and the reader with
      its sticky failure; the class [PayloadCodec] states what an encodable type promises.

    The data of the engine: Value, Policy, Document (intents, observations, submissions), Drift
    (freshness, selection, classification; its cost is in Work), Authority, Plan (with
    explain.cpp), Lineage (attempts, outcomes, fences), each with the source file of that name.

    Durability:
    - Journal (journal.cpp): a file is its bytes and how many of them are synchronised; append
      with its barriers, the scan with torn-tail recovery, reset.  Snapshot (snapshot.cpp): the
      published and the staged file.  StoreState (store.cpp): the durable state, its events,
      payloads, replay and retention.  Store (store.cpp): the mutations, compaction and open.

    The engine (engine.cpp), as operations [Op A := Engine -> Result A * Engine] whose host
    (clock, outcome of each write) is an argument:
    - Engine: open, boot, restart fencing, policies, intents, observations, queries; Planner:
      classification and plans; Lifecycle: dispatch, completion, verification, fences.
    - EngineRuns: [lifecycle_step], the abstract specification of what may happen to the durable
      state, and that every request moves along it ([serve_evolves]).  The class [Discipline]
      says what the host may answer to a write and to a compaction; the theorems are proved
      for any discipline and read at [any_answer] or at [careful].  EngineSafety: what follows
      for any run of requests.  EngineGuards: what each request guarantees.
    - Durability: the engine composed with its store over the whole life of a store directory,
      through processes, requests, failed writes, compactions, crashes and restarts ([lives]).

    The service:
    - Wire and WireOps (wire.cpp, wire_ops.hpp): frames, the incremental reader, envelopes;
      Render: the texts of reports; Server (server.cpp): handshake, frame loop, the handler of
      every operation, sessions interleaving on one engine; ServerSafety: runs of the service.
    - Client (client.cpp): connect, handshake, call with its reconnection.
    - Net (net.cpp): sockets, listener, wakeup channels, sending and receiving; Threads
      (server.cpp): the accept thread, the session threads and [Stop] as program counters over
      shared descriptors, in every interleaving.

    Documents as json and the processes:
    - Json (json.cpp): values, the strict parser with its limits, both printers, doubles as
      binary64 spec floats; JsonFacts.  DocumentJson (document_json.cpp): every printer and
      reader; DocumentJsonFacts.
    - Cli (fabric_reconciliation_cli.cpp): a run of the tool, from its arguments to its exit
      code, with the files, the store and the sessions it meets as the [World] of the run;
      CliSafety, and ToolLife, which places a run of the tool in the life of its store.  Worker
      (fabric_reconcile_worker.cpp): the same for the worker; WorkerSafety.
    - Bench (fabric_reconcile_bench.cpp, basic_plan.cpp): the scale benchmark and the example
      program, in the same process model; BenchFacts: what the benchmark measures.

    ** What the theorems show

    - Durability: [acknowledged_records_survive], [store_survives_crashes],
      [mutation_all_or_nothing], [replay_refines_events], [retention_keeps_in_flight]: after any
      history of writes, write errors, compactions and crashes, what was acknowledged is
      recovered, and at most the one record in doubt beside it.  [acknowledged_state_survives],
      [every_incarnation_is_sound] and [tool_run_carries_store_on] lift this from the files to
      the engine and to the tool, over any number of processes on one directory.
    - Decisions: [decisive_drift_is_proven], [classification_is_a_partition],
      [authority_proven_iff], [actionable_is_proven], [converged_proven_sound],
      [plan_is_bounded]: nothing is acted on, and no convergence is claimed, without current,
      complete and fresh evidence, a licence and authority.
    - Cost: [classification_work_is_linear], [benchmark_work_is_linear]: the work counters are
      bounded by the size of the documents, and the benchmark reports exactly that.
    - Life cycle: [requests_refine_lifecycle], [attempt_history_sound],
      [one_attempt_in_flight_per_key], [documents_only_advance], [dispatch_is_bound],
      [dispatch_idempotent], [fence_revokes_in_flight], [verified_needs_evidence],
      [attempt_lifecycle_terminates], [restart_recovers].
    - Service: [service_refines_lifecycle], [session_acts_under_its_identity],
      [session_identities_unique], [call_is_handle], [connect_pairs]: whatever bytes arrive, the
      engine moves as its specification allows, and a call is one run of the handler.
    - Threads: [service_returns_descriptors], [stop_completes], and the interleaving
      [stop_misses_connection] in which [Stop] waits for a peer.
    - Codecs: [sha256_streaming_correct], [frames_roundtrip], [frame_stream_chunking],
      [documents_roundtrip], [json_roundtrip], [json_parse_total], [submission_json_roundtrip],
      [json_documents_typed], [walk_attributes_by_lookup].
    - Processes: [cli_refines_lifecycle], [cli_completes_nothing], [worker_exit_boundaries].

    ** Bounds and fuel

    Recursion is structural wherever the code's is.  The json parser runs on [parse_fuel], twice
    the length of the text and one, which [parse_decided] proves enough for every text; the
    component scan of identities on the length of the text, enough by
    [components_clean_reference]; the hash, the frame reader, the journal scan, the binary
    search of policy lists and the retention loop on the length of what they hold, of which
    each turn consumes a part.  Counters, epochs, sequence numbers and clocks are integers
    with their 64-bit wrap-around written where the code computes; the theorems that rely on a
    counter not reaching its end say so.  Undefined behaviour (a double out of range converted
    by a json reader, a signed overflow in the worker, a null engine) is the result [None].

    ** Hypotheses on the host

    The operating system is a parameter: what writes, barriers, clocks, the random device,
    [select] and the other system calls answer is an argument of the operation, and the theorems
    quantify over it.  Where they need more it is a named hypothesis with a witness: clocks and
    descriptors of their types ([host_typed], [opens]), a store directory as processes left it
    ([store_left], [left_by]), writes that leave the record counter below its end and compactions
    whose journal reset completes once the snapshot is published ([careful]; what happens
    otherwise is [torn_reset_locks_store]), a channel that is readable when it was signalled
    ([select_ok]).

    ** Not modelled

    The Windows branches and the compiler macros of platform.hpp; the removal of a benchmark's
    directory, whose outcome is an answer of the host; move constructors and destructors, beyond the
    closing of what they own; the advisory lock file of the store, whose outcome is an answer
    of the host; memory exhaustion and exceptions.  The mutex of the engine makes each request
    one step; the threads of the service are interleaved at their blocking calls and critical
    sections. *)

From Stdlib Require Import String Strings.Byte ZArith Lia.
From Stdlib Require Export ZifyNat.
From stdpp Require Import prelude.
Local Open Scope Z_scope.

(** ** Bytes and texts

    A C++ [std::string] is a byte sequence, compared byte for byte as unsigned
    characters; both texts and encoded buffers are lists of bytes here. *)

Abbreviation byte := Corelib.Init.Byte.byte.
Abbreviation bytes := (list byte).

Export String.StringSyntax.

Declare Scope text_scope.
Delimit Scope text_scope with text.
Notation "'B' s" := (String.list_byte_of_string s%string)
  (at level 8, s at level 0, only parsing) : text_scope.
Open Scope text_scope.

#[export] Instance byte_eq_decision : EqDecision byte := byte_eq_dec.

Definition byte_to_Z (b : byte) : Z := Z.of_N (Byte.to_N b).

(** The byte a [static_cast<std::uint8_t>] of [z] keeps: [z] modulo 256. *)
Definition byte_of_Z (z : Z) : byte :=
  match Byte.of_N (Z.to_N (z mod 256)) with
  | Some b => b
  | None => Byte.x00
  end.

(** Length of a buffer as an integer: sizes are compared with limits in the
    tens of millions, which a unary number could not represent. *)
Definition blen {A} (l : list A) : Z := Z.of_nat (length l).

(** ** Machine integers: range tests and wrap-around *)

Definition in_unsigned (w z : Z) : bool := (0 <=? z) && (z <? 2 ^ w).
Definition in_signed (w z : Z) : bool := (- 2 ^ (w - 1) <=? z) && (z <? 2 ^ (w - 1)).
Definition wrap (w z : Z) : Z := z mod 2 ^ w.
(** Reinterpretation of an unsigned [w]-bit value as a two's complement one. *)
Definition to_signed (w z : Z) : Z := if z <? 2 ^ (w - 1) then z else z - 2 ^ w.

Abbreviation u8 := (in_unsigned 8).
Abbreviation u16 := (in_unsigned 16).
Abbreviation u32 := (in_unsigned 32).
Abbreviation u64 := (in_unsigned 64).
Abbreviation i64 := (in_signed 64).

(** ** Tactics *)

(** Turns boolean tests of the code into propositions. *)
Ltac bool_hyps :=
  repeat match goal with
  | H : _ && _ = true |- _ => apply andb_true_iff in H; destruct H
  | H : _ || _ = false |- _ => apply orb_false_iff in H; destruct H
  | H : negb _ = true |- _ => apply negb_true_iff in H
  | H : negb _ = false |- _ => apply negb_false_iff in H
  | H : (_ <=? _)%Z = true |- _ => apply Z.leb_le in H
  | H : (_ <=? _)%Z = false |- _ => apply Z.leb_gt in H
  | H : (_ <? _)%Z = true |- _ => apply Z.ltb_lt in H
  | H : (_ <? _)%Z = false |- _ => apply Z.ltb_ge in H
  | H : (_ =? _)%Z = true |- _ => apply Z.eqb_eq in H
  | H : (_ =? _)%Z = false |- _ => apply Z.eqb_neq in H
  | H : bool_decide _ = true |- _ => apply bool_decide_eq_true in H
  | H : bool_decide _ = false |- _ => apply bool_decide_eq_false in H
  end.

(** Splits a boolean goal into the propositions of its conjuncts. *)
Ltac bool_goal :=
  repeat match goal with
  | |- _ && _ = true => apply andb_true_iff; split
  | |- (_ <=? _)%Z = true => apply Z.leb_le
  | |- (_ <? _)%Z = true => apply Z.ltb_lt
  | |- (_ =? _)%Z = true => apply Z.eqb_eq
  | |- bool_decide _ = true => apply bool_decide_eq_true
  | |- negb _ = true => apply negb_true_iff
  end.

(** Linear arithmetic with division and remainder by constants. *)
Ltac dlia := zify; Z.to_euclidean_division_equations; lia.

(** Splits the innermost [if] or [match] of the goal, remembering the case. *)
Ltac split_case :=
  match goal with
  | |- context [if ?b then _ else _] => destruct b eqn:?
  | |- context [match ?x with _ => _ end] => destruct x eqn:?
  end.

(** Splits an [if] of a hypothesis, remembering the case. *)
Ltac split_hyp H :=
  match type of H with
  | context [if ?b then _ else _] => destruct b eqn:?
  | context [match ?x with _ => _ end] => destruct x eqn:?
  end.

Create HintDb fr.
Create Rewrite HintDb fr.

(** ** Facts on bytes *)

Lemma byte_to_Z_range b : 0 <= byte_to_Z b < 256.
Proof.
  unfold byte_to_Z. pose proof (Byte.to_N_bounded b). lia.
Qed.

Lemma byte_to_of_Z z : byte_to_Z (byte_of_Z z) = z mod 256.
Proof.
  unfold byte_of_Z, byte_to_Z.
  pose proof (Z.mod_pos_bound z 256 ltac:(lia)).
  destruct (Byte.of_N _) as [b|] eqn:E.
  - apply Byte.to_of_N in E. rewrite E. lia.
  - apply Byte.of_N_None_iff in E. lia.
Qed.

Lemma byte_to_Z_inj a b : byte_to_Z a = byte_to_Z b -> a = b.
Proof.
  unfold byte_to_Z. intros H. apply N2Z.inj in H.
  pose proof (Byte.of_to_N a) as Ha. pose proof (Byte.of_to_N b) as Hb.
  rewrite H in Ha. congruence.
Qed.

Lemma byte_of_to_Z b : byte_of_Z (byte_to_Z b) = b.
Proof.
  apply byte_to_Z_inj. rewrite byte_to_of_Z.
  pose proof (byte_to_Z_range b). by rewrite Z.mod_small.
Qed.

Lemma blen_nil {A} : blen ([] : list A) = 0.
Proof. done. Qed.

Lemma blen_cons {A} (a : A) l : blen (a :: l) = 1 + blen l.
Proof. unfold blen. simpl. lia. Qed.

Lemma blen_app {A} (l1 l2 : list A) : blen (l1 ++ l2) = blen l1 + blen l2.
Proof. unfold blen. rewrite length_app. lia. Qed.

Lemma blen_nonneg {A} (l : list A) : 0 <= blen l.
Proof. unfold blen. lia. Qed.

#[export] Hint Rewrite @blen_nil @blen_cons @blen_app : fr.
#[export] Hint Resolve blen_nonneg byte_to_Z_range : fr.

Lemma forallb_Forall {A} (f : A -> bool) l :
  forallb f l = true <-> Forall (fun a => f a = true) l.
Proof.
  rewrite forallb_forall, Forall_forall. by setoid_rewrite <- list_elem_of_In.
Qed.

(** ** Little-endian integers *)

(** The [n] low bytes of [z], least significant first. *)
Fixpoint le_bytes (n : nat) (z : Z) : bytes :=
  match n with
  | O => []
  | S n' => byte_of_Z z :: le_bytes n' (Z.shiftr z 8)
  end.

Fixpoint le_value (l : bytes) : Z :=
  match l with
  | [] => 0
  | b :: l' => byte_to_Z b + 256 * le_value l'
  end.

Lemma length_le_bytes n z : length (le_bytes n z) = n.
Proof. revert z. induction n; intros; simpl; auto. Qed.

Lemma le_value_bytes n z : le_value (le_bytes n z) = z mod 2 ^ (8 * Z.of_nat n).
Proof.
  revert z. induction n as [|n IH]; intros z.
  - simpl. by rewrite Z.mod_1_r.
  - change (le_value (le_bytes (S n) z))
      with (byte_to_Z (byte_of_Z z) + 256 * le_value (le_bytes n (Z.shiftr z 8))).
    rewrite byte_to_of_Z, IH, Z.shiftr_div_pow2 by lia.
    replace (8 * Z.of_nat (S n)) with (8 + 8 * Z.of_nat n) by lia.
    rewrite Z.pow_add_r by lia. change (2 ^ 8) with 256.
    rewrite Z.rem_mul_r by lia. lia.
Qed.

Lemma le_value_range l : 0 <= le_value l < 2 ^ (8 * blen l).
Proof.
  induction l as [|b l IH]; [unfold blen; simpl; lia|].
  simpl le_value. rewrite blen_cons.
  replace (8 * (1 + blen l)) with (8 + 8 * blen l) by lia.
  pose proof (blen_nonneg l). rewrite Z.pow_add_r by lia.
  change (2 ^ 8) with 256. pose proof (byte_to_Z_range b). nia.
Qed.

Lemma le_bytes_value l : le_bytes (length l) (le_value l) = l.
Proof.
  induction l as [|b l IH]; [done|]. cbn [length le_bytes le_value]. f_equal.
  - apply byte_to_Z_inj. rewrite byte_to_of_Z. pose proof (byte_to_Z_range b). dlia.
  - rewrite Z.shiftr_div_pow2 by lia. change (2 ^ 8) with 256. pose proof (byte_to_Z_range b).
    replace ((byte_to_Z b + 256 * le_value l) / 256) with (le_value l); [done|]. dlia.
Qed.

Lemma byte_of_Z_eq x y : byte_of_Z x = byte_of_Z y <-> x mod 256 = y mod 256.
Proof.
  split; intros H.
  - apply (f_equal byte_to_Z) in H. by rewrite !byte_to_of_Z in H.
  - apply byte_to_Z_inj. by rewrite !byte_to_of_Z.
Qed.

(** The low bytes are the integer modulo a power of two. *)
Lemma le_bytes_eq n x y :
  le_bytes n x = le_bytes n y <-> x mod 2 ^ (8 * Z.of_nat n) = y mod 2 ^ (8 * Z.of_nat n).
Proof.
  rewrite <- !le_value_bytes. split; [by intros ->|]. intros H.
  rewrite <- (le_bytes_value (le_bytes n x)), <- (le_bytes_value (le_bytes n y)). by rewrite !length_le_bytes, H.
Qed.

Lemma to_signed_wrap z : i64 z = true -> to_signed 64 (wrap 64 z) = z.
Proof.
  unfold in_signed, to_signed, wrap. intros H. bool_hyps.
  destruct (Z.leb_spec 0 z).
  - rewrite Z.mod_small by lia.
    destruct (Z.ltb_spec z (2 ^ (64 - 1))); lia.
  - replace (z mod 2 ^ 64) with (z + 2 ^ 64).
    2: { symmetry. rewrite <- (Z.mod_add z 1) by lia.
         rewrite Z.mul_1_l. apply Z.mod_small. lia. }
    destruct (Z.ltb_spec (z + 2 ^ 64) (2 ^ (64 - 1))); lia.
Qed.
