(* ===== verification/OrdMap.v ===== *)
(** * Ordered maps and sets

    [std::map] and [std::set] iterate in key order, and that order reaches the
    canonical encodings, the classifier and the plan. They are modelled as
    association lists strictly sorted by key. This file also holds the two-way
    merge loop that the classifier runs over two such maps. *)

From Stdlib Require Import ZArith Lia.
From stdpp Require Import prelude.
From S2P Require Import Prelude.
Local Open Scope Z_scope.

(** ** Keys: the strict order [operator<] of the key type *)

Class KeyOrder (K : Type) := {
  key_ltb : K -> K -> bool;
  key_ltb_irrefl : forall k, key_ltb k k = false;
  key_ltb_trans : forall a b c, key_ltb a b = true -> key_ltb b c = true -> key_ltb a c = true;
  key_ltb_total : forall a b, key_ltb a b = false -> key_ltb b a = false -> a = b;
}.

(** [operator<] of [std::string]: lexicographic on unsigned bytes. *)
Fixpoint bytes_ltb (a b : bytes) : bool :=
  match a, b with
  | _, [] => false
  | [], _ :: _ => true
  | x :: a', y :: b' =>
    if byte_to_Z x <? byte_to_Z y then true
    else if byte_to_Z y <? byte_to_Z x then false
    else bytes_ltb a' b'
  end.

Section Ordered.
Context {K : Type} {KO : KeyOrder K}.

(** Equivalence of keys under the order, which is what [std::map] compares. *)
Definition key_eqb (a b : K) : bool := negb (key_ltb a b) && negb (key_ltb b a).

Section Map.
Context {V : Type}.

(** [map.find(k)] *)
Fixpoint om_find (k : K) (m : list (K * V)) : option V :=
  match m with
  | [] => None
  | (k', v) :: m' => if key_eqb k k' then Some v else om_find k m'
  end.

(** [map[k] = v]: inserts or overwrites. *)
Fixpoint om_insert (k : K) (v : V) (m : list (K * V)) : list (K * V) :=
  match m with
  | [] => [(k, v)]
  | (k', v') :: m' =>
    if key_ltb k k' then (k, v) :: m
    else if key_ltb k' k then (k', v') :: om_insert k v m'
    else (k, v) :: m'
  end.

(** [map.emplace(k, v)]: [None] when the key is already present. *)
Definition om_emplace (k : K) (v : V) (m : list (K * V)) : option (list (K * V)) :=
  match om_find k m with
  | Some _ => None
  | None => Some (om_insert k v m)
  end.

(** [map.erase(k)] *)
Fixpoint om_erase (k : K) (m : list (K * V)) : list (K * V) :=
  match m with
  | [] => []
  | (k', v') :: m' => if key_eqb k k' then m' else (k', v') :: om_erase k m'
  end.

(** The representation invariant: keys strictly increase. *)
Fixpoint om_sorted (m : list (K * V)) : bool :=
  match m with
  | [] => true
  | (k, _) :: m' => forallb (fun p => key_ltb k p.1) m' && om_sorted m'
  end.

End Map.

(** [set.insert(k)] of a [std::set]. *)
Fixpoint os_insert (k : K) (s : list K) : list K :=
  match s with
  | [] => [k]
  | k' :: s' =>
    if key_ltb k k' then k :: s
    else if key_ltb k' k then k' :: os_insert k s'
    else k :: s'
  end.

Fixpoint os_sorted (s : list K) : bool :=
  match s with
  | [] => true
  | k :: s' => forallb (key_ltb k) s' && os_sorted s'
  end.

(** Every key of [ks] inserted into the set [s]. *)
Definition os_insert_all (ks : list K) (s : list K) : list K :=
  foldl (fun acc k => os_insert k acc) s ks.

(** ** Facts on keys *)

Lemma key_eqb_eq a b : key_eqb a b = true <-> a = b.
Proof.
  unfold key_eqb. split.
  - intros H. bool_hyps. by apply key_ltb_total.
  - intros ->. by rewrite key_ltb_irrefl.
Qed.

Lemma key_eqb_refl a : key_eqb a a = true.
Proof. by apply key_eqb_eq. Qed.

Lemma key_eqb_neq a b : key_eqb a b = false <-> a <> b.
Proof. rewrite <- key_eqb_eq. by destruct (key_eqb a b). Qed.

Lemma key_ltb_neq a b : key_ltb a b = true -> a <> b.
Proof. intros H ->. by rewrite key_ltb_irrefl in H. Qed.

Lemma key_ltb_asym a b : key_ltb a b = true -> key_ltb b a = false.
Proof.
  intros H. destruct (key_ltb b a) eqn:E; [|done].
  pose proof (key_ltb_trans _ _ _ H E) as C. by rewrite key_ltb_irrefl in C.
Qed.

Lemma key_eqb_ltb a b : key_ltb a b = true -> key_eqb a b = false.
Proof. intros H. apply key_eqb_neq. by apply key_ltb_neq. Qed.

Lemma key_eqb_gtb a b : key_ltb b a = true -> key_eqb a b = false.
Proof. intros H. apply key_eqb_neq. intros ->. by rewrite key_ltb_irrefl in H. Qed.

(** ** Facts on maps *)

Section MapFacts.
Context {V : Type}.
Implicit Types m : list (K * V).

Lemma om_sorted_cons k v m :
  om_sorted ((k, v) :: m) = true <->
  Forall (fun p => key_ltb k p.1 = true) m /\ om_sorted m = true.
Proof.
  simpl. rewrite andb_true_iff, forallb_forall, Forall_forall.
  setoid_rewrite <- list_elem_of_In. done.
Qed.

Lemma om_find_insert_eq k v m : om_find k (om_insert k v m) = Some v.
Proof.
  induction m as [|[k' v'] m IH]; simpl; [by rewrite key_eqb_refl|].
  destruct (key_ltb k k') eqn:E1; simpl; [by rewrite key_eqb_refl|].
  destruct (key_ltb k' k) eqn:E2; simpl; [|by rewrite key_eqb_refl].
  by rewrite (key_eqb_gtb _ _ E2).
Qed.

Lemma om_find_insert_ne k k0 v m : k0 <> k -> om_find k0 (om_insert k v m) = om_find k0 m.
Proof.
  intros Hne. induction m as [|[k' v'] m IH]; simpl.
  - by rewrite (proj2 (key_eqb_neq _ _) Hne).
  - destruct (key_ltb k k') eqn:E1; simpl.
    + by rewrite (proj2 (key_eqb_neq _ _) Hne).
    + destruct (key_ltb k' k) eqn:E2; simpl; [by rewrite IH|].
      rewrite <- (key_ltb_total _ _ E1 E2), (proj2 (key_eqb_neq _ _) Hne). done.
Qed.

Lemma om_insert_Forall (P : K * V -> Prop) k v m :
  P (k, v) -> Forall P m -> Forall P (om_insert k v m).
Proof.
  intros Hp. induction 1 as [|[k' v'] m Hx Hm IH]; simpl; [by constructor|].
  destruct (key_ltb k k'); [by repeat constructor|].
  destruct (key_ltb k' k); by constructor.
Qed.

Lemma om_sorted_insert k v m : om_sorted m = true -> om_sorted (om_insert k v m) = true.
Proof.
  induction m as [|[k' v'] m IH]; intros H; [done|].
  apply om_sorted_cons in H as [Hf Hs]. simpl.
  destruct (key_ltb k k') eqn:E1.
  - apply om_sorted_cons. split; [|by apply om_sorted_cons].
    constructor; [done|]. eapply Forall_impl; [exact Hf|].
    intros [k1 v1] H1. simpl in *. by eapply key_ltb_trans.
  - destruct (key_ltb k' k) eqn:E2; apply om_sorted_cons.
    + split; [by apply om_insert_Forall|by apply IH].
    + by rewrite (key_ltb_total _ _ E1 E2).
Qed.

Lemma om_find_Some_in k v m : om_find k m = Some v -> (k, v) ∈ m.
Proof.
  induction m as [|[k' v'] m IH]; simpl; [done|].
  destruct (key_eqb k k') eqn:E.
  - apply key_eqb_eq in E as ->. intros [= ->]. left.
  - intros H. right. by apply IH.
Qed.

Lemma om_find_in k v m : om_sorted m = true -> (k, v) ∈ m -> om_find k m = Some v.
Proof.
  induction m as [|[k' v'] m IH]; intros Hs Hin; [by apply elem_of_nil in Hin|].
  apply om_sorted_cons in Hs as [Hf Hs]. simpl.
  apply elem_of_cons in Hin as [Heq|Hin].
  - injection Heq as <- <-. by rewrite key_eqb_refl.
  - rewrite Forall_forall in Hf. specialize (Hf _ Hin). simpl in Hf.
    rewrite (key_eqb_gtb _ _ Hf). by apply IH.
Qed.

Lemma om_find_below k m :
  Forall (fun p => key_ltb k p.1 = true) m -> om_find k m = None.
Proof.
  induction 1 as [|[k' v'] m Hx Hm IH]; simpl; [done|].
  simpl in Hx. by rewrite (key_eqb_ltb _ _ Hx).
Qed.

Lemma om_find_above k m :
  Forall (fun p => key_ltb p.1 k = true) m -> om_find k m = None.
Proof.
  induction 1 as [|[k' v'] m Hx Hm IH]; simpl; [done|].
  simpl in Hx. by rewrite (key_eqb_gtb _ _ Hx).
Qed.

Lemma om_find_None_keys k m : om_find k m = None <-> k ∉ m.*1.
Proof.
  induction m as [|[k' v'] m IH]; simpl; [by split; [set_solver|]|].
  destruct (key_eqb k k') eqn:E.
  - apply key_eqb_eq in E as ->. split; [done|set_solver].
  - apply key_eqb_neq in E. rewrite IH. set_solver.
Qed.

Lemma om_find_is_Some_keys k m : is_Some (om_find k m) <-> k ∈ m.*1.
Proof.
  destruct (om_find k m) as [v|] eqn:E.
  - split; [|done]. intros _. apply om_find_Some_in in E.
    apply list_elem_of_fmap. by exists (k, v).
  - split; [by intros [? ?]|]. intros H. by apply om_find_None_keys in E.
Qed.

(** Inserting a key above every present key appends it: what decoding a map
    written in key order does. *)
Lemma om_insert_snoc k v m :
  Forall (fun p => key_ltb p.1 k = true) m -> om_insert k v m = m ++ [(k, v)].
Proof.
  induction 1 as [|[k' v'] m Hx Hm IH]; simpl; [done|]. simpl in Hx.
  by rewrite (key_ltb_asym _ _ Hx), Hx, IH.
Qed.

Lemma om_sorted_app m1 m2 :
  om_sorted (m1 ++ m2) = true ->
  om_sorted m1 = true /\ om_sorted m2 = true /\
  Forall (fun p => Forall (fun q => key_ltb p.1 q.1 = true) m2) m1.
Proof.
  induction m1 as [|[k v] m1 IH]; [by intros; simpl|].
  intros H. simpl app in H. apply om_sorted_cons in H as [Hf Hs].
  apply Forall_app in Hf as [Hf1 Hf2]. destruct (IH Hs) as (H1 & H2 & H3).
  split; [by apply om_sorted_cons|]. split; [done|]. by constructor.
Qed.

Lemma om_sorted_snoc_lt m1 k v m2 :
  om_sorted (m1 ++ (k, v) :: m2) = true ->
  Forall (fun p => key_ltb p.1 k = true) m1.
Proof.
  intros H. apply om_sorted_app in H as (_ & _ & H).
  eapply Forall_impl; [exact H|]. simpl. intros p Hp. by apply Forall_cons in Hp as [? _].
Qed.

Lemma om_erase_Forall (P : K * V -> Prop) k m : Forall P m -> Forall P (om_erase k m).
Proof.
  induction 1 as [|[k' v'] m Hx Hm IH]; simpl; [done|].
  destruct (key_eqb k k'); [done|]. by constructor.
Qed.

Lemma om_sorted_erase k m : om_sorted m = true -> om_sorted (om_erase k m) = true.
Proof.
  induction m as [|[k' v'] m IH]; intros H; [done|].
  apply om_sorted_cons in H as [Hf Hs]. simpl.
  destruct (key_eqb k k'); [done|]. apply om_sorted_cons.
  split; [by apply om_erase_Forall|by apply IH].
Qed.

Lemma om_find_erase_eq k m : om_sorted m = true -> om_find k (om_erase k m) = None.
Proof.
  induction m as [|[k' v'] m IH]; intros H; [done|].
  apply om_sorted_cons in H as [Hf Hs]. simpl.
  destruct (key_eqb k k') eqn:E.
  - apply key_eqb_eq in E as ->. by apply om_find_below.
  - simpl. rewrite E. by apply IH.
Qed.

Lemma om_find_erase_ne k k0 m : k0 <> k -> om_find k0 (om_erase k m) = om_find k0 m.
Proof.
  intros Hne. induction m as [|[k' v'] m IH]; [done|]. simpl.
  destruct (key_eqb k k') eqn:E; simpl.
  - apply key_eqb_eq in E as ->. by rewrite (proj2 (key_eqb_neq _ _) Hne).
  - by rewrite IH.
Qed.

(** Extensionality: a sorted map is determined by its lookups. *)
Lemma om_ext m1 m2 :
  om_sorted m1 = true -> om_sorted m2 = true ->
  (forall k, om_find k m1 = om_find k m2) -> m1 = m2.
Proof.
  revert m2. induction m1 as [|[k1 v1] m1 IH]; intros [|[k2 v2] m2] H1 H2 Hf; [done| | |].
  - specialize (Hf k2). simpl in Hf. by rewrite key_eqb_refl in Hf.
  - specialize (Hf k1). simpl in Hf. by rewrite key_eqb_refl in Hf.
  - apply om_sorted_cons in H1 as [F1 S1]. apply om_sorted_cons in H2 as [F2 S2].
    assert (k1 = k2) as ->.
    { apply key_ltb_total.
      - destruct (key_ltb k1 k2) eqn:E; [|done]. specialize (Hf k1). simpl in Hf.
        rewrite key_eqb_refl, (key_eqb_ltb _ _ E), om_find_below in Hf; [done|].
        eapply Forall_impl; [exact F2|]. intros [] ?. by eapply key_ltb_trans.
      - destruct (key_ltb k2 k1) eqn:E; [|done]. specialize (Hf k2). simpl in Hf.
        rewrite key_eqb_refl, (key_eqb_ltb _ _ E), om_find_below in Hf; [done|].
        eapply Forall_impl; [exact F1|]. intros [] ?. by eapply key_ltb_trans. }
    pose proof (Hf k2) as Hk. simpl in Hk. rewrite key_eqb_refl in Hk.
    injection Hk as ->. f_equal. apply IH; [done|done|]. intros k.
    destruct (key_eqb k k2) eqn:E.
    + apply key_eqb_eq in E as ->. by rewrite !om_find_below.
    + specialize (Hf k). simpl in Hf. by rewrite E in Hf.
Qed.

Lemma om_length_insert_new k v m :
  om_find k m = None -> length (om_insert k v m) = S (length m).
Proof.
  induction m as [|[k' v'] m IH]; simpl; [done|].
  destruct (key_eqb k k') eqn:E; [done|]. intros H.
  destruct (key_ltb k k') eqn:E1; [done|].
  destruct (key_ltb k' k) eqn:E2; simpl; [by rewrite IH|].
  by rewrite (key_ltb_total _ _ E1 E2), key_eqb_refl in E.
Qed.

Lemma om_length_insert_old k v m :
  om_sorted m = true -> is_Some (om_find k m) -> length (om_insert k v m) = length m.
Proof.
  induction m as [|[k' v'] m IH]; simpl; [by intros _ [? ?]|].
  intros Hs Hf. apply andb_true_iff in Hs as [Hall Hs].
  destruct (key_ltb k k') eqn:E1.
  - rewrite (key_eqb_ltb _ _ E1), om_find_below in Hf; [by destruct Hf|].
    apply Forall_forall. intros p Hp. eapply key_ltb_trans; [exact E1|].
    rewrite forallb_forall in Hall. apply Hall. by apply list_elem_of_In.
  - destruct (key_ltb k' k) eqn:E2; simpl; [|done].
    rewrite (key_eqb_gtb _ _ E2) in Hf. by rewrite IH.
Qed.

End MapFacts.

(** ** Facts on sets *)

Implicit Types s : list K.

Lemma os_sorted_cons k s :
  os_sorted (k :: s) = true <-> Forall (fun k' => key_ltb k k' = true) s /\ os_sorted s = true.
Proof.
  simpl. rewrite andb_true_iff, forallb_forall, Forall_forall.
  setoid_rewrite <- list_elem_of_In. done.
Qed.

Lemma os_elem_insert k k0 s : k0 ∈ os_insert k s <-> k0 = k \/ k0 ∈ s.
Proof.
  induction s as [|k' s IH]; simpl; [set_solver|].
  destruct (key_ltb k k') eqn:E1; [set_solver|].
  destruct (key_ltb k' k) eqn:E2.
  - rewrite !elem_of_cons, IH. tauto.
  - rewrite (key_ltb_total _ _ E1 E2). set_solver.
Qed.

Lemma os_sorted_insert k s : os_sorted s = true -> os_sorted (os_insert k s) = true.
Proof.
  induction s as [|k' s IH]; intros H; [done|].
  apply os_sorted_cons in H as [Hf Hs]. simpl.
  destruct (key_ltb k k') eqn:E1.
  - apply os_sorted_cons. split; [|by apply os_sorted_cons].
    constructor; [done|]. eapply Forall_impl; [exact Hf|].
    intros k1 H1. by eapply key_ltb_trans.
  - destruct (key_ltb k' k) eqn:E2; apply os_sorted_cons.
    + split; [|by apply IH]. apply Forall_forall. intros x Hx.
      apply os_elem_insert in Hx as [->|Hx]; [done|].
      rewrite Forall_forall in Hf. by apply Hf.
    + by rewrite (key_ltb_total _ _ E1 E2).
Qed.

Lemma os_elem_insert_all k ks s : k ∈ os_insert_all ks s <-> k ∈ ks \/ k ∈ s.
Proof.
  revert s. induction ks as [|k' ks IH]; intros s; simpl; [set_solver|].
  unfold os_insert_all in *. simpl. rewrite IH, os_elem_insert. set_solver.
Qed.

Lemma os_sorted_insert_all ks s : os_sorted s = true -> os_sorted (os_insert_all ks s) = true.
Proof.
  revert s. induction ks as [|k' ks IH]; intros s H; [done|].
  unfold os_insert_all in *. simpl. apply IH. by apply os_sorted_insert.
Qed.

Lemma os_sorted_keys {V} (m : list (K * V)) : os_sorted m.*1 = om_sorted m.
Proof.
  induction m as [|[k v] m IH]; [done|].
  rewrite fmap_cons. cbn [os_sorted om_sorted fst]. rewrite IH. f_equal.
  clear IH. induction m as [|[k' v'] m IH']; [done|].
  rewrite fmap_cons. cbn [forallb fst]. by rewrite IH'.
Qed.

(** A sorted set is determined by its members. *)
Lemma os_ext s1 s2 :
  os_sorted s1 = true -> os_sorted s2 = true ->
  (forall k, k ∈ s1 <-> k ∈ s2) -> s1 = s2.
Proof.
  intros H1 H2 H.
  assert (forall s, om_sorted ((fun k => (k, tt)) <$> s) = os_sorted s) as Hs.
  { intros s. rewrite <- os_sorted_keys. f_equal.
    rewrite <- list_fmap_compose. by rewrite list_fmap_id. }
  assert (((fun k => (k, tt)) <$> s1) = ((fun k => (k, tt)) <$> s2)) as Heq.
  { apply om_ext; [by rewrite Hs|by rewrite Hs|]. intros k.
    assert (forall s, ((fun k => (k, tt)) <$> s).*1 = s) as Hk.
    { intros s. rewrite <- list_fmap_compose. by rewrite list_fmap_id. }
    destruct (om_find k ((fun k => (k, tt)) <$> s1)) as [[]|] eqn:E1;
      destruct (om_find k ((fun k => (k, tt)) <$> s2)) as [[]|] eqn:E2; try done.
    - apply om_find_None_keys in E2. rewrite Hk in E2.
      destruct E2. apply H. rewrite <- (Hk s1). apply om_find_is_Some_keys. by rewrite E1.
    - apply om_find_None_keys in E1. rewrite Hk in E1.
      destruct E1. apply H. rewrite <- (Hk s2). apply om_find_is_Some_keys. by rewrite E2. }
  apply (f_equal (fmap fst)) in Heq.
  rewrite <- !list_fmap_compose, !list_fmap_id in Heq. done.
Qed.

Lemma os_sorted_NoDup s : os_sorted s = true -> NoDup s.
Proof.
  induction s as [|k s IH]; intros H; [constructor|].
  apply os_sorted_cons in H as [Hf Hs]. constructor; [|by apply IH].
  intros Hin. rewrite Forall_forall in Hf. specialize (Hf _ Hin).
  by rewrite key_ltb_irrefl in Hf.
Qed.

(** ** The two-way merge loop

    [while (left != l.end() || right != r.end())] with the three branches
    "only left", "only right" and "both", as the classifier writes it twice. *)

Section MergeKeys.
Context {A C : Type}.

(** The visited keys: the union of both key sets, in order. *)
Definition merge_keys (l : list (K * A)) (r : list (K * C)) : list K :=
  os_insert_all (l.*1 ++ r.*1) [].

Lemma merge_keys_sorted l r : os_sorted (merge_keys l r) = true.
Proof. by apply os_sorted_insert_all. Qed.

Lemma elem_merge_keys k l r : k ∈ merge_keys l r <-> k ∈ l.*1 \/ k ∈ r.*1.
Proof. unfold merge_keys. rewrite os_elem_insert_all. set_solver. Qed.

(** The least key of the union comes first. *)
Lemma merge_keys_cons k l r l' r' :
  (forall k', k' ∈ merge_keys l r <-> k' = k \/ k' ∈ merge_keys l' r') ->
  (forall k', k' ∈ merge_keys l' r' -> key_ltb k k' = true) ->
  merge_keys l r = k :: merge_keys l' r'.
Proof.
  intros H Hlt. apply os_ext; [apply merge_keys_sorted| |].
  - apply os_sorted_cons. split; [|apply merge_keys_sorted]. by apply Forall_forall.
  - intros k'. rewrite H. by rewrite elem_of_cons.
Qed.

End MergeKeys.

Lemma keys_above {V} (k : K) (m : list (K * V)) :
  Forall (fun p => key_ltb k p.1 = true) m -> forall k', k' ∈ m.*1 -> key_ltb k k' = true.
Proof.
  intros H k' Hin. apply list_elem_of_fmap in Hin as ([k1 v1] & -> & Hin).
  rewrite Forall_forall in H. by apply (H _ Hin).
Qed.

Lemma om_find_tail {V} (k k' : K) v (m : list (K * V)) :
  key_ltb k k' = true -> om_find k' ((k, v) :: m) = om_find k' m.
Proof. intros H. simpl. by rewrite (key_eqb_gtb _ _ H). Qed.

Section Merge.
Context {A C S : Type}.
Variable on_left : K -> A -> S -> S.
Variable on_right : K -> C -> S -> S.
Variable on_both : K -> A -> C -> S -> S.

Fixpoint merge_walk (l : list (K * A)) : list (K * C) -> S -> S :=
  match l with
  | [] => fix right_only (r : list (K * C)) (s : S) : S :=
    match r with
    | [] => s
    | (kr, c) :: r' => right_only r' (on_right kr c s)
    end
  | (kl, a) :: l' => fix go (r : list (K * C)) (s : S) : S :=
    match r with
    | [] => merge_walk l' [] (on_left kl a s)
    | (kr, c) :: r' =>
      if key_ltb kl kr then merge_walk l' r (on_left kl a s)
      else if key_ltb kr kl then go r' (on_right kr c s)
      else merge_walk l' r' (on_both kl a c s)
    end
  end.

(** What one visit does, by lookup in the two maps. *)
Definition merge_visit (l : list (K * A)) (r : list (K * C)) (s : S) (k : K) : S :=
  match om_find k l, om_find k r with
  | Some a, Some c => on_both k a c s
  | Some a, None => on_left k a s
  | None, Some c => on_right k c s
  | None, None => s
  end.

(** One turn of the loop: the least key is visited and the rest is unchanged. *)
Lemma merge_turn k l r l' r' st :
  (forall k', k' ∈ l.*1 \/ k' ∈ r.*1 <-> k' = k \/ k' ∈ l'.*1 \/ k' ∈ r'.*1) ->
  (forall k', k' ∈ l'.*1 \/ k' ∈ r'.*1 -> key_ltb k k' = true) ->
  (forall k', key_ltb k k' = true -> om_find k' l = om_find k' l' /\ om_find k' r = om_find k' r') ->
  foldl (merge_visit l r) st (merge_keys l r) =
  foldl (merge_visit l' r') (merge_visit l r st k) (merge_keys l' r').
Proof.
  intros Hk Hlt Hfind. rewrite (merge_keys_cons k l r l' r').
  - cbn [foldl]. generalize (merge_visit l r st k).
    assert (forall k', k' ∈ merge_keys l' r' ->
            om_find k' l = om_find k' l' /\ om_find k' r = om_find k' r') as Hall.
    { intros k' H. apply Hfind, Hlt. by apply elem_merge_keys. }
    induction (merge_keys l' r') as [|k' ks IH]; intros st'; [done|].
    cbn [foldl]. destruct (Hall k') as [E1 E2]; [left|].
    rewrite IH by (intros; apply Hall; by right).
    unfold merge_visit at 2 4. by rewrite E1, E2.
  - intros k'. rewrite !elem_merge_keys. apply Hk.
  - intros k' H. apply Hlt. by apply elem_merge_keys.
Qed.

(** The loop equals a pass over the sorted union of the keys that decides each
    key by lookup: a reference that knows nothing of the merge. *)
Lemma merge_walk_reference l r st :
  om_sorted l = true -> om_sorted r = true ->
  merge_walk l r st = foldl (merge_visit l r) st (merge_keys l r).
Proof.
  revert r st. induction l as [|[kl a] l IHl]; intros r.
  - induction r as [|[kr c] r IHr]; intros st Hl Hr; [done|].
    apply om_sorted_cons in Hr as [Fr Hr]. cbn [merge_walk].
    rewrite (merge_turn kr [] ((kr, c) :: r) [] r).
    + unfold merge_visit at 2. simpl om_find. rewrite key_eqb_refl. by apply IHr.
    + intros k'. rewrite fmap_cons. set_solver.
    + intros k' [H|H]; [by apply elem_of_nil in H|(eapply keys_above; [|exact H]; done)].
    + intros k' H. split; [done|by apply om_find_tail].
  - induction r as [|[kr c] r IHr]; intros st Hl Hr;
      pose proof Hl as Hl0; pose proof Hr as Hr0; apply om_sorted_cons in Hl as [Fl Hl].
    + cbn [merge_walk]. rewrite (merge_turn kl ((kl, a) :: l) [] l []).
      * unfold merge_visit at 2. simpl om_find. rewrite key_eqb_refl. by apply IHl.
      * intros k'. rewrite fmap_cons. set_solver.
      * intros k' [H|H]; [(eapply keys_above; [|exact H]; done)|by apply elem_of_nil in H].
      * intros k' H. split; [by apply om_find_tail|done].
    + apply om_sorted_cons in Hr as [Fr Hr]. cbn [merge_walk].
      assert (forall k, key_ltb k kr = true ->
              Forall (fun p : K * C => key_ltb k p.1 = true) ((kr, c) :: r)) as Habove_r.
      { intros k H. constructor; [done|]. eapply Forall_impl; [exact Fr|].
        intros p Hp. by eapply key_ltb_trans. }
      assert (forall k, key_ltb k kl = true ->
              Forall (fun p : K * A => key_ltb k p.1 = true) ((kl, a) :: l)) as Habove_l.
      { intros k H. constructor; [done|]. eapply Forall_impl; [exact Fl|].
        intros p Hp. by eapply key_ltb_trans. }
      destruct (key_ltb kl kr) eqn:E1; [|destruct (key_ltb kr kl) eqn:E2].
      * rewrite (merge_turn kl ((kl, a) :: l) ((kr, c) :: r) l ((kr, c) :: r)).
        -- unfold merge_visit at 2. rewrite (om_find_below kl ((kr, c) :: r)) by auto.
           simpl om_find. rewrite key_eqb_refl. by apply IHl.
        -- intros k'. rewrite !fmap_cons. set_solver.
        -- intros k' [H|H]; (eapply keys_above; [|exact H]); eauto.
        -- intros k' H. split; [by apply om_find_tail|done].
      * rewrite (merge_turn kr ((kl, a) :: l) ((kr, c) :: r) ((kl, a) :: l) r).
        -- unfold merge_visit at 2. rewrite (om_find_below kr ((kl, a) :: l)) by auto.
           simpl om_find. rewrite key_eqb_refl. by apply IHr.
        -- intros k'. rewrite !fmap_cons. set_solver.
        -- intros k' [H|H]; (eapply keys_above; [|exact H]); eauto.
        -- intros k' H. split; [done|by apply om_find_tail].
      * pose proof (key_ltb_total _ _ E1 E2) as <-.
        rewrite (merge_turn kl ((kl, a) :: l) ((kl, c) :: r) l r).
        -- unfold merge_visit at 2. simpl om_find. rewrite key_eqb_refl. by apply IHl.
        -- intros k'. rewrite !fmap_cons. set_solver.
        -- intros k' [H|H]; (eapply keys_above; [|exact H]); eauto.
        -- intros k' H. split; by apply om_find_tail.
Qed.

End Merge.
End Ordered.

(** ** The key types of the code *)

Lemma bytes_ltb_irrefl a : bytes_ltb a a = false.
Proof. induction a as [|x a IH]; simpl; [done|]. by rewrite Z.ltb_irrefl. Qed.

Lemma bytes_ltb_trans a b c : bytes_ltb a b = true -> bytes_ltb b c = true -> bytes_ltb a c = true.
Proof.
  revert b c. induction a as [|x a IH]; intros [|y b] [|z c]; simpl; try done.
  destruct (Z.ltb_spec (byte_to_Z x) (byte_to_Z y)); destruct (Z.ltb_spec (byte_to_Z y) (byte_to_Z z));
    destruct (Z.ltb_spec (byte_to_Z x) (byte_to_Z z)); try lia; try done;
    destruct (Z.ltb_spec (byte_to_Z y) (byte_to_Z x)); destruct (Z.ltb_spec (byte_to_Z z) (byte_to_Z y));
    destruct (Z.ltb_spec (byte_to_Z z) (byte_to_Z x)); try lia; try done.
  apply IH.
Qed.

Lemma bytes_ltb_total a b : bytes_ltb a b = false -> bytes_ltb b a = false -> a = b.
Proof.
  revert b. induction a as [|x a IH]; intros [|y b]; simpl; try done.
  destruct (Z.ltb_spec (byte_to_Z x) (byte_to_Z y)); [done|].
  destruct (Z.ltb_spec (byte_to_Z y) (byte_to_Z x)); [done|].
  intros H1 H2. f_equal; [apply byte_to_Z_inj; lia|by apply IH].
Qed.

#[export] Instance bytes_key_order : KeyOrder bytes := {|
  key_ltb := bytes_ltb;
  key_ltb_irrefl := bytes_ltb_irrefl;
  key_ltb_trans := bytes_ltb_trans;
  key_ltb_total := bytes_ltb_total;
|}.

Lemma Z_ltb_trans a b c : (a <? b) = true -> (b <? c) = true -> (a <? c) = true.
Proof. lia. Qed.

Lemma Z_ltb_total a b : (a <? b) = false -> (b <? a) = false -> a = b.
Proof. lia. Qed.

(** [std::map<std::uint64_t, ...>] *)
#[export] Instance Z_key_order : KeyOrder Z := {|
  key_ltb := Z.ltb;
  key_ltb_irrefl := Z.ltb_irrefl;
  key_ltb_trans := Z_ltb_trans;
  key_ltb_total := Z_ltb_total;
|}.
