(* ===== verification/Hash.v ===== *)
(** * Integrity digests: [src/hash.cpp]

    The streaming SHA-256 the runtime uses as a corruption detector, with the
    hexadecimal renderings of a digest and the FNV-1a mix. Words are integers
    kept below 2^32 by an explicit wrap. The 64-byte block buffer of the class
    is modelled by the bytes it currently holds, so [buffered_] is its length.
    The theorems show that streaming in any chunks computes the digest of the
    concatenation as the padded-message definition gives it, that the padding
    loop of [Final] terminates, and that hexadecimal parsing inverts
    rendering. *)

From Stdlib Require Import ZArith Lia.
From stdpp Require Import prelude.
From S2P Require Import Prelude.
Local Open Scope Z_scope.

(** ** The compression function *)

(** Models [kRoundConstants], src/hash.cpp:12-22, row by row as the table is laid out. *)
Definition kRoundConstants : list Z :=
  concat
   [[0x428a2f98; 0x71374491; 0xb5c0fbcf; 0xe9b5dba5; 0x3956c25b; 0x59f111f1; 0x923f82a4];
    [0xab1c5ed5; 0xd807aa98; 0x12835b01; 0x243185be; 0x550c7dc3; 0x72be5d74; 0x80deb1fe];
    [0x9bdc06a7; 0xc19bf174; 0xe49b69c1; 0xefbe4786; 0x0fc19dc6; 0x240ca1cc; 0x2de92c6f];
    [0x4a7484aa; 0x5cb0a9dc; 0x76f988da; 0x983e5152; 0xa831c66d; 0xb00327c8; 0xbf597fc7];
    [0xc6e00bf3; 0xd5a79147; 0x06ca6351; 0x14292967; 0x27b70a85; 0x2e1b2138; 0x4d2c6dfc];
    [0x53380d13; 0x650a7354; 0x766a0abb; 0x81c2c92e; 0x92722c85; 0xa2bfe8a1; 0xa81a664b];
    [0xc24b8b70; 0xc76c51a3; 0xd192e819; 0xd6990624; 0xf40e3585; 0x106aa070; 0x19a4c116];
    [0x1e376c08; 0x2748774c; 0x34b0bcb5; 0x391c0cb3; 0x4ed8aa4a; 0x5b9cca4f; 0x682e6ff3];
    [0x748f82ee; 0x78a5636f; 0x84c87814; 0x8cc70208; 0x90befffa; 0xa4506ceb; 0xbef9a3f7];
    [0xc67178f2]].

(** Unsigned 32-bit addition and complement. *)
Definition add32 (a b : Z) : Z := wrap 32 (a + b).
Definition not32 (a : Z) : Z := Z.lxor a 0xffffffff.

(** Models [RotateRight], src/hash.cpp:24-26. *)
Definition RotateRight (value bits : Z) : Z :=
  Z.lor (Z.shiftr value bits) (wrap 32 (Z.shiftl value (32 - bits))).

(** Models [Choose], src/hash.cpp:28-30. *)
Definition Choose (x y z : Z) : Z := Z.lxor (Z.land x y) (Z.land (not32 x) z).

(** Models [Majority], src/hash.cpp:32-34. *)
Definition Majority (x y z : Z) : Z :=
  Z.lxor (Z.lxor (Z.land x y) (Z.land x z)) (Z.land y z).

(** Models [BigSigma0], src/hash.cpp:36-38. *)
Definition BigSigma0 (x : Z) : Z :=
  Z.lxor (Z.lxor (RotateRight x 2) (RotateRight x 13)) (RotateRight x 22).

(** Models [BigSigma1], src/hash.cpp:40-42. *)
Definition BigSigma1 (x : Z) : Z :=
  Z.lxor (Z.lxor (RotateRight x 6) (RotateRight x 11)) (RotateRight x 25).

(** Models [SmallSigma0], src/hash.cpp:44-46. *)
Definition SmallSigma0 (x : Z) : Z :=
  Z.lxor (Z.lxor (RotateRight x 7) (RotateRight x 18)) (Z.shiftr x 3).

(** Models [SmallSigma1], src/hash.cpp:48-50. *)
Definition SmallSigma1 (x : Z) : Z :=
  Z.lxor (Z.lxor (RotateRight x 17) (RotateRight x 19)) (Z.shiftr x 10).

Definition block_byte (block : bytes) (i : nat) : Z := byte_to_Z (nth i block Byte.x00).

(** The big-endian word at byte [base] of a block. *)
Definition load_be32 (block : bytes) (base : nat) : Z :=
  Z.lor (Z.lor (Z.lor (Z.shiftl (block_byte block base) 24)
                      (Z.shiftl (block_byte block (base + 1)) 16))
               (Z.shiftl (block_byte block (base + 2)) 8))
        (block_byte block (base + 3)).

Definition word (l : list Z) (i : nat) : Z := nth i l 0.

(** One extension step of the message schedule at [index = length schedule]. *)
Definition schedule_next (schedule : list Z) : Z :=
  let index := length schedule in
  add32 (add32 (add32 (SmallSigma1 (word schedule (index - 2))) (word schedule (index - 7)))
               (SmallSigma0 (word schedule (index - 15))))
        (word schedule (index - 16)).

Fixpoint schedule_extend (n : nat) (schedule : list Z) : list Z :=
  match n with
  | O => schedule
  | S n' => schedule_extend n' (schedule ++ [schedule_next schedule])
  end.

(** The working variables [a]..[h] of one compression. *)
Record working := mkWorking {
  wa : Z; wb : Z; wc : Z; wd : Z; we : Z; wf : Z; wg : Z; wh : Z
}.

(** One round, with the round constant and the schedule word of its index. *)
Definition compress_round (v : working) (kw : Z * Z) : working :=
  let temp1 := add32 (add32 (add32 (add32 (wh v) (BigSigma1 (we v)))
                                   (Choose (we v) (wf v) (wg v))) (fst kw)) (snd kw) in
  let temp2 := add32 (BigSigma0 (wa v)) (Majority (wa v) (wb v) (wc v)) in
  mkWorking (add32 temp1 temp2) (wa v) (wb v) (wc v)
            (add32 (wd v) temp1) (we v) (wf v) (wg v).

(** Models [Sha256::Compress], src/hash.cpp:61-106. *)
Definition Compress (state : list Z) (block : bytes) : list Z :=
  let schedule :=
    schedule_extend 48 (map (fun index => load_be32 block (index * 4)) (seq 0 16)) in
  let v0 := mkWorking (word state 0) (word state 1) (word state 2) (word state 3)
                      (word state 4) (word state 5) (word state 6) (word state 7) in
  let v := fold_left compress_round (combine kRoundConstants schedule) v0 in
  [add32 (word state 0) (wa v); add32 (word state 1) (wb v);
   add32 (word state 2) (wc v); add32 (word state 3) (wd v);
   add32 (word state 4) (we v); add32 (word state 5) (wf v);
   add32 (word state 6) (wg v); add32 (word state 7) (wh v)].

(** ** The streaming hasher *)

(** Models [Sha256], include/summon/fabric_reconciliation/hash.hpp:30-48. *)
Record Sha256 := mkSha256 {
  state_ : list Z;
  bit_length_ : Z;
  buffer_ : bytes
}.

(** Models [Sha256::Sha256], src/hash.cpp:54-59. *)
Definition Sha256_init : Sha256 :=
  mkSha256 [0x6a09e667; 0xbb67ae85; 0x3c6ef372; 0xa54ff53a;
            0x510e527f; 0x9b05688c; 0x1f83d9ab; 0x5be0cd19] 0 [].

(** [while (size >= 64) { Compress(bytes); bytes += 64; size -= 64; }]; the
    fuel is the number of bytes, each turn consuming 64 of them. *)
Fixpoint absorb (fuel : nat) (state : list Z) (data : bytes) : list Z * bytes :=
  match fuel with
  | O => (state, data)
  | S fuel' =>
    if (64 <=? length data)%nat
    then absorb fuel' (Compress state (firstn 64 data)) (skipn 64 data)
    else (state, data)
  end.

(** The loop and the final [memcpy] of [Update], entered with an empty buffer. *)
Definition absorb_tail (h : Sha256) (data : bytes) : Sha256 :=
  let '(state, rest) := absorb (length data) (state_ h) data in
  mkSha256 state (bit_length_ h) (if (0 <? length rest)%nat then rest else buffer_ h).

(** Models [Sha256::Update], src/hash.cpp:108-145. *)
Definition Sha256_Update (h : Sha256) (data : bytes) : Sha256 :=
  let size := length data in
  if (size =? 0)%nat then h
  else
    let h1 := mkSha256 (state_ h) (wrap 64 (bit_length_ h + blen data * 8)) (buffer_ h) in
    let buffered := length (buffer_ h) in
    if (0 <? buffered)%nat then
      let need := (64 - buffered)%nat in
      let take := if (size <? need)%nat then size else need in
      let filled := buffer_ h ++ firstn take data in
      let h2 := if (length filled =? 64)%nat
                then mkSha256 (Compress (state_ h1) filled) (bit_length_ h1) []
                else mkSha256 (state_ h1) (bit_length_ h1) filled in
      if (take =? size)%nat then h2 else absorb_tail h2 (skipn take data)
    else absorb_tail h1 data.

(** [while (buffered_ != 56) Update(&zero, 1)]: [None] when the fuel runs out
    before the loop ends. *)
Fixpoint pad_zeros (fuel : nat) (h : Sha256) : option Sha256 :=
  match fuel with
  | O => None
  | S fuel' =>
    if (length (buffer_ h) =? 56)%nat then Some h
    else pad_zeros fuel' (Sha256_Update h [Byte.x00])
  end.

(** A word of the state or of the length, most significant byte first. *)
Definition be_bytes (n : nat) (z : Z) : bytes :=
  map (fun index => byte_of_Z (Z.shiftr z (8 * Z.of_nat (n - 1 - index)))) (seq 0 n).

Definition digest_of_state (state : list Z) : bytes :=
  concat (map (fun index => be_bytes 4 (word state index)) (seq 0 8)).

(** Models [Sha256::Final], src/hash.cpp:147-169. *)
Definition Sha256_Final (h : Sha256) : option bytes :=
  let total_bits := bit_length_ h in
  match pad_zeros 65 (Sha256_Update h [Byte.x80]) with
  | None => None
  | Some h' => Some (digest_of_state (state_ (Sha256_Update h' (be_bytes 8 total_bits))))
  end.

(** Models [Sha256Of], src/hash.cpp:171-179. The padding loop always ends
    ([pad_zeros_spec]), so the default is never taken. *)
Definition Sha256Of (data : bytes) : bytes :=
  match Sha256_Final (Sha256_Update Sha256_init data) with
  | Some digest => digest
  | None => []
  end.

(** Digest of several pieces fed one after the other, as the journal, the
    snapshot and the frame code hash a header prefix and then a payload. *)
Definition Sha256OfParts (parts : list bytes) : bytes :=
  match Sha256_Final (fold_left Sha256_Update parts Sha256_init) with
  | Some digest => digest
  | None => []
  end.

(** Models [kSha256Bytes], include/summon/fabric_reconciliation/hash.hpp:25-27. *)
Definition kSha256Bytes : nat := 32.

(** A value-initialised [Sha256Digest]. *)
Definition zero_digest : bytes := repeat Byte.x00 kSha256Bytes.

(** ** Hexadecimal *)

Definition kDigits : bytes := B "0123456789abcdef".

Definition hex_digit (nibble : Z) : byte := nth (Z.to_nat nibble) kDigits Byte.x00.

Definition hex_byte (b : byte) : bytes :=
  [hex_digit (Z.land (Z.shiftr (byte_to_Z b) 4) 0x0f); hex_digit (Z.land (byte_to_Z b) 0x0f)].

(** Models [ToHex], src/hash.cpp:181-191. *)
Definition ToHex (digest : bytes) : bytes := concat (map hex_byte digest).

(** The value of one hexadecimal character, upper or lower case. *)
Definition hex_nibble (character : byte) : option Z :=
  let c := byte_to_Z character in
  if (48 <=? c) && (c <=? 57) then Some (c - 48)
  else if (97 <=? c) && (c <=? 102) then Some (c - 97 + 10)
  else if (65 <=? c) && (c <=? 70) then Some (c - 65 + 10)
  else None.

Fixpoint parse_hex_pairs (text : bytes) : option bytes :=
  match text with
  | [] => Some []
  | c1 :: c2 :: rest =>
    match hex_nibble c1, hex_nibble c2, parse_hex_pairs rest with
    | Some n1, Some n2, Some tail => Some (byte_of_Z (Z.lor (Z.shiftl n1 4) n2) :: tail)
    | _, _, _ => None
    end
  | _ => None
  end.

(** Models [TryParseHexDigest], src/hash.cpp:193-218. *)
Definition TryParseHexDigest (text : bytes) : option bytes :=
  if (length text =? kSha256Bytes * 2)%nat then parse_hex_pairs text else None.

(** Models [Fnv1a64], src/hash.cpp:220-227. *)
Definition Fnv1a64 (text : bytes) : Z :=
  fold_left (fun hash c => wrap 64 (Z.lxor hash (byte_to_Z c) * 1099511628211))
            text 1469598103934665603.

(** ** The reference definition *)

(** The padded message: a one bit, zeros up to 56 modulo 64, the bit length. *)
Definition sha256_padding (len : Z) : bytes :=
  Byte.x80 :: repeat Byte.x00 (Z.to_nat ((55 - len) mod 64)) ++ be_bytes 8 (wrap 64 (len * 8)).

Fixpoint blocks_of (fuel : nat) (m : bytes) : list bytes :=
  match fuel with
  | O => []
  | S fuel' => match m with
    | [] => []
    | _ => firstn 64 m :: blocks_of fuel' (skipn 64 m)
    end
  end.

(** SHA-256 of a whole message: the compression of its padded blocks. *)
Definition sha256_reference (m : bytes) : bytes :=
  let padded := m ++ sha256_padding (blen m) in
  digest_of_state (fold_left Compress (blocks_of (length padded) padded) (state_ Sha256_init)).

(** ** Correctness of the streaming hasher *)

(** The two published test vectors of the standard. *)
Example sha256_empty :
  ToHex (Sha256Of []) = B "e3b0c44298fc1c149afbf4c8996fb92427ae41e4649b934ca495991b7852b855".
Proof. vm_compute. reflexivity. Qed.

Example sha256_abc :
  ToHex (Sha256Of (B "abc")) =
  B "ba7816bf8f01cfea414140de5dae2223b00361a396177a9cb410ff61f20015ad".
Proof. vm_compute. reflexivity. Qed.

Lemma absorb_enough fuel fuel' st m :
  (length m <= fuel)%nat -> (length m <= fuel')%nat -> absorb fuel st m = absorb fuel' st m.
Proof.
  revert fuel' st m. induction fuel as [|fuel IH]; intros fuel' st m H H'.
  - destruct m; simpl in H; [|lia]. destruct fuel'; reflexivity.
  - destruct fuel' as [|fuel'].
    + destruct m; simpl in H'; [reflexivity|lia].
    + cbn [absorb]. destruct (Nat.leb_spec 64 (length m)); [|done].
      apply IH; rewrite length_drop; lia.
Qed.

Lemma absorb_unfold st m :
  absorb (length m) st m =
  if (64 <=? length m)%nat
  then absorb (length (skipn 64 m)) (Compress st (firstn 64 m)) (skipn 64 m)
  else (st, m).
Proof.
  destruct m as [|b m]; [done|].
  cbn [length absorb]. destruct (Nat.leb_spec 64 (length (b :: m))) as [H|H].
  - replace (64 <=? S (length m))%nat with true by (symmetry; apply Nat.leb_le; exact H).
    apply absorb_enough; rewrite length_drop; simpl in *; lia.
  - by replace (64 <=? S (length m))%nat with false by (symmetry; apply Nat.leb_gt; exact H).
Qed.

(** Absorbing a concatenation absorbs the first part and carries its rest. *)
Lemma absorb_app st a b :
  absorb (length (a ++ b)) st (a ++ b) =
  let '(st', r) := absorb (length a) st a in absorb (length (r ++ b)) st' (r ++ b).
Proof.
  remember (length a) as n eqn:Hn. revert st a Hn.
  induction n as [n IH] using (well_founded_induction lt_wf). intros st a Hn. subst n.
  rewrite (absorb_unfold st a). destruct (Nat.leb_spec 64 (length a)) as [H|H]; [|done].
  rewrite (absorb_unfold st (a ++ b)).
  replace (64 <=? length (a ++ b))%nat with true
    by (symmetry; apply Nat.leb_le; rewrite length_app; lia).
  rewrite firstn_app, skipn_app.
  replace (64 - length a)%nat with 0%nat by lia.
  simpl firstn. simpl skipn. rewrite app_nil_r.
  apply (IH (length (skipn 64 a))); [rewrite length_drop; lia|done].
Qed.

Lemma absorb_rest_lt st m : (length (snd (absorb (length m) st m)) < 64)%nat.
Proof.
  remember (length m) as n eqn:Hn. revert st m Hn.
  induction n as [n IH] using (well_founded_induction lt_wf). intros st m Hn. subst n.
  rewrite absorb_unfold. destruct (Nat.leb_spec 64 (length m)); [|done].
  apply (IH (length (skipn 64 m))); [rewrite length_drop; lia|done].
Qed.

Lemma absorb_rest_length st m :
  length (snd (absorb (length m) st m)) = (length m mod 64)%nat.
Proof.
  remember (length m) as n eqn:Hn. revert st m Hn.
  induction n as [n IH] using (well_founded_induction lt_wf). intros st m Hn. subst n.
  rewrite absorb_unfold. destruct (Nat.leb_spec 64 (length m)) as [H|H].
  - rewrite (IH (length (skipn 64 m))) by (rewrite ?length_drop; lia || done).
    rewrite length_drop. replace (length m) with ((length m - 64) + 1 * 64)%nat at 2 by lia.
    by rewrite Nat.Div0.mod_add.
  - cbn [snd]. by rewrite Nat.mod_small.
Qed.

(** The hasher [h] has consumed exactly the message [m]. *)
Definition hashed (h : Sha256) (m : bytes) : Prop :=
  absorb (length m) (state_ Sha256_init) m = (state_ h, buffer_ h) /\
  bit_length_ h = wrap 64 (blen m * 8).

Lemma hashed_init : hashed Sha256_init [].
Proof. done. Qed.

Lemma hashed_buffered h m : hashed h m -> length (buffer_ h) = (length m mod 64)%nat.
Proof. intros [H _]. rewrite <- (absorb_rest_length (state_ Sha256_init) m), H. done. Qed.

Lemma wrap_add_l w a b : 0 <= w -> wrap w (wrap w a + b) = wrap w (a + b).
Proof. intros. unfold wrap. by rewrite Z.add_mod_idemp_l by (apply Z.pow_nonzero; lia). Qed.

Lemma absorb_tail_spec h data :
  buffer_ h = [] ->
  absorb (length data) (state_ h) data = (state_ (absorb_tail h data), buffer_ (absorb_tail h data)) /\
  bit_length_ (absorb_tail h data) = bit_length_ h.
Proof.
  intros Hb. unfold absorb_tail. destruct (absorb _ _ data) as [st r]. simpl.
  split; [|done]. rewrite Hb. by destruct r.
Qed.

Lemma hashed_update h m d : hashed h m -> hashed (Sha256_Update h d) (m ++ d).
Proof.
  intros Hh. pose proof (hashed_buffered _ _ Hh) as Hlen. destruct Hh as [Ha Hbits].
  pose proof (Nat.mod_upper_bound (length m) 64 ltac:(lia)) as Hlt.
  unfold Sha256_Update. destruct (Nat.eqb_spec (length d) 0) as [Hd|Hd].
  { apply nil_length_inv in Hd as ->. by rewrite app_nil_r. }
  assert (wrap 64 (bit_length_ h + blen d * 8) = wrap 64 (blen (m ++ d) * 8)) as Hbits'.
  { rewrite Hbits, wrap_add_l, blen_app by lia. f_equal. lia. }
  unfold hashed. rewrite absorb_app, Ha. cbn [bit_length_ state_ buffer_].
  destruct (Nat.ltb_spec 0 (length (buffer_ h))) as [Hb|Hb].
  2: { assert (buffer_ h = []) as Hnil by (apply nil_length_inv; lia).
       rewrite Hnil. rewrite app_nil_l.
       destruct (absorb_tail_spec
         (mkSha256 (state_ h) (wrap 64 (bit_length_ h + blen d * 8)) []) d eq_refl) as [E1 E2].
       cbn [state_ bit_length_] in E1, E2. rewrite E1, E2. done. }
  destruct (Nat.ltb_spec (length d) (64 - length (buffer_ h))) as [Hsmall|Hbig].
  - rewrite firstn_all, Nat.eqb_refl, absorb_unfold.
    replace (length (buffer_ h ++ d) =? 64)%nat with false
      by (symmetry; apply Nat.eqb_neq; rewrite length_app; lia).
    replace (64 <=? length (buffer_ h ++ d))%nat with false
      by (symmetry; apply Nat.leb_gt; rewrite length_app; lia).
    done.
  - set (need := (64 - length (buffer_ h))%nat) in *.
    assert (length (buffer_ h ++ firstn need d) = 64%nat) as H64.
    { rewrite length_app, length_take. lia. }
    rewrite H64, Nat.eqb_refl.
    assert (absorb (length (buffer_ h ++ d)) (state_ h) (buffer_ h ++ d) =
            absorb (length (skipn need d)) (Compress (state_ h) (buffer_ h ++ firstn need d))
                   (skipn need d)) as Hstep.
    { rewrite absorb_unfold.
      replace (64 <=? length (buffer_ h ++ d))%nat with true
        by (symmetry; apply Nat.leb_le; rewrite length_app; lia).
      rewrite firstn_app, skipn_app, (firstn_all2 (n := 64)), (skipn_all2 (n := 64)) by lia.
      done. }
    rewrite Hstep. destruct (Nat.eqb_spec need (length d)) as [He|He].
    + rewrite He, skipn_all. done.
    + destruct (absorb_tail_spec
        (mkSha256 (Compress (state_ h) (buffer_ h ++ firstn need d))
                  (wrap 64 (bit_length_ h + blen d * 8)) []) (skipn need d) eq_refl) as [E1 E2].
      cbn [state_ bit_length_] in E1, E2. rewrite E1, E2. done.
Qed.

Lemma hashed_updates parts h m :
  hashed h m -> hashed (fold_left Sha256_Update parts h) (m ++ concat parts).
Proof.
  revert h m. induction parts as [|p parts IH]; intros h m H; simpl; [by rewrite app_nil_r|].
  rewrite app_assoc. apply IH. by apply hashed_update.
Qed.

(** The padding loop of [Final] ends, within 64 turns, with 56 bytes buffered. *)
Lemma pad_zeros_spec k : forall fuel h m,
  hashed h m -> (k < 64)%nat -> ((length m + k) mod 64 = 56)%nat -> (k < fuel)%nat ->
  exists h', pad_zeros fuel h = Some h' /\ hashed h' (m ++ repeat Byte.x00 k).
Proof.
  induction k as [|k IH]; intros fuel h m Hh Hk Hmod Hfuel;
    (destruct fuel as [|fuel]; [lia|]); cbn [pad_zeros]; rewrite (hashed_buffered h m Hh).
  - rewrite Nat.add_0_r in Hmod. rewrite Hmod, Nat.eqb_refl.
    exists h. simpl. by rewrite app_nil_r.
  - replace (length m mod 64 =? 56)%nat with false by (symmetry; apply Nat.eqb_neq; dlia).
    destruct (IH fuel (Sha256_Update h [Byte.x00]) (m ++ [Byte.x00])) as (h' & E & Hh').
    + by apply hashed_update.
    + lia.
    + rewrite length_app. simpl length. dlia.
    + lia.
    + exists h'. split; [done|]. by rewrite <- app_assoc in Hh'.
Qed.

Lemma absorb_blocks st m :
  (length m mod 64 = 0)%nat ->
  absorb (length m) st m = (fold_left Compress (blocks_of (length m) m) st, []).
Proof.
  enough (forall fuel st m, (length m mod 64 = 0)%nat -> (length m <= fuel)%nat ->
    absorb (length m) st m = (fold_left Compress (blocks_of fuel m) st, [])) as H
    by (intros; by apply H).
  clear. induction fuel as [|fuel IH]; intros st m Hm Hf.
  - destruct m; simpl in Hf; [done|lia].
  - destruct m as [|b m]; [done|]. rewrite absorb_unfold.
    destruct (Nat.leb_spec 64 (length (b :: m))) as [H|H].
    + cbn [blocks_of fold_left]. apply IH; rewrite length_drop; dlia.
    + rewrite Nat.mod_small in Hm by done. simpl in Hm. lia.
Qed.

Lemma length_be_bytes n z : length (be_bytes n z) = n.
Proof. unfold be_bytes. by rewrite length_map, length_seq. Qed.

(** [Final] returns the reference digest of everything that was consumed. *)
Lemma Sha256_Final_hashed h m :
  hashed h m -> Sha256_Final h = Some (sha256_reference m).
Proof.
  intros Hh. pose proof (hashed_update _ _ [Byte.x80] Hh) as H1.
  set (k := Z.to_nat ((55 - blen m) mod 64)).
  assert (Z.of_nat k = (55 - blen m) mod 64) as Hk.
  { unfold k. rewrite Z2Nat.id; [done|]. apply Z.mod_pos_bound. lia. }
  destruct (pad_zeros_spec k 65 _ _ H1) as (h' & E & Hh').
  - pose proof (Z.mod_pos_bound (55 - blen m) 64 ltac:(lia)). lia.
  - rewrite length_app. simpl length. unfold blen in Hk. dlia.
  - pose proof (Z.mod_pos_bound (55 - blen m) 64 ltac:(lia)). lia.
  - unfold Sha256_Final. rewrite E. do 2 f_equal.
    pose proof (hashed_update _ _ (be_bytes 8 (bit_length_ h)) Hh') as [H2 _].
    destruct Hh as [_ Hbits]. rewrite Hbits in *.
    assert ((((m ++ [Byte.x80]) ++ repeat Byte.x00 k) ++ be_bytes 8 (wrap 64 (blen m * 8)))
            = m ++ sha256_padding (blen m)) as Hpad.
    { unfold sha256_padding. fold k. by rewrite <- !app_assoc. }
    rewrite Hpad in H2. rewrite absorb_blocks in H2.
    + by injection H2 as <- _.
    + rewrite <- Hpad, !length_app, length_be_bytes, repeat_length. simpl length.
      unfold blen in Hk. dlia.
Qed.

(** Hashing several pieces in sequence hashes their concatenation. *)
Lemma Sha256OfParts_concat parts : Sha256OfParts parts = sha256_reference (concat parts).
Proof.
  unfold Sha256OfParts.
  by rewrite (Sha256_Final_hashed _ _ (hashed_updates parts _ _ hashed_init)).
Qed.

Lemma Sha256Of_reference data : Sha256Of data = sha256_reference data.
Proof.
  unfold Sha256Of. rewrite (Sha256_Final_hashed _ data); [done|].
  by apply (hashed_update _ []), hashed_init.
Qed.

Lemma length_digest_of_state st : length (digest_of_state st) = kSha256Bytes.
Proof. done. Qed.

Lemma length_Sha256Of data : length (Sha256Of data) = kSha256Bytes.
Proof. rewrite Sha256Of_reference. apply length_digest_of_state. Qed.

Lemma length_Sha256OfParts parts : length (Sha256OfParts parts) = kSha256Bytes.
Proof. rewrite Sha256OfParts_concat. apply length_digest_of_state. Qed.

#[export] Hint Resolve length_Sha256Of length_Sha256OfParts : fr.

(** ** Hexadecimal *)

Lemma hex_nibble_digit b :
  hex_nibble (nth 0 (hex_byte b) Byte.x00) = Some (Z.land (Z.shiftr (byte_to_Z b) 4) 0x0f) /\
  hex_nibble (nth 1 (hex_byte b) Byte.x00) = Some (Z.land (byte_to_Z b) 0x0f) /\
  byte_of_Z (Z.lor (Z.shiftl (Z.land (Z.shiftr (byte_to_Z b) 4) 0x0f) 4)
                   (Z.land (byte_to_Z b) 0x0f)) = b.
Proof. destruct b; vm_compute; done. Qed.

Lemma parse_hex_pairs_ToHex digest : parse_hex_pairs (ToHex digest) = Some digest.
Proof.
  induction digest as [|b digest IH]; [done|].
  destruct (hex_nibble_digit b) as (H1 & H2 & H3).
  unfold ToHex in *. cbn [map concat app]. unfold hex_byte in *. cbn [nth app parse_hex_pairs] in *.
  rewrite H1, H2, IH, H3. done.
Qed.

Lemma length_ToHex digest : length (ToHex digest) = (2 * length digest)%nat.
Proof. induction digest as [|b d IH]; [done|]. unfold ToHex in *. simpl in *. lia. Qed.

Lemma parse_hex_pairs_length text digest :
  parse_hex_pairs text = Some digest -> length text = (2 * length digest)%nat.
Proof.
  enough (forall n text digest, (length text <= n)%nat ->
          parse_hex_pairs text = Some digest -> length text = (2 * length digest)%nat) as H
    by (intros; by eapply H).
  clear. induction n as [|n IH]; intros [|c1 [|c2 text]] digest Hn H; simpl in *; try lia; try done;
    try (by injection H as <-).
  destruct (hex_nibble c1), (hex_nibble c2), (parse_hex_pairs text) eqn:E; try done.
  injection H as <-. apply IH in E; simpl in *; lia.
Qed.


(** Every digest is printed as hexadecimal text that parses back to the same digest. *)
Theorem hex_roundtrip digest :
  length digest = kSha256Bytes -> TryParseHexDigest (ToHex digest) = Some digest.
Proof.
  intros H. unfold TryParseHexDigest. rewrite length_ToHex, H.
  apply parse_hex_pairs_ToHex.
Qed.

Lemma hex_roundtrip_witness :
  TryParseHexDigest (ToHex (repeat Byte.xa5 32)) = Some (repeat Byte.xa5 32).
Proof. apply (hex_roundtrip (repeat Byte.xa5 32)). reflexivity. Defined.
