(* ===== verification/Status.v ===== *)
(** * Outcome vocabulary and limits: [src/status.cpp], [status.hpp], [limits.hpp]

    [StatusCode] and [EvidenceClass] are contiguous enumerations and become
    inductive types. [ReasonCode] is a sparse 16-bit enumeration whose decoders
    accept every value up to the last enumerator, named or not, so it is kept
    as its numeric value with one constant per enumerator. [Result] is the
    fallible return type of the engine: a value, or the status that explains
    why there is none. *)

From Stdlib Require Import ZArith Lia.
From stdpp Require Import prelude.
From S2P Require Import Prelude.
Local Open Scope Z_scope.

(** Models [StatusCode], include/summon/fabric_reconciliation/status.hpp:24-47. *)
Inductive StatusCode :=
| SC_Ok
| SC_Rejected
| SC_ConflictState
| SC_NotFound
| SC_StaleAuthority
| SC_LimitExceeded
| SC_IntegrityFailure
| SC_Unsupported
| SC_Indeterminate
| SC_PreconditionFailed
| SC_InternalError.

#[export] Instance StatusCode_eq : EqDecision StatusCode.
Proof. solve_decision. Defined.

(** The numeric value of a status code. *)
Definition StatusCode_to_Z (c : StatusCode) : Z :=
  match c with
  | SC_Ok => 0 | SC_Rejected => 1 | SC_ConflictState => 2 | SC_NotFound => 3
  | SC_StaleAuthority => 4 | SC_LimitExceeded => 5 | SC_IntegrityFailure => 6
  | SC_Unsupported => 7 | SC_Indeterminate => 8 | SC_PreconditionFailed => 9
  | SC_InternalError => 10
  end.

(** Models [ToText], src/status.cpp:11-26. *)
Definition StatusCode_ToText (c : StatusCode) : bytes :=
  match c with
  | SC_Ok => B "OK"
  | SC_Rejected => B "REJECTED"
  | SC_ConflictState => B "CONFLICT"
  | SC_NotFound => B "NOT_FOUND"
  | SC_StaleAuthority => B "STALE_AUTHORITY"
  | SC_LimitExceeded => B "LIMIT_EXCEEDED"
  | SC_IntegrityFailure => B "INTEGRITY_FAILURE"
  | SC_Unsupported => B "UNSUPPORTED"
  | SC_Indeterminate => B "INDETERMINATE"
  | SC_PreconditionFailed => B "PRECONDITION_FAILED"
  | SC_InternalError => B "INTERNAL_ERROR"
  end.

(** ** Reason codes *)

Definition RC_None : Z := 0.
Definition RC_ClassifiedAlreadyConverged : Z := 100.
Definition RC_ClassifiedSubjectMissing : Z := 101.
Definition RC_ClassifiedSubjectUnexpected : Z := 102.
Definition RC_ClassifiedAttributeMismatch : Z := 103.
Definition RC_ClassifiedAttributeMissing : Z := 104.
Definition RC_ClassifiedAttributeUnexpected : Z := 105.
Definition RC_ClassifiedAttributeNotComparable : Z := 106.
Definition RC_ObservationExpired : Z := 200.
Definition RC_ObservationForeignEpoch : Z := 201.
Definition RC_ObservationClockRegression : Z := 202.
Definition RC_ObservationGenerationRegressed : Z := 203.
Definition RC_IntentGenerationRegressed : Z := 204.
Definition RC_DuplicateObservationIdentical : Z := 205.
Definition RC_DuplicateIntentIdentical : Z := 206.
Definition RC_ConflictingRepublishers : Z := 207.
Definition RC_NoObservationForScope : Z := 208.
Definition RC_NoIntentForScope : Z := 209.
Definition RC_ObservationCoverageIncomplete : Z := 220.
Definition RC_IntentCoverageIncomplete : Z := 221.
Definition RC_ObservationCannotAssertAbsence : Z := 222.
Definition RC_AttributeCoverageIncomplete : Z := 223.
Definition RC_AttributeNotManagedByPolicy : Z := 224.
Definition RC_AuthorityProven : Z := 300.
Definition RC_AuthorityEpochMismatch : Z := 301.
Definition RC_AuthorityBootMismatch : Z := 302.
Definition RC_AuthorityPolicyMismatch : Z := 303.
Definition RC_AuthorityIntentGenerationMismatch : Z := 304.
Definition RC_AuthorityObservationGenerationMismatch : Z := 305.
Definition RC_AuthorityDefinitionMismatch : Z := 306.
Definition RC_ScopeFenced : Z := 310.
Definition RC_SubjectFenced : Z := 311.
Definition RC_FenceEpochNotNewer : Z := 312.
Definition RC_AttemptInterruptedByRestart : Z := 313.
Definition RC_AttemptFencedByEpochAdvance : Z := 314.
Definition RC_ActionEligible : Z := 400.
Definition RC_ActionNotRequired : Z := 401.
Definition RC_PolicyForbidsApplyMissing : Z := 402.
Definition RC_PolicyForbidsApplyMismatch : Z := 403.
Definition RC_PolicyForbidsWithdrawUnexpected : Z := 404.
Definition RC_DriftIsIndeterminate : Z := 405.
Definition RC_DriftIsConflicted : Z := 406.
Definition RC_SubjectKindUnsupported : Z := 407.
Definition RC_PlanActionLimitReached : Z := 408.
Definition RC_PlanTruncated : Z := 409.
Definition RC_UnsupportedInput : Z := 410.
Definition RC_MalformedPayload : Z := 411.
Definition RC_JournalHeaderInvalid : Z := 500.
Definition RC_JournalVersionUnsupported : Z := 501.
Definition RC_JournalRecordDigestMismatch : Z := 502.
Definition RC_JournalSequenceRegression : Z := 503.
Definition RC_JournalTornTailRecovered : Z := 504.
Definition RC_JournalTrailingGarbage : Z := 505.
Definition RC_JournalPayloadLengthInvalid : Z := 506.
Definition RC_JournalRecordTypeUnknown : Z := 507.
Definition RC_JournalEnumInvalid : Z := 508.
Definition RC_SnapshotDigestMismatch : Z := 509.
Definition RC_SnapshotStoreMismatch : Z := 510.
Definition RC_SnapshotAheadOfJournal : Z := 511.
Definition RC_DurableWriteFailed : Z := 512.
Definition RC_SnapshotReplacementFailed : Z := 513.
Definition RC_FrameMagicInvalid : Z := 600.
Definition RC_FrameVersionUnsupported : Z := 601.
Definition RC_FrameTypeUnknown : Z := 602.
Definition RC_FramePayloadTooLarge : Z := 603.
Definition RC_FrameDigestMismatch : Z := 604.
Definition RC_FrameTruncated : Z := 605.
Definition RC_FrameTrailingBytes : Z := 606.
Definition RC_SessionUnknown : Z := 607.
Definition RC_SessionIdentityMismatch : Z := 608.
Definition RC_SessionEpochMismatch : Z := 609.
Definition RC_SessionBootMismatch : Z := 610.
Definition RC_SessionSequenceRegression : Z := 611.
Definition RC_SessionLimitReached : Z := 612.
Definition RC_SessionClosed : Z := 613.
Definition RC_AttemptIssued : Z := 700.
Definition RC_AttemptAcknowledged : Z := 701.
Definition RC_AttemptApplied : Z := 702.
Definition RC_AttemptVerified : Z := 703.
Definition RC_AttemptFailed : Z := 704.
Definition RC_AttemptAbandoned : Z := 705.
Definition RC_AttemptSuperseded : Z := 706.
Definition RC_AttemptTerminalAlready : Z := 707.
Definition RC_AttemptUnknown : Z := 708.
Definition RC_AttemptTransitionIllegal : Z := 709.
Definition RC_VerificationNotIndependent : Z := 710.
Definition RC_VerificationNotNewer : Z := 711.
Definition RC_ReconciliationOutcomeCommitted : Z := 712.
Definition RC_RestartEpochAdvanced : Z := 800.
Definition RC_RestartFreshnessNotRestored : Z := 801.
Definition RC_RestartAttemptsFenced : Z := 802.
Definition RC_RestartLeasesNotRestored : Z := 803.

(** The texts of [ToText(ReasonCode)], in the order of its cases. *)
Definition reason_names : list (Z * bytes) :=
  [(RC_None, B "NONE");
   (RC_ClassifiedAlreadyConverged, B "ALREADY_CONVERGED");
   (RC_ClassifiedSubjectMissing, B "SUBJECT_MISSING");
   (RC_ClassifiedSubjectUnexpected, B "SUBJECT_UNEXPECTED");
   (RC_ClassifiedAttributeMismatch, B "ATTRIBUTE_MISMATCH");
   (RC_ClassifiedAttributeMissing, B "ATTRIBUTE_MISSING");
   (RC_ClassifiedAttributeUnexpected, B "ATTRIBUTE_UNEXPECTED");
   (RC_ClassifiedAttributeNotComparable, B "ATTRIBUTE_NOT_COMPARABLE");
   (RC_ObservationExpired, B "OBSERVATION_EXPIRED");
   (RC_ObservationForeignEpoch, B "OBSERVATION_FOREIGN_EPOCH");
   (RC_ObservationClockRegression, B "OBSERVATION_CLOCK_REGRESSION");
   (RC_ObservationGenerationRegressed, B "OBSERVATION_GENERATION_REGRESSED");
   (RC_IntentGenerationRegressed, B "INTENT_GENERATION_REGRESSED");
   (RC_DuplicateObservationIdentical, B "DUPLICATE_OBSERVATION_IDENTICAL");
   (RC_DuplicateIntentIdentical, B "DUPLICATE_INTENT_IDENTICAL");
   (RC_ConflictingRepublishers, B "CONFLICTING_REPUBLISHERS");
   (RC_NoObservationForScope, B "NO_OBSERVATION_FOR_SCOPE");
   (RC_NoIntentForScope, B "NO_INTENT_FOR_SCOPE");
   (RC_ObservationCoverageIncomplete, B "OBSERVATION_COVERAGE_INCOMPLETE");
   (RC_IntentCoverageIncomplete, B "INTENT_COVERAGE_INCOMPLETE");
   (RC_ObservationCannotAssertAbsence, B "OBSERVATION_CANNOT_ASSERT_ABSENCE");
   (RC_AttributeCoverageIncomplete, B "ATTRIBUTE_COVERAGE_INCOMPLETE");
   (RC_AttributeNotManagedByPolicy, B "ATTRIBUTE_NOT_MANAGED_BY_POLICY");
   (RC_AuthorityProven, B "AUTHORITY_PROVEN");
   (RC_AuthorityEpochMismatch, B "AUTHORITY_EPOCH_MISMATCH");
   (RC_AuthorityBootMismatch, B "AUTHORITY_BOOT_MISMATCH");
   (RC_AuthorityPolicyMismatch, B "AUTHORITY_POLICY_MISMATCH");
   (RC_AuthorityIntentGenerationMismatch, B "AUTHORITY_INTENT_GENERATION_MISMATCH");
   (RC_AuthorityObservationGenerationMismatch, B "AUTHORITY_OBSERVATION_GENERATION_MISMATCH");
   (RC_AuthorityDefinitionMismatch, B "AUTHORITY_DEFINITION_MISMATCH");
   (RC_ScopeFenced, B "SCOPE_FENCED");
   (RC_SubjectFenced, B "SUBJECT_FENCED");
   (RC_FenceEpochNotNewer, B "FENCE_EPOCH_NOT_NEWER");
   (RC_AttemptInterruptedByRestart, B "ATTEMPT_INTERRUPTED_BY_RESTART");
   (RC_AttemptFencedByEpochAdvance, B "ATTEMPT_FENCED_BY_EPOCH_ADVANCE");
   (RC_ActionEligible, B "ACTION_ELIGIBLE");
   (RC_ActionNotRequired, B "ACTION_NOT_REQUIRED");
   (RC_PolicyForbidsApplyMissing, B "POLICY_FORBIDS_APPLY_MISSING");
   (RC_PolicyForbidsApplyMismatch, B "POLICY_FORBIDS_APPLY_MISMATCH");
   (RC_PolicyForbidsWithdrawUnexpected, B "POLICY_FORBIDS_WITHDRAW_UNEXPECTED");
   (RC_DriftIsIndeterminate, B "DRIFT_IS_INDETERMINATE");
   (RC_DriftIsConflicted, B "DRIFT_IS_CONFLICTED");
   (RC_SubjectKindUnsupported, B "SUBJECT_KIND_UNSUPPORTED");
   (RC_PlanActionLimitReached, B "PLAN_ACTION_LIMIT_REACHED");
   (RC_PlanTruncated, B "PLAN_TRUNCATED");
   (RC_UnsupportedInput, B "UNSUPPORTED_INPUT");
   (RC_MalformedPayload, B "MALFORMED_PAYLOAD");
   (RC_JournalHeaderInvalid, B "JOURNAL_HEADER_INVALID");
   (RC_JournalVersionUnsupported, B "JOURNAL_VERSION_UNSUPPORTED");
   (RC_JournalRecordDigestMismatch, B "JOURNAL_RECORD_DIGEST_MISMATCH");
   (RC_JournalSequenceRegression, B "JOURNAL_SEQUENCE_REGRESSION");
   (RC_JournalTornTailRecovered, B "JOURNAL_TORN_TAIL_RECOVERED");
   (RC_JournalTrailingGarbage, B "JOURNAL_TRAILING_GARBAGE");
   (RC_JournalPayloadLengthInvalid, B "JOURNAL_PAYLOAD_LENGTH_INVALID");
   (RC_JournalRecordTypeUnknown, B "JOURNAL_RECORD_TYPE_UNKNOWN");
   (RC_JournalEnumInvalid, B "JOURNAL_ENUM_INVALID");
   (RC_SnapshotDigestMismatch, B "SNAPSHOT_DIGEST_MISMATCH");
   (RC_SnapshotStoreMismatch, B "SNAPSHOT_STORE_MISMATCH");
   (RC_SnapshotAheadOfJournal, B "SNAPSHOT_AHEAD_OF_JOURNAL");
   (RC_DurableWriteFailed, B "DURABLE_WRITE_FAILED");
   (RC_SnapshotReplacementFailed, B "SNAPSHOT_REPLACEMENT_FAILED");
   (RC_FrameMagicInvalid, B "FRAME_MAGIC_INVALID");
   (RC_FrameVersionUnsupported, B "FRAME_VERSION_UNSUPPORTED");
   (RC_FrameTypeUnknown, B "FRAME_TYPE_UNKNOWN");
   (RC_FramePayloadTooLarge, B "FRAME_PAYLOAD_TOO_LARGE");
   (RC_FrameDigestMismatch, B "FRAME_DIGEST_MISMATCH");
   (RC_FrameTruncated, B "FRAME_TRUNCATED");
   (RC_FrameTrailingBytes, B "FRAME_TRAILING_BYTES");
   (RC_SessionUnknown, B "SESSION_UNKNOWN");
   (RC_SessionIdentityMismatch, B "SESSION_IDENTITY_MISMATCH");
   (RC_SessionEpochMismatch, B "SESSION_EPOCH_MISMATCH");
   (RC_SessionBootMismatch, B "SESSION_BOOT_MISMATCH");
   (RC_SessionSequenceRegression, B "SESSION_SEQUENCE_REGRESSION");
   (RC_SessionLimitReached, B "SESSION_LIMIT_REACHED");
   (RC_SessionClosed, B "SESSION_CLOSED");
   (RC_AttemptIssued, B "ATTEMPT_ISSUED");
   (RC_AttemptAcknowledged, B "ATTEMPT_ACKNOWLEDGED");
   (RC_AttemptApplied, B "ATTEMPT_APPLIED");
   (RC_AttemptVerified, B "ATTEMPT_VERIFIED");
   (RC_AttemptFailed, B "ATTEMPT_FAILED");
   (RC_AttemptAbandoned, B "ATTEMPT_ABANDONED");
   (RC_AttemptSuperseded, B "ATTEMPT_SUPERSEDED");
   (RC_AttemptTerminalAlready, B "ATTEMPT_TERMINAL_ALREADY");
   (RC_AttemptUnknown, B "ATTEMPT_UNKNOWN");
   (RC_AttemptTransitionIllegal, B "ATTEMPT_TRANSITION_ILLEGAL");
   (RC_VerificationNotIndependent, B "VERIFICATION_NOT_INDEPENDENT");
   (RC_VerificationNotNewer, B "VERIFICATION_NOT_NEWER");
   (RC_ReconciliationOutcomeCommitted, B "RECONCILIATION_OUTCOME_COMMITTED");
   (RC_RestartEpochAdvanced, B "RESTART_EPOCH_ADVANCED");
   (RC_RestartFreshnessNotRestored, B "RESTART_FRESHNESS_NOT_RESTORED");
   (RC_RestartAttemptsFenced, B "RESTART_ATTEMPTS_FENCED");
   (RC_RestartLeasesNotRestored, B "RESTART_LEASES_NOT_RESTORED")].

(** The last enumerator: the bound every decoder applies to a reason. *)
Definition kMaxReason : Z := RC_RestartLeasesNotRestored.

Fixpoint assoc_Z {A} (k : Z) (l : list (Z * A)) : option A :=
  match l with
  | [] => None
  | (k', a) :: l' => if k =? k' then Some a else assoc_Z k l'
  end.

(** Models [ToText], src/status.cpp:28-133. *)
Definition ReasonCode_ToText (value : Z) : bytes :=
  match assoc_Z value reason_names with
  | Some text => text
  | None => B "UNKNOWN_REASON"
  end.

(** Models [IsDriftReason], src/status.cpp:135-138. *)
Definition IsDriftReason (value : Z) : bool := (100 <=? value) && (value <? 200).

(** Models [IsAuthorityReason], src/status.cpp:140-143. *)
Definition IsAuthorityReason (value : Z) : bool := (300 <=? value) && (value <? 400).

(** ** Status and Result *)

(** Models [Status], include/summon/fabric_reconciliation/status.hpp:179-203. *)
Record Status := mkStatus {
  st_code : StatusCode;
  st_reason : Z;
  st_detail : bytes
}.

Definition Status_Ok : Status := mkStatus SC_Ok RC_None [].
Definition Status_OkReason (reason : Z) : Status := mkStatus SC_Ok reason [].
Definition Status_ok (s : Status) : bool := bool_decide (st_code s = SC_Ok).

(** Models [Status::ToString], src/status.cpp:145-155. *)
Definition Status_ToString (s : Status) : bytes :=
  StatusCode_ToText (st_code s) ++ B "(" ++ ReasonCode_ToText (st_reason s) ++
  (match st_detail s with [] => [] | detail => B ": " ++ detail end) ++ B ")".

(** Models [Result], include/summon/fabric_reconciliation/status.hpp:207-231. *)
Inductive Result (A : Type) :=
| Value (a : A)
| Failed (s : Status).
Arguments Value {A} a.
Arguments Failed {A} s.

Definition Result_ok {A} (r : Result A) : bool :=
  match r with Value _ => true | Failed _ => false end.

(** ** Evidence classes and limits *)

(** Models [EvidenceClass], include/summon/fabric_reconciliation/limits.hpp:25-33. *)
Inductive EvidenceClass := EC_Unknown | EC_Real | EC_Synthetic | EC_Unsupported.

#[export] Instance EvidenceClass_eq : EqDecision EvidenceClass.
Proof. solve_decision. Defined.

Definition EvidenceClass_to_Z (e : EvidenceClass) : Z :=
  match e with EC_Unknown => 0 | EC_Real => 1 | EC_Synthetic => 2 | EC_Unsupported => 3 end.

(** The decoders' range check followed by [static_cast<EvidenceClass>]. *)
Definition EvidenceClass_of_Z (raw : Z) : option EvidenceClass :=
  if raw =? 0 then Some EC_Unknown else if raw =? 1 then Some EC_Real
  else if raw =? 2 then Some EC_Synthetic else if raw =? 3 then Some EC_Unsupported
  else None.

(** Models [ToText], src/status.cpp:157-165. *)
Definition EvidenceClass_ToText (e : EvidenceClass) : bytes :=
  match e with
  | EC_Unknown => B "UNKNOWN"
  | EC_Real => B "REAL"
  | EC_Synthetic => B "SYNTHETIC"
  | EC_Unsupported => B "UNSUPPORTED"
  end.

Definition text_eqb (a b : bytes) : bool := bool_decide (a = b).

(** Models [TryParseEvidenceClass], src/status.cpp:167-189. *)
Definition TryParseEvidenceClass (text : bytes) : option EvidenceClass :=
  if text_eqb text (B "REAL") then Some EC_Real
  else if text_eqb text (B "SYNTHETIC") then Some EC_Synthetic
  else if text_eqb text (B "UNSUPPORTED") then Some EC_Unsupported
  else if text_eqb text (B "UNKNOWN") then Some EC_Unknown
  else None.

(** Models [RuntimeLimits], include/summon/fabric_reconciliation/limits.hpp:39-70. *)
Record RuntimeLimits := mkLimits {
  max_scopes : Z;
  max_subjects_per_scope : Z;
  max_attributes_per_subject : Z;
  max_subjects_per_document : Z;
  max_journal_payload_bytes : Z;
  max_journal_bytes : Z;
  max_retained_observations_per_scope : Z;
  max_retained_attempts : Z;
  max_retained_outcomes : Z;
  max_attempt_transitions : Z;
  max_plan_actions : Z;
  max_explanation_steps : Z;
  max_sessions : Z;
  max_in_flight_frames_per_session : Z;
  max_wire_payload_bytes : Z
}.

(** The default member initialisers of [RuntimeLimits]. *)
Definition default_limits : RuntimeLimits :=
  mkLimits 4096 4000000 256 4000000 (8 * 1024 * 1024) (512 * 1024 * 1024) 8 16384 16384
           16 262144 32 256 8 (16 * 1024 * 1024).

(** ** Facts *)

Lemma EvidenceClass_of_to_Z e : EvidenceClass_of_Z (EvidenceClass_to_Z e) = Some e.
Proof. by destruct e. Qed.

Lemma EvidenceClass_parse_text e : TryParseEvidenceClass (EvidenceClass_ToText e) = Some e.
Proof. by destruct e. Qed.

Lemma EvidenceClass_to_Z_u8 e : u8 (EvidenceClass_to_Z e) = true.
Proof. by destruct e. Qed.

#[export] Hint Resolve EvidenceClass_of_to_Z EvidenceClass_to_Z_u8 : fr.

Lemma Status_ok_spec s : Status_ok s = true <-> st_code s = SC_Ok.
Proof. apply bool_decide_eq_true. Qed.

(** Two reasons of the same text are the same enumerator. *)
Lemma reason_names_NoDup : NoDup (reason_names.*1) /\ NoDup (reason_names.*2).
Proof. split; apply (bool_decide_eq_true_1 _); vm_compute; reflexivity. Qed.
