(* ===== verification/Identity.v ===== *)
(** * Identities and counters (identity.hpp, identity.cpp)

    Textual identities are byte strings accepted by [IsValidIdentityText];
    counters are 64-bit unsigned integers that refuse to wrap; boot and store
    identities are 16-byte arrays. The entropy source and the clocks of
    identity.cpp are inputs of the operations that use them. *)

From Stdlib Require Import ZArith Lia.
From stdpp Require Import prelude.
From S2P Require Import Prelude OrdMap Hash Status.
Local Open Scope Z_scope.

(** ** Definitions *)

(** Models [kMaxIdentityLength], include/summon/fabric_reconciliation/identity.hpp:27-27. *)
Definition kMaxIdentityLength : Z := 200.

(** Models [IsAlphaNumeric], src/identity.cpp:23-26. *)
Definition IsAlphaNumeric (character : byte) : bool :=
  let c := byte_to_Z character in
  ((97 <=? c) && (c <=? 122)) || ((65 <=? c) && (c <=? 90)) || ((48 <=? c) && (c <=? 57)).

(** Models [IsSeparator], src/identity.cpp:28-31. *)
Definition IsSeparator (character : byte) : bool :=
  let c := byte_to_Z character in
  (c =? 46) || (c =? 95) || (c =? 45) || (c =? 47) || (c =? 58).

Definition is_char (c : Z) (character : byte) : bool := byte_to_Z character =? c.

(** The first loop of [IsValidIdentityText]: every character is admissible and no
    two separators are adjacent. *)
Fixpoint identity_characters (previous : byte) (text : bytes) : bool :=
  match text with
  | [] => true
  | character :: rest =>
    if is_char 0 character || is_char 92 character then false
    else
      let raw := byte_to_Z character in
      if (raw <? 32) || (raw =? 127) then false
      else
        let separator := IsSeparator character in
        if negb separator && negb (IsAlphaNumeric character) then false
        else if separator && IsSeparator previous then false
        else identity_characters character rest
  end.

(** [text.find('/', 0)]: the text before the first slash and, when there is one,
    the text after it. *)
Fixpoint split_slash (text : bytes) : bytes * option bytes :=
  match text with
  | [] => ([], None)
  | c :: rest =>
    if is_char 47 c then ([], Some rest)
    else let '(component, tail) := split_slash rest in (c :: component, tail)
  end.

(** The second loop: no component between slashes is [.] or [..]. *)
Fixpoint components_clean (fuel : nat) (text : bytes) : bool :=
  match fuel with
  | O => true
  | S fuel' =>
    let '(component, tail) := split_slash text in
    if text_eqb component (B ".") || text_eqb component (B "..") then false
    else match tail with
         | None => true
         | Some rest => components_clean fuel' rest
         end
  end.

Definition front_is (c : Z) (text : bytes) : bool :=
  match head text with Some b => is_char c b | None => false end.
Definition back_is (c : Z) (text : bytes) : bool :=
  match last text with Some b => is_char c b | None => false end.

(** Models [IsValidIdentityText], src/identity.cpp:73-114. *)
Definition IsValidIdentityText (text : bytes) : bool :=
  if bool_decide (text = []) || (kMaxIdentityLength <? blen text) then false
  else if front_is 47 text || front_is 46 text || back_is 47 text || back_is 46 text then false
  else if negb (identity_characters Byte.x00 text) then false
  else components_clean (S (length text)) text.

(** Models [StringId::TryParse], include/summon/fabric_reconciliation/identity.hpp:44-51. *)
Definition StringId_TryParse (text : bytes) : option bytes :=
  if negb (IsValidIdentityText text) then None else Some text.

(** Models [Counter::TryNext], include/summon/fabric_reconciliation/identity.hpp:110-116. *)
Definition Counter_TryNext (value : Z) : option Z :=
  if value =? 2 ^ 64 - 1 then None else Some (wrap 64 (value + 1)).

(** Models [BootId], include/summon/fabric_reconciliation/identity.hpp:153-173. *)
Definition BootId_valid (boot : bytes) : bool := blen boot =? 16.

(** The default-constructed identity: sixteen zero bytes. *)
Definition BootId_default : bytes := repeat Byte.x00 16.

(** Models [StoreId::IsZero], src/identity.cpp:144-151. *)
Definition StoreId_IsZero (store : bytes) : bool :=
  forallb (fun b => is_char 0 b) store.

(** ** Reference: the accepted identities *)

(** The characters an identity may contain. *)
Definition identity_char (b : byte) : bool := IsSeparator b || IsAlphaNumeric b.

Definition no_adjacent_separators (text : bytes) : Prop :=
  forall pre a b post, text = pre ++ a :: b :: post -> IsSeparator a && IsSeparator b = false.

(** The components of a text, split at every slash. *)
Fixpoint slash_components (text : bytes) : list bytes :=
  match text with
  | [] => [[]]
  | c :: rest =>
    match slash_components rest with
    | [] => [[c]]
    | component :: others =>
      if is_char 47 c then [] :: component :: others else (c :: component) :: others
    end
  end.

(** ** Facts *)

Lemma identity_char_plain b :
  identity_char b = true ->
  is_char 0 b = false /\ is_char 92 b = false /\ (byte_to_Z b <? 32) = false /\
  (byte_to_Z b =? 127) = false.
Proof.
  unfold identity_char, IsSeparator, IsAlphaNumeric, is_char. intros H.
  repeat split; apply not_true_is_false; intros H'; bool_hyps; lia.
Qed.

Lemma identity_characters_spec previous text :
  identity_characters previous text = true <->
  Forall (fun b => identity_char b = true) text /\
  no_adjacent_separators (previous :: text).
Proof.
  revert previous. induction text as [|c text IH]; intros previous.
  { split; [|done]. intros _. split; [constructor|].
    intros [|x pre] a b post H; [done|]. injection H as -> H. by destruct pre. }
  cbn [identity_characters].
  destruct (identity_char c) eqn:Hc.
  2: { split.
       - unfold identity_char in Hc. apply orb_false_iff in Hc as [-> ->].
         cbv zeta. simpl. by repeat split_case.
       - intros [H _]. apply Forall_cons in H as [H _]. congruence. }
  destruct (identity_char_plain c Hc) as (-> & -> & -> & ->). cbn.
  rewrite <- negb_orb. unfold identity_char in Hc. rewrite Hc. cbn.
  destruct (IsSeparator c && IsSeparator previous) eqn:Hs.
  - split; [done|]. intros [_ H]. specialize (H [] previous c text eq_refl).
    rewrite andb_comm in Hs. congruence.
  - rewrite IH. split; intros [H1 H2].
    + split; [by constructor|]. intros [|x pre] a b post H.
      * injection H as -> -> ->. by rewrite andb_comm.
      * injection H as -> H. by apply (H2 pre a b post).
    + apply Forall_cons in H1 as [_ H1]. split; [done|].
      intros pre a b post H. by apply (H2 (previous :: pre) a b post); rewrite H.
Qed.

Lemma split_slash_spec text :
  let '(component, tail) := split_slash text in
  match tail with
  | None => component = text
  | Some rest => exists s, is_char 47 s = true /\ text = component ++ s :: rest
  end.
Proof.
  induction text as [|c text IH]; [done|]. cbn.
  destruct (is_char 47 c) eqn:E; [by exists c|].
  destruct (split_slash text) as [component [rest|]].
  - destruct IH as (s & Hs & ->). by exists s.
  - by subst.
Qed.

Lemma is_char_inj c a b : is_char c a = true -> is_char c b = true -> a = b.
Proof. unfold is_char. intros. bool_hyps. apply byte_to_Z_inj. congruence. Qed.

Lemma is_char_separator c b : is_char c b = true -> c = 46 \/ c = 47 -> IsSeparator b = true.
Proof.
  unfold is_char, IsSeparator. intros H Hc. bool_hyps. rewrite H.
  by destruct Hc as [-> | ->].
Qed.

(** A text without adjacent separators and without a leading dot has only clean
    components. *)
Lemma components_clean_ok fuel : forall text,
  no_adjacent_separators text -> front_is 46 text = false ->
  components_clean fuel text = true.
Proof.
  induction fuel as [|fuel IH]; intros text Hadj Hfront; [done|].
  cbn [components_clean]. pose proof (split_slash_spec text) as Hsp.
  destruct (split_slash text) as [component tail].
  assert (forall rest, component ++ rest = text ->
    text_eqb component (B ".") || text_eqb component (B "..") = false) as Hclean.
  { intros rest <-. apply orb_false_iff.
    by split; apply bool_decide_eq_false; intros ->. }
  destruct tail as [rest|].
  - destruct Hsp as (s & Hs & ->). rewrite (Hclean (s :: rest) eq_refl). apply IH.
    + intros pre a b post H. apply (Hadj (component ++ s :: pre) a b post).
      by rewrite <- app_assoc, H.
    + destruct rest as [|r rest]; [done|].
      specialize (Hadj component s r rest eq_refl).
      rewrite (is_char_separator _ _ Hs) in Hadj by tauto.
      unfold front_is. cbn [head]. destruct (is_char 46 r) eqn:E; [|done].
      by rewrite (is_char_separator _ _ E) in Hadj by tauto.
  - subst component. by rewrite (Hclean [] (app_nil_r _)).
Qed.

Lemma components_clean_reference fuel : forall text,
  (length text < fuel)%nat ->
  components_clean fuel text =
  forallb (fun component => negb (text_eqb component (B ".") || text_eqb component (B "..")))
    (slash_components text).
Proof.
  assert (forall text, slash_components text =
    (split_slash text).1 :: match (split_slash text).2 with
                            | Some rest => slash_components rest | None => [] end) as Heq.
  { induction text as [|c text IH]; [done|]. cbn.
    destruct (is_char 47 c) eqn:E; cbn; rewrite IH; [done|].
    by destruct (split_slash text) as [? [?|]]. }
  induction fuel as [|fuel IH]; intros text Hf; [lia|].
  cbn [components_clean]. rewrite Heq. pose proof (split_slash_spec text) as Hsp.
  destruct (split_slash text) as [component [rest|]]; cbn.
  - destruct Hsp as (s & _ & ->). rewrite length_app in Hf. simpl in Hf.
    rewrite IH by lia. by destruct (_ || _).
  - by destruct (_ || _).
Qed.

Lemma IsValidIdentityText_length text :
  IsValidIdentityText text = true -> 0 < blen text <= kMaxIdentityLength.
Proof.
  unfold IsValidIdentityText. intros H.
  destruct (_ || _) eqn:E in H; [done|]. bool_hyps.
  destruct text; [done|]. rewrite blen_cons in *. pose proof (blen_nonneg text). lia.
Qed.

Lemma StringId_TryParse_ok text :
  IsValidIdentityText text = true -> StringId_TryParse text = Some text.
Proof. unfold StringId_TryParse. by intros ->. Qed.

#[export] Hint Resolve StringId_TryParse_ok : fr.

Lemma TryParse_valid text id : StringId_TryParse text = Some id -> IsValidIdentityText id = true.
Proof. unfold StringId_TryParse. destruct (IsValidIdentityText text) eqn:E; [|done]. by intros [= <-]. Qed.

Lemma Counter_TryNext_spec v v' :
  u64 v = true -> Counter_TryNext v = Some v' -> v' = v + 1 /\ u64 v' = true.
Proof.
  unfold Counter_TryNext, in_unsigned, wrap. intros Hv H.
  destruct (v =? 2 ^ 64 - 1) eqn:E; [done|]. injection H as <-. bool_hyps.
  rewrite Z.mod_small by lia. split; [done|].
  apply andb_true_iff. split; [apply Z.leb_le|apply Z.ltb_lt]; lia.
Qed.

(** ** Properties *)

(** The identities accepted are exactly the texts of 1 to 200 letters, digits and
    separators with no two adjacent separators and no slash or dot at either end. *)
Theorem identity_text_characterised text :
  IsValidIdentityText text = true <->
  0 < blen text <= kMaxIdentityLength /\
  Forall (fun b => identity_char b = true) text /\
  no_adjacent_separators text /\
  front_is 47 text = false /\ front_is 46 text = false /\
  back_is 47 text = false /\ back_is 46 text = false.
Proof.
  assert (no_adjacent_separators (Byte.x00 :: text) <-> no_adjacent_separators text) as Hz.
  { split.
    - intros H pre a b post ->. by apply (H (Byte.x00 :: pre) a b post).
    - intros H [|x pre] a b post Heq; injection Heq as Hx Heq; [by subst|].
      by apply (H pre a b post). }
  split.
  - intros H. pose proof (IsValidIdentityText_length _ H) as Hl. revert H.
    unfold IsValidIdentityText.
    destruct (_ || _); [done|]. destruct (_ || _) eqn:E; [done|].
    destruct (identity_characters _ _) eqn:Ec; [|done]. intros _. bool_hyps.
    apply identity_characters_spec in Ec as [Hall Hadj]. tauto.
  - intros (Hl & Hc & Hadj & H1 & H2 & H3 & H4). unfold IsValidIdentityText.
    rewrite H1, H2, H3, H4. cbn [orb].
    rewrite (proj2 (identity_characters_spec Byte.x00 text)); [|tauto]. cbn [negb].
    destruct (_ || _) eqn:E.
    { apply orb_true_iff in E as [E|E]; bool_hyps; [|lia].
      subst. unfold blen in Hl. simpl in Hl. lia. }
    by apply components_clean_ok.
Qed.

(** No component of an accepted identity, split at its slashes, is a path-traversal
    component: an identity used as a path cannot leave its directory. *)
Theorem identity_no_traversal text :
  IsValidIdentityText text = true ->
  B "." ∉ slash_components text /\ B ".." ∉ slash_components text.
Proof.
  unfold IsValidIdentityText. intros H.
  destruct (_ || _) in H; [done|]. destruct (_ || _) in H; [done|].
  destruct (negb _) in H; [done|]. rewrite components_clean_reference in H by lia.
  rewrite forallb_forall in H. setoid_rewrite <- list_elem_of_In in H.
  by split; intros Hin; specialize (H _ Hin).
Qed.

Lemma identity_no_traversal_witness :
  B "." ∉ slash_components (B "node/n17/eth0.100") /\
  B ".." ∉ slash_components (B "node/n17/eth0.100").
Proof. apply (identity_no_traversal (B "node/n17/eth0.100")). vm_compute. reflexivity. Defined.
