(* ===== verification/Entropy.v ===== *)
(** * Boot and store identities (identity.cpp: FillEntropy, Generate)

    Identities are drawn from the random device and mixed with a counter of the process, the
    steady clock and the process identity; these four are inputs. *)

From Stdlib Require Import ZArith Lia.
From stdpp Require Import prelude.
From S2P Require Import Prelude Identity.
Local Open Scope Z_scope.

(** What the host supplies to one call: the values of the device, call by call, the steady clock
    and the process identity. *)
Record EntropyIo := mkEntropyIo {
  eo_device : nat -> Z;
  eo_stamp : Z;
  eo_process : Z
}.

(** Models [FillEntropy], src/identity.cpp:33-44: two bytes of each value, the second one only if
    there is room. *)
Fixpoint fill_device (device : nat -> Z) (call : nat) (size : nat) : bytes :=
  match size with
  | O => []
  | S O => [byte_of_Z (Z.land (device call) 0xff)]
  | S (S size) =>
    byte_of_Z (Z.land (device call) 0xff) :: byte_of_Z (Z.land (Z.shiftr (device call) 8) 0xff) ::
    fill_device device (S call) size
  end.

(** Models [FillEntropy], src/identity.cpp:53-57: one byte of the mix. *)
Definition mix_byte (words : list Z) (index : nat) (out : byte) : byte :=
  let word := default 0 (words !! (index mod 3)%nat) in
  let shift := Z.of_nat ((index / 3) mod 8) * 8 in
  byte_of_Z (Z.lxor (byte_to_Z out) (Z.land (Z.shiftr word shift) 0xff)).

(** Models [FillEntropy], src/identity.cpp:33-58: the bytes, and the counter after it. *)
Definition FillEntropy (io : EntropyIo) (size : nat) (counter : Z) : bytes * Z :=
  (imap (mix_byte [counter; eo_stamp io; eo_process io]) (fill_device (eo_device io) 0 size),
   wrap 64 (counter + 1)).

(** Models [BootId::Generate], src/identity.cpp:122-126. *)
Definition BootId_Generate (io : EntropyIo) (counter : Z) : bytes * Z := FillEntropy io 16 counter.

(** Models [StoreId::Generate], src/identity.cpp:136-140. *)
Definition StoreId_Generate (io : EntropyIo) (counter : Z) : bytes * Z := FillEntropy io 16 counter.

(** ** Facts *)

Lemma length_fill_device device : forall n size call, (size <= n)%nat -> length (fill_device device call size) = size.
Proof.
  induction n as [|n IH]; intros size call Hn; [by destruct size; [|lia]|].
  destruct size as [|[|size]]; [done|done|]. cbn [fill_device length]. rewrite IH; lia.
Qed.

(** The byte a word contributes can be read back from the mix. *)
Lemma mix_inj out x y :
  byte_of_Z (Z.lxor (byte_to_Z out) (Z.land x 0xff)) = byte_of_Z (Z.lxor (byte_to_Z out) (Z.land y 0xff)) <->
  byte_of_Z x = byte_of_Z y.
Proof.
  rewrite !byte_of_Z_eq. change 256 with (2 ^ 8). change 0xff with (Z.ones 8). rewrite <- !Z.land_ones by lia.
  generalize (byte_to_Z out). intros d. split; intros H.
  - apply (f_equal (Z.lxor (Z.land d (Z.ones 8)))) in H. revert H.
    assert (forall z, Z.lxor (Z.land d (Z.ones 8)) (Z.land (Z.lxor d (Z.land z (Z.ones 8))) (Z.ones 8)) = Z.land z (Z.ones 8)) as E.
    { intros z. apply Z.bits_inj'. intros n Hn. rewrite !Z.lxor_spec, !Z.land_spec, !Z.lxor_spec, !Z.land_spec.
      by destruct (Z.testbit d n), (Z.testbit z n), (Z.testbit (Z.ones 8) n). }
    by rewrite !E.
  - by rewrite H.
Qed.

(** ** Properties *)

(** The bytes of a word that the mix of sixteen bytes uses. *)
Lemma le_bytes_shifts_6 w :
  le_bytes 6 w = map byte_of_Z [Z.shiftr w 0; Z.shiftr w 8; Z.shiftr w 16; Z.shiftr w 24; Z.shiftr w 32; Z.shiftr w 40].
Proof. cbn [le_bytes map]. by rewrite !Z.shiftr_shiftr, Z.shiftr_0_r by lia. Qed.

Lemma le_bytes_shifts_5 w :
  le_bytes 5 w = map byte_of_Z [Z.shiftr w 0; Z.shiftr w 8; Z.shiftr w 16; Z.shiftr w 24; Z.shiftr w 32].
Proof. cbn [le_bytes map]. by rewrite !Z.shiftr_shiftr, Z.shiftr_0_r by lia. Qed.

Lemma mix_eq_iff d c s p c' s' p' : length d = 16%nat ->
  imap (mix_byte [c; s; p]) d = imap (mix_byte [c'; s'; p']) d <->
  le_bytes 6 c = le_bytes 6 c' /\ le_bytes 5 s = le_bytes 5 s' /\ le_bytes 5 p = le_bytes 5 p'.
Proof.
  intros Hd. do 16 (destruct d as [|? d]; [done|]). destruct d; [|done]. clear Hd.
  rewrite !le_bytes_shifts_6, !le_bytes_shifts_5. cbn [imap map mix_byte]. unfold mix_byte, compose.
  cbn -[Z.lxor Z.land Z.shiftr byte_of_Z byte_to_Z].
  split.
  - intros H. injection H as H0 H1 H2 H3 H4 H5 H6 H7 H8 H9 H10 H11 H12 H13 H14 H15.
    apply mix_inj in H0, H1, H2, H3, H4, H5, H6, H7, H8, H9, H10, H11, H12, H13, H14, H15.
    split_and!; by repeat (apply (f_equal2 cons); [assumption|]).
  - intros (Hc & Hs & Hp). injection Hc as H0 H3 H6 H9 H12 H15. injection Hs as H1 H4 H7 H10 H13.
    injection Hp as H2 H5 H8 H11 H14. by repeat (apply (f_equal2 cons); [by apply mix_inj|]).
Qed.

(** When two identities collide: with the same values of the device, exactly when the counters
    agree modulo 2^48 and the clocks and the process identities modulo 2^40.  In particular two
    identities of one process differ, whatever the device and the clock do. *)
Theorem identities_collide_iff device stamp process counter stamp' process' counter' :
  ((BootId_Generate (mkEntropyIo device stamp process) counter).1 =
   (BootId_Generate (mkEntropyIo device stamp' process') counter').1 <->
   counter mod 2 ^ 48 = counter' mod 2 ^ 48 /\ stamp mod 2 ^ 40 = stamp' mod 2 ^ 40 /\
   process mod 2 ^ 40 = process' mod 2 ^ 40) /\
  BootId_valid (BootId_Generate (mkEntropyIo device stamp process) counter).1 = true.
Proof.
  assert (length (fill_device device 0 16) = 16%nat) as Hd by (by apply (length_fill_device _ 16)).
  unfold BootId_Generate, FillEntropy, BootId_valid. cbn [fst eo_device eo_stamp eo_process]. split.
  - rewrite mix_eq_iff by done. by rewrite !le_bytes_eq.
  - unfold blen. by rewrite length_imap, Hd.
Qed.
