(* ===== verification/Canonical.v ===== *)
(** * Canonical encoding (canonical.hpp, canonical.cpp)

    The append-only writer with its 64 MiB ceiling and the sticky-failure reader.
    [writes p bs] and [decodes m bs a] are the two specifications every encoder
    and decoder of the runtime is proved against; both compose, so a codec's
    round trip is read off its definition.  The interface [PayloadCodec] states
    what the durable store relies on of a payload type. *)

From Stdlib Require Import ZArith Lia.
From stdpp Require Import prelude.
From S2P Require Import Prelude OrdMap Hash Status Identity.
Local Open Scope Z_scope.

Create HintDb codec.
Create HintDb yields.

(** ** The writer *)

(** Models [kMaxCanonicalBytes], include/summon/fabric_reconciliation/canonical.hpp:27-30. *)
Definition kMaxCanonicalBytes : Z := 64 * 1024 * 1024.

(** Models [CanonicalWriter], include/summon/fabric_reconciliation/canonical.hpp:32-59. *)
Record CanonicalWriter := mkWriter { w_buffer : bytes; w_ok : bool }.

(** The default-constructed writer. *)
Definition writer_empty : CanonicalWriter := mkWriter [] true.

(** Models [CanonicalWriter::CanonicalWriter], src/canonical.cpp:11-17. *)
Definition writer_reserving (reserve : Z) : CanonicalWriter :=
  if kMaxCanonicalBytes <? reserve then mkWriter [] false else mkWriter [] true.

(** An operation on the writer. *)
Definition Put := CanonicalWriter -> CanonicalWriter.
Definition put_nop : Put := fun w => w.
Definition put_seq (p q : Put) : Put := fun w => q (p w).
Notation "p ;+ q" := (put_seq p q) (at level 62, right associativity) : text_scope.
(** [for (a : l) f(a)] *)
Definition put_each {A} (f : A -> Put) (l : list A) : Put :=
  fun w => foldl (fun w a => f a w) w l.

Definition writer_fail (w : CanonicalWriter) : CanonicalWriter := mkWriter (w_buffer w) false.
Definition writer_append (bs : bytes) (w : CanonicalWriter) : CanonicalWriter :=
  mkWriter (w_buffer w ++ bs) (w_ok w).

(** Models [CanonicalWriter::Reserve], src/canonical.cpp:19-32. *)
Definition Reserve (additional : Z) : Put := fun w =>
  if negb (w_ok w) then w
  else if (kMaxCanonicalBytes <? additional) ||
          (kMaxCanonicalBytes - additional <? blen (w_buffer w)) then writer_fail w
  else w.

(** Models [CanonicalWriter::PutU8], src/canonical.cpp:34-39. *)
Definition PutU8 (value : Z) : Put := fun w =>
  let w := Reserve 1 w in
  if w_ok w then writer_append [byte_of_Z value] w else w.

(** The shift amounts of the byte loops: 0, 8, ... below [8 * n]. *)
Definition le_shifts (n : nat) : list Z := map (fun i => 8 * Z.of_nat i) (seq 0 n).

(** Models [CanonicalWriter::PutU16], src/canonical.cpp:41-44. *)
Definition PutU16 (value : Z) : Put :=
  PutU8 (Z.land value 255) ;+ PutU8 (Z.land (Z.shiftr value 8) 255).

(** Models [CanonicalWriter::PutU32], src/canonical.cpp:46-50. *)
Definition PutU32 (value : Z) : Put :=
  put_each (fun shift => PutU8 (Z.land (Z.shiftr value shift) 255)) (le_shifts 4).

(** Models [CanonicalWriter::PutU64], src/canonical.cpp:52-56. *)
Definition PutU64 (value : Z) : Put :=
  put_each (fun shift => PutU8 (Z.land (Z.shiftr value shift) 255)) (le_shifts 8).

(** Models [CanonicalWriter::PutI64], src/canonical.cpp:58-60. *)
Definition PutI64 (value : Z) : Put := PutU64 (wrap 64 value).

(** Models [CanonicalWriter::PutBool], src/canonical.cpp:62-62. *)
Definition PutBool (value : bool) : Put := PutU8 (if value then 1 else 0).

(** Models [CanonicalWriter::PutBytes], src/canonical.cpp:64-78. *)
Definition PutBytes (bs : bytes) : Put := fun w =>
  let length := blen bs in
  if 0xffffffff <? length then writer_fail w
  else
    let w := PutU32 length w in
    if negb (w_ok w) then w
    else
      let w := Reserve length w in
      if w_ok w then writer_append bs w else w.

(** Models [CanonicalWriter::PutDigest], src/canonical.cpp:80-86. *)
Definition PutDigest (digest : bytes) : Put := fun w =>
  let w := Reserve (blen digest) w in
  if negb (w_ok w) then w else writer_append digest w.

(** Models [CanonicalWriter::Digest], src/canonical.cpp:88-90. *)
Definition writer_Digest (w : CanonicalWriter) : bytes := Sha256Of (w_buffer w).

(** ** The reader *)

(** Models [CanonicalReader], include/summon/fabric_reconciliation/canonical.hpp:61-97. *)
Record CanonicalReader := mkReader { r_data : bytes; r_offset : Z; r_ok : bool }.

Definition reader_of (data : bytes) : CanonicalReader := mkReader data 0 true.

(** Models [CanonicalReader::remaining], include/summon/fabric_reconciliation/canonical.hpp:75-75. *)
Definition remaining (r : CanonicalReader) : Z :=
  if r_ok r then blen (r_data r) - r_offset r else 0.

(** Models [CanonicalReader::AtEnd], include/summon/fabric_reconciliation/canonical.hpp:86-88. *)
Definition AtEnd (r : CanonicalReader) : bool := r_ok r && (r_offset r =? blen (r_data r)).

Definition reader_fail (r : CanonicalReader) : CanonicalReader :=
  mkReader (r_data r) (r_offset r) false.
Definition reader_advance (n : Z) (r : CanonicalReader) : CanonicalReader :=
  mkReader (r_data r) (r_offset r + n) (r_ok r).

(** A reading operation: [None] is the [false] or [nullopt] the code returns; the
    reader keeps its position and its failure flag either way. *)
Definition Read (A : Type) := CanonicalReader -> option A * CanonicalReader.

#[export] Instance Read_ret : MRet Read := fun A a r => (Some a, r).
#[export] Instance Read_bind : MBind Read := fun A A' f m r =>
  match m r with
  | (Some a, r') => f a r'
  | (None, r') => (None, r')
  end.
(** [return std::nullopt] without touching the reader. *)
Definition refuse {A} : Read A := fun r => (None, r).
(** [if (!condition) return std::nullopt;] *)
Definition require (condition : bool) : Read unit :=
  fun r => (if condition then Some tt else None, r).

(** Models [CanonicalReader::ReadU8], src/canonical.cpp:92-100. *)
Definition ReadU8 : Read Z := fun r =>
  if negb (r_ok r) || (blen (r_data r) <? r_offset r + 1) then (None, reader_fail r)
  else match r_data r !! Z.to_nat (r_offset r) with
       | Some b => (Some (byte_to_Z b), reader_advance 1 r)
       | None => (None, reader_fail r)
       end.

(** Models [CanonicalReader::ReadU16], src/canonical.cpp:102-111. *)
Definition ReadU16 : Read Z :=
  low ← ReadU8; high ← ReadU8; mret (Z.lor low (Z.shiftl high 8)).

(** [for (shift : shifts) value |= byte << shift] *)
Fixpoint read_shifts (shifts : list Z) (value : Z) : Read Z :=
  match shifts with
  | [] => mret value
  | shift :: shifts' =>
    b ← ReadU8; read_shifts shifts' (Z.lor value (Z.shiftl b shift))
  end.

(** Models [CanonicalReader::ReadU32], src/canonical.cpp:113-124. *)
Definition ReadU32 : Read Z := read_shifts (le_shifts 4) 0.

(** Models [CanonicalReader::ReadU64], src/canonical.cpp:126-137. *)
Definition ReadU64 : Read Z := read_shifts (le_shifts 8) 0.

(** Models [CanonicalReader::ReadI64], src/canonical.cpp:139-146. *)
Definition ReadI64 : Read Z := raw ← ReadU64; mret (to_signed 64 raw).

(** Models [CanonicalReader::ReadBool], src/canonical.cpp:148-155. *)
Definition ReadBool : Read bool := raw ← ReadU8; mret (negb (raw =? 0)).

(** The bytes at [data_ + offset_]. *)
Definition bytes_at (r : CanonicalReader) (n : Z) : bytes :=
  take (Z.to_nat n) (drop (Z.to_nat (r_offset r)) (r_data r)).

(** [ReadBytes] after its length. *)
Definition read_needed (needed : Z) : Read bytes := fun r =>
  if remaining r <? needed then (None, reader_fail r)
  else if kMaxCanonicalBytes <? needed then (None, reader_fail r)
  else (Some (bytes_at r needed), reader_advance needed r).

(** Models [CanonicalReader::ReadBytes], src/canonical.cpp:157-179. *)
Definition ReadBytes : Read bytes := needed ← ReadU32; read_needed needed.

(** Models [CanonicalReader::ReadDigest], src/canonical.cpp:181-189. *)
Definition ReadDigest : Read bytes := fun r =>
  if remaining r <? Z.of_nat kSha256Bytes then (None, reader_fail r)
  else (Some (bytes_at r (Z.of_nat kSha256Bytes)), reader_advance (Z.of_nat kSha256Bytes) r).

(** [for (i = 0; i < n; ++i)] with a state threaded through the rounds. *)
Fixpoint read_times {A} (n : nat) (round : A -> Read A) (acc : A) : Read A :=
  match n with
  | O => mret acc
  | S n' => acc' ← round acc; read_times n' round acc'
  end.

(** [n] elements read one after another and pushed back. *)
Definition read_list {A} (n : Z) (element : Read A) : Read (list A) :=
  read_times (Z.to_nat n) (fun acc => a ← element; mret (acc ++ [a])) [].

(** [n] entries read one after another and emplaced in a map; a key that is
    already present refuses the payload. *)
Definition read_map {K V} `{KeyOrder K} (n : Z) (entry : Read (K * V)) : Read (list (K * V)) :=
  read_times (Z.to_nat n)
    (fun m => e ← entry; match om_emplace e.1 e.2 m with Some m' => mret m' | None => refuse end)
    [].

(** [Id::TryParse] of a text just read. *)
Definition read_id : Read bytes :=
  text ← ReadBytes; match StringId_TryParse text with Some id => mret id | None => refuse end.

(** ** Specifications *)

Definition writer_wf (w : CanonicalWriter) : Prop :=
  w_ok w = true -> blen (w_buffer w) <= kMaxCanonicalBytes.

(** [p] appends exactly [bs], or fails and stays failed when there is no room. *)
Definition writes (p : Put) (bs : bytes) : Prop := forall w,
  writer_wf w ->
  if w_ok w && (blen (w_buffer w) + blen bs <=? kMaxCanonicalBytes)
  then p w = mkWriter (w_buffer w ++ bs) true
  else w_ok (p w) = false.

(** [m] reads the value [a] from the bytes [bs], wherever they are, and stops
    right after them. *)
Definition decodes {A} (m : Read A) (bs : bytes) (a : A) : Prop := forall pre post,
  m (mkReader (pre ++ bs ++ post) (blen pre) true) =
  (Some a, mkReader (pre ++ bs ++ post) (blen pre + blen bs) true).

(** The bytes each primitive writes. *)
Definition lay_u8 (v : Z) : bytes := [byte_of_Z v].
Definition lay_u16 (v : Z) : bytes := le_bytes 2 v.
Definition lay_u32 (v : Z) : bytes := le_bytes 4 v.
Definition lay_u64 (v : Z) : bytes := le_bytes 8 v.
Definition lay_i64 (v : Z) : bytes := le_bytes 8 (wrap 64 v).
Definition lay_bool (b : bool) : bytes := lay_u8 (if b then 1 else 0).
Definition lay_bytes (bs : bytes) : bytes := lay_u32 (blen bs) ++ bs.

(** Reading operations keep the data, never move the offset out of it, and do
    nothing but fail once the reader has failed. *)
Definition reader_wf (r : CanonicalReader) : Prop := 0 <= r_offset r <= blen (r_data r).
Definition reads_safely {A} (m : Read A) : Prop := forall r,
  reader_wf r ->
  r_data (m r).2 = r_data r /\ r_offset r <= r_offset (m r).2 <= blen (r_data r) /\
  (r_ok r = false -> r_ok (m r).2 = false).

(** What the encoders return: the buffer, or the empty string when a write failed. *)
Definition finish (w : CanonicalWriter) : bytes := if w_ok w then w_buffer w else [].

(** What the durable store and the wire rely on of a payload type: an encoder, a
    decoder under the runtime's limits, and the round trip on accepted values. *)
Class PayloadCodec (A : Type) := {
  pc_put : A -> Put;
  pc_read : RuntimeLimits -> Read A;
  pc_layout : A -> bytes;
  pc_wf : RuntimeLimits -> A -> bool;
  pc_writes : forall limits a, pc_wf limits a = true -> writes (pc_put a) (pc_layout a);
  pc_decodes : forall limits a, pc_wf limits a = true -> decodes (pc_read limits) (pc_layout a) a;
}.

Definition encode_payload {A} `{PayloadCodec A} (a : A) : bytes := finish (pc_put a writer_empty).

(** The [...Exact] decoders: a payload is accepted when it decodes and nothing
    follows it. *)
Definition read_exact {A} (m : Read A) (payload : bytes) : option A :=
  match m (reader_of payload) with
  | (Some a, r) => if AtEnd r then Some a else None
  | (None, _) => None
  end.

Definition decode_payload {A} `{PayloadCodec A} (limits : RuntimeLimits) (payload : bytes)
  : option A := read_exact (pc_read limits) payload.

(** ** Facts on the writer *)

Lemma writes_nop : writes put_nop [].
Proof.
  intros [buf [|]] Hwf; simpl; [|done]. unfold writer_wf in Hwf. simpl in Hwf.
  rewrite blen_nil, Z.add_0_r. rewrite (proj2 (Z.leb_le _ _)) by auto.
  by rewrite app_nil_r.
Qed.

Lemma writes_wf p bs w : writes p bs -> writer_wf w -> writer_wf (p w).
Proof.
  intros H Hw. specialize (H w Hw). intros Hok.
  destruct (_ && _) eqn:E in H; [|congruence]. rewrite H. bool_hyps. simpl.
  rewrite blen_app. lia.
Qed.

Lemma writes_seq p q b1 b2 : writes p b1 -> writes q b2 -> writes (p ;+ q) (b1 ++ b2).
Proof.
  intros Hp Hq w Hw. unfold put_seq.
  pose proof (writes_wf _ _ _ Hp Hw) as Hw'. specialize (Hp w Hw).
  specialize (Hq (p w) Hw'). rewrite blen_app.
  pose proof (blen_nonneg b1). pose proof (blen_nonneg b2).
  destruct (w_ok w && (blen (w_buffer w) + blen b1 <=? kMaxCanonicalBytes)) eqn:E.
  - apply andb_true_iff in E as [-> E]. rewrite Hp in Hq |- *.
    cbn [w_ok w_buffer] in Hq. rewrite blen_app, <- Z.add_assoc, <- app_assoc in Hq. done.
  - rewrite Hp in Hq. cbn [andb] in Hq.
    destruct (w_ok w) eqn:Ew; cbn [andb] in *; [|done]. bool_hyps.
    destruct (_ <=? _) eqn:E'; [bool_hyps; lia|done].
Qed.

Lemma writes_each {A} (f : A -> Put) (g : A -> bytes) l :
  Forall (fun a => writes (f a) (g a)) l -> writes (put_each f l) (concat (map g l)).
Proof.
  induction 1 as [|a l Ha Hl IH]; [apply writes_nop|].
  exact (writes_seq _ _ _ _ Ha IH).
Qed.

Lemma Reserve_room n w :
  0 <= n -> w_ok w = true -> blen (w_buffer w) + n <= kMaxCanonicalBytes -> Reserve n w = w.
Proof.
  intros Hn Hok Hroom. unfold Reserve. rewrite Hok. cbn [negb].
  pose proof (blen_nonneg (w_buffer w)).
  destruct (_ || _) eqn:E; [|done]. apply orb_true_iff in E as [E|E]; bool_hyps; lia.
Qed.

Lemma Reserve_full n w :
  kMaxCanonicalBytes < blen (w_buffer w) + n -> w_ok (Reserve n w) = false.
Proof.
  intros H. unfold Reserve. destruct (w_ok w) eqn:E; cbn [negb]; [|done].
  destruct (_ || _) eqn:E'; [done|]. bool_hyps. lia.
Qed.

Lemma Reserve_failed n w : w_ok w = false -> Reserve n w = w.
Proof. intros H. unfold Reserve. by rewrite H. Qed.

(** The pattern of every primitive: reserve, then append when still ok. *)
Lemma writes_reserved bs :
  writes (fun w => let w := Reserve (blen bs) w in if w_ok w then writer_append bs w else w) bs.
Proof.
  intros w Hw. pose proof (blen_nonneg bs). cbv zeta.
  destruct (w_ok w) eqn:Ew; cbn [andb].
  - destruct (_ <=? _) eqn:E; bool_hyps.
    + rewrite Reserve_room by done. unfold writer_append. by rewrite Ew.
    + by rewrite !(Reserve_full (blen bs)).
  - rewrite Reserve_failed by done. by rewrite Ew.
Qed.

Lemma writes_U8 v : writes (PutU8 v) [byte_of_Z v].
Proof. exact (writes_reserved [byte_of_Z v]). Qed.

Lemma byte_of_land z : byte_of_Z (Z.land z 255) = byte_of_Z z.
Proof.
  apply byte_to_Z_inj. rewrite !byte_to_of_Z.
  change 255 with (Z.ones 8). rewrite Z.land_ones by lia. by rewrite Z.mod_mod.
Qed.

Lemma le_bytes_shifts n v k :
  0 <= v ->
  map (fun i => byte_of_Z (Z.land (Z.shiftr v (8 * Z.of_nat i)) 255)) (seq k n) =
  le_bytes n (Z.shiftr v (8 * Z.of_nat k)).
Proof.
  intros Hv. revert k. induction n as [|n IH]; intros k; [done|].
  cbn [seq map le_bytes]. rewrite byte_of_land, IH. f_equal. f_equal.
  rewrite Z.shiftr_shiftr by lia. f_equal. lia.
Qed.

Lemma writes_shifts n v :
  writes (put_each (fun shift => PutU8 (Z.land (Z.shiftr v shift) 255)) (le_shifts n))
         (concat (map (fun i => [byte_of_Z (Z.land (Z.shiftr v (8 * Z.of_nat i)) 255)]) (seq 0 n))).
Proof.
  unfold le_shifts. rewrite <- (map_map (fun i => 8 * Z.of_nat i)
    (fun shift => [byte_of_Z (Z.land (Z.shiftr v shift) 255)])).
  apply writes_each. apply Forall_true. intros. apply writes_U8.
Qed.

Lemma concat_singletons {A C} (f : A -> C) l : concat (map (fun a => [f a]) l) = map f l.
Proof. induction l as [|a l IH]; [done|]. simpl. by rewrite IH. Qed.

Lemma writes_le n v : 0 <= v ->
  writes (put_each (fun shift => PutU8 (Z.land (Z.shiftr v shift) 255)) (le_shifts n))
         (le_bytes n v).
Proof.
  intros Hv. pose proof (writes_shifts n v) as H.
  rewrite concat_singletons, le_bytes_shifts in H by done.
  by rewrite Z.shiftr_0_r in H.
Qed.

Lemma u_nonneg w v : in_unsigned w v = true -> 0 <= v.
Proof. unfold in_unsigned. intros. by bool_hyps. Qed.

Lemma wrap_nonneg w v : 0 <= w -> 0 <= wrap w v.
Proof. intros. unfold wrap. apply Z.mod_pos_bound. lia. Qed.

Lemma writes_u8 v : writes (PutU8 v) (lay_u8 v).
Proof. apply writes_U8. Qed.

Lemma writes_u16 v : 0 <= v -> writes (PutU16 v) (lay_u16 v).
Proof.
  intros Hv. unfold PutU16, lay_u16. cbn [le_bytes].
  rewrite <- (byte_of_land v), <- (byte_of_land (Z.shiftr v 8)).
  apply (writes_seq _ _ [_] [_]); apply writes_U8.
Qed.

Lemma writes_u32 v : 0 <= v -> writes (PutU32 v) (lay_u32 v).
Proof. apply writes_le. Qed.

Lemma writes_u64 v : 0 <= v -> writes (PutU64 v) (lay_u64 v).
Proof. apply writes_le. Qed.

Lemma writes_i64 v : writes (PutI64 v) (lay_i64 v).
Proof. apply writes_le. by apply wrap_nonneg. Qed.

Lemma writes_bool b : writes (PutBool b) (lay_bool b).
Proof. apply writes_U8. Qed.

Lemma writes_bytes bs : writes (PutBytes bs) (lay_bytes bs).
Proof.
  intros w Hw. unfold PutBytes, lay_bytes. cbv zeta.
  pose proof (writes_seq _ _ _ _ (writes_u32 (blen bs) (blen_nonneg _)) (writes_reserved bs) w Hw)
    as H.
  pose proof (blen_nonneg (w_buffer w)).
  destruct (0xffffffff <? blen bs) eqn:E.
  - bool_hyps. rewrite blen_app. pose proof (blen_nonneg (lay_u32 (blen bs))).
    rewrite (proj2 (Z.leb_gt _ _)), andb_false_r; [done|]. unfold kMaxCanonicalBytes. lia.
  - unfold put_seq in H. revert H. cbv zeta. destruct (w_ok (PutU32 _ w)) eqn:Eo; cbn [negb].
    + done.
    + rewrite (Reserve_failed (blen bs)) by done. rewrite !Eo. by destruct (_ && _).
Qed.

Lemma writes_digest d : writes (PutDigest d) d.
Proof.
  intros w Hw. pose proof (writes_reserved d w Hw) as H. unfold PutDigest.
  cbv zeta beta in *. destruct (w_ok (Reserve _ _)); exact H.
Qed.

#[export] Hint Resolve writes_nop writes_u8 writes_u16 writes_u32 writes_u64
  writes_i64 writes_bool writes_bytes writes_digest u_nonneg blen_nonneg : codec.

(** A fresh writer holds exactly the layout, up to the ceiling. *)
Lemma writes_fresh p bs :
  writes p bs -> blen bs <= kMaxCanonicalBytes -> p writer_empty = mkWriter bs true.
Proof.
  intros H Hl. specialize (H writer_empty). cbn in H.
  rewrite blen_nil, Z.add_0_l, (proj2 (Z.leb_le _ _) Hl) in H.
  apply H. unfold writer_wf, kMaxCanonicalBytes. simpl. rewrite blen_nil. lia.
Qed.

Lemma writes_overflow p bs :
  writes p bs -> kMaxCanonicalBytes < blen bs -> w_ok (p writer_empty) = false.
Proof.
  intros H Hl. specialize (H writer_empty). cbn in H.
  rewrite blen_nil, Z.add_0_l, (proj2 (Z.leb_gt _ _) Hl) in H.
  apply H. unfold writer_wf, kMaxCanonicalBytes. simpl. rewrite blen_nil. lia.
Qed.

(** ** Facts on the reader *)

Lemma decodes_ret {A} (a : A) : decodes (mret a) [] a.
Proof. intros pre post. unfold mret, Read_ret. by rewrite blen_nil, Z.add_0_r. Qed.

Lemma decodes_bind {A C} (m : Read A) (f : A -> Read C) b1 b2 a c :
  decodes m b1 a -> decodes (f a) b2 c -> decodes (m ≫= f) (b1 ++ b2) c.
Proof.
  intros Hm Hf pre post. unfold mbind, Read_bind.
  specialize (Hm pre (b2 ++ post)). specialize (Hf (pre ++ b1) post).
  rewrite <- !app_assoc in *. rewrite Hm. rewrite blen_app in *. rewrite Hf.
  by rewrite Z.add_assoc.
Qed.

Lemma decodes_require {A} (b : bool) (k : unit -> Read A) bs a :
  b = true -> decodes (k tt) bs a -> decodes (require b ≫= k) bs a.
Proof. intros -> H pre post. apply H. Qed.

(** The last reading step: what follows it reads nothing. *)
Lemma decodes_end {A C} (m : Read A) (f : A -> Read C) bs a c :
  decodes m bs a -> decodes (f a) [] c -> decodes (m ≫= f) bs c.
Proof.
  intros H Hf. rewrite <- (app_nil_r bs). by eapply decodes_bind.
Qed.

(** A step that reads nothing. *)
Lemma decodes_silent {A C} (m : Read A) (f : A -> Read C) bs a c :
  decodes m [] a -> decodes (f a) bs c -> decodes (m ≫= f) bs c.
Proof. intros Hm Hf. exact (decodes_bind _ _ [] bs _ _ Hm Hf). Qed.

Lemma lookup_middle_bytes (pre post : bytes) b :
  (pre ++ b :: post) !! Z.to_nat (blen pre) = Some b.
Proof.
  unfold blen. rewrite Nat2Z.id. rewrite lookup_app_r by done.
  by rewrite Nat.sub_diag.
Qed.

Lemma decodes_byte b : decodes ReadU8 [b] (byte_to_Z b).
Proof.
  intros pre post. unfold ReadU8. cbn [r_ok r_data r_offset negb orb].
  pose proof (blen_nonneg post).
  rewrite (proj2 (Z.ltb_ge _ _)).
  2: { rewrite !blen_app, blen_cons, blen_nil. lia. }
  cbn [app]. by rewrite lookup_middle_bytes.
Qed.

Lemma decodes_u8 v : u8 v = true -> decodes ReadU8 (lay_u8 v) v.
Proof.
  intros H. pose proof (decodes_byte (byte_of_Z v)) as Hd.
  rewrite byte_to_of_Z in Hd. unfold in_unsigned in H. bool_hyps.
  change (2 ^ 8) with 256 in *. by rewrite Z.mod_small in Hd.
Qed.

(** Or-ing a byte shifted above the value read so far adds it. *)
Lemma lor_shift_add value b k :
  0 <= value < 2 ^ k -> 0 <= k -> 0 <= b -> Z.lor value (Z.shiftl b k) = value + 2 ^ k * b.
Proof.
  intros Hv Hk Hb. rewrite (Z.mul_comm (2 ^ k)), <- Z.shiftl_mul_pow2 by lia.
  symmetry. apply Z.add_nocarry_lor. apply Z.bits_inj'. intros n Hn.
  rewrite Z.land_spec, Z.bits_0, Z.shiftl_spec by lia.
  destruct (Z.ltb_spec n k).
  - rewrite (Z.testbit_neg_r b) by lia. apply andb_false_r.
  - by rewrite (proj1 (Z.bounded_iff_bits_nonneg k value ltac:(lia) ltac:(lia)) (proj2 Hv)).
Qed.

(** The byte loop reads the little-endian value above what was read before. *)
Lemma decodes_read_shifts bs : forall k value,
  0 <= value < 2 ^ (8 * Z.of_nat k) ->
  decodes (read_shifts (map (fun i => 8 * Z.of_nat i) (seq k (length bs))) value) bs
          (value + 2 ^ (8 * Z.of_nat k) * le_value bs).
Proof.
  induction bs as [|b bs IH]; intros k value Hv.
  - simpl. rewrite Z.mul_0_r, Z.add_0_r. apply decodes_ret.
  - cbn [length seq map read_shifts]. apply (decodes_bind _ _ [b] bs _ _ (decodes_byte b)).
    pose proof (byte_to_Z_range b).
    rewrite lor_shift_add by lia.
    assert (2 ^ (8 * Z.of_nat (S k)) = 256 * 2 ^ (8 * Z.of_nat k)) as Hp.
    { replace (8 * Z.of_nat (S k)) with (8 + 8 * Z.of_nat k) by lia.
      by rewrite Z.pow_add_r by lia. }
    replace (value + 2 ^ (8 * Z.of_nat k) * le_value (b :: bs)) with
      (value + 2 ^ (8 * Z.of_nat k) * byte_to_Z b + 2 ^ (8 * Z.of_nat (S k)) * le_value bs).
    2: { rewrite Hp. cbn [le_value]. lia. }
    apply IH. rewrite Hp. nia.
Qed.

Lemma decodes_le n v :
  0 <= v < 2 ^ (8 * Z.of_nat n) -> decodes (read_shifts (le_shifts n) 0) (le_bytes n v) v.
Proof.
  intros Hv. pose proof (decodes_read_shifts (le_bytes n v) 0 0) as H.
  rewrite length_le_bytes, le_value_bytes, Z.mod_small in H by done.
  rewrite Z.mul_1_l in H. apply H. lia.
Qed.

Lemma u_range w v : in_unsigned w v = true -> 0 <= v < 2 ^ w.
Proof. unfold in_unsigned. intros. by bool_hyps. Qed.

Lemma decodes_u16 v : u16 v = true -> decodes ReadU16 (lay_u16 v) v.
Proof.
  intros H. apply u_range in H.
  pose proof (decodes_le 2 v H) as Hd. intros pre post. specialize (Hd pre post).
  refine (eq_trans _ Hd). unfold lay_u16, ReadU16, read_shifts, le_shifts. cbn [seq map].
  unfold mbind, Read_bind, mret, Read_ret.
  destruct (ReadU8 _) as [[low|] r1] eqn:E; [|done].
  destruct (ReadU8 r1) as [[high|] r2]; [|done].
  by rewrite Z.shiftl_0_r, Z.lor_0_l.
Qed.

Lemma decodes_u32 v : u32 v = true -> decodes ReadU32 (lay_u32 v) v.
Proof. intros H. apply decodes_le. by apply u_range in H. Qed.

Lemma decodes_u64 v : u64 v = true -> decodes ReadU64 (lay_u64 v) v.
Proof. intros H. apply decodes_le. by apply u_range in H. Qed.

Lemma decodes_i64 v : i64 v = true -> decodes ReadI64 (lay_i64 v) v.
Proof.
  intros H. rewrite <- (app_nil_r (lay_i64 v)).
  eapply decodes_bind.
  - apply decodes_u64. unfold wrap, in_unsigned. apply andb_true_iff.
    pose proof (Z.mod_pos_bound v (2 ^ 64)). split; [apply Z.leb_le|apply Z.ltb_lt]; lia.
  - rewrite to_signed_wrap by done. apply decodes_ret.
Qed.

Lemma decodes_bool b : decodes ReadBool (lay_bool b) b.
Proof.
  rewrite <- (app_nil_r (lay_bool b)). eapply decodes_bind.
  - apply decodes_u8. by destruct b.
  - destruct b; apply decodes_ret.
Qed.

Lemma bytes_at_middle pre bs post n :
  n = blen bs -> bytes_at (mkReader (pre ++ bs ++ post) (blen pre) true) n = bs.
Proof.
  intros ->. unfold bytes_at, blen. cbn [r_offset r_data]. rewrite !Nat2Z.id.
  by rewrite drop_app_length, take_app_length.
Qed.

Lemma remaining_middle pre bs post :
  blen bs <= remaining (mkReader (pre ++ bs ++ post) (blen pre) true).
Proof.
  unfold remaining. cbn. rewrite !blen_app. pose proof (blen_nonneg post). lia.
Qed.

Lemma decodes_bytes bs : blen bs <= kMaxCanonicalBytes -> decodes ReadBytes (lay_bytes bs) bs.
Proof.
  intros Hl. eapply decodes_bind.
  - apply decodes_u32. pose proof (blen_nonneg bs). unfold kMaxCanonicalBytes in Hl.
    apply andb_true_iff. split; [apply Z.leb_le|apply Z.ltb_lt]; lia.
  - intros pre post. unfold read_needed.
    pose proof (remaining_middle pre bs post).
    rewrite (proj2 (Z.ltb_ge _ _)) by lia. rewrite (proj2 (Z.ltb_ge _ _)) by lia.
    by rewrite bytes_at_middle.
Qed.

Lemma decodes_digest d : length d = kSha256Bytes -> decodes ReadDigest d d.
Proof.
  intros Hl pre post. unfold ReadDigest.
  assert (Z.of_nat kSha256Bytes = blen d) as -> by (unfold blen; by rewrite Hl).
  pose proof (remaining_middle pre d post).
  rewrite (proj2 (Z.ltb_ge _ _)) by lia. by rewrite bytes_at_middle.
Qed.

#[export] Hint Resolve decodes_ret decodes_u8 decodes_u16 decodes_u32 decodes_u64 decodes_i64
  decodes_bool decodes_bytes decodes_digest : codec.

(** A loop that folds the elements it reads into a state. *)
Lemma decodes_times {A S} (lay : A -> bytes) (round : S -> Read S) (step : S -> A -> S) :
  forall l s,
  (forall l1 a l2, l = l1 ++ a :: l2 ->
     decodes (round (foldl step s l1)) (lay a) (step (foldl step s l1) a)) ->
  decodes (read_times (length l) round s) (concat (map lay l)) (foldl step s l).
Proof.
  induction l as [|a l IH]; intros s H; [apply decodes_ret|].
  cbn [length read_times map concat foldl]. eapply decodes_bind.
  - exact (H [] a l eq_refl).
  - apply IH. intros l1 a' l2 ->. apply (H (a :: l1) a' l2). done.
Qed.

Lemma decodes_list {A} (element : Read A) (lay : A -> bytes) l :
  Forall (fun a => decodes element (lay a) a) l ->
  decodes (read_list (blen l) element) (concat (map lay l)) l.
Proof.
  intros H. unfold read_list, blen. rewrite Nat2Z.id.
  assert (forall acc, foldl (fun acc a => acc ++ [a]) acc l = acc ++ l) as Hl.
  { clear H. induction l as [|a l IH]; intros acc; simpl; [by rewrite app_nil_r|].
    rewrite IH. by rewrite <- app_assoc. }
  specialize (Hl []). cbn [app] in Hl. rewrite <- Hl at 3.
  apply (decodes_times lay _ (fun acc a => acc ++ [a])). intros l1 a l2 ->.
  apply Forall_app in H as [_ H]. apply Forall_cons in H as [H _].
  rewrite <- (app_nil_r (lay a)). eapply decodes_bind; [exact H|apply decodes_ret].
Qed.

(** Runs a decoder on exactly its layout. *)
Lemma decodes_whole {A} (m : Read A) bs a :
  decodes m bs a -> m (reader_of bs) = (Some a, mkReader bs (blen bs) true).
Proof. intros H. specialize (H [] []). by rewrite app_nil_r in H. Qed.

(** A sequence of writing steps against its layout. *)
Ltac write_steps :=
  repeat first [ solve [eauto 4 with codec]
               | apply writes_seq; [solve [eauto 4 with codec]|] ].

(** One reading step of a decoder against its layout. *)
Ltac decode_step :=
  first
    [ apply decodes_require; [|cbn beta]
    | eapply decodes_bind; [solve [eauto 4 with codec]|cbn beta iota]
    | eapply decodes_end; [solve [eauto 4 with codec]|cbn beta iota]
    | apply decodes_ret ].

Lemma read_exact_ok {A} (m : Read A) bs a : decodes m bs a -> read_exact m bs = Some a.
Proof.
  intros H. unfold read_exact. rewrite (decodes_whole _ _ _ H). unfold AtEnd. cbn.
  by rewrite Z.eqb_refl.
Qed.

(** A decoder run on what its encoder produced. *)
Lemma finish_roundtrip {A} (p : Put) (m : Read A) bs a :
  writes p bs -> decodes m bs a -> finish (p writer_empty) <> [] ->
  read_exact m (finish (p writer_empty)) = Some a.
Proof.
  intros Hw Hd. unfold finish.
  destruct (Z.leb_spec (blen bs) kMaxCanonicalBytes) as [Hl|Hl].
  - rewrite (writes_fresh _ _ Hw Hl). intros _. by apply read_exact_ok.
  - by rewrite (writes_overflow _ _ Hw Hl).
Qed.

Lemma finish_layout p bs :
  writes p bs -> blen bs <= kMaxCanonicalBytes -> finish (p writer_empty) = bs.
Proof. intros Hw Hl. unfold finish. by rewrite (writes_fresh _ _ Hw Hl). Qed.

Section PayloadFacts.
Context {A : Type} `{PayloadCodec A}.

Lemma payload_encodes limits (a : A) :
  pc_wf limits a = true -> blen (pc_layout a) <= kMaxCanonicalBytes ->
  encode_payload a = pc_layout a.
Proof. intros Hwf. apply finish_layout. by apply (pc_writes limits). Qed.

Lemma payload_decodes limits (a : A) :
  pc_wf limits a = true -> decode_payload limits (pc_layout a) = Some a.
Proof. intros Hwf. apply read_exact_ok. by apply pc_decodes. Qed.

(** What was written as a payload is read back as the same value. *)
Lemma payload_roundtrip limits (a : A) :
  pc_wf limits a = true -> encode_payload a <> [] ->
  decode_payload limits (encode_payload a) = Some a.
Proof.
  intros Hwf. apply (finish_roundtrip _ _ (pc_layout a)).
  - by apply (pc_writes limits).
  - by apply pc_decodes.
Qed.
End PayloadFacts.

(** Entries written in key order are read back as the same map. *)
Lemma decodes_map {K V} `{KeyOrder K} (entry : Read (K * V)) (lay : K * V -> bytes) l :
  om_sorted l = true -> Forall (fun e => decodes entry (lay e) e) l ->
  decodes (read_map (blen l) entry) (concat (map lay l)) l.
Proof.
  intros Hs Hl. unfold read_map, blen. rewrite Nat2Z.id.
  assert (forall l1 l2, l = l1 ++ l2 -> foldl (fun m e => om_insert e.1 e.2 m) [] l1 = l1) as Hfold.
  { induction l1 as [|[k v] l1 IH] using rev_ind; intros l2 Heq; [done|].
    rewrite <- app_assoc in Heq. rewrite foldl_app, (IH _ Heq). simpl.
    apply om_insert_snoc. rewrite Heq in Hs. by eapply om_sorted_snoc_lt. }
  rewrite <- (Hfold l [] (eq_sym (app_nil_r l))) at 3.
  apply (decodes_times lay _ (fun m e => om_insert e.1 e.2 m)). intros l1 [k v] l2 Heq.
  rewrite (Hfold l1 _ Heq). rewrite Heq in Hl, Hs.
  apply Forall_app in Hl as [_ Hl]. apply Forall_cons in Hl as [Hl _].
  eapply decodes_end; [exact Hl|]. simpl. unfold om_emplace.
  rewrite om_find_above by (by eapply om_sorted_snoc_lt). apply decodes_ret.
Qed.

Lemma decodes_id id : IsValidIdentityText id = true -> decodes read_id (lay_bytes id) id.
Proof.
  intros H. eapply decodes_end.
  - apply decodes_bytes. apply IsValidIdentityText_length in H.
    unfold kMaxIdentityLength, kMaxCanonicalBytes in *. lia.
  - cbn. rewrite StringId_TryParse_ok by done. apply decodes_ret.
Qed.

#[export] Hint Resolve decodes_id : codec.

(** ** Safety of reading *)

Lemma safe_ret {A} (a : A) : reads_safely (mret a).
Proof. intros r Hr. unfold reader_wf in Hr. simpl. repeat split; lia || done. Qed.

Lemma safe_bind {A C} (m : Read A) (f : A -> Read C) :
  reads_safely m -> (forall a, reads_safely (f a)) -> reads_safely (m ≫= f).
Proof.
  intros Hm Hf r Hr. destruct (Hm r Hr) as (Hd & Ho & Hk).
  unfold mbind, Read_bind. destruct (m r) as [[a|] r1]; simpl in *; [|done].
  destruct (Hf a r1) as (Hd' & Ho' & Hk').
  - unfold reader_wf in *. rewrite Hd. lia.
  - rewrite Hd in *. repeat split; [congruence|lia|lia|auto].
Qed.

Lemma safe_ReadU8 : reads_safely ReadU8.
Proof.
  intros r Hr. unfold reader_wf in Hr. unfold ReadU8.
  destruct (_ || _) eqn:E; [simpl; repeat split; lia || done|].
  bool_hyps. destruct (_ !! _); simpl; repeat split; lia || done.
Qed.

Lemma safe_shifts shifts value : reads_safely (read_shifts shifts value).
Proof.
  revert value. induction shifts as [|s shifts IH]; intros value; [apply safe_ret|].
  apply safe_bind; [apply safe_ReadU8|auto].
Qed.

Lemma safe_needed needed : 0 <= needed -> reads_safely (read_needed needed).
Proof.
  intros Hn r Hr. unfold reader_wf in Hr. unfold read_needed, remaining.
  destruct (r_ok r) eqn:E; destruct (_ <? needed) eqn:E1; simpl; bool_hyps;
    try (repeat split; lia || done).
  all: destruct (_ <? needed) eqn:E2; simpl; repeat split; lia || done.
Qed.

Lemma safe_ReadDigest : reads_safely ReadDigest.
Proof.
  intros r Hr. unfold reader_wf in Hr. unfold ReadDigest, remaining.
  destruct (r_ok r) eqn:E; destruct (_ <? _) eqn:E1; simpl; bool_hyps;
    repeat split; lia || done.
Qed.

Lemma read_shifts_nonneg shifts : forall value r v,
  0 <= value -> (read_shifts shifts value r).1 = Some v -> 0 <= v.
Proof.
  induction shifts as [|s shifts IH]; intros value r v Hv; simpl.
  - by intros [= <-].
  - unfold mbind, Read_bind. destruct (ReadU8 r) as [[b|] r'] eqn:E; [|done].
    apply IH. apply Z.lor_nonneg. split; [done|]. apply Z.shiftl_nonneg.
    unfold ReadU8 in E. destruct (_ || _); [done|].
    destruct (_ !! _) as [b'|]; [|done]. injection E as <- _.
    by apply byte_to_Z_range.
Qed.

Lemma safe_ReadBytes : reads_safely ReadBytes.
Proof.
  intros r Hr. destruct (safe_shifts (le_shifts 4) 0 r Hr) as (Hd & Ho & Hk).
  unfold ReadBytes, mbind, Read_bind. change (read_shifts (le_shifts 4) 0) with ReadU32 in *.
  destruct (ReadU32 r) as [[needed|] r1] eqn:E; simpl in *; [|done].
  assert (0 <= needed) as Hn.
  { apply (read_shifts_nonneg (le_shifts 4) 0 r); [done|].
    change (read_shifts (le_shifts 4) 0) with ReadU32. by rewrite E. }
  destruct (safe_needed needed Hn r1) as (Hd' & Ho' & Hk').
  - unfold reader_wf in *. rewrite Hd. lia.
  - rewrite Hd in *. repeat split; [congruence|lia|lia|auto].
Qed.

#[export] Hint Resolve safe_ret safe_bind safe_ReadU8 safe_shifts safe_ReadDigest
  safe_ReadBytes : codec.

(** ** Soundness of reading: what a decoder returns is well-formed *)

Definition yields {A} (m : Read A) (P : A -> Prop) : Prop := forall r a r',
  reader_wf r -> m r = (Some a, r') -> P a /\ reader_wf r'.

Lemma yields_ret {A} (a : A) (P : A -> Prop) : P a -> yields (mret a) P.
Proof. intros H r a' r' Hr [= <- <-]. done. Qed.

Lemma yields_refuse {A} (P : A -> Prop) : yields refuse P.
Proof. intros r a r' Hr [=]. Qed.

Lemma yields_bind {A C} (m : Read A) (f : A -> Read C) P Q :
  yields m P -> (forall a, P a -> yields (f a) Q) -> yields (m ≫= f) Q.
Proof.
  intros Hm Hf r c r' Hr. unfold mbind, Read_bind.
  destruct (m r) as [[a|] r1] eqn:E; [|done]. destruct (Hm r a r1 Hr E).
  by apply Hf.
Qed.

Lemma yields_require {A} b (k : unit -> Read A) Q :
  (b = true -> yields (k tt) Q) -> yields (require b ≫= k) Q.
Proof. intros H. destruct b; [by apply H|]. intros r a r' Hr [=]. Qed.

Lemma yields_weaken {A} (m : Read A) (P Q : A -> Prop) :
  yields m P -> (forall a, P a -> Q a) -> yields m Q.
Proof. intros H HPQ r a r' Hr E. destruct (H r a r' Hr E). auto. Qed.

Lemma yields_safe {A} (m : Read A) (P : A -> Prop) :
  reads_safely m -> (forall r a r', reader_wf r -> m r = (Some a, r') -> P a) -> yields m P.
Proof.
  intros Hs HP r a r' Hr E. split; [by eapply HP|].
  destruct (Hs r Hr) as (Hd & Ho & _). rewrite E in Hd, Ho. simpl in *.
  unfold reader_wf in *. rewrite Hd. lia.
Qed.

Lemma in_unsigned_intro w v : 0 <= v < 2 ^ w -> in_unsigned w v = true.
Proof. intros H. apply andb_true_iff. split; [apply Z.leb_le|apply Z.ltb_lt]; lia. Qed.

Lemma yields_u8 : yields ReadU8 (fun v => u8 v = true).
Proof.
  apply yields_safe; [apply safe_ReadU8|]. intros r v r' Hr E. unfold ReadU8 in E.
  destruct (_ || _); [done|]. destruct (_ !! _) as [b|]; [|done]. injection E as <- _.
  apply in_unsigned_intro. apply (byte_to_Z_range b).
Qed.

Lemma yields_shifts n : forall k value,
  0 <= value < 2 ^ (8 * Z.of_nat k) ->
  yields (read_shifts (map (fun i => 8 * Z.of_nat i) (seq k n)) value)
         (fun v => 0 <= v < 2 ^ (8 * Z.of_nat (k + n))).
Proof.
  induction n as [|n IH]; intros k value Hv; simpl.
  - rewrite Nat.add_0_r. by apply yields_ret.
  - eapply yields_bind; [apply yields_u8|]. intros b Hb. apply u_range in Hb.
    rewrite lor_shift_add by lia. rewrite <- Nat.add_succ_comm. apply IH.
    replace (8 * Z.of_nat (S k)) with (8 + 8 * Z.of_nat k) by lia.
    rewrite Z.pow_add_r by lia. change (2 ^ 8) with 256 in *. nia.
Qed.

Lemma yields_u32 : yields ReadU32 (fun v => u32 v = true).
Proof.
  eapply yields_weaken; [apply (yields_shifts 4 0 0); lia|]. apply in_unsigned_intro.
Qed.

Lemma yields_u64 : yields ReadU64 (fun v => u64 v = true).
Proof.
  eapply yields_weaken; [apply (yields_shifts 8 0 0); lia|]. apply in_unsigned_intro.
Qed.

Lemma yields_u16 : yields ReadU16 (fun v => u16 v = true).
Proof.
  eapply yields_bind; [apply yields_u8|]. intros low Hl.
  eapply yields_bind; [apply yields_u8|]. intros high Hh. apply yields_ret.
  apply u_range in Hl, Hh. change (2 ^ 8) with 256 in *. apply in_unsigned_intro.
  rewrite (lor_shift_add _ _ 8) by lia. lia.
Qed.

Lemma yields_i64 : yields ReadI64 (fun v => i64 v = true).
Proof.
  eapply yields_bind; [apply yields_u64|]. intros v Hv. apply yields_ret.
  apply u_range in Hv. unfold to_signed, in_signed.
  destruct (Z.ltb_spec v (2 ^ (64 - 1))); apply andb_true_iff;
    (split; [apply Z.leb_le|apply Z.ltb_lt]); lia.
Qed.

Lemma yields_bool : yields ReadBool (fun _ => True).
Proof. eapply yields_bind; [apply yields_u8|]. intros. by apply yields_ret. Qed.

Lemma bytes_at_length r n :
  reader_wf r -> 0 <= n <= blen (r_data r) - r_offset r -> blen (bytes_at r n) = n.
Proof.
  unfold reader_wf, bytes_at, blen. intros Hr Hn. rewrite length_take, length_drop. lia.
Qed.

Lemma yields_bytes : yields ReadBytes (fun bs => blen bs <= kMaxCanonicalBytes).
Proof.
  eapply yields_bind; [apply yields_u32|]. intros n Hn. apply u_range in Hn.
  apply yields_safe; [apply safe_needed; lia|]. intros r bs r' Hr E.
  revert E. unfold read_needed, remaining. destruct (r_ok r).
  all: destruct (_ <? n) eqn:E1; [done|]; destruct (kMaxCanonicalBytes <? n) eqn:E2; [done|];
    intros [= <- _]; bool_hyps.
  - rewrite bytes_at_length by (done || lia). lia.
  - assert (n = 0) as -> by lia. unfold bytes_at, blen. simpl. unfold kMaxCanonicalBytes. lia.
Qed.

Lemma yields_digest : yields ReadDigest (fun d => length d = kSha256Bytes).
Proof.
  apply yields_safe; [apply safe_ReadDigest|]. intros r d r' Hr E.
  unfold ReadDigest, remaining in E. destruct (_ <? _) eqn:E1 in E; [done|].
  injection E as <- _. bool_hyps. destruct (r_ok r); [|unfold kSha256Bytes in *; lia].
  pose proof (bytes_at_length r (Z.of_nat kSha256Bytes) Hr) as H.
  unfold blen in H. unfold blen, kSha256Bytes in *. lia.
Qed.

Lemma yields_id : yields read_id (fun id => IsValidIdentityText id = true).
Proof.
  eapply yields_bind; [apply yields_bytes|]. intros text _. unfold StringId_TryParse.
  destruct (IsValidIdentityText text) eqn:E; simpl; [by apply yields_ret|apply yields_refuse].
Qed.

Lemma yields_times {A} (round : A -> Read A) (I : nat -> A -> Prop) n : forall k acc,
  I k acc -> (forall k acc, I k acc -> yields (round acc) (I (S k))) ->
  yields (read_times n round acc) (I (k + n)%nat).
Proof.
  induction n as [|n IH]; intros k acc Hk Hround; simpl.
  - rewrite Nat.add_0_r. by apply yields_ret.
  - eapply yields_bind; [by apply Hround|]. intros acc' Hacc'.
    rewrite <- Nat.add_succ_comm. by apply IH.
Qed.

Lemma yields_list {A} (element : Read A) (P : A -> Prop) n :
  0 <= n -> yields element P ->
  yields (read_list n element) (fun l => blen l = n /\ Forall P l).
Proof.
  intros Hn He. eapply yields_weaken.
  - apply (yields_times _ (fun k l => length l = k /\ Forall P l) _ 0); [by split|].
    intros k l [Hl HP]. eapply yields_bind; [exact He|]. intros a Ha. apply yields_ret.
    rewrite length_app, Hl. simpl. split; [lia|]. apply Forall_app. by repeat constructor.
  - intros l [Hl HP]. split; [|done]. unfold blen. lia.
Qed.

Lemma yields_map {K V} `{KeyOrder K} (entry : Read (K * V)) (P : K * V -> Prop) n :
  0 <= n -> yields entry P ->
  yields (read_map n entry) (fun m => blen m = n /\ om_sorted m = true /\ Forall P m).
Proof.
  intros Hn He. eapply yields_weaken.
  - apply (yields_times _ (fun k m => length m = k /\ om_sorted m = true /\ Forall P m) _ 0);
      [by repeat split|].
    intros k m (Hl & Hs & HP). eapply yields_bind; [exact He|]. intros [key v] Hkv. cbn.
    unfold om_emplace. destruct (om_find key m) eqn:E; [apply yields_refuse|].
    apply yields_ret. rewrite om_length_insert_new by done. rewrite Hl.
    split; [done|]. split; [by apply om_sorted_insert|by apply om_insert_Forall].
  - intros m (Hl & Hs & HP). repeat split; [|done|done]. unfold blen. lia.
Qed.

Lemma yields_exact {A} (m : Read A) (P : A -> Prop) bs a :
  yields m P -> read_exact m bs = Some a -> P a.
Proof.
  intros H. unfold read_exact. destruct (m (reader_of bs)) as [[a'|] r] eqn:E; [|done].
  destruct (AtEnd r); [|done]. intros [= <-].
  apply (H (reader_of bs) a' r); [|done]. unfold reader_wf. simpl. pose proof (blen_nonneg bs). lia.
Qed.

#[export] Hint Resolve yields_u8 yields_u16 yields_u32 yields_u64 yields_i64 yields_bool
  yields_bytes yields_digest yields_id yields_refuse : yields.

(** One step of a soundness proof: introduces what the step guarantees. *)
Ltac yield_step :=
  first
    [ apply yields_require; intros ?
    | eapply yields_bind; [solve [eauto 4 with yields]|cbn beta; intros ? ?]
    | apply yields_ret
    | apply yields_refuse ].

(** ** Properties *)

(** Every primitive of the canonical codec reads back, from any position of any
    buffer, exactly the value that was written there, for every value of its
    width; the 16, 32 and 64-bit loops included. *)
Theorem canonical_primitives_roundtrip (n8 n16 n32 n64 i : Z) (b : bool) (text digest : bytes) :
  u8 n8 && u16 n16 && u32 n32 && u64 n64 && i64 i &&
    (blen text + 87 <=? kMaxCanonicalBytes) && (blen digest =? 32) = true ->
  let w := (PutU8 n8 ;+ PutU16 n16 ;+ PutU32 n32 ;+ PutU64 n64 ;+ PutI64 i ;+ PutBool b ;+
            PutBytes text ;+ PutDigest digest) writer_empty in
  w_ok w = true /\
  exists r,
    (a8 ← ReadU8; a16 ← ReadU16; a32 ← ReadU32; a64 ← ReadU64; ai ← ReadI64; ab ← ReadBool;
     atext ← ReadBytes; adigest ← ReadDigest;
     mret (a8, a16, a32, a64, ai, ab, atext, adigest)) (reader_of (w_buffer w)) =
    (Some (n8, n16, n32, n64, i, b, text, digest), r) /\ AtEnd r = true.
Proof.
  intros H. bool_hyps.
  set (lay := lay_u8 n8 ++ lay_u16 n16 ++ lay_u32 n32 ++ lay_u64 n64 ++ lay_i64 i ++
              lay_bool b ++ lay_bytes text ++ digest).
  assert (writes (PutU8 n8 ;+ PutU16 n16 ;+ PutU32 n32 ;+ PutU64 n64 ;+ PutI64 i ;+
                  PutBool b ;+ PutBytes text ;+ PutDigest digest) lay) as Hw
    by (unfold lay; write_steps).
  assert (length digest = kSha256Bytes) as Hd by (unfold blen, kSha256Bytes in *; lia).
  rewrite (writes_fresh _ _ Hw).
  2: { unfold lay, lay_u8, lay_u16, lay_u32, lay_u64, lay_i64, lay_bool, lay_u8, lay_bytes,
       lay_u32. rewrite !blen_app, !blen_cons, !blen_nil. unfold blen at 1 2 3 4 5.
       rewrite !length_le_bytes. lia. }
  split; [done|]. eexists. split.
  - apply decodes_whole. unfold lay. assert (blen text <= kMaxCanonicalBytes) by lia.
    repeat decode_step.
  - apply Z.eqb_refl.
Qed.

Lemma canonical_primitives_roundtrip_witness :
  let w := (PutU8 255 ;+ PutU16 65535 ;+ PutU32 305419896 ;+ PutU64 (2 ^ 64 - 1) ;+ PutI64 (-1) ;+
            PutBool true ;+ PutBytes (B "mtu") ;+ PutDigest zero_digest) writer_empty in
  w_ok w = true.
Proof.
  apply (canonical_primitives_roundtrip 255 65535 305419896 (2 ^ 64 - 1) (-1) true (B "mtu") zero_digest).
  vm_compute. reflexivity.
Defined.

(** No read moves the offset backwards or past the end of the buffer, changes the
    buffer, or revives a reader that has failed. *)
Theorem canonical_reader_safe :
  reads_safely ReadU8 /\ reads_safely ReadU16 /\ reads_safely ReadU32 /\ reads_safely ReadU64 /\
  reads_safely ReadI64 /\ reads_safely ReadBool /\ reads_safely ReadBytes /\
  reads_safely ReadDigest.
Proof.
  assert (reads_safely ReadU16).
  { apply safe_bind; [apply safe_ReadU8|]. intros. apply safe_bind; eauto with codec. }
  assert (reads_safely ReadI64) by (apply safe_bind; [apply safe_shifts|eauto with codec]).
  assert (reads_safely ReadBool) by (apply safe_bind; eauto with codec).
  eauto 12 using safe_shifts, safe_ReadU8, safe_ReadBytes, safe_ReadDigest.
Qed.
