(* ===== verification/Value.v ===== *)
(** * Attribute values and subject states (value.hpp, value.cpp)

    An attribute value is one of six kinds or invalid; a subject state is an
    ordered map from attribute keys to values.  The canonical codec of both, with
    their round trips. *)

From Stdlib Require Import String ZArith Lia DecimalString.
From stdpp Require Import prelude.
From S2P Require Import Prelude OrdMap Hash Status Identity Canonical.
Local Open Scope Z_scope.

(** ** Definitions *)

(** Models [kMaxAttributeTextLength], include/summon/fabric_reconciliation/value.hpp:26-27. *)
Definition kMaxAttributeTextLength : Z := 4096.

(** Models [AttributeKind], include/summon/fabric_reconciliation/value.hpp:29-40. *)
Inductive AttributeKind :=
| AK_Invalid | AK_Absent | AK_Boolean | AK_Integer | AK_Unsigned | AK_Text | AK_Token.

#[export] Instance AttributeKind_eq : EqDecision AttributeKind.
Proof. solve_decision. Defined.

Definition AttributeKind_to_Z (k : AttributeKind) : Z :=
  match k with
  | AK_Invalid => 0 | AK_Absent => 1 | AK_Boolean => 2 | AK_Integer => 3
  | AK_Unsigned => 4 | AK_Text => 5 | AK_Token => 6
  end.

(** Models [ToText], src/value.cpp:9-20. *)
Definition AttributeKind_ToText (k : AttributeKind) : bytes :=
  match k with
  | AK_Invalid => B "INVALID" | AK_Absent => B "ABSENT" | AK_Boolean => B "BOOLEAN"
  | AK_Integer => B "INTEGER" | AK_Unsigned => B "UNSIGNED" | AK_Text => B "TEXT"
  | AK_Token => B "TOKEN"
  end.

(** Models [TryParseAttributeKind], src/value.cpp:22-34. *)
Definition TryParseAttributeKind (view : bytes) : option AttributeKind :=
  if text_eqb view (B "ABSENT") then Some AK_Absent
  else if text_eqb view (B "BOOLEAN") then Some AK_Boolean
  else if text_eqb view (B "INTEGER") then Some AK_Integer
  else if text_eqb view (B "UNSIGNED") then Some AK_Unsigned
  else if text_eqb view (B "TEXT") then Some AK_Text
  else if text_eqb view (B "TOKEN") then Some AK_Token
  else None.

(** Models [AttributeValue], include/summon/fabric_reconciliation/value.hpp:45-93.
    The private fields are only set by the factories and the default constructor,
    so a value is one of the constructors with its payload. *)
Inductive AttributeValue :=
| AV_Invalid
| AV_Absent
| AV_Boolean (input : bool)
| AV_Integer (input : Z)
| AV_Unsigned (input : Z)
| AV_Text (input : bytes)
| AV_Token (input : bytes).

#[export] Instance AttributeValue_eq : EqDecision AttributeValue.
Proof. solve_decision. Defined.

Definition av_kind (v : AttributeValue) : AttributeKind :=
  match v with
  | AV_Invalid => AK_Invalid | AV_Absent => AK_Absent | AV_Boolean _ => AK_Boolean
  | AV_Integer _ => AK_Integer | AV_Unsigned _ => AK_Unsigned | AV_Text _ => AK_Text
  | AV_Token _ => AK_Token
  end.

Definition av_eqb (a b : AttributeValue) : bool := bool_decide (a = b).

(** Models [AttributeValue::ComparableWith],
    include/summon/fabric_reconciliation/value.hpp:68-72. *)
Definition ComparableWith (a other : AttributeValue) : bool :=
  bool_decide (av_kind a = av_kind other) && negb (bool_decide (av_kind a = AK_Invalid)).

(** Models [AttributeValue::IsValid], src/value.cpp:77-91. *)
Definition AttributeValue_IsValid (v : AttributeValue) : bool :=
  match v with
  | AV_Invalid => false
  | AV_Absent | AV_Boolean _ | AV_Integer _ | AV_Unsigned _ => true
  | AV_Text text | AV_Token text => blen text <=? kMaxAttributeTextLength
  end.

(** Models [AttributeValue::Encode], src/value.cpp:93-113. *)
Definition AttributeValue_Encode (v : AttributeValue) : Put :=
  PutU8 (AttributeKind_to_Z (av_kind v)) ;+
  match v with
  | AV_Boolean b => PutBool b
  | AV_Integer n => PutI64 n
  | AV_Unsigned n => PutU64 n
  | AV_Text text | AV_Token text => PutBytes text
  | AV_Absent | AV_Invalid => put_nop
  end.

(** Models [AttributeValue::Decode], src/value.cpp:115-169. *)
Definition AttributeValue_Decode : Read AttributeValue :=
  raw_kind ← ReadU8;
  if raw_kind =? 1 then mret AV_Absent
  else if raw_kind =? 2 then flag ← ReadBool; mret (AV_Boolean flag)
  else if raw_kind =? 3 then number ← ReadI64; mret (AV_Integer number)
  else if raw_kind =? 4 then number ← ReadU64; mret (AV_Unsigned number)
  else if (raw_kind =? 5) || (raw_kind =? 6) then
    text ← ReadBytes;
    _ ← require (blen text <=? kMaxAttributeTextLength);
    mret (if raw_kind =? 5 then AV_Text text else AV_Token text)
  else refuse.

(** [std::to_string] of an integer. *)
Definition to_string (n : Z) : bytes :=
  String.list_byte_of_string (NilZero.string_of_int (Z.to_int n)).

(** Models [AttributeValue::Render], src/value.cpp:171-189. *)
Definition AttributeValue_Render (v : AttributeValue) : bytes :=
  match v with
  | AV_Absent => B "<absent>"
  | AV_Boolean b => if b then B "true" else B "false"
  | AV_Integer n => to_string n
  | AV_Unsigned n => to_string n
  | AV_Text text => B "text:" ++ text
  | AV_Token text => text
  | AV_Invalid => B "<invalid>"
  end.

(** [SubjectState]: an ordered map from attribute keys to values. *)
Definition SubjectState := list (bytes * AttributeValue).

Definition put_attribute (entry : bytes * AttributeValue) : Put :=
  PutBytes entry.1 ;+ AttributeValue_Encode entry.2.

(** Models [DigestOfState], src/value.cpp:191-199. *)
Definition DigestOfState (state : SubjectState) : bytes :=
  writer_Digest
    ((PutU32 (Z.land (blen state) 0xffffffff) ;+ put_each put_attribute state) writer_empty).

(** ** Layouts and well-formedness *)

(** The values the wire can carry: payloads within their width and bound. *)
Definition value_wf (v : AttributeValue) : bool :=
  match v with
  | AV_Invalid => false
  | AV_Absent | AV_Boolean _ => true
  | AV_Integer n => i64 n
  | AV_Unsigned n => u64 n
  | AV_Text text | AV_Token text => blen text <=? kMaxAttributeTextLength
  end.

Definition lay_value (v : AttributeValue) : bytes :=
  lay_u8 (AttributeKind_to_Z (av_kind v)) ++
  match v with
  | AV_Boolean b => lay_bool b
  | AV_Integer n => lay_i64 n
  | AV_Unsigned n => lay_u64 n
  | AV_Text text | AV_Token text => lay_bytes text
  | AV_Absent | AV_Invalid => []
  end.

Definition lay_attribute (entry : bytes * AttributeValue) : bytes :=
  lay_bytes entry.1 ++ lay_value entry.2.

Definition lay_state (state : SubjectState) : bytes :=
  lay_u32 (blen state) ++ concat (map lay_attribute state).

(** ** Facts *)

Lemma value_wf_valid v : value_wf v = true -> AttributeValue_IsValid v = true.
Proof. by destruct v. Qed.

Lemma AttributeKind_parse_text k :
  k <> AK_Invalid -> TryParseAttributeKind (AttributeKind_ToText k) = Some k.
Proof. by destruct k. Qed.

Lemma writes_value v : value_wf v = true -> writes (AttributeValue_Encode v) (lay_value v).
Proof.
  intros H. apply writes_seq; [apply writes_u8|]. destruct v; simpl in *; eauto with codec.
Qed.

Lemma text_bound (text : bytes) : (blen text <=? kMaxAttributeTextLength) = true ->
  blen text <= kMaxCanonicalBytes.
Proof. unfold kMaxAttributeTextLength, kMaxCanonicalBytes. intros. bool_hyps. lia. Qed.

Lemma decodes_value v : value_wf v = true -> decodes AttributeValue_Decode (lay_value v) v.
Proof.
  intros H. unfold AttributeValue_Decode, lay_value.
  eapply decodes_bind; [apply decodes_u8; by destruct v|].
  destruct v; simpl in H |- *; try done; try by repeat decode_step.
  all: eapply decodes_end; [apply decodes_bytes; by apply text_bound|].
  all: repeat decode_step; done.
Qed.

#[export] Hint Resolve writes_value decodes_value : codec.

Lemma writes_attribute e : value_wf e.2 = true -> writes (put_attribute e) (lay_attribute e).
Proof. intros H. unfold put_attribute, lay_attribute. write_steps. Qed.

Lemma identity_bound id : IsValidIdentityText id = true -> blen id <= kMaxCanonicalBytes.
Proof.
  intros H. apply IsValidIdentityText_length in H.
  unfold kMaxIdentityLength, kMaxCanonicalBytes in *. lia.
Qed.

#[export] Hint Resolve writes_attribute identity_bound text_bound : codec.

(** Two well-formed states of equal layout are the same state: the digest of a
    state is computed over an injective encoding. *)
Lemma decodes_inj {A} (m : Read A) (lay : A -> bytes) a b :
  decodes m (lay a) a -> decodes m (lay b) b -> lay a = lay b -> a = b.
Proof.
  intros Ha Hb Heq. apply decodes_whole in Ha. apply decodes_whole in Hb.
  rewrite Heq in Ha. congruence.
Qed.

(** Whatever [AttributeValue::Decode] returns is within the kinds, widths and text
    bound of the format. *)
Lemma yields_value : yields AttributeValue_Decode (fun v => value_wf v = true).
Proof.
  eapply yields_bind; [apply yields_u8|]. intros raw _.
  repeat split_case; repeat yield_step; cbn; done.
Qed.

#[export] Hint Resolve yields_value : yields.
