(* ===== verification/Policy.v ===== *)
(** * The reconciliation policy (policy.hpp, policy.cpp)

    The policy record, its canonicalisation (sort and de-duplicate), its digest
    and its codec, and the two attribute lookups by binary search. *)

From Stdlib Require Import ZArith Lia Sorted.
From stdpp Require Import prelude.
From S2P Require Import Prelude OrdMap Hash Status Identity Canonical Value.
Local Open Scope Z_scope.

(** ** Definitions *)

(** Models [kCanonicalSchemaVersion], include/summon/fabric_reconciliation/version.hpp:27-27. *)
Definition kCanonicalSchemaVersion : Z := 1.

(** Models [FreshnessPolicy], include/summon/fabric_reconciliation/policy.hpp:28-43. *)
Record FreshnessPolicy := mkFreshness {
  max_observation_age_ms : Z;
  require_current_epoch : bool;
  require_complete_coverage_for_absence : bool
}.

#[export] Instance FreshnessPolicy_eq : EqDecision FreshnessPolicy.
Proof. solve_decision. Defined.

(** Models [ReconciliationPolicy], include/summon/fabric_reconciliation/policy.hpp:46-76. *)
Record ReconciliationPolicy := mkPolicy {
  po_id : bytes;
  po_version : Z;
  freshness : FreshnessPolicy;
  permit_apply_missing : bool;
  permit_apply_mismatched : bool;
  permit_withdraw_unexpected : bool;
  require_complete_coverage_for_convergence_proof : bool;
  require_independent_verification : bool;
  unmanaged_attributes : list bytes;
  observe_only_attributes : list bytes
}.

#[export] Instance ReconciliationPolicy_eq : EqDecision ReconciliationPolicy.
Proof. solve_decision. Defined.

(** Models [DefaultPolicy], src/policy.cpp:13-29. *)
Definition DefaultPolicy : ReconciliationPolicy :=
  mkPolicy
    (match StringId_TryParse (B "default/fail-closed") with Some id => id | None => [] end)
    1 (mkFreshness 30000 true true) true true true true true [] [].

(** [std::sort] of identities: the sorted sequence is unique for a total order,
    so any sorting algorithm returns it. *)
Fixpoint sort_insert (k : bytes) (l : list bytes) : list bytes :=
  match l with
  | [] => [k]
  | k' :: l' => if bytes_ltb k' k then k' :: sort_insert k l' else k :: l
  end.
Definition sort (l : list bytes) : list bytes := foldr sort_insert [] l.

(** [list.erase(std::unique(...), list.end())]: drops every element equal to its
    predecessor. *)
Fixpoint unique (l : list bytes) : list bytes :=
  match l with
  | [] => []
  | k :: l' =>
    match l' with
    | [] => [k]
    | k' :: _ => if text_eqb k k' then unique l' else k :: unique l'
    end
  end.

(** Models [sort_unique], src/policy.cpp:46-49. *)
Definition sort_unique (l : list bytes) : list bytes := unique (sort l).

Definition policy_bound (limits : RuntimeLimits) : Z :=
  wrap 64 (max_attributes_per_subject limits * 16).

Definition with_attributes (policy : ReconciliationPolicy) (unmanaged observe_only : list bytes)
  : ReconciliationPolicy :=
  mkPolicy (po_id policy) (po_version policy) (freshness policy) (permit_apply_missing policy)
    (permit_apply_mismatched policy) (permit_withdraw_unexpected policy)
    (require_complete_coverage_for_convergence_proof policy)
    (require_independent_verification policy) unmanaged observe_only.

Definition is_empty (text : bytes) : bool := bool_decide (text = []).

(** Models [CanonicalisePolicy], src/policy.cpp:31-64.
    The policy is passed by reference: the updated policy is returned with the
    status. *)
Definition CanonicalisePolicy (policy : ReconciliationPolicy) (limits : RuntimeLimits)
  : Status * ReconciliationPolicy :=
  if is_empty (po_id policy) then
    (mkStatus SC_Rejected RC_UnsupportedInput (B "policy id must not be empty"), policy)
  else if max_observation_age_ms (freshness policy) <? 0 then
    (mkStatus SC_Rejected RC_UnsupportedInput
       (B "max_observation_age_ms must not be negative"), policy)
  else
    let bound := policy_bound limits in
    if (bound <? blen (unmanaged_attributes policy)) ||
       (bound <? blen (observe_only_attributes policy)) then
      (mkStatus SC_LimitExceeded RC_PlanActionLimitReached
         (B "policy attribute lists exceed the configured bound"), policy)
    else
      let policy := with_attributes policy (sort_unique (unmanaged_attributes policy))
                                           (sort_unique (observe_only_attributes policy)) in
      if existsb is_empty (unmanaged_attributes policy) then
        (mkStatus SC_Rejected RC_UnsupportedInput
           (B "policy unmanaged attribute key must not be empty"), policy)
      else if existsb is_empty (observe_only_attributes policy) then
        (mkStatus SC_Rejected RC_UnsupportedInput
           (B "policy observe-only attribute key must not be empty"), policy)
      else (Status_Ok, policy).

(** The fields both [ComputePolicyDigest] and [EncodePolicy] write. *)
Definition put_policy_fields (policy : ReconciliationPolicy) : Put :=
  PutU16 kCanonicalSchemaVersion ;+
  PutBytes (po_id policy) ;+
  PutU64 (po_version policy) ;+
  PutI64 (max_observation_age_ms (freshness policy)) ;+
  PutBool (require_current_epoch (freshness policy)) ;+
  PutBool (require_complete_coverage_for_absence (freshness policy)) ;+
  PutBool (permit_apply_missing policy) ;+
  PutBool (permit_apply_mismatched policy) ;+
  PutBool (permit_withdraw_unexpected policy) ;+
  PutBool (require_complete_coverage_for_convergence_proof policy) ;+
  PutBool (require_independent_verification policy) ;+
  PutU32 (Z.land (blen (unmanaged_attributes policy)) 0xffffffff) ;+
  put_each PutBytes (unmanaged_attributes policy) ;+
  PutU32 (Z.land (blen (observe_only_attributes policy)) 0xffffffff) ;+
  put_each PutBytes (observe_only_attributes policy).

(** Models [ComputePolicyDigest], src/policy.cpp:66-88. *)
Definition ComputePolicyDigest (policy : ReconciliationPolicy) : bytes :=
  writer_Digest (put_policy_fields policy writer_empty).

Definition put_policy (policy : ReconciliationPolicy) : Put :=
  put_policy_fields policy ;+ PutDigest (ComputePolicyDigest policy).

(** Models [EncodePolicy], src/policy.cpp:90-118. *)
Definition EncodePolicy (policy : ReconciliationPolicy) : bytes :=
  finish (put_policy policy writer_empty).

(** Models [DecodePolicy], src/policy.cpp:120-203. *)
Definition DecodePolicy (limits : RuntimeLimits) : Read ReconciliationPolicy :=
  schema ← ReadU16;
  _ ← require (schema =? kCanonicalSchemaVersion);
  id_text ← ReadBytes;
  version ← ReadU64;
  max_age ← ReadI64;
  require_epoch ← ReadBool;
  require_coverage ← ReadBool;
  apply_missing ← ReadBool;
  apply_mismatched ← ReadBool;
  withdraw ← ReadBool;
  convergence_proof ← ReadBool;
  independent ← ReadBool;
  _ ← require (bool_decide (StringId_TryParse id_text <> None));
  let bound := policy_bound limits in
  unmanaged_count ← ReadU32;
  _ ← require (unmanaged_count <=? bound);
  unmanaged ← read_list unmanaged_count read_id;
  observe_only_count ← ReadU32;
  _ ← require (observe_only_count <=? bound);
  observe_only ← read_list observe_only_count read_id;
  let '(status, policy) :=
    CanonicalisePolicy
      (mkPolicy id_text version (mkFreshness max_age require_epoch require_coverage)
         apply_missing apply_mismatched withdraw convergence_proof independent
         unmanaged observe_only) limits in
  _ ← require (Status_ok status);
  digest ← ReadDigest;
  _ ← require (bool_decide (digest = ComputePolicyDigest policy));
  mret policy.

(** Models [DecodePolicyExact], src/policy.cpp:205-212. *)
Definition DecodePolicyExact (bs : bytes) (limits : RuntimeLimits) : option ReconciliationPolicy :=
  read_exact (DecodePolicy limits) bs.

(** [std::lower_bound] on an indexed sequence: the halving loop, where [count] is
    the length of the range still searched. *)
Fixpoint lower_bound (fuel : nat) (l : list bytes) (key : bytes) (first count : nat) : nat :=
  match fuel with
  | O => first
  | S fuel' =>
    if decide (count = 0)%nat then first
    else
      let half := Nat.div2 count in
      if bytes_ltb (nth (first + half) l []) key
      then lower_bound fuel' l key (first + half + 1) (count - half - 1)
      else lower_bound fuel' l key first half
  end.

(** [std::binary_search] *)
Definition binary_search (l : list bytes) (key : bytes) : bool :=
  let first := lower_bound (length l) l key 0 (length l) in
  match l !! first with
  | Some k => negb (bytes_ltb key k)
  | None => false
  end.

(** Models [IsAttributeUnmanaged], src/policy.cpp:214-217. *)
Definition IsAttributeUnmanaged (policy : ReconciliationPolicy) (key : bytes) : bool :=
  binary_search (unmanaged_attributes policy) key.

(** Models [IsAttributeObserveOnly], src/policy.cpp:219-222. *)
Definition IsAttributeObserveOnly (policy : ReconciliationPolicy) (key : bytes) : bool :=
  binary_search (observe_only_attributes policy) key.

(** ** Well-formedness and layout *)

Definition keys_wf (limits : RuntimeLimits) (l : list bytes) : bool :=
  forallb IsValidIdentityText l && os_sorted l && (blen l <=? policy_bound limits) &&
  (blen l <? 2 ^ 32).

(** The policies the runtime holds: canonicalised, with fields of their width. *)
Definition policy_wf (limits : RuntimeLimits) (p : ReconciliationPolicy) : bool :=
  IsValidIdentityText (po_id p) && u64 (po_version p) &&
  i64 (max_observation_age_ms (freshness p)) && (0 <=? max_observation_age_ms (freshness p)) &&
  keys_wf limits (unmanaged_attributes p) && keys_wf limits (observe_only_attributes p).

Definition lay_policy_fields (p : ReconciliationPolicy) : bytes :=
  lay_u16 kCanonicalSchemaVersion ++ lay_bytes (po_id p) ++ lay_u64 (po_version p) ++
  lay_i64 (max_observation_age_ms (freshness p)) ++
  lay_bool (require_current_epoch (freshness p)) ++
  lay_bool (require_complete_coverage_for_absence (freshness p)) ++
  lay_bool (permit_apply_missing p) ++ lay_bool (permit_apply_mismatched p) ++
  lay_bool (permit_withdraw_unexpected p) ++
  lay_bool (require_complete_coverage_for_convergence_proof p) ++
  lay_bool (require_independent_verification p) ++
  lay_u32 (blen (unmanaged_attributes p)) ++ concat (map lay_bytes (unmanaged_attributes p)) ++
  lay_u32 (blen (observe_only_attributes p)) ++
  concat (map lay_bytes (observe_only_attributes p)).

Definition lay_policy (p : ReconciliationPolicy) : bytes :=
  lay_policy_fields p ++ ComputePolicyDigest p.

(** ** Facts on canonicalisation *)

Lemma elem_sort_insert k k0 l : k0 ∈ sort_insert k l <-> k0 = k \/ k0 ∈ l.
Proof.
  induction l as [|k' l IH]; simpl; [set_solver|].
  destruct (bytes_ltb k' k); [|set_solver]. rewrite !elem_of_cons, IH. tauto.
Qed.

Lemma elem_sort k l : k ∈ sort l <-> k ∈ l.
Proof.
  induction l as [|k' l IH]; simpl; [done|]. rewrite elem_sort_insert, IH. set_solver.
Qed.

(** Sorted up to repetition: no element is below its predecessors. *)
Definition weakly_sorted (l : list bytes) : Prop :=
  StronglySorted (fun a b => bytes_ltb b a = false) l.

Lemma bytes_ltb_weak_trans a b c :
  bytes_ltb b a = false -> bytes_ltb c b = false -> bytes_ltb c a = false.
Proof.
  intros H1 H2. destruct (bytes_ltb c a) eqn:E; [|done].
  destruct (bytes_ltb a b) eqn:Eab.
  - pose proof (bytes_ltb_trans _ _ _ E Eab) as H. congruence.
  - rewrite (bytes_ltb_total a b Eab H1) in E. congruence.
Qed.

Lemma sort_insert_sorted k l : weakly_sorted l -> weakly_sorted (sort_insert k l).
Proof.
  induction 1 as [|k' l Hl IH Hf]; simpl; [by repeat constructor|].
  destruct (bytes_ltb k' k) eqn:E; constructor.
  - done.
  - apply Forall_forall. intros x Hx. apply elem_sort_insert in Hx as [->|Hx].
    + by apply (key_ltb_asym (KO:=bytes_key_order)).
    + rewrite Forall_forall in Hf. by apply Hf.
  - by constructor.
  - constructor; [done|]. eapply Forall_impl; [exact Hf|]. intros x Hx. simpl in Hx.
    by eapply bytes_ltb_weak_trans.
Qed.

Lemma sort_sorted l : weakly_sorted (sort l).
Proof. induction l; simpl; [constructor|]. by apply sort_insert_sorted. Qed.

Lemma elem_unique k l : k ∈ unique l <-> k ∈ l.
Proof.
  induction l as [|a l IH]; [done|]. destruct l as [|b l]; [done|].
  change (unique (a :: b :: l)) with
    (if text_eqb a b then unique (b :: l) else a :: unique (b :: l)).
  unfold text_eqb. destruct (bool_decide_reflect (a = b)) as [->|Hne].
  - rewrite IH. set_solver.
  - rewrite !elem_of_cons, IH. set_solver.
Qed.

Lemma unique_sorted l : weakly_sorted l -> os_sorted (unique l) = true.
Proof.
  induction 1 as [|a l Hl IH Hf]; [done|]. destruct l as [|b l]; [done|].
  change (unique (a :: b :: l)) with
    (if text_eqb a b then unique (b :: l) else a :: unique (b :: l)).
  unfold text_eqb. destruct (bool_decide_reflect (a = b)) as [->|Hne]; [done|].
  apply os_sorted_cons. split; [|done]. apply Forall_forall. intros x Hx.
  apply (proj1 (elem_unique _ _)) in Hx. rewrite Forall_forall in Hf. pose proof (Hf x Hx) as Hxa.
  assert (bytes_ltb a b = true) as Hab.
  { apply not_false_is_true. intros E. apply Hne.
    apply (bytes_ltb_total); [done|]. apply Hf. left. }
  cbn. apply not_false_is_true. intros E.
  assert (x = a) as -> by by apply (bytes_ltb_total).
  apply elem_of_cons in Hx as [Hx|Hx]; [done|].
  apply StronglySorted_inv in Hl as [_ Hl]. rewrite Forall_forall in Hl.
  specialize (Hl a Hx). congruence.
Qed.

Lemma sort_unique_sorted l : os_sorted (sort_unique l) = true.
Proof. apply unique_sorted, sort_sorted. Qed.

Lemma elem_sort_unique k l : k ∈ sort_unique l <-> k ∈ l.
Proof. unfold sort_unique. by rewrite elem_unique, elem_sort. Qed.

Lemma sort_unique_ext l1 l2 : (forall k, k ∈ l1 <-> k ∈ l2) -> sort_unique l1 = sort_unique l2.
Proof.
  intros H. apply os_ext; [apply sort_unique_sorted..|]. intros k. by rewrite !elem_sort_unique.
Qed.

Lemma sort_unique_id l : os_sorted l = true -> sort_unique l = l.
Proof.
  intros H. apply os_ext; [apply sort_unique_sorted|done|]. intros k. apply elem_sort_unique.
Qed.

Lemma with_attributes_id p :
  with_attributes p (unmanaged_attributes p) (observe_only_attributes p) = p.
Proof. by destruct p. Qed.

Lemma existsb_is_empty_valid l :
  forallb IsValidIdentityText l = true -> existsb is_empty l = false.
Proof.
  induction l as [|k l IH]; [done|]. simpl. intros H. bool_hyps. rewrite IH by done.
  by destruct k.
Qed.

Lemma is_empty_valid id : IsValidIdentityText id = true -> is_empty id = false.
Proof. by destruct id. Qed.

(** A well-formed policy is a fixed point of canonicalisation. *)
Lemma CanonicalisePolicy_wf limits p :
  policy_wf limits p = true -> CanonicalisePolicy p limits = (Status_Ok, p).
Proof.
  unfold policy_wf, keys_wf. intros H. bool_hyps. unfold CanonicalisePolicy.
  rewrite is_empty_valid by done. rewrite (proj2 (Z.ltb_ge _ 0)) by done.
  rewrite !(proj2 (Z.ltb_ge _ _)) by done. cbv zeta. cbn [orb].
  rewrite !sort_unique_id by done. rewrite with_attributes_id.
  by rewrite !existsb_is_empty_valid.
Qed.

(** ** Facts on the codec *)

Lemma land_low32 n : 0 <= n < 2 ^ 32 -> Z.land n 0xffffffff = n.
Proof.
  intros H. change 0xffffffff with (Z.ones 32). rewrite Z.land_ones by lia.
  by apply Z.mod_small.
Qed.

Lemma writes_count {A} (l : list A) :
  blen l < 2 ^ 32 -> writes (PutU32 (Z.land (blen l) 0xffffffff)) (lay_u32 (blen l)).
Proof.
  intros H. pose proof (blen_nonneg l). rewrite land_low32 by lia. by apply writes_u32.
Qed.

Lemma decodes_count {A} (l : list A) :
  blen l < 2 ^ 32 -> decodes ReadU32 (lay_u32 (blen l)) (blen l).
Proof.
  intros H. apply decodes_u32. pose proof (blen_nonneg l).
  apply andb_true_iff. split; [apply Z.leb_le|apply Z.ltb_lt]; lia.
Qed.

Lemma writes_texts l : writes (put_each PutBytes l) (concat (map lay_bytes l)).
Proof. apply writes_each. apply Forall_true. apply writes_bytes. Qed.

Lemma decodes_ids l :
  forallb IsValidIdentityText l = true ->
  decodes (read_list (blen l) read_id) (concat (map lay_bytes l)) l.
Proof.
  intros H. apply decodes_list. apply Forall_forall. intros k Hk.
  apply decodes_id. rewrite forallb_forall in H. apply H. by apply list_elem_of_In.
Qed.

#[export] Hint Resolve writes_count decodes_count writes_texts decodes_ids : codec.

Lemma writes_policy_fields limits p :
  policy_wf limits p = true -> writes (put_policy_fields p) (lay_policy_fields p).
Proof.
  unfold policy_wf, keys_wf. intros H. bool_hyps.
  unfold put_policy_fields, lay_policy_fields.
  apply writes_seq; [by apply writes_u16|]. write_steps.
Qed.

Lemma writes_policy limits p : policy_wf limits p = true -> writes (put_policy p) (lay_policy p).
Proof.
  intros H. apply writes_seq; [by eapply writes_policy_fields|apply writes_digest].
Qed.

Lemma length_ComputePolicyDigest p : length (ComputePolicyDigest p) = kSha256Bytes.
Proof. apply length_Sha256Of. Qed.

#[export] Hint Resolve length_ComputePolicyDigest : codec.

Lemma decodes_policy limits p :
  policy_wf limits p = true -> decodes (DecodePolicy limits) (lay_policy p) p.
Proof.
  intros Hwf. pose proof (CanonicalisePolicy_wf limits p Hwf) as Hc.
  unfold policy_wf, keys_wf in Hwf. bool_hyps.
  unfold DecodePolicy, lay_policy, lay_policy_fields. rewrite <- !app_assoc.
  eapply decodes_bind; [by apply decodes_u16|cbn beta].
  decode_step; [done|]. do 10 decode_step. decode_step.
  { rewrite StringId_TryParse_ok by done. by apply bool_decide_eq_true. }
  cbv zeta. decode_step. decode_step; [by apply Z.leb_le|]. decode_step. decode_step.
  decode_step; [by apply Z.leb_le|]. decode_step.
  destruct p as [id v [age e c] am ai aw cp iv un ob]. cbn in Hc |- *. rewrite Hc.
  decode_step; [done|]. decode_step. decode_step; [by apply bool_decide_eq_true|].
  apply decodes_ret.
Qed.

#[export] Instance policy_codec : PayloadCodec ReconciliationPolicy := {|
  pc_put := put_policy;
  pc_read := DecodePolicy;
  pc_layout := lay_policy;
  pc_wf := policy_wf;
  pc_writes := writes_policy;
  pc_decodes := decodes_policy
|}.

Lemma valid_parse text :
  bool_decide (StringId_TryParse text <> None) = true -> IsValidIdentityText text = true.
Proof.
  rewrite bool_decide_eq_true. unfold StringId_TryParse. destruct (IsValidIdentityText text); naive_solver.
Qed.

Lemma count_bound {A} (l : list A) n : blen l = n -> u32 n = true -> blen l < 2 ^ 32.
Proof. intros -> H. apply u_range in H. lia. Qed.

Lemma sort_insert_length k l : length (sort_insert k l) = S (length l).
Proof. induction l as [|k' l IH]; [done|]. simpl. destruct (bytes_ltb k' k); simpl; lia. Qed.

Lemma sort_length l : length (sort l) = length l.
Proof. induction l as [|k l IH]; [done|]. simpl. by rewrite sort_insert_length, IH. Qed.

Lemma unique_length l : (length (unique l) <= length l)%nat.
Proof.
  induction l as [|a l IH]; [done|]. destruct l as [|b l]; [done|].
  change (unique (a :: b :: l)) with
    (if text_eqb a b then unique (b :: l) else a :: unique (b :: l)).
  destruct (text_eqb a b); cbn [length] in *; lia.
Qed.

Lemma sort_unique_length l : blen (sort_unique l) <= blen l.
Proof.
  unfold sort_unique, blen. pose proof (unique_length (sort l)). rewrite sort_length in *. lia.
Qed.

Lemma sort_unique_valid l :
  Forall (fun k => IsValidIdentityText k = true) l ->
  forallb IsValidIdentityText (sort_unique l) = true.
Proof.
  rewrite forallb_Forall, !Forall_forall. intros H k Hk. apply H. by apply elem_sort_unique.
Qed.

Lemma keys_wf_sort_unique limits l n :
  blen l = n -> u32 n = true -> (n <=? policy_bound limits) = true ->
  Forall (fun k => IsValidIdentityText k = true) l -> keys_wf limits (sort_unique l) = true.
Proof.
  intros Hl Hn Hb Hv. unfold keys_wf. rewrite sort_unique_valid, sort_unique_sorted by done.
  pose proof (sort_unique_length l). apply u_range in Hn. bool_hyps.
  rewrite (proj2 (Z.leb_le _ _)) by lia. by rewrite (proj2 (Z.ltb_lt _ _)) by lia.
Qed.

(** A decoded policy is canonical and within the limits. *)
Lemma yields_policy limits : yields (DecodePolicy limits) (fun p => policy_wf limits p = true).
Proof.
  assert (forall n, u32 n = true -> yields (read_list n read_id)
    (fun l => blen l = n /\ Forall (fun k => IsValidIdentityText k = true) l)) as Hids.
  { intros n Hn. apply yields_list; [by apply u_nonneg in Hn|apply yields_id]. }
  unfold DecodePolicy. do 13 yield_step. cbv zeta. do 2 yield_step.
  eapply yields_bind; [by apply Hids|]. intros un [Hun1 Hun2]. do 2 yield_step.
  eapply yields_bind; [by apply Hids|]. intros ob [Hob1 Hob2].
  unfold CanonicalisePolicy. cbv zeta.
  cbn [po_id freshness max_observation_age_ms unmanaged_attributes observe_only_attributes
       with_attributes].
  repeat (split_case; [repeat yield_step; done|]). do 3 yield_step. yield_step.
  unfold policy_wf. cbn. bool_hyps.
  rewrite (keys_wf_sort_unique _ un _ Hun1), (keys_wf_sort_unique _ ob _ Hob1) by
    (done || by apply Z.leb_le).
  rewrite valid_parse by (by apply bool_decide_eq_true).
  by bool_goal.
Qed.

(** ** Facts on the binary search *)

Definition split_at (l : list bytes) (key : bytes) (lo hi : nat) : Prop :=
  (forall i k, l !! i = Some k -> (i < lo)%nat -> bytes_ltb k key = true) /\
  (forall i k, l !! i = Some k -> (hi <= i)%nat -> bytes_ltb k key = false).

Lemma os_sorted_lookup (l : list bytes) i j a b :
  os_sorted l = true -> l !! i = Some a -> l !! j = Some b -> (i < j)%nat -> bytes_ltb a b = true.
Proof.
  revert i j. induction l as [|k l IH]; intros i j Hs Hi Hj Hij; [done|].
  apply os_sorted_cons in Hs as [Hf Hs].
  destruct j as [|j]; [lia|]. destruct i as [|i]; simpl in Hi, Hj.
  - injection Hi as ->. rewrite Forall_forall in Hf. apply Hf.
    by apply list_elem_of_lookup_2 in Hj.
  - apply (IH i j); [done..|lia].
Qed.

Lemma lower_bound_spec l key : os_sorted l = true -> forall fuel first count,
  (count <= fuel)%nat -> (first + count <= length l)%nat ->
  split_at l key first (first + count) ->
  split_at l key (lower_bound fuel l key first count) (lower_bound fuel l key first count).
Proof.
  intros Hs. induction fuel as [|fuel IH]; intros first count Hf Hl [Hlo Hhi].
  { replace (first + count)%nat with first in Hhi by lia. done. }
  cbn [lower_bound]. destruct (decide (count = 0)%nat) as [->|Hc].
  { by rewrite Nat.add_0_r in Hhi. }
  cbv zeta. pose proof (Nat.lt_div2 count ltac:(lia)) as Hhalf.
  assert (exists k, l !! (first + Nat.div2 count)%nat = Some k) as [k Hk]
    by (apply lookup_lt_is_Some_2; lia).
  rewrite (nth_lookup_Some _ _ _ _ Hk).
  destruct (bytes_ltb k key) eqn:E; apply IH; try lia; split.
  - intros i k' Hi Hlt. destruct (decide (i = first + Nat.div2 count)%nat) as [->|]; [congruence|].
    eapply bytes_ltb_trans; [|exact E]. eapply os_sorted_lookup; [done..|lia].
  - intros i k' Hi Hge. apply (Hhi i); [done|lia].
  - intros i k' Hi Hlt. by apply (Hlo i).
  - intros i k' Hi Hge. destruct (bytes_ltb k' key) eqn:E'; [|done].
    destruct (decide (i = first + Nat.div2 count)%nat) as [->|]; [congruence|].
    rewrite <- E. symmetry. eapply bytes_ltb_trans; [|exact E'].
    eapply os_sorted_lookup; [done..|lia].
Qed.

Lemma binary_search_spec l key :
  os_sorted l = true -> binary_search l key = bool_decide (key ∈ l).
Proof.
  intros Hs. unfold binary_search. cbv zeta.
  destruct (lower_bound_spec l key Hs (length l) 0 (length l)) as [Hlo Hhi]; [done..| |].
  { split; [lia|]. intros i k Hi Hge. apply lookup_lt_Some in Hi. lia. }
  set (r := lower_bound _ _ _ _ _) in *.
  destruct (bool_decide_reflect (key ∈ l)) as [Hin|Hnin].
  - apply list_elem_of_lookup in Hin as [i Hi].
    assert (r <= i)%nat as Hri.
    { destruct (decide (i < r)%nat) as [Hlt|]; [|lia]. specialize (Hlo i key Hi Hlt).
      by rewrite bytes_ltb_irrefl in Hlo. }
    assert (exists k, l !! r = Some k) as [k Hk].
    { apply lookup_lt_is_Some_2. apply lookup_lt_Some in Hi. lia. }
    rewrite Hk. apply negb_true_iff.
    destruct (decide (r = i)) as [->|]; [replace k with key by congruence|].
    + apply bytes_ltb_irrefl.
    + pose proof (os_sorted_lookup l r i k key Hs Hk Hi ltac:(lia)) as Hlt.
      specialize (Hhi r k Hk ltac:(lia)). congruence.
  - destruct (l !! r) as [k|] eqn:Hk; [|done]. apply negb_false_iff.
    apply not_false_is_true. intros E. apply Hnin.
    rewrite (bytes_ltb_total key k E (Hhi r k Hk ltac:(lia))).
    by apply list_elem_of_lookup_2 in Hk.
Qed.

(** ** Properties *)

(** Canonicalisation accepts a policy exactly when its identity and attribute keys
    are non-empty, its age bound is not negative and its lists are within the
    bound; the accepted policy holds the same attributes, sorted and without
    duplicates, and canonicalising it again changes nothing. *)
Theorem policy_canonicalised policy limits :
  let '(status, canonical) := CanonicalisePolicy policy limits in
  (Status_ok status = true <->
     po_id policy <> [] /\ 0 <= max_observation_age_ms (freshness policy) /\
     blen (unmanaged_attributes policy) <= policy_bound limits /\
     blen (observe_only_attributes policy) <= policy_bound limits /\
     [] ∉ unmanaged_attributes policy /\ [] ∉ observe_only_attributes policy) /\
  (Status_ok status = true ->
     os_sorted (unmanaged_attributes canonical) = true /\
     os_sorted (observe_only_attributes canonical) = true /\
     (forall k, IsAttributeUnmanaged canonical k = bool_decide (k ∈ unmanaged_attributes policy)) /\
     (forall k, IsAttributeObserveOnly canonical k =
                bool_decide (k ∈ observe_only_attributes policy))).
Proof.
  unfold CanonicalisePolicy. cbv zeta.
  assert (forall l, existsb is_empty (sort_unique l) = bool_decide ([] ∈ l)) as Hex.
  { intros l. rewrite (bool_decide_ext _ ([] ∈ sort_unique l)) by (by rewrite elem_sort_unique).
    induction (sort_unique l) as [|k s IH]; [done|]. simpl. rewrite IH.
    unfold is_empty. symmetry. rewrite (bool_decide_ext _ (k = [] \/ [] ∈ s)).
    - apply bool_decide_or.
    - rewrite elem_of_cons. naive_solver. }
  cbn [unmanaged_attributes observe_only_attributes with_attributes]. rewrite !Hex.
  unfold is_empty.
  destruct (bool_decide_reflect (po_id policy = [])); [naive_solver|].
  destruct (max_observation_age_ms _ <? 0) eqn:E1; bool_hyps.
  { split; [|done]. split; [done|]. intros. lia. }
  destruct (_ || _) eqn:E2.
  { split; [|done]. split; [done|]. intros.
    apply orb_true_iff in E2 as [E2|E2]; bool_hyps; lia. }
  bool_hyps.
  destruct (bool_decide_reflect ([] ∈ unmanaged_attributes policy)); [naive_solver|].
  destruct (bool_decide_reflect ([] ∈ observe_only_attributes policy)); [naive_solver|].
  split; [naive_solver|]. intros _. split; [apply sort_unique_sorted|].
  split; [apply sort_unique_sorted|].
  unfold IsAttributeUnmanaged, IsAttributeObserveOnly.
  split; intros k; rewrite binary_search_spec by apply sort_unique_sorted;
    apply bool_decide_ext, elem_sort_unique.
Qed.

(** A policy encoded by [EncodePolicy] is decoded by [DecodePolicyExact] to the
    same policy. *)
Theorem policy_roundtrip limits policy :
  policy_wf limits policy = true -> EncodePolicy policy <> [] ->
  DecodePolicyExact (EncodePolicy policy) limits = Some policy.
Proof. exact (payload_roundtrip limits policy). Qed.

Definition example_policy : ReconciliationPolicy :=
  with_attributes DefaultPolicy [B "counters/rx"; B "counters/tx"] [B "serial"].

Lemma policy_roundtrip_witness :
  DecodePolicyExact (EncodePolicy example_policy) default_limits = Some example_policy.
Proof. apply policy_roundtrip; vm_compute; [reflexivity|discriminate]. Defined.
