(* ===== verification/Document.v ===== *)
(** * Intent and observation documents (document.hpp, document.cpp)

    The documents, their digests, their validation under the runtime limits, and
    their canonical codecs with the round trips. *)

From Stdlib Require Import ZArith Lia.
From stdpp Require Import prelude.
From S2P Require Import Prelude OrdMap Hash Status Identity Canonical Value Policy.
Local Open Scope Z_scope.

(** ** Documents *)

(** Models [SubjectIntent], include/summon/fabric_reconciliation/document.hpp:31-40. *)
Record SubjectIntent := mkSubjectIntent {
  si_id : bytes; si_complete_attributes : bool; si_desired : SubjectState }.

(** Models [SubjectObservation], include/summon/fabric_reconciliation/document.hpp:43-51. *)
Record SubjectObservation := mkSubjectObservation {
  so_id : bytes; so_complete_attributes : bool; so_observed : SubjectState }.

(** Models [IntentDocument], include/summon/fabric_reconciliation/document.hpp:54-70. *)
Record IntentDocument := mkIntent {
  in_intent : bytes;
  in_scope : bytes;
  in_definition : bytes;
  in_generation : Z;
  in_policy_version : Z;
  in_evidence : EvidenceClass;
  in_complete : bool;
  in_subjects : list (bytes * SubjectIntent);
  in_digest : bytes
}.

(** Models [ObservationSubmission], include/summon/fabric_reconciliation/document.hpp:77-91. *)
Record ObservationSubmission := mkSubmission {
  su_observation : bytes;
  su_scope : bytes;
  su_reporter : bytes;
  su_generation : Z;
  su_evidence : EvidenceClass;
  su_complete : bool;
  su_authoritative_absence : bool;
  su_subjects : list (bytes * SubjectObservation)
}.

(** Models [ObservationDocument], include/summon/fabric_reconciliation/document.hpp:95-111. *)
Record ObservationDocument := mkObservation {
  ob_observation : bytes;
  ob_scope : bytes;
  ob_reporter : bytes;
  ob_generation : Z;
  ob_evidence : EvidenceClass;
  ob_complete : bool;
  ob_authoritative_absence : bool;
  ob_received_epoch : Z;
  ob_received_unix_ms : Z;
  ob_subjects : list (bytes * SubjectObservation);
  ob_digest : bytes
}.

#[export] Instance SubjectIntent_eq : EqDecision SubjectIntent.
Proof. solve_decision. Defined.
#[export] Instance SubjectObservation_eq : EqDecision SubjectObservation.
Proof. solve_decision. Defined.
#[export] Instance IntentDocument_eq : EqDecision IntentDocument.
Proof. solve_decision. Defined.
#[export] Instance ObservationSubmission_eq : EqDecision ObservationSubmission.
Proof. solve_decision. Defined.
#[export] Instance ObservationDocument_eq : EqDecision ObservationDocument.
Proof. solve_decision. Defined.

(** ** Validation *)

Fixpoint validate_attributes (what : bytes) (state : SubjectState) : Status :=
  match state with
  | [] => Status_Ok
  | (key, value) :: rest =>
    if is_empty key then
      mkStatus SC_Rejected RC_UnsupportedInput (what ++ B " carries an empty attribute key")
    else if negb (AttributeValue_IsValid value) then
      mkStatus SC_Rejected RC_UnsupportedInput (what ++ B " carries an invalid attribute value")
    else validate_attributes what rest
  end.

(** Models [ValidateState], src/document.cpp:12-28. *)
Definition ValidateState (limits : RuntimeLimits) (what : bytes) (state : SubjectState) : Status :=
  if max_attributes_per_subject limits <? blen state then
    mkStatus SC_LimitExceeded RC_PlanActionLimitReached
      (what ++ B " declares more attributes than the configured bound")
  else validate_attributes what state.

(** The loop over the subjects of a document. *)
Fixpoint validate_subjects {V} (limits : RuntimeLimits) (empty_text what : bytes)
    (state_of : V -> SubjectState) (subjects : list (bytes * V)) : Status :=
  match subjects with
  | [] => Status_Ok
  | (key, entry) :: rest =>
    if is_empty key then mkStatus SC_Rejected RC_UnsupportedInput empty_text
    else
      let status := ValidateState limits what (state_of entry) in
      if negb (Status_ok status) then status
      else validate_subjects limits empty_text what state_of rest
  end.

(** Models [ValidateIntent], src/document.cpp:110-130. *)
Definition ValidateIntent (document : IntentDocument) (limits : RuntimeLimits) : Status :=
  if is_empty (in_intent document) || is_empty (in_scope document) ||
     is_empty (in_definition document) then
    mkStatus SC_Rejected RC_UnsupportedInput
      (B "intent requires non-empty intent, scope and definition identities")
  else if max_subjects_per_document limits <? blen (in_subjects document) then
    mkStatus SC_LimitExceeded RC_PlanActionLimitReached
      (B "intent declares more subjects than the configured bound")
  else validate_subjects limits (B "intent carries an empty subject identity")
         (B "intent subject") si_desired (in_subjects document).

(** Models [ValidateObservation], src/document.cpp:132-152. *)
Definition ValidateObservation (document : ObservationDocument) (limits : RuntimeLimits)
  : Status :=
  if is_empty (ob_observation document) || is_empty (ob_scope document) ||
     is_empty (ob_reporter document) then
    mkStatus SC_Rejected RC_UnsupportedInput
      (B "observation requires non-empty observation, scope and reporter identities")
  else if max_subjects_per_document limits <? blen (ob_subjects document) then
    mkStatus SC_LimitExceeded RC_PlanActionLimitReached
      (B "observation declares more subjects than the configured bound")
  else validate_subjects limits (B "observation carries an empty subject identity")
         (B "observation subject") so_observed (ob_subjects document).

(** Models [ValidateSubmission], src/document.cpp:154-174. *)
Definition ValidateSubmission (submission : ObservationSubmission) (limits : RuntimeLimits)
  : Status :=
  if is_empty (su_observation submission) || is_empty (su_scope submission) ||
     is_empty (su_reporter submission) then
    mkStatus SC_Rejected RC_UnsupportedInput
      (B "observation requires non-empty observation, scope and reporter identities")
  else if max_subjects_per_document limits <? blen (su_subjects submission) then
    mkStatus SC_LimitExceeded RC_PlanActionLimitReached
      (B "observation declares more subjects than the configured bound")
  else validate_subjects limits (B "observation carries an empty subject identity")
         (B "observation subject") so_observed (su_subjects submission).

(** ** Encoding *)

(** Models [EncodeState], src/document.cpp:30-36. *)
Definition EncodeState (state : SubjectState) : Put :=
  PutU32 (Z.land (blen state) 0xffffffff) ;+ put_each put_attribute state.

Definition put_subject_intent (entry : bytes * SubjectIntent) : Put :=
  PutBytes entry.1 ;+ PutBool (si_complete_attributes entry.2) ;+ EncodeState (si_desired entry.2).

Definition put_subject_observation (entry : bytes * SubjectObservation) : Put :=
  PutBytes entry.1 ;+ PutBool (so_complete_attributes entry.2) ;+
  EncodeState (so_observed entry.2).

Definition put_intent_fields (document : IntentDocument) : Put :=
  PutBytes (in_intent document) ;+
  PutBytes (in_scope document) ;+
  PutBytes (in_definition document) ;+
  PutU64 (in_generation document) ;+
  PutU64 (in_policy_version document) ;+
  PutU8 (EvidenceClass_to_Z (in_evidence document)) ;+
  PutBool (in_complete document) ;+
  PutU32 (Z.land (blen (in_subjects document)) 0xffffffff) ;+
  put_each put_subject_intent (in_subjects document).

Definition put_observation_fields (document : ObservationDocument) : Put :=
  PutBytes (ob_observation document) ;+
  PutBytes (ob_scope document) ;+
  PutBytes (ob_reporter document) ;+
  PutU64 (ob_generation document) ;+
  PutU8 (EvidenceClass_to_Z (ob_evidence document)) ;+
  PutBool (ob_complete document) ;+
  PutBool (ob_authoritative_absence document) ;+
  PutU64 (ob_received_epoch document) ;+
  PutI64 (ob_received_unix_ms document) ;+
  PutU32 (Z.land (blen (ob_subjects document)) 0xffffffff) ;+
  put_each put_subject_observation (ob_subjects document).

(** Models [ComputeIntentDigest], src/document.cpp:70-87. *)
Definition ComputeIntentDigest (document : IntentDocument) : bytes :=
  writer_Digest ((PutU16 kCanonicalSchemaVersion ;+ put_intent_fields document) writer_empty).

(** Models [ComputeObservationDigest], src/document.cpp:89-108. *)
Definition ComputeObservationDigest (document : ObservationDocument) : bytes :=
  writer_Digest ((PutU16 kCanonicalSchemaVersion ;+ put_observation_fields document) writer_empty).

Definition put_intent (document : IntentDocument) : Put :=
  put_intent_fields document ;+ PutDigest (in_digest document).

(** Models [EncodeIntent], src/document.cpp:176-196. *)
Definition EncodeIntent (document : IntentDocument) : bytes :=
  finish (put_intent document writer_empty).

Definition put_observation (document : ObservationDocument) : Put :=
  put_observation_fields document ;+ PutDigest (ob_digest document).

(** Models [EncodeObservation], src/document.cpp:198-220. *)
Definition EncodeObservation (document : ObservationDocument) : bytes :=
  finish (put_observation document writer_empty).

Definition put_submission (submission : ObservationSubmission) : Put :=
  PutBytes (su_observation submission) ;+
  PutBytes (su_scope submission) ;+
  PutBytes (su_reporter submission) ;+
  PutU64 (su_generation submission) ;+
  PutU8 (EvidenceClass_to_Z (su_evidence submission)) ;+
  PutBool (su_complete submission) ;+
  PutBool (su_authoritative_absence submission) ;+
  PutU32 (Z.land (blen (su_subjects submission)) 0xffffffff) ;+
  put_each put_subject_observation (su_subjects submission).

(** Models [EncodeSubmission], src/document.cpp:222-241. *)
Definition EncodeSubmission (submission : ObservationSubmission) : bytes :=
  finish (put_submission submission writer_empty).

(** ** Decoding *)

Definition read_attribute : Read (bytes * AttributeValue) :=
  key ← read_id; value ← AttributeValue_Decode; mret (key, value).

(** Models [DecodeState], src/document.cpp:38-66. *)
Definition DecodeState (limits : RuntimeLimits) : Read SubjectState :=
  count ← ReadU32;
  _ ← require (count <=? max_attributes_per_subject limits);
  read_map count read_attribute.

(** One round of the subject loops: identity, completeness flag, state. *)
Definition read_subject (limits : RuntimeLimits) : Read (bytes * bool * SubjectState) :=
  subject_text ← ReadBytes;
  attributes_complete ← ReadBool;
  subject ← match StringId_TryParse subject_text with Some id => mret id | None => refuse end;
  state ← DecodeState limits;
  mret (subject, attributes_complete, state).

Definition read_subject_intent (limits : RuntimeLimits) : Read (bytes * SubjectIntent) :=
  entry ← read_subject limits;
  let '(subject, complete, state) := entry in mret (subject, mkSubjectIntent subject complete state).

Definition read_subject_observation (limits : RuntimeLimits) : Read (bytes * SubjectObservation) :=
  entry ← read_subject limits;
  let '(subject, complete, state) := entry in
  mret (subject, mkSubjectObservation subject complete state).

(** The three identity checks every decoder makes at once. *)
Definition all_ids_parse (texts : list bytes) : bool :=
  forallb (fun text => bool_decide (StringId_TryParse text <> None)) texts.

Definition read_evidence (raw : Z) : Read EvidenceClass :=
  match EvidenceClass_of_Z raw with Some e => mret e | None => refuse end.

(** Models [DecodeIntent], src/document.cpp:243-310. *)
Definition DecodeIntent (limits : RuntimeLimits) : Read IntentDocument :=
  intent_text ← ReadBytes;
  scope_text ← ReadBytes;
  definition_text ← ReadBytes;
  generation ← ReadU64;
  policy_version ← ReadU64;
  raw_evidence ← ReadU8;
  complete ← ReadBool;
  count ← ReadU32;
  _ ← require (count <=? max_subjects_per_document limits);
  evidence ← read_evidence raw_evidence;
  _ ← require (all_ids_parse [intent_text; scope_text; definition_text]);
  subjects ← read_map count (read_subject_intent limits);
  digest ← ReadDigest;
  let document := mkIntent intent_text scope_text definition_text generation policy_version
                    evidence complete subjects digest in
  _ ← require (bool_decide (digest = ComputeIntentDigest document));
  mret document.

(** Models [DecodeObservation], src/document.cpp:312-385. *)
Definition DecodeObservation (limits : RuntimeLimits) : Read ObservationDocument :=
  observation_text ← ReadBytes;
  scope_text ← ReadBytes;
  reporter_text ← ReadBytes;
  generation ← ReadU64;
  raw_evidence ← ReadU8;
  complete ← ReadBool;
  authoritative_absence ← ReadBool;
  received_epoch ← ReadU64;
  received_unix_ms ← ReadI64;
  count ← ReadU32;
  _ ← require (count <=? max_subjects_per_document limits);
  evidence ← read_evidence raw_evidence;
  _ ← require (all_ids_parse [observation_text; scope_text; reporter_text]);
  subjects ← read_map count (read_subject_observation limits);
  digest ← ReadDigest;
  let document := mkObservation observation_text scope_text reporter_text generation evidence
                    complete authoritative_absence received_epoch received_unix_ms subjects
                    digest in
  _ ← require (bool_decide (digest = ComputeObservationDigest document));
  mret document.

(** Models [DecodeSubmission], src/document.cpp:387-446. *)
Definition DecodeSubmission (limits : RuntimeLimits) : Read ObservationSubmission :=
  observation_text ← ReadBytes;
  scope_text ← ReadBytes;
  reporter_text ← ReadBytes;
  generation ← ReadU64;
  raw_evidence ← ReadU8;
  complete ← ReadBool;
  authoritative_absence ← ReadBool;
  count ← ReadU32;
  _ ← require (count <=? max_subjects_per_document limits);
  evidence ← read_evidence raw_evidence;
  _ ← require (all_ids_parse [observation_text; scope_text; reporter_text]);
  subjects ← read_map count (read_subject_observation limits);
  mret (mkSubmission observation_text scope_text reporter_text generation evidence complete
          authoritative_absence subjects).

(** Models [DecodeIntentExact], src/document.cpp:448-454. *)
Definition DecodeIntentExact (bs : bytes) (limits : RuntimeLimits) : option IntentDocument :=
  read_exact (DecodeIntent limits) bs.

(** Models [DecodeObservationExact], src/document.cpp:456-463. *)
Definition DecodeObservationExact (bs : bytes) (limits : RuntimeLimits)
  : option ObservationDocument := read_exact (DecodeObservation limits) bs.

(** Models [DecodeSubmissionExact], src/document.cpp:465-472. *)
Definition DecodeSubmissionExact (bs : bytes) (limits : RuntimeLimits)
  : option ObservationSubmission := read_exact (DecodeSubmission limits) bs.

(** ** Well-formedness and layout *)

Definition state_wf (limits : RuntimeLimits) (state : SubjectState) : bool :=
  om_sorted state && (blen state <=? max_attributes_per_subject limits) &&
  (blen state <? 2 ^ 32) &&
  forallb (fun e => IsValidIdentityText e.1 && value_wf e.2) state.

Definition subject_intent_wf (limits : RuntimeLimits) (e : bytes * SubjectIntent) : bool :=
  IsValidIdentityText e.1 && bool_decide (si_id e.2 = e.1) && state_wf limits (si_desired e.2).

Definition subject_observation_wf (limits : RuntimeLimits) (e : bytes * SubjectObservation)
  : bool :=
  IsValidIdentityText e.1 && bool_decide (so_id e.2 = e.1) && state_wf limits (so_observed e.2).

Definition subjects_wf {V} (limits : RuntimeLimits) (entry_wf : bytes * V -> bool)
    (subjects : list (bytes * V)) : bool :=
  om_sorted subjects && (blen subjects <=? max_subjects_per_document limits) &&
  (blen subjects <? 2 ^ 32) && forallb entry_wf subjects.

(** The documents the runtime accepts: typed fields, valid identities, sorted maps
    within the limits, and the digest of their own content. *)
Definition intent_wf (limits : RuntimeLimits) (d : IntentDocument) : bool :=
  IsValidIdentityText (in_intent d) && IsValidIdentityText (in_scope d) &&
  IsValidIdentityText (in_definition d) && u64 (in_generation d) && u64 (in_policy_version d) &&
  subjects_wf limits (subject_intent_wf limits) (in_subjects d) &&
  bool_decide (in_digest d = ComputeIntentDigest d).

Definition observation_wf (limits : RuntimeLimits) (d : ObservationDocument) : bool :=
  IsValidIdentityText (ob_observation d) && IsValidIdentityText (ob_scope d) &&
  IsValidIdentityText (ob_reporter d) && u64 (ob_generation d) && u64 (ob_received_epoch d) &&
  i64 (ob_received_unix_ms d) &&
  subjects_wf limits (subject_observation_wf limits) (ob_subjects d) &&
  bool_decide (ob_digest d = ComputeObservationDigest d).

Definition submission_wf (limits : RuntimeLimits) (d : ObservationSubmission) : bool :=
  IsValidIdentityText (su_observation d) && IsValidIdentityText (su_scope d) &&
  IsValidIdentityText (su_reporter d) && u64 (su_generation d) &&
  subjects_wf limits (subject_observation_wf limits) (su_subjects d).

Definition lay_subject_intent (e : bytes * SubjectIntent) : bytes :=
  lay_bytes e.1 ++ lay_bool (si_complete_attributes e.2) ++ lay_state (si_desired e.2).

Definition lay_subject_observation (e : bytes * SubjectObservation) : bytes :=
  lay_bytes e.1 ++ lay_bool (so_complete_attributes e.2) ++ lay_state (so_observed e.2).

Definition lay_intent_fields (d : IntentDocument) : bytes :=
  lay_bytes (in_intent d) ++ lay_bytes (in_scope d) ++ lay_bytes (in_definition d) ++
  lay_u64 (in_generation d) ++ lay_u64 (in_policy_version d) ++
  lay_u8 (EvidenceClass_to_Z (in_evidence d)) ++ lay_bool (in_complete d) ++
  lay_u32 (blen (in_subjects d)) ++ concat (map lay_subject_intent (in_subjects d)).

Definition lay_intent (d : IntentDocument) : bytes := lay_intent_fields d ++ in_digest d.

Definition lay_observation_fields (d : ObservationDocument) : bytes :=
  lay_bytes (ob_observation d) ++ lay_bytes (ob_scope d) ++ lay_bytes (ob_reporter d) ++
  lay_u64 (ob_generation d) ++ lay_u8 (EvidenceClass_to_Z (ob_evidence d)) ++
  lay_bool (ob_complete d) ++ lay_bool (ob_authoritative_absence d) ++
  lay_u64 (ob_received_epoch d) ++ lay_i64 (ob_received_unix_ms d) ++
  lay_u32 (blen (ob_subjects d)) ++ concat (map lay_subject_observation (ob_subjects d)).

Definition lay_observation (d : ObservationDocument) : bytes :=
  lay_observation_fields d ++ ob_digest d.

Definition lay_submission (d : ObservationSubmission) : bytes :=
  lay_bytes (su_observation d) ++ lay_bytes (su_scope d) ++ lay_bytes (su_reporter d) ++
  lay_u64 (su_generation d) ++ lay_u8 (EvidenceClass_to_Z (su_evidence d)) ++
  lay_bool (su_complete d) ++ lay_bool (su_authoritative_absence d) ++
  lay_u32 (blen (su_subjects d)) ++ concat (map lay_subject_observation (su_subjects d)).

(** ** Facts on the codecs *)

Lemma writes_state limits state :
  state_wf limits state = true -> writes (EncodeState state) (lay_state state).
Proof.
  unfold state_wf. intros H. bool_hyps. apply writes_seq; [by apply writes_count|].
  apply writes_each. apply forallb_Forall in H0. eapply Forall_impl; [exact H0|].
  intros e He. simpl in He. bool_hyps. by apply writes_attribute.
Qed.

Lemma decodes_attribute e :
  IsValidIdentityText e.1 && value_wf e.2 = true -> decodes read_attribute (lay_attribute e) e.
Proof.
  intros H. bool_hyps. unfold read_attribute, lay_attribute. destruct e. cbn [fst snd] in *.
  repeat decode_step.
Qed.

Lemma decodes_state limits state :
  state_wf limits state = true -> decodes (DecodeState limits) (lay_state state) state.
Proof.
  unfold state_wf. intros H. bool_hyps. unfold DecodeState, lay_state.
  decode_step. decode_step; [by apply Z.leb_le|]. apply decodes_map; [done|].
  apply forallb_Forall in H0. eapply Forall_impl; [exact H0|]. apply decodes_attribute.
Qed.

#[export] Hint Resolve writes_state decodes_state : codec.

Lemma writes_subject_intent limits e :
  subject_intent_wf limits e = true -> writes (put_subject_intent e) (lay_subject_intent e).
Proof.
  unfold subject_intent_wf. intros H. bool_hyps.
  unfold put_subject_intent, lay_subject_intent. write_steps.
Qed.

Lemma writes_subject_observation limits e :
  subject_observation_wf limits e = true ->
  writes (put_subject_observation e) (lay_subject_observation e).
Proof.
  unfold subject_observation_wf. intros H. bool_hyps.
  unfold put_subject_observation, lay_subject_observation. write_steps.
Qed.

Lemma decodes_subject limits key complete state :
  IsValidIdentityText key = true -> state_wf limits state = true ->
  decodes (read_subject limits) (lay_bytes key ++ lay_bool complete ++ lay_state state)
    (key, complete, state).
Proof.
  intros Hk Hs. unfold read_subject. pose proof (identity_bound key Hk).
  do 2 decode_step. rewrite StringId_TryParse_ok by done.
  eapply decodes_silent; [apply decodes_ret|]. decode_step. apply decodes_ret.
Qed.

Lemma decodes_subject_intent limits e :
  subject_intent_wf limits e = true ->
  decodes (read_subject_intent limits) (lay_subject_intent e) e.
Proof.
  unfold subject_intent_wf. intros H. bool_hyps. destruct e as [key [id c s]]. simpl in *. subst.
  eapply decodes_end; [by apply decodes_subject|]. apply decodes_ret.
Qed.

Lemma decodes_subject_observation limits e :
  subject_observation_wf limits e = true ->
  decodes (read_subject_observation limits) (lay_subject_observation e) e.
Proof.
  unfold subject_observation_wf. intros H. bool_hyps. destruct e as [key [id c s]].
  simpl in *. subst. eapply decodes_end; [by apply decodes_subject|]. apply decodes_ret.
Qed.

(** The subject loop of each document, against any entry codec. *)
Lemma writes_subjects {V} limits wf (put : bytes * V -> Put) lay subjects :
  (forall e, wf e = true -> writes (put e) (lay e)) ->
  subjects_wf limits wf subjects = true ->
  writes (put_each put subjects) (concat (map lay subjects)).
Proof.
  unfold subjects_wf. intros Hput H. bool_hyps. apply writes_each.
  apply forallb_Forall in H0. by eapply Forall_impl.
Qed.

Lemma decodes_subjects {V} limits wf (read : Read (bytes * V)) lay subjects :
  (forall e, wf e = true -> decodes read (lay e) e) ->
  subjects_wf limits wf subjects = true ->
  decodes (read_map (blen subjects) read) (concat (map lay subjects)) subjects.
Proof.
  unfold subjects_wf. intros Hread H. bool_hyps. apply decodes_map; [done|].
  apply forallb_Forall in H0. by eapply Forall_impl.
Qed.

Lemma subjects_wf_count {V} limits wf (subjects : list (bytes * V)) :
  subjects_wf limits wf subjects = true ->
  blen subjects < 2 ^ 32 /\ (blen subjects <=? max_subjects_per_document limits) = true.
Proof. unfold subjects_wf. intros. bool_hyps. split; [done|]. by apply Z.leb_le. Qed.

Lemma writes_subject_count {V} limits wf (subjects : list (bytes * V)) :
  subjects_wf limits wf subjects = true ->
  writes (PutU32 (Z.land (blen subjects) 0xffffffff)) (lay_u32 (blen subjects)).
Proof. intros H. apply writes_count. apply (subjects_wf_count limits wf _ H). Qed.

Lemma decodes_subject_count {V} limits wf (subjects : list (bytes * V)) :
  subjects_wf limits wf subjects = true ->
  decodes ReadU32 (lay_u32 (blen subjects)) (blen subjects).
Proof. intros H. apply decodes_count. apply (subjects_wf_count limits wf _ H). Qed.

Lemma decodes_evidence e : decodes (read_evidence (EvidenceClass_to_Z e)) [] e.
Proof. unfold read_evidence. rewrite EvidenceClass_of_to_Z. apply decodes_ret. Qed.

Lemma decodes_u8_evidence e :
  decodes ReadU8 (lay_u8 (EvidenceClass_to_Z e)) (EvidenceClass_to_Z e).
Proof. apply decodes_u8, EvidenceClass_to_Z_u8. Qed.

Lemma all_ids_parse_ok texts :
  forallb IsValidIdentityText texts = true -> all_ids_parse texts = true.
Proof.
  induction texts as [|t texts IH]; [done|]. simpl. intros H. bool_hyps.
  rewrite IH by done. rewrite StringId_TryParse_ok by done. done.
Qed.

#[export] Hint Resolve writes_subject_intent writes_subject_observation decodes_subject_intent
  decodes_subject_observation writes_subjects decodes_subjects writes_subject_count
  decodes_subject_count decodes_u8_evidence : codec.

Lemma writes_intent_fields limits d :
  intent_wf limits d = true -> writes (put_intent_fields d) (lay_intent_fields d).
Proof.
  unfold intent_wf. intros H. bool_hyps. unfold put_intent_fields, lay_intent_fields. write_steps.
Qed.

Lemma writes_intent limits d : intent_wf limits d = true -> writes (put_intent d) (lay_intent d).
Proof.
  intros H. apply writes_seq; [by eapply writes_intent_fields|apply writes_digest].
Qed.

Lemma writes_observation_fields limits d :
  observation_wf limits d = true -> writes (put_observation_fields d) (lay_observation_fields d).
Proof.
  unfold observation_wf. intros H. bool_hyps.
  unfold put_observation_fields, lay_observation_fields. write_steps.
Qed.

Lemma writes_observation limits d :
  observation_wf limits d = true -> writes (put_observation d) (lay_observation d).
Proof.
  intros H. apply writes_seq; [by eapply writes_observation_fields|apply writes_digest].
Qed.

Lemma writes_submission limits d :
  submission_wf limits d = true -> writes (put_submission d) (lay_submission d).
Proof.
  unfold submission_wf. intros H. bool_hyps. unfold put_submission, lay_submission. write_steps.
Qed.

(** The common middle of the three decoders: the guards after the fixed fields. *)
Ltac decode_guards :=
  decode_step; [by eapply subjects_wf_count|];
  eapply decodes_silent; [apply decodes_evidence|];
  decode_step; [apply all_ids_parse_ok; simpl; by repeat (apply andb_true_iff; split)|].

Lemma decodes_intent limits d :
  intent_wf limits d = true -> decodes (DecodeIntent limits) (lay_intent d) d.
Proof.
  unfold intent_wf. intros H. bool_hyps.
  assert (length (in_digest d) = kSha256Bytes) as Hlen by (rewrite H0; apply length_Sha256Of).
  unfold DecodeIntent, lay_intent, lay_intent_fields. rewrite <- !app_assoc.
  do 8 decode_step. decode_guards. do 2 decode_step.
  destruct d; simpl in *. decode_step; [by apply bool_decide_eq_true|]. apply decodes_ret.
Qed.

Lemma decodes_observation limits d :
  observation_wf limits d = true -> decodes (DecodeObservation limits) (lay_observation d) d.
Proof.
  unfold observation_wf. intros H. bool_hyps.
  assert (length (ob_digest d) = kSha256Bytes) as Hlen by (rewrite H0; apply length_Sha256Of).
  unfold DecodeObservation, lay_observation, lay_observation_fields. rewrite <- !app_assoc.
  do 10 decode_step. decode_guards. do 2 decode_step.
  destruct d; simpl in *. decode_step; [by apply bool_decide_eq_true|]. apply decodes_ret.
Qed.

Lemma decodes_submission limits d :
  submission_wf limits d = true -> decodes (DecodeSubmission limits) (lay_submission d) d.
Proof.
  unfold submission_wf. intros H. bool_hyps. unfold DecodeSubmission, lay_submission.
  do 8 decode_step. decode_guards. decode_step. destruct d. apply decodes_ret.
Qed.

#[export] Instance intent_codec : PayloadCodec IntentDocument := {|
  pc_put := put_intent; pc_read := DecodeIntent; pc_layout := lay_intent; pc_wf := intent_wf;
  pc_writes := writes_intent; pc_decodes := decodes_intent |}.

#[export] Instance observation_codec : PayloadCodec ObservationDocument := {|
  pc_put := put_observation; pc_read := DecodeObservation; pc_layout := lay_observation;
  pc_wf := observation_wf; pc_writes := writes_observation; pc_decodes := decodes_observation |}.

#[export] Instance submission_codec : PayloadCodec ObservationSubmission := {|
  pc_put := put_submission; pc_read := DecodeSubmission; pc_layout := lay_submission;
  pc_wf := submission_wf; pc_writes := writes_submission; pc_decodes := decodes_submission |}.

(** ** Soundness of the decoders *)

Lemma yields_attribute :
  yields read_attribute (fun e => IsValidIdentityText e.1 && value_wf e.2 = true).
Proof. unfold read_attribute. repeat yield_step. simpl. by bool_goal. Qed.

Lemma u32_count n : u32 n = true -> n < 2 ^ 32.
Proof. intros H. apply u_range in H. lia. Qed.

Lemma yields_state limits :
  yields (DecodeState limits) (fun state => state_wf limits state = true).
Proof.
  unfold DecodeState. do 2 yield_step. bool_hyps.
  eapply yields_weaken; [apply yields_map; [by eapply u_nonneg|apply yields_attribute]|].
  intros state (Hl & Hs & Hf). unfold state_wf. rewrite Hs, Hl, (proj2 (forallb_Forall _ _) Hf).
  bool_goal; try done. by apply u32_count.
Qed.

Lemma yields_subject limits : yields (read_subject limits)
  (fun e => IsValidIdentityText e.1.1 = true /\ state_wf limits e.2 = true).
Proof.
  unfold read_subject. do 2 yield_step. unfold StringId_TryParse.
  destruct (IsValidIdentityText a) eqn:E; cbn [negb].
  - eapply yields_bind; [apply (yields_ret _ (fun x => x = a)); done|]. intros ? ->.
    eapply yields_bind; [apply yields_state|]. intros state Hs. by apply yields_ret.
  - by eapply yields_bind; [apply (yields_refuse (fun _ => False))|].
Qed.

Lemma yields_subject_intent limits :
  yields (read_subject_intent limits) (fun e => subject_intent_wf limits e = true).
Proof.
  eapply yields_bind; [apply yields_subject|]. intros [[subject c] state] [H1 H2].
  apply yields_ret. unfold subject_intent_wf. simpl in *. by bool_goal.
Qed.

Lemma yields_subject_observation limits :
  yields (read_subject_observation limits) (fun e => subject_observation_wf limits e = true).
Proof.
  eapply yields_bind; [apply yields_subject|]. intros [[subject c] state] [H1 H2].
  apply yields_ret. unfold subject_observation_wf. simpl in *. by bool_goal.
Qed.

Lemma yields_subjects {V} limits wf (read : Read (bytes * V)) n :
  u32 n = true -> (n <=? max_subjects_per_document limits) = true ->
  yields read (fun e => wf e = true) ->
  yields (read_map n read) (fun m => subjects_wf limits wf m = true).
Proof.
  intros Hn Hb Hr. eapply yields_weaken; [apply yields_map; [by eapply u_nonneg|exact Hr]|].
  intros m (Hl & Hs & Hf). unfold subjects_wf. rewrite Hs, Hl, Hb, (proj2 (forallb_Forall _ _) Hf).
  bool_goal; try done. by apply u32_count.
Qed.

Lemma yields_evidence raw : yields (read_evidence raw) (fun _ => True).
Proof.
  unfold read_evidence. destruct (EvidenceClass_of_Z raw);
    [by apply yields_ret|apply yields_refuse].
Qed.

Lemma all_ids_parse_valid texts :
  all_ids_parse texts = true -> forallb IsValidIdentityText texts = true.
Proof.
  induction texts as [|t texts IH]; [done|]. cbn [all_ids_parse forallb].
  intros H. apply andb_true_iff in H as [H1 H2]. bool_goal; [by apply valid_parse|by apply IH].
Qed.

#[export] Hint Resolve yields_state yields_subject_intent yields_subject_observation
  yields_subjects yields_evidence : yields.

(** Turns the joint identity check into one validity fact per identity. *)
Ltac ids_valid :=
  match goal with
  | H : all_ids_parse _ = true |- _ =>
    apply all_ids_parse_valid in H; simpl in H; bool_hyps
  end.

Lemma yields_intent limits : yields (DecodeIntent limits) (fun d => intent_wf limits d = true).
Proof.
  unfold DecodeIntent. repeat yield_step. ids_valid. unfold intent_wf. simpl. by bool_goal.
Qed.

Lemma yields_observation limits :
  yields (DecodeObservation limits) (fun d => observation_wf limits d = true).
Proof.
  unfold DecodeObservation. repeat yield_step. ids_valid. unfold observation_wf. simpl.
  by bool_goal.
Qed.

Lemma yields_submission limits :
  yields (DecodeSubmission limits) (fun d => submission_wf limits d = true).
Proof.
  unfold DecodeSubmission. repeat yield_step. ids_valid. unfold submission_wf. simpl.
  by bool_goal.
Qed.

(** ** Validation of accepted documents *)

Lemma ValidateState_wf limits what state :
  state_wf limits state = true -> ValidateState limits what state = Status_Ok.
Proof.
  unfold state_wf. intros H. bool_hyps. unfold ValidateState.
  rewrite (proj2 (Z.ltb_ge _ _)) by done. apply forallb_Forall in H0.
  induction H0 as [|[k v] state Hkv Hst IH]; [done|]. simpl in Hkv. bool_hyps. simpl.
  rewrite is_empty_valid, value_wf_valid by done. apply IH.
  - apply om_sorted_cons in H. tauto.
  - rewrite blen_cons in *. lia.
  - rewrite blen_cons in *. lia.
Qed.

Lemma validate_subjects_wf {V} limits empty_text what state_of wf (subjects : list (bytes * V)) :
  (forall e, wf e = true ->
     IsValidIdentityText e.1 = true /\ state_wf limits (state_of e.2) = true) ->
  forallb wf subjects = true ->
  validate_subjects limits empty_text what state_of subjects = Status_Ok.
Proof.
  intros Hwf. induction subjects as [|[k e] subjects IH]; [done|]. simpl. intros H. bool_hyps.
  destruct (Hwf (k, e) ltac:(done)) as [Hk Hs]. simpl in *.
  rewrite is_empty_valid, ValidateState_wf by done. simpl. by apply IH.
Qed.

Lemma ValidateIntent_wf limits d : intent_wf limits d = true -> ValidateIntent d limits = Status_Ok.
Proof.
  unfold intent_wf, subjects_wf. intros H. bool_hyps. unfold ValidateIntent.
  rewrite !is_empty_valid by done. simpl. rewrite (proj2 (Z.ltb_ge _ _)) by done.
  apply (validate_subjects_wf _ _ _ _ (subject_intent_wf limits)); [|done].
  unfold subject_intent_wf. intros e He. by bool_hyps.
Qed.

Lemma ValidateSubmission_wf limits d :
  submission_wf limits d = true -> ValidateSubmission d limits = Status_Ok.
Proof.
  unfold submission_wf, subjects_wf. intros H. bool_hyps. unfold ValidateSubmission.
  rewrite !is_empty_valid by done. simpl. rewrite (proj2 (Z.ltb_ge _ _)) by done.
  apply (validate_subjects_wf _ _ _ _ (subject_observation_wf limits)); [|done].
  unfold subject_observation_wf. intros e He. by bool_hyps.
Qed.

(** ** Properties *)

(** C34. An intent and an observation encoded for the journal or the wire are decoded
    to the same documents, all subjects and attributes included. *)
Theorem documents_roundtrip limits intent observation :
  intent_wf limits intent && observation_wf limits observation = true ->
  EncodeIntent intent <> [] -> EncodeObservation observation <> [] ->
  DecodeIntentExact (EncodeIntent intent) limits = Some intent /\
  DecodeObservationExact (EncodeObservation observation) limits = Some observation.
Proof.
  intros H Hi Ho. bool_hyps. split.
  - exact (payload_roundtrip limits intent H Hi).
  - exact (payload_roundtrip limits observation H0 Ho).
Qed.

(** Setting the digest field to the digest of the content, as the engine does on
    submission. *)
Definition seal_intent (d : IntentDocument) : IntentDocument :=
  mkIntent (in_intent d) (in_scope d) (in_definition d) (in_generation d) (in_policy_version d)
    (in_evidence d) (in_complete d) (in_subjects d) (ComputeIntentDigest d).

Definition seal_observation (d : ObservationDocument) : ObservationDocument :=
  mkObservation (ob_observation d) (ob_scope d) (ob_reporter d) (ob_generation d) (ob_evidence d)
    (ob_complete d) (ob_authoritative_absence d) (ob_received_epoch d) (ob_received_unix_ms d)
    (ob_subjects d) (ComputeObservationDigest d).

Definition example_state : SubjectState :=
  [(B "admin-up", AV_Boolean true); (B "mtu", AV_Unsigned 9000); (B "role", AV_Token (B "leaf"))].

Definition example_intent : IntentDocument :=
  seal_intent (mkIntent (B "intent-1") (B "fabric/rack-7") (B "definition-a") 4 1 EC_Real true
    [(B "port/eth0", mkSubjectIntent (B "port/eth0") true example_state);
     (B "port/eth1", mkSubjectIntent (B "port/eth1") false [])] []).

Definition example_observation : ObservationDocument :=
  seal_observation (mkObservation (B "obs-1") (B "fabric/rack-7") (B "agent/a") 9 EC_Real true true
    3 1700000000000
    [(B "port/eth0", mkSubjectObservation (B "port/eth0") true example_state)] []).

Lemma documents_roundtrip_witness :
  DecodeIntentExact (EncodeIntent example_intent) default_limits = Some example_intent.
Proof.
  apply (documents_roundtrip default_limits example_intent example_observation);
    vm_compute; [reflexivity|discriminate|discriminate].
Defined.

(** Whatever bytes are presented, a decoded intent has typed fields, valid
    identities, sorted duplicate-free maps within the limits and the digest of its
    own content, and therefore passes validation. *)
Theorem decoded_intent_valid limits payload intent :
  DecodeIntentExact payload limits = Some intent ->
  intent_wf limits intent = true /\ ValidateIntent intent limits = Status_Ok.
Proof.
  intros H. pose proof (yields_exact _ _ _ _ (yields_intent limits) H) as Hwf.
  split; [done|by apply ValidateIntent_wf].
Qed.

Lemma decoded_intent_valid_witness :
  DecodeIntentExact (EncodeIntent example_intent) default_limits = Some example_intent /\
  ValidateIntent example_intent default_limits = Status_Ok.
Proof.
  assert (DecodeIntentExact (EncodeIntent example_intent) default_limits = Some example_intent)
    as H by (vm_compute; reflexivity).
  split; [exact H|]. exact (proj2 (decoded_intent_valid _ _ _ H)).
Defined.

(** The digest of an intent binds every field of it: two accepted intents of equal
    digest are the same intent, or exhibit a SHA-256 collision. *)
Theorem intent_digest_binding limits d1 d2 :
  intent_wf limits d1 && intent_wf limits d2 &&
    (2 + blen (lay_intent_fields d1) <=? kMaxCanonicalBytes) &&
    (2 + blen (lay_intent_fields d2) <=? kMaxCanonicalBytes) = true ->
  in_digest d1 = in_digest d2 ->
  d1 = d2 \/ exists m1 m2 : bytes, m1 <> m2 /\ Sha256Of m1 = Sha256Of m2.
Proof.
  intros H Heq. bool_hyps.
  assert (forall d, intent_wf limits d = true ->
    2 + blen (lay_intent_fields d) <= kMaxCanonicalBytes ->
    in_digest d = Sha256Of (lay_u16 kCanonicalSchemaVersion ++ lay_intent_fields d)) as Hd.
  { intros d Hd Hl. unfold intent_wf in Hd. apply andb_true_iff in Hd as Hd'. destruct Hd' as [_ Hdig].
    bool_hyps. rewrite Hdig. unfold ComputeIntentDigest, writer_Digest.
    erewrite writes_fresh; [reflexivity| |].
    - apply writes_seq; [by apply writes_u16|]. apply (writes_intent_fields limits).
      unfold intent_wf. by bool_goal.
    - rewrite blen_app. exact Hl. }
  destruct (decide (lay_intent_fields d1 = lay_intent_fields d2)) as [Hlay|Hlay].
  - left. apply (decodes_inj (DecodeIntent limits) lay_intent).
    + by apply decodes_intent.
    + by apply decodes_intent.
    + unfold lay_intent. by rewrite Hlay, Heq.
  - right. exists (lay_u16 kCanonicalSchemaVersion ++ lay_intent_fields d1),
                  (lay_u16 kCanonicalSchemaVersion ++ lay_intent_fields d2).
    split; [|by rewrite <- !Hd].
    intros Hc. by apply app_inv_head in Hc.
Qed.

Lemma intent_digest_binding_witness :
  example_intent = example_intent \/ exists m1 m2 : bytes, m1 <> m2 /\ Sha256Of m1 = Sha256Of m2.
Proof.
  apply (intent_digest_binding default_limits); vm_compute; reflexivity.
Defined.
