(* ===== verification/Drift.v ===== *)
(** * Drift classification (drift.hpp, drift.cpp)

    Selection of the current intent and observation of a scope, freshness of an
    observation, the merged walk over the attributes of a subject, and the
    classifier of a whole scope.  The classifier and the attribute walk are proved
    equal to references that decide each key by lookup. *)

From Stdlib Require Import ZArith Lia.
From stdpp Require Import prelude.
From S2P Require Import Prelude OrdMap Hash Status Identity Canonical Value Policy Document.
Local Open Scope Z_scope.

(** ** Vocabulary *)

(** Models [DriftClass], include/summon/fabric_reconciliation/drift.hpp:33-57. *)
Inductive DriftClass :=
| DC_Invalid | DC_AlreadyConverged | DC_Missing | DC_Unexpected | DC_Mismatched
| DC_StaleObservation | DC_StaleIntent | DC_Conflict | DC_Unknown | DC_Unsupported.

#[export] Instance DriftClass_eq : EqDecision DriftClass.
Proof. solve_decision. Defined.

Definition DriftClass_to_Z (d : DriftClass) : Z :=
  match d with
  | DC_Invalid => 0 | DC_AlreadyConverged => 1 | DC_Missing => 2 | DC_Unexpected => 3
  | DC_Mismatched => 4 | DC_StaleObservation => 5 | DC_StaleIntent => 6 | DC_Conflict => 7
  | DC_Unknown => 8 | DC_Unsupported => 9
  end.

(** Models [ToText], src/drift.cpp:188-202. *)
Definition DriftClass_ToText (d : DriftClass) : bytes :=
  match d with
  | DC_Invalid => B "INVALID" | DC_AlreadyConverged => B "ALREADY_CONVERGED"
  | DC_Missing => B "MISSING" | DC_Unexpected => B "UNEXPECTED"
  | DC_Mismatched => B "MISMATCHED" | DC_StaleObservation => B "STALE_OBSERVATION"
  | DC_StaleIntent => B "STALE_INTENT" | DC_Conflict => B "CONFLICT"
  | DC_Unknown => B "UNKNOWN" | DC_Unsupported => B "UNSUPPORTED"
  end.

(** Models [TryParseDriftClass], src/drift.cpp:204-219. *)
Definition TryParseDriftClass (view : bytes) : option DriftClass :=
  if text_eqb view (B "ALREADY_CONVERGED") then Some DC_AlreadyConverged
  else if text_eqb view (B "MISSING") then Some DC_Missing
  else if text_eqb view (B "UNEXPECTED") then Some DC_Unexpected
  else if text_eqb view (B "MISMATCHED") then Some DC_Mismatched
  else if text_eqb view (B "STALE_OBSERVATION") then Some DC_StaleObservation
  else if text_eqb view (B "STALE_INTENT") then Some DC_StaleIntent
  else if text_eqb view (B "CONFLICT") then Some DC_Conflict
  else if text_eqb view (B "UNKNOWN") then Some DC_Unknown
  else if text_eqb view (B "UNSUPPORTED") then Some DC_Unsupported
  else None.

(** Models [IsActionableDrift], src/drift.cpp:221-224. *)
Definition IsActionableDrift (value : DriftClass) : bool :=
  match value with DC_Missing | DC_Unexpected | DC_Mismatched => true | _ => false end.

(** Models [IsIndeterminateDrift], src/drift.cpp:226-229. *)
Definition IsIndeterminateDrift (value : DriftClass) : bool :=
  match value with
  | DC_Unknown | DC_StaleObservation | DC_StaleIntent | DC_Invalid => true
  | _ => false
  end.

(** Models [AttributeDeltaKind], include/summon/fabric_reconciliation/drift.hpp:69-79. *)
Inductive AttributeDeltaKind :=
| DK_Invalid | DK_ValueMismatch | DK_OnlyInIntent | DK_OnlyInObservation | DK_NotComparable
| DK_Unmanaged | DK_ObserveOnly.

#[export] Instance AttributeDeltaKind_eq : EqDecision AttributeDeltaKind.
Proof. solve_decision. Defined.

Definition AttributeDeltaKind_to_Z (k : AttributeDeltaKind) : Z :=
  match k with
  | DK_Invalid => 0 | DK_ValueMismatch => 1 | DK_OnlyInIntent => 2 | DK_OnlyInObservation => 3
  | DK_NotComparable => 4 | DK_Unmanaged => 5 | DK_ObserveOnly => 6
  end.

(** Models [ToText], src/drift.cpp:231-242. *)
Definition AttributeDeltaKind_ToText (k : AttributeDeltaKind) : bytes :=
  match k with
  | DK_Invalid => B "INVALID" | DK_ValueMismatch => B "VALUE_MISMATCH"
  | DK_OnlyInIntent => B "ONLY_IN_INTENT" | DK_OnlyInObservation => B "ONLY_IN_OBSERVATION"
  | DK_NotComparable => B "NOT_COMPARABLE" | DK_Unmanaged => B "UNMANAGED"
  | DK_ObserveOnly => B "OBSERVE_ONLY"
  end.

(** Models [AttributeDelta], include/summon/fabric_reconciliation/drift.hpp:83-90. *)
Record AttributeDelta := mkDelta {
  ad_key : bytes; ad_kind : AttributeDeltaKind;
  ad_intended : AttributeValue; ad_observed : AttributeValue }.

(** Models [DriftRecord], include/summon/fabric_reconciliation/drift.hpp:93-102. *)
Record DriftRecord := mkDriftRecord {
  dr_scope : bytes;
  dr_subject : bytes;
  dr_drift : DriftClass;
  dr_reason : Z;
  dr_deltas : list AttributeDelta;
  dr_evidence : EvidenceClass
}.

#[export] Instance AttributeDelta_eq : EqDecision AttributeDelta.
Proof. solve_decision. Defined.
#[export] Instance DriftRecord_eq : EqDecision DriftRecord.
Proof. solve_decision. Defined.

(** Models [FreshnessVerdict], include/summon/fabric_reconciliation/drift.hpp:105-115. *)
Inductive FreshnessVerdict := FV_Invalid | FV_Fresh | FV_Expired | FV_ForeignEpoch | FV_ClockRegression.

#[export] Instance FreshnessVerdict_eq : EqDecision FreshnessVerdict.
Proof. solve_decision. Defined.

(** Models [ToText], src/drift.cpp:244-253. *)
Definition FreshnessVerdict_ToText (v : FreshnessVerdict) : bytes :=
  match v with
  | FV_Invalid => B "INVALID" | FV_Fresh => B "FRESH" | FV_Expired => B "EXPIRED"
  | FV_ForeignEpoch => B "FOREIGN_EPOCH" | FV_ClockRegression => B "CLOCK_REGRESSION"
  end.

(** Models [ReasonOf], src/drift.cpp:255-264. *)
Definition ReasonOf (value : FreshnessVerdict) : Z :=
  match value with
  | FV_Fresh => RC_None
  | FV_Expired => RC_ObservationExpired
  | FV_ForeignEpoch => RC_ObservationForeignEpoch
  | FV_ClockRegression => RC_ObservationClockRegression
  | FV_Invalid => RC_NoObservationForScope
  end.

(** Subtraction of two [std::int64_t].  The model keeps the result at its width; an overflow is
    undefined in the language, and [sub_i64_exact] shows that clocks that are not negative give
    none. *)
Definition sub_i64 (a b : Z) : Z := to_signed 64 (wrap 64 (a - b)).

(** Models [EvaluateFreshness], src/drift.cpp:266-281. *)
Definition EvaluateFreshness (observation : ObservationDocument) (policy : FreshnessPolicy)
    (live_epoch now_unix_ms : Z) : FreshnessVerdict :=
  if require_current_epoch policy && negb (ob_received_epoch observation =? live_epoch)
  then FV_ForeignEpoch
  else if 0 <? max_observation_age_ms policy then
    if now_unix_ms <? ob_received_unix_ms observation then FV_ClockRegression
    else if max_observation_age_ms policy <?
            sub_i64 now_unix_ms (ob_received_unix_ms observation) then FV_Expired
    else FV_Fresh
  else FV_Fresh.

(** ** Selection *)

(** Models [ObservationKeyLess], src/drift.cpp:14-22. *)
Definition ObservationKeyLess (lhs rhs : ObservationDocument) : bool :=
  if negb (ob_generation lhs =? ob_generation rhs) then ob_generation lhs <? ob_generation rhs
  else if negb (ob_received_unix_ms lhs =? ob_received_unix_ms rhs)
       then ob_received_unix_ms lhs <? ob_received_unix_ms rhs
  else bytes_ltb (ob_reporter lhs) (ob_reporter rhs).

(** Models [IntentSelection], include/summon/fabric_reconciliation/drift.hpp:170-174
    and [ObservationSelection], which has the same fields. *)
Record Selection (D : Type) := mkSelection {
  sel_selected : option D; sel_conflicted : bool; sel_reason : Z }.
Arguments mkSelection {D}.
Arguments sel_selected {D}.
Arguments sel_conflicted {D}.
Arguments sel_reason {D}.

(** The first loop: the candidate no other exceeds, the earliest of equals;
    [None] entries are the null pointers. *)
Fixpoint select_max {D} (less : D -> D -> bool) (selected : option D) (candidates : list (option D))
  : option D :=
  match candidates with
  | [] => selected
  | None :: rest => select_max less selected rest
  | Some document :: rest =>
    match selected with
    | None => select_max less (Some document) rest
    | Some current =>
      select_max less (Some (if less current document then document else current)) rest
    end
  end.

(** The second loop: some candidate of the selected generation carries another digest. *)
Definition disagrees {D} (generation : D -> Z) (digest : D -> bytes) (selected : D)
    (candidates : list (option D)) : bool :=
  existsb (fun candidate =>
             match candidate with
             | None => false
             | Some document =>
               (generation document =? generation selected) &&
               negb (bool_decide (digest document = digest selected))
             end) candidates.

(** Models [SelectCurrentIntent], src/drift.cpp:283-312. *)
Definition SelectCurrentIntent (candidates : list (option IntentDocument))
  : Selection IntentDocument :=
  match select_max (fun a b => in_generation a <? in_generation b) None candidates with
  | None => mkSelection None false RC_NoIntentForScope
  | Some selected =>
    if disagrees in_generation in_digest selected candidates
    then mkSelection None true RC_ConflictingRepublishers
    else mkSelection (Some selected) false RC_None
  end.

(** Models [SelectCurrentObservation], src/drift.cpp:314-343. *)
Definition SelectCurrentObservation (candidates : list (option ObservationDocument))
  : Selection ObservationDocument :=
  match select_max ObservationKeyLess None candidates with
  | None => mkSelection None false RC_NoObservationForScope
  | Some selected =>
    if disagrees ob_generation ob_digest selected candidates
    then mkSelection None true RC_ConflictingRepublishers
    else mkSelection (Some selected) false RC_None
  end.

(** ** The attribute walk *)

(** Models [AttributeWalk], src/drift.cpp:45-50. *)
Record AttributeWalk := mkWalk {
  wk_deltas : list AttributeDelta;
  wk_coverage_gap : bool;
  wk_unsupported : bool;
  wk_comparisons : Z
}.

Definition walk_count (w : AttributeWalk) : AttributeWalk :=
  mkWalk (wk_deltas w) (wk_coverage_gap w) (wk_unsupported w) (wk_comparisons w + 1).
Definition walk_push (d : AttributeDelta) (w : AttributeWalk) : AttributeWalk :=
  mkWalk (wk_deltas w ++ [d]) (wk_coverage_gap w) (wk_unsupported w) (wk_comparisons w).
Definition walk_gap (w : AttributeWalk) : AttributeWalk :=
  mkWalk (wk_deltas w) true (wk_unsupported w) (wk_comparisons w).
Definition walk_unsupported (w : AttributeWalk) : AttributeWalk :=
  mkWalk (wk_deltas w) (wk_coverage_gap w) true (wk_comparisons w).

Section Walk.
Variables (intent_complete observation_complete : bool) (policy : ReconciliationPolicy).

(** Models [WalkAttributes], src/drift.cpp:59-82: a key only in the intent. *)
Definition walk_left (key : bytes) (intended : AttributeValue) (walk : AttributeWalk)
  : AttributeWalk :=
  let walk := walk_count walk in
  if IsAttributeUnmanaged policy key then
    walk_push (mkDelta key DK_Unmanaged intended AV_Absent) walk
  else if observation_complete then
    walk_push (mkDelta key DK_OnlyInIntent intended AV_Absent) walk
  else walk_gap walk.

(** Models [WalkAttributes], src/drift.cpp:83-104: a key only in the observation. *)
Definition walk_right (key : bytes) (observed : AttributeValue) (walk : AttributeWalk)
  : AttributeWalk :=
  let walk := walk_count walk in
  if IsAttributeUnmanaged policy key then
    walk_push (mkDelta key DK_Unmanaged AV_Absent observed) walk
  else if intent_complete then
    walk_push (mkDelta key DK_OnlyInObservation AV_Absent observed) walk
  else walk_gap walk.

(** Models [WalkAttributes], src/drift.cpp:105-134: a key on both sides. *)
Definition walk_both (key : bytes) (intended observed : AttributeValue) (walk : AttributeWalk)
  : AttributeWalk :=
  let walk := walk_count walk in
  if IsAttributeUnmanaged policy key then
    walk_push (mkDelta key DK_Unmanaged intended observed) walk
  else if negb (AttributeValue_IsValid intended) || negb (AttributeValue_IsValid observed) then
    walk_unsupported walk
  else if negb (ComparableWith intended observed) then
    walk_push (mkDelta key DK_NotComparable intended observed) walk
  else if negb (av_eqb intended observed) then
    walk_push (mkDelta key (if IsAttributeObserveOnly policy key then DK_ObserveOnly
                            else DK_ValueMismatch) intended observed) walk
  else walk.

(** Models [WalkAttributes], src/drift.cpp:52-137. *)
Definition WalkAttributes (desired observed : SubjectState) : AttributeWalk :=
  merge_walk walk_left walk_right walk_both desired observed (mkWalk [] false false 0).
End Walk.

(** Models [HasActionableDelta], src/drift.cpp:139-146. *)
Definition HasActionableDelta (deltas : list AttributeDelta) : bool :=
  existsb (fun delta => negb (bool_decide (ad_kind delta = DK_Unmanaged))) deltas.

(** The rank of a delta kind, [None] for the kinds the loop skips. *)
Definition delta_rank (kind : AttributeDeltaKind) : option (Z * Z) :=
  match kind with
  | DK_NotComparable => Some (0, RC_ClassifiedAttributeNotComparable)
  | DK_ValueMismatch => Some (1, RC_ClassifiedAttributeMismatch)
  | DK_ObserveOnly => Some (2, RC_ClassifiedAttributeMismatch)
  | DK_OnlyInIntent => Some (3, RC_ClassifiedAttributeMissing)
  | DK_OnlyInObservation => Some (4, RC_ClassifiedAttributeUnexpected)
  | DK_Unmanaged | DK_Invalid => None
  end.

(** Models [MismatchReason], src/drift.cpp:148-184. *)
Definition MismatchReason (deltas : list AttributeDelta) : Z :=
  (foldl (fun '(best, reason) delta =>
            match delta_rank (ad_kind delta) with
            | None => (best, reason)
            | Some (rank, code) => if rank <? best then (rank, code) else (best, reason)
            end) (99, RC_ClassifiedAttributeMismatch) deltas).2.

(** ** The classifier *)

(** Models [ScopeEvidenceRef], include/summon/fabric_reconciliation/drift.hpp:128-148. *)
Record ScopeEvidenceRef := mkEvidence {
  ev_has_intent : bool;
  ev_intent : bytes;
  ev_definition : bytes;
  ev_intent_generation : Z;
  ev_intent_digest : bytes;
  ev_intent_complete : bool;
  ev_has_observation : bool;
  ev_observation : bytes;
  ev_reporter : bytes;
  ev_observation_generation : Z;
  ev_observation_digest : bytes;
  ev_received_epoch : Z;
  ev_received_unix_ms : Z;
  ev_observation_complete : bool;
  ev_observation_authoritative_absence : bool;
  ev_freshness : FreshnessVerdict;
  ev_evidence : EvidenceClass
}.

(** Models [ClassificationReport], include/summon/fabric_reconciliation/drift.hpp:151-162. *)
Record ClassificationReport := mkReport {
  cr_scope : bytes;
  cr_evidence : ScopeEvidenceRef;
  cr_records : list DriftRecord;
  cr_subject_visits : Z;
  cr_attribute_comparisons : Z
}.

(** Models [ClassificationReport::CountClass], src/drift.cpp:345-353. *)
Definition CountClass (report : ClassificationReport) (value : DriftClass) : Z :=
  blen (List.filter (fun record => bool_decide (dr_drift record = value)) (cr_records report)).

(** Models [ClassificationInput], include/summon/fabric_reconciliation/drift.hpp:196-209. *)
Record ClassificationInput := mkInput {
  ci_scope : bytes;
  ci_intents : option (list (option IntentDocument));
  ci_observations : option (list (option ObservationDocument));
  ci_committed_intent_generation : Z;
  ci_has_committed_intent : bool;
  ci_policy : option ReconciliationPolicy;
  ci_limits : option RuntimeLimits;
  ci_live_epoch : Z;
  ci_now_unix_ms : Z
}.

(** Models [MakeRecord], src/drift.cpp:31-40. *)
Definition MakeRecord (scope subject : bytes) (drift : DriftClass) (reason : Z)
    (evidence : EvidenceClass) : DriftRecord :=
  mkDriftRecord scope subject drift reason [] evidence.

Definition with_deltas (record : DriftRecord) (deltas : list AttributeDelta) : DriftRecord :=
  mkDriftRecord (dr_scope record) (dr_subject record) (dr_drift record) (dr_reason record) deltas
    (dr_evidence record).

(** Models [CollectSubjects], src/drift.cpp:24-29. *)
Definition CollectSubjects {V} (subjects : list (bytes * V)) (into : list bytes) : list bytes :=
  os_insert_all subjects.*1 into.

Section Scope.
Variables (scope : bytes) (policy : ReconciliationPolicy) (evidence_class : EvidenceClass).
Variables (intent : IntentDocument) (observation : ObservationDocument).

Definition absence_allowed : bool :=
  negb (require_complete_coverage_for_absence (freshness policy)) ||
  (ob_complete observation && ob_authoritative_absence observation).

Definition managed_attributes (state : SubjectState) : SubjectState :=
  List.filter (fun attribute => negb (IsAttributeUnmanaged policy attribute.1)) state.

(** Models [ClassifyScope], src/drift.cpp:531-553: a subject only in the intent. *)
Definition classify_left (subject : bytes) (declared : SubjectIntent) : DriftRecord :=
  if absence_allowed then
    with_deltas (MakeRecord scope subject DC_Missing RC_ClassifiedSubjectMissing evidence_class)
      (map (fun attribute => mkDelta attribute.1 DK_OnlyInIntent attribute.2 AV_Absent)
           (managed_attributes (si_desired declared)))
  else
    MakeRecord scope subject DC_Unknown
      (if negb (ob_complete observation) then RC_ObservationCoverageIncomplete
       else RC_ObservationCannotAssertAbsence) evidence_class.

(** Models [ClassifyScope], src/drift.cpp:557-578: a subject only in the observation. *)
Definition classify_right (subject : bytes) (seen : SubjectObservation) : DriftRecord :=
  if in_complete intent then
    with_deltas (MakeRecord scope subject DC_Unexpected RC_ClassifiedSubjectUnexpected
                   evidence_class)
      (map (fun attribute => mkDelta attribute.1 DK_OnlyInObservation AV_Absent attribute.2)
           (managed_attributes (so_observed seen)))
  else MakeRecord scope subject DC_Unknown RC_IntentCoverageIncomplete evidence_class.

(** Models [ClassifyScope], src/drift.cpp:581-608: a subject on both sides. *)
Definition classify_walk (subject : bytes) (walk : AttributeWalk) : DriftRecord :=
  let '(drift, reason) :=
    if wk_unsupported walk then (DC_Unsupported, RC_SubjectKindUnsupported)
    else if wk_coverage_gap walk then (DC_Unknown, RC_AttributeCoverageIncomplete)
    else if negb (HasActionableDelta (wk_deltas walk)) then
      (DC_AlreadyConverged, RC_ClassifiedAlreadyConverged)
    else (DC_Mismatched, MismatchReason (wk_deltas walk)) in
  with_deltas (MakeRecord scope subject drift reason evidence_class) (wk_deltas walk).

Definition walk_subject (declared : SubjectIntent) (seen : SubjectObservation) : AttributeWalk :=
  WalkAttributes (si_complete_attributes declared) (so_complete_attributes seen) policy
    (si_desired declared) (so_observed seen).

(** What the merge loop accumulates: records, subject visits, attribute comparisons. *)
Definition Progress := (list DriftRecord * Z * Z)%type.

Definition visit (record : DriftRecord) (comparisons : Z) (p : Progress) : Progress :=
  let '(records, visits, compared) := p in
  (records ++ [record], visits + 1, compared + comparisons).

(** Models [ClassifyScope], src/drift.cpp:525-611: the merge loop over the subjects. *)
Definition classify_subjects : Progress :=
  merge_walk
    (fun subject declared => visit (classify_left subject declared) 0)
    (fun subject seen => visit (classify_right subject seen) 0)
    (fun subject declared seen =>
       let walk := walk_subject declared seen in
       visit (classify_walk subject walk) (wk_comparisons walk))
    (in_subjects intent) (ob_subjects observation) ([], 0, 0).
End Scope.

(** Models [ClassifyScope], src/drift.cpp:388-431: the evidence bound into the report. *)
Definition scope_evidence (input : ClassificationInput) (policy : ReconciliationPolicy)
    (intent : option IntentDocument) (observation : option ObservationDocument)
  : ScopeEvidenceRef :=
  let evidence_class :=
    match observation with
    | Some o => if bool_decide (ob_evidence o = EC_Unknown)
                then match intent with Some i => in_evidence i | None => EC_Unknown end
                else ob_evidence o
    | None => match intent with Some i => in_evidence i | None => EC_Unknown end
    end in
  let '(has_intent, i_id, i_def, i_gen, i_dig, i_complete) :=
    match intent with
    | Some i => (true, in_intent i, in_definition i, in_generation i, in_digest i, in_complete i)
    | None => (false, [], [], 0, zero_digest, true)
    end in
  match observation with
  | Some o =>
    mkEvidence has_intent i_id i_def i_gen i_dig i_complete
      true (ob_observation o) (ob_reporter o) (ob_generation o) (ob_digest o)
      (ob_received_epoch o) (ob_received_unix_ms o) (ob_complete o) (ob_authoritative_absence o)
      (EvaluateFreshness o (freshness policy) (ci_live_epoch input) (ci_now_unix_ms input))
      evidence_class
  | None =>
    mkEvidence has_intent i_id i_def i_gen i_dig i_complete
      false [] [] 0 zero_digest 0 0 true false FV_Invalid evidence_class
  end.

Definition in_other_scope {D} (scope_of : D -> bytes) (scope : bytes) (candidate : option D)
  : bool :=
  match candidate with
  | Some document => negb (bool_decide (scope_of document = scope))
  | None => false
  end.

Definition collect_candidates {D V} (subjects_of : D -> list (bytes * V))
    (candidates : list (option D)) (into : list bytes) : list bytes :=
  foldl (fun acc candidate =>
           match candidate with
           | Some document => CollectSubjects (subjects_of document) acc
           | None => acc
           end) into candidates.

(** Models [ClassifyScope], src/drift.cpp:355-616. *)
Definition ClassifyScope (input : ClassificationInput) : Result ClassificationReport :=
  match ci_policy input with
  | None => Failed (mkStatus SC_PreconditionFailed RC_DriftIsIndeterminate
                      (B "classification requires an explicit policy"))
  | Some policy =>
    if is_empty (ci_scope input) then
      Failed (mkStatus SC_Rejected RC_UnsupportedInput
                (B "classification requires a non-empty scope"))
    else
      let intents := default [] (ci_intents input) in
      let observations := default [] (ci_observations input) in
      if existsb (in_other_scope in_scope (ci_scope input)) intents then
        Failed (mkStatus SC_Rejected RC_UnsupportedInput
                  (B "candidate intent belongs to a different scope"))
      else if existsb (in_other_scope ob_scope (ci_scope input)) observations then
        Failed (mkStatus SC_Rejected RC_UnsupportedInput
                  (B "candidate observation belongs to a different scope"))
      else
        let intent_selection := SelectCurrentIntent intents in
        let observation_selection := SelectCurrentObservation observations in
        let evidence := scope_evidence input policy (sel_selected intent_selection)
                                       (sel_selected observation_selection) in
        let intent_regressed :=
          ci_has_committed_intent input &&
          match sel_selected intent_selection with
          | Some i => in_generation i <? ci_committed_intent_generation input
          | None => false
          end in
        let evidence_class := ev_evidence evidence in
        let subjects :=
          collect_candidates ob_subjects observations
            (collect_candidates in_subjects intents []) in
        let definite_conflict :=
          sel_conflicted intent_selection || sel_conflicted observation_selection in
        let definite_stale_intent :=
          negb definite_conflict &&
          (intent_regressed || (negb (ev_has_intent evidence) && ci_has_committed_intent input)) in
        let missing_intent :=
          negb definite_conflict && negb definite_stale_intent && negb (ev_has_intent evidence) in
        let stale_observation :=
          negb definite_conflict && negb definite_stale_intent && negb missing_intent &&
          ev_has_observation evidence && negb (bool_decide (ev_freshness evidence = FV_Fresh)) in
        let every (drift : DriftClass) (reason : Z) (over : list bytes) :=
          Value (mkReport (ci_scope input) evidence
                   (map (fun subject =>
                           MakeRecord (ci_scope input) subject drift reason evidence_class) over)
                   0 0) in
        if definite_conflict then
          every DC_Conflict (if sel_conflicted intent_selection then sel_reason intent_selection
                             else sel_reason observation_selection) subjects
        else if definite_stale_intent then
          every DC_StaleIntent (if intent_regressed then RC_IntentGenerationRegressed
                                else RC_NoIntentForScope) subjects
        else if missing_intent then every DC_Unknown RC_NoIntentForScope subjects
        else
          match sel_selected intent_selection with
          | None => Failed (mkStatus SC_InternalError RC_DriftIsIndeterminate
              (B "intent selection is empty after every empty-selection path returned"))
          | Some intent =>
            if negb (ev_has_observation evidence) then
              every DC_Unknown RC_NoObservationForScope (in_subjects intent).*1
            else if stale_observation then
              every DC_StaleObservation (ReasonOf (ev_freshness evidence)) subjects
            else
              match sel_selected observation_selection with
              | None => Failed (mkStatus SC_InternalError RC_DriftIsIndeterminate
                  (B "observation selection is empty after the freshness gate"))
              | Some observation =>
                let '(records, visits, comparisons) :=
                  classify_subjects (ci_scope input) policy evidence_class intent observation in
                Value (mkReport (ci_scope input) evidence records visits comparisons)
              end
          end
  end.

(** ** Reference: attributes and subjects decided by lookup *)

Section WalkReference.
Variables (intent_complete observation_complete : bool) (policy : ReconciliationPolicy).

(** The difference reported at a key with these two sides. *)
Definition attribute_delta (key : bytes) (desired observed : option AttributeValue)
  : option AttributeDelta :=
  if IsAttributeUnmanaged policy key then
    match desired, observed with
    | None, None => None
    | _, _ => Some (mkDelta key DK_Unmanaged (default AV_Absent desired)
                      (default AV_Absent observed))
    end
  else
    match desired, observed with
    | None, None => None
    | Some d, None =>
      if observation_complete then Some (mkDelta key DK_OnlyInIntent d AV_Absent) else None
    | None, Some o =>
      if intent_complete then Some (mkDelta key DK_OnlyInObservation AV_Absent o) else None
    | Some d, Some o =>
      if negb (AttributeValue_IsValid d && AttributeValue_IsValid o) then None
      else if negb (bool_decide (av_kind d = av_kind o)) then
        Some (mkDelta key DK_NotComparable d o)
      else if bool_decide (d = o) then None
      else Some (mkDelta key (if IsAttributeObserveOnly policy key then DK_ObserveOnly
                              else DK_ValueMismatch) d o)
    end.

(** A managed key whose absence on one side proves nothing. *)
Definition attribute_gap (key : bytes) (desired observed : option AttributeValue) : bool :=
  negb (IsAttributeUnmanaged policy key) &&
  match desired, observed with
  | Some _, None => negb observation_complete
  | None, Some _ => negb intent_complete
  | _, _ => false
  end.

(** A managed key with a value that cannot be compared at all. *)
Definition attribute_unsupported (key : bytes) (desired observed : option AttributeValue) : bool :=
  negb (IsAttributeUnmanaged policy key) &&
  match desired, observed with
  | Some d, Some o => negb (AttributeValue_IsValid d && AttributeValue_IsValid o)
  | _, _ => false
  end.

Definition walk_reference (desired observed : SubjectState) : AttributeWalk :=
  let keys := merge_keys desired observed in
  mkWalk
    (omap (fun k => attribute_delta k (om_find k desired) (om_find k observed)) keys)
    (existsb (fun k => attribute_gap k (om_find k desired) (om_find k observed)) keys)
    (existsb (fun k => attribute_unsupported k (om_find k desired) (om_find k observed)) keys)
    (blen keys).

(** One visit appends the reference's difference and raises the reference's flags. *)
Lemma walk_visit_reference desired observed w k :
  k ∈ merge_keys desired observed ->
  merge_visit (walk_left observation_complete policy) (walk_right intent_complete policy)
    (walk_both policy) desired observed w k =
  mkWalk
    (wk_deltas w ++ option_list (attribute_delta k (om_find k desired) (om_find k observed)))
    (wk_coverage_gap w || attribute_gap k (om_find k desired) (om_find k observed))
    (wk_unsupported w || attribute_unsupported k (om_find k desired) (om_find k observed))
    (wk_comparisons w + 1).
Proof.
  intros Hk. apply elem_merge_keys in Hk. rewrite <- !om_find_is_Some_keys in Hk.
  unfold merge_visit, attribute_delta, attribute_gap, attribute_unsupported.
  destruct w as [ds g u c].
  destruct (om_find k desired) as [d|], (om_find k observed) as [o|].
  - unfold walk_both. destruct (IsAttributeUnmanaged policy k); simpl.
    { by rewrite !orb_false_r. }
    rewrite <- negb_andb. unfold ComparableWith, av_eqb.
    destruct (AttributeValue_IsValid d && AttributeValue_IsValid o) eqn:Ev; simpl.
    2: { by rewrite app_nil_r, orb_false_r, orb_true_r. }
    rewrite !orb_false_r. bool_hyps. rewrite (bool_decide_eq_false_2 (av_kind d = AK_Invalid)).
    2: { by destruct d. }
    rewrite andb_true_r.
    destruct (bool_decide (av_kind d = av_kind o)); simpl; [|done].
    destruct (bool_decide (d = o)); simpl; [by rewrite app_nil_r|done].
  - unfold walk_left. destruct (IsAttributeUnmanaged policy k), observation_complete; simpl;
      by rewrite ?orb_false_r, ?orb_true_r, ?app_nil_r.
  - unfold walk_right. destruct (IsAttributeUnmanaged policy k), intent_complete; simpl;
      by rewrite ?orb_false_r, ?orb_true_r, ?app_nil_r.
  - by destruct Hk as [[? ?]|[? ?]].
Qed.

Lemma omap_cons_list {A C} (f : A -> option C) a l : omap f (a :: l) = option_list (f a) ++ omap f l.
Proof. simpl. by destruct (f a). Qed.

Lemma WalkAttributes_reference desired observed :
  om_sorted desired = true -> om_sorted observed = true ->
  WalkAttributes intent_complete observation_complete policy desired observed =
  walk_reference desired observed.
Proof.
  intros Hd Ho. unfold WalkAttributes, walk_reference. rewrite merge_walk_reference by done.
  set (f := merge_visit _ _ _ _ _).
  assert (forall keys w, (forall k, k ∈ keys -> k ∈ merge_keys desired observed) ->
    foldl f w keys = mkWalk
      (wk_deltas w ++
       omap (fun k => attribute_delta k (om_find k desired) (om_find k observed)) keys)
      (wk_coverage_gap w ||
       existsb (fun k => attribute_gap k (om_find k desired) (om_find k observed)) keys)
      (wk_unsupported w ||
       existsb (fun k => attribute_unsupported k (om_find k desired) (om_find k observed)) keys)
      (wk_comparisons w + blen keys)) as H.
  { induction keys as [|k keys IH]; intros w Hin.
    - destruct w. simpl. by rewrite app_nil_r, !orb_false_r, blen_nil, Z.add_0_r.
    - cbn [foldl]. rewrite IH by set_solver. unfold f.
      rewrite walk_visit_reference by set_solver. cbn [existsb].
      rewrite omap_cons_list, blen_cons. simpl.
      rewrite <- app_assoc, !orb_assoc, Z.add_assoc. done. }
  rewrite H by done. simpl. done.
Qed.
End WalkReference.

(** The record of a subject with these two sides. *)
Definition subject_record (scope : bytes) (policy : ReconciliationPolicy)
    (evidence_class : EvidenceClass) (intent : IntentDocument) (observation : ObservationDocument)
    (subject : bytes) : option DriftRecord :=
  match om_find subject (in_subjects intent), om_find subject (ob_subjects observation) with
  | Some declared, Some seen =>
    Some (classify_walk scope evidence_class subject (walk_subject policy declared seen))
  | Some declared, None =>
    Some (classify_left scope policy evidence_class observation subject declared)
  | None, Some seen => Some (classify_right scope policy evidence_class intent subject seen)
  | None, None => None
  end.

Definition subject_comparisons (policy : ReconciliationPolicy) (intent : IntentDocument)
    (observation : ObservationDocument) (subject : bytes) : Z :=
  match om_find subject (in_subjects intent), om_find subject (ob_subjects observation) with
  | Some declared, Some seen => wk_comparisons (walk_subject policy declared seen)
  | _, _ => 0
  end.

Definition sum_Z (l : list Z) : Z := foldr Z.add 0 l.

Lemma classify_subjects_reference scope policy evidence_class intent observation :
  om_sorted (in_subjects intent) = true -> om_sorted (ob_subjects observation) = true ->
  let keys := merge_keys (in_subjects intent) (ob_subjects observation) in
  classify_subjects scope policy evidence_class intent observation =
  (omap (subject_record scope policy evidence_class intent observation) keys, blen keys,
   sum_Z (map (subject_comparisons policy intent observation) keys)).
Proof.
  intros Hi Ho keys. unfold classify_subjects. rewrite merge_walk_reference by done.
  set (f := merge_visit _ _ _ _ _). fold keys.
  assert (forall ks records visits compared,
    (forall k, k ∈ ks -> k ∈ keys) ->
    foldl f (records, visits, compared) ks =
    (records ++ omap (subject_record scope policy evidence_class intent observation) ks,
     visits + blen ks,
     compared + sum_Z (map (subject_comparisons policy intent observation) ks))) as H.
  { induction ks as [|k ks IH]; intros records visits compared Hin.
    - simpl. by rewrite app_nil_r, blen_nil, !Z.add_0_r.
    - cbn [foldl].
      assert (f (records, visits, compared) k =
        (records ++ option_list (subject_record scope policy evidence_class intent observation k),
         visits + 1, compared + subject_comparisons policy intent observation k)) as ->.
      { assert (k ∈ keys) as Hk by set_solver.
        apply elem_merge_keys in Hk. rewrite <- !om_find_is_Some_keys in Hk.
        unfold f, merge_visit, subject_record, subject_comparisons, visit.
        destruct (om_find k (in_subjects intent)), (om_find k (ob_subjects observation)); try done.
        by destruct Hk as [[? ?]|[? ?]]. }
      rewrite IH by set_solver. rewrite omap_cons_list, <- app_assoc, blen_cons.
      cbn [map]. unfold sum_Z. cbn [foldr]. by rewrite !Z.add_assoc. }
  rewrite H by done. done.
Qed.

Lemma subject_record_subject scope policy ec intent observation subject r :
  subject_record scope policy ec intent observation subject = Some r ->
  dr_subject r = subject /\ dr_scope r = scope /\ dr_evidence r = ec.
Proof.
  unfold subject_record, classify_walk, classify_left, classify_right.
  destruct (om_find _ _), (om_find _ _); intros [= <-]; try (by split_case).
  by repeat split_case.
Qed.

Lemma records_subjects scope policy ec intent observation keys :
  (forall k, k ∈ keys -> k ∈ merge_keys (in_subjects intent) (ob_subjects observation)) ->
  map dr_subject (omap (subject_record scope policy ec intent observation) keys) = keys.
Proof.
  induction keys as [|k keys IH]; intros H; [done|].
  rewrite omap_cons_list, map_app, IH by set_solver.
  assert (k ∈ merge_keys (in_subjects intent) (ob_subjects observation)) as Hk by set_solver.
  destruct (subject_record scope policy ec intent observation k) as [r|] eqn:E.
  - simpl. by destruct (subject_record_subject _ _ _ _ _ _ _ E) as [-> _].
  - exfalso. apply elem_merge_keys in Hk. rewrite <- !om_find_is_Some_keys in Hk.
    unfold subject_record in E.
    destruct (om_find k (in_subjects intent)), (om_find k (ob_subjects observation)); try done.
    by destruct Hk as [[? ?]|[? ?]].
Qed.

(** ** Facts on selection *)

Section SelectFacts.
Context {D : Type} (less : D -> D -> bool) (generation : D -> Z) (digest : D -> bytes).
Hypothesis less_neg_trans : forall a b c, less a b = false -> less b c = false -> less a c = false.
Hypothesis less_asym : forall a b, less a b = true -> less b a = false.
Hypothesis less_generation : forall a b, less a b = false -> generation b <= generation a.

(** Both selection functions, with their parameters made explicit. *)
Definition select_current (none_reason : Z) (candidates : list (option D)) : Selection D :=
  match select_max less None candidates with
  | None => mkSelection None false none_reason
  | Some selected =>
    if disagrees generation digest selected candidates
    then mkSelection None true RC_ConflictingRepublishers
    else mkSelection (Some selected) false RC_None
  end.

Lemma select_max_spec candidates : forall selected,
  match select_max less selected candidates with
  | None => selected = None /\ forall d, Some d ∉ candidates
  | Some m =>
    (selected = Some m \/ Some m ∈ candidates) /\
    (forall d, selected = Some d \/ Some d ∈ candidates -> less m d = false)
  end.
Proof.
  induction candidates as [|[d|] candidates IH]; intros selected; simpl.
  - destruct selected as [m|]; [|set_solver]. split; [by left|].
    intros d [[= ->]|H]; [|set_solver].
    destruct (less d d) eqn:E; [|done]. by rewrite (less_asym _ _ E) in E.
  - destruct selected as [current|].
    + specialize (IH (Some (if less current d then d else current))).
      destruct (select_max _ _ _) as [m|]; [|by destruct IH].
      destruct IH as [Hm Hmax]. destruct (less current d) eqn:E.
      * split; [set_solver|]. intros x [[= ->]|Hx]; [|set_solver].
        eapply less_neg_trans; [by apply Hmax; left|by apply less_asym].
      * split; [set_solver|]. intros x [[= ->]|Hx]; [set_solver|].
        apply elem_of_cons in Hx as [[= ->]|Hx]; [|set_solver].
        eapply less_neg_trans; [by apply Hmax; left|done].
    + specialize (IH (Some d)). destruct (select_max _ _ _) as [m|]; [|by destruct IH].
      destruct IH as [Hm Hmax]. split; [set_solver|]. intros x [[=]|Hx]. set_solver.
  - specialize (IH selected). destruct (select_max _ _ _) as [m|]; set_solver.
Qed.

Lemma disagrees_spec selected candidates :
  disagrees generation digest selected candidates = true <->
  exists d, Some d ∈ candidates /\ generation d = generation selected /\ digest d <> digest selected.
Proof.
  unfold disagrees. rewrite existsb_exists. setoid_rewrite <- list_elem_of_In. split.
  - intros ([d|] & Hin & H); [|done]. bool_hyps. by exists d.
  - intros (d & Hin & Hg & Hd). exists (Some d). split; [done|]. bool_goal; [done|].
    by apply bool_decide_eq_false.
Qed.

(** The selection is decided by the set of candidates: the greatest generation
    when its content agrees, a conflict when it does not, nothing when empty. *)
Lemma select_current_spec none_reason candidates :
  let s := select_current none_reason candidates in
  let greatest d := Some d ∈ candidates /\
    forall d', Some d' ∈ candidates -> generation d' <= generation d in
  (forall d, sel_selected s = Some d -> greatest d /\
     forall d', greatest d' -> digest d' = digest d) /\
  (sel_conflicted s = true <->
     exists d d', greatest d /\ greatest d' /\ digest d <> digest d') /\
  (sel_selected s = None -> sel_conflicted s = false -> forall d, Some d ∉ candidates) /\
  sel_reason s = (if sel_conflicted s then RC_ConflictingRepublishers
                  else match sel_selected s with Some _ => RC_None | None => none_reason end).
Proof.
  intros s greatest. subst s. unfold select_current.
  pose proof (select_max_spec candidates None) as Hmax.
  destruct (select_max _ _ _) as [m|].
  2: { destruct Hmax as [_ Hnone]. simpl. repeat split; try done.
       intros (d & d' & [Hd _] & _). by destruct (Hnone d). }
  destruct Hmax as [[[=]|Hm] Hmax].
  assert (greatest m) as Hgm.
  { split; [done|]. intros d Hd. apply less_generation. apply Hmax. by right. }
  destruct (disagrees _ _ _ _) eqn:E; cbn [sel_selected sel_conflicted sel_reason].
  1: split; [done|split; [|by split]]. 2: split; [|split; [|by split]].
  - split; [|done]. intros _. apply disagrees_spec in E as (d & Hd & Hg & Hne).
    exists d, m. split; [|done]. split; [done|]. intros d' Hd'. rewrite Hg. by apply Hgm.
  - intros d [= <-]. split; [done|]. intros d' [Hd' Hle].
    destruct (decide (digest d' = digest m)) as [|Hne]; [done|].
    assert (disagrees generation digest m candidates = true); [|congruence].
    apply disagrees_spec. exists d'. split; [done|]. split; [|done].
    destruct Hgm as [Hm1 Hm2]. specialize (Hle m Hm1). specialize (Hm2 d' Hd'). lia.
  - split; [done|]. intros (d & d' & [Hd Hle] & [Hd' Hle'] & Hne).
    destruct Hgm as [Hm1 Hm2]. rewrite <- E.
    pose proof (Hm2 d Hd). pose proof (Hm2 d' Hd'). specialize (Hle m Hm1). specialize (Hle' m Hm1).
    destruct (decide (digest d = digest m)) as [Heq|Hne'].
    + apply disagrees_spec. exists d'. split; [done|]. split; [lia|congruence].
    + apply disagrees_spec. exists d. split; [done|]. split; [lia|done].
Qed.

(** What a selection decides: conflict, reason, and the generation and digest of
    the selected document. *)
Definition decision (s : Selection D) : bool * Z * option (Z * bytes) :=
  (sel_conflicted s, sel_reason s,
   option_map (fun d => (generation d, digest d)) (sel_selected s)).

Lemma select_current_perm none_reason c1 c2 :
  (forall d, Some d ∈ c1 <-> Some d ∈ c2) ->
  decision (select_current none_reason c1) = decision (select_current none_reason c2).
Proof.
  intros Hset.
  destruct (select_current_spec none_reason c1) as (S1 & C1 & N1 & R1).
  destruct (select_current_spec none_reason c2) as (S2 & C2 & N2 & R2).
  set (s1 := select_current none_reason c1) in *. set (s2 := select_current none_reason c2) in *.
  assert (forall d, (Some d ∈ c1 /\ forall d', Some d' ∈ c1 -> generation d' <= generation d) <->
                    (Some d ∈ c2 /\ forall d', Some d' ∈ c2 -> generation d' <= generation d)) as Hg.
  { intros d. setoid_rewrite Hset. done. }
  assert (sel_conflicted s1 = sel_conflicted s2) as Hc.
  { apply eq_true_iff_eq. rewrite C1, C2. by setoid_rewrite Hg. }
  unfold decision. rewrite R1, R2, Hc.
  destruct (sel_selected s1) as [d1|] eqn:E1, (sel_selected s2) as [d2|] eqn:E2; simpl.
  - destruct (S1 d1 eq_refl) as [G1 U1]. destruct (S2 d2 eq_refl) as [G2 U2].
    rewrite (U1 d2) by by apply Hg.
    assert (generation d1 = generation d2) as ->; [|done].
    apply Hg in G1 as G1'. destruct G1' as [? ?], G2 as [? ?]. apply Z.le_antisymm; auto.
  - destruct (S1 d1 eq_refl) as [G1 _]. destruct (sel_conflicted s2) eqn:Ec2.
    + apply C1 in Hc as (d & d' & Gd & Gd' & Hne). exfalso. apply Hne.
      rewrite (proj2 (S1 d1 eq_refl) d Gd), (proj2 (S1 d1 eq_refl) d' Gd'). done.
    + destruct (N2 eq_refl eq_refl d1). apply Hset, G1.
  - destruct (S2 d2 eq_refl) as [G2 _]. destruct (sel_conflicted s2) eqn:Ec2.
    + destruct (proj1 C2 eq_refl) as (d & d' & Gd & Gd' & Hne). exfalso. apply Hne.
      rewrite (proj2 (S2 d2 eq_refl) d Gd), (proj2 (S2 d2 eq_refl) d' Gd'). done.
    + destruct (N1 eq_refl Hc d2). apply Hset, G2.
  - done.
Qed.
End SelectFacts.

Lemma intent_less_neg_trans (a b c : IntentDocument) :
  (in_generation a <? in_generation b) = false -> (in_generation b <? in_generation c) = false ->
  (in_generation a <? in_generation c) = false.
Proof. lia. Qed.

Lemma intent_less_asym (a b : IntentDocument) :
  (in_generation a <? in_generation b) = true -> (in_generation b <? in_generation a) = false.
Proof. lia. Qed.

Lemma ObservationKeyLess_neg_trans a b c :
  ObservationKeyLess a b = false -> ObservationKeyLess b c = false ->
  ObservationKeyLess a c = false.
Proof.
  unfold ObservationKeyLess. intros H1 H2.
  repeat split_case; bool_hyps; repeat split_hyp H1; repeat split_hyp H2; bool_hyps;
    try (apply Z.ltb_ge); try lia.
  by eapply bytes_ltb_weak_trans.
Qed.

Lemma ObservationKeyLess_asym a b :
  ObservationKeyLess a b = true -> ObservationKeyLess b a = false.
Proof.
  unfold ObservationKeyLess. intros H.
  repeat split_case; repeat split_hyp H; bool_hyps; try (apply Z.ltb_ge); try lia.
  by apply (key_ltb_asym (KO:=bytes_key_order)).
Qed.

Lemma ObservationKeyLess_generation a b :
  ObservationKeyLess a b = false -> ob_generation b <= ob_generation a.
Proof. unfold ObservationKeyLess. repeat split_case; bool_hyps; lia. Qed.

(** ** Facts on the classifier *)

Lemma existsb_false_elem {A} (f : A -> bool) l a : existsb f l = false -> a ∈ l -> f a = false.
Proof.
  intros H Ha. destruct (f a) eqn:E; [|done]. rewrite <- H. symmetry.
  apply existsb_exists. exists a. by rewrite <- list_elem_of_In.
Qed.

Definition selected_intent (input : ClassificationInput) : option IntentDocument :=
  sel_selected (SelectCurrentIntent (default [] (ci_intents input))).
Definition selected_observation (input : ClassificationInput) : option ObservationDocument :=
  sel_selected (SelectCurrentObservation (default [] (ci_observations input))).

(** The documents a comparison rests on: the selected ones, of the scope of the input, the intent
    not regressed and the observation fresh. *)
Record comparable (input : ClassificationInput) (policy : ReconciliationPolicy) (intent : IntentDocument)
    (observation : ObservationDocument) : Prop := {
  cm_policy : ci_policy input = Some policy;
  cm_intent : selected_intent input = Some intent;
  cm_observation : selected_observation input = Some observation;
  cm_generation : ci_has_committed_intent input = true ->
    ci_committed_intent_generation input <= in_generation intent;
  cm_fresh : EvaluateFreshness observation (freshness policy) (ci_live_epoch input) (ci_now_unix_ms input) = FV_Fresh
}.

(** The report compares intent and observation: everything it needed was there. *)
Definition compared (input : ClassificationInput) (report : ClassificationReport)
    (policy : ReconciliationPolicy) (intent : IntentDocument) (observation : ObservationDocument)
  : Prop :=
  ci_policy input = Some policy /\
  selected_intent input = Some intent /\ selected_observation input = Some observation /\
  (ci_has_committed_intent input = true ->
     ci_committed_intent_generation input <= in_generation intent) /\
  EvaluateFreshness observation (freshness policy) (ci_live_epoch input) (ci_now_unix_ms input)
    = FV_Fresh /\
  (cr_records report, cr_subject_visits report, cr_attribute_comparisons report) =
    classify_subjects (ci_scope input) policy (ev_evidence (cr_evidence report)) intent observation.

(** The report gives every subject the same indecisive class, and compared nothing. *)
Definition uniform (input : ClassificationInput) (report : ClassificationReport) : Prop :=
  exists drift reason over,
    drift ∈ [DC_Conflict; DC_StaleIntent; DC_Unknown; DC_StaleObservation] /\
    cr_records report =
      map (fun s => MakeRecord (ci_scope input) s drift reason (ev_evidence (cr_evidence report)))
          over /\
    (over = collect_candidates ob_subjects (default [] (ci_observations input))
              (collect_candidates in_subjects (default [] (ci_intents input)) []) \/
     exists intent, selected_intent input = Some intent /\ selected_observation input = None /\
       over = (in_subjects intent).*1) /\
    cr_subject_visits report = 0 /\ cr_attribute_comparisons report = 0.

Lemma ClassifyScope_inv input report :
  ClassifyScope input = Value report ->
  cr_scope report = ci_scope input /\
  (uniform input report \/
   exists policy intent observation, compared input report policy intent observation).
Proof.
  unfold ClassifyScope. destruct (ci_policy input) as [policy|] eqn:Hp; [|done].
  destruct (is_empty _); [done|]. cbv zeta.
  destruct (existsb _ _); [done|]. destruct (existsb _ _); [done|].
  fold (selected_intent input) (selected_observation input).
  set (ie := SelectCurrentIntent _) in *. set (oe := SelectCurrentObservation _) in *.
  set (ev := scope_evidence _ _ _ _).
  destruct (sel_conflicted ie || sel_conflicted oe) eqn:Hconf.
  { intros [= <-]. split; [done|]. left. unfold uniform. do 3 eexists.
    split; [|split; [reflexivity|split; [by left|done]]]. set_solver. }
  cbn [negb andb].
  destruct (_ || (negb (ev_has_intent ev) && ci_has_committed_intent input)) eqn:Hstale.
  { intros [= <-]. split; [done|]. left. unfold uniform. do 3 eexists.
    split; [|split; [reflexivity|split; [by left|done]]]. set_solver. }
  cbn [negb andb].
  destruct (negb (ev_has_intent ev)) eqn:Hmiss.
  { intros [= <-]. split; [done|]. left. unfold uniform. do 3 eexists.
    split; [|split; [reflexivity|split; [by left|done]]]. set_solver. }
  cbn [negb andb].
  destruct (selected_intent input) as [intent|] eqn:Hi; [|done].
  destruct (negb (ev_has_observation ev)) eqn:Hobs.
  { intros [= <-]. split; [done|]. left. unfold uniform. do 3 eexists.
    split; [|split; [reflexivity|split; [right; exists intent; split_and!; [done| |done]|done]]]; [set_solver|].
    subst ev. unfold scope_evidence in Hobs. by destruct intent, (selected_observation input). }
  apply negb_false_iff in Hobs. rewrite Hobs. cbn [andb].
  destruct (negb (bool_decide (ev_freshness ev = FV_Fresh))) eqn:Hfresh.
  { intros [= <-]. split; [done|]. left. unfold uniform. do 3 eexists.
    split; [|split; [reflexivity|split; [by left|done]]]. set_solver. }
  destruct (selected_observation input) as [observation|] eqn:Ho; [|done].
  destruct (classify_subjects _ _ _ _ _) as [[records visits] comparisons] eqn:Hc.
  intros [= <-]. split; [done|]. right. exists policy, intent, observation.
  bool_hyps. repeat split; [done|done|done| | |].
  - intros Hcom. rewrite Hcom in *. cbn [andb] in *. by bool_hyps.
  - rewrite <- Hfresh. subst ev. unfold scope_evidence. by destruct intent, observation.
  - symmetry. exact Hc.
Qed.

(** A report is only made of documents of its scope. *)
Lemma ClassifyScope_scopes input report :
  ClassifyScope input = Value report ->
  (forall d, Some d ∈ default [] (ci_intents input) -> in_scope d = ci_scope input) /\
  (forall d, Some d ∈ default [] (ci_observations input) -> ob_scope d = ci_scope input).
Proof.
  unfold ClassifyScope. destruct (ci_policy input) as [policy|]; [|done]. destruct (is_empty _); [done|]. cbv zeta.
  destruct (existsb _ _) eqn:Ei; [done|]. destruct (existsb (in_other_scope ob_scope _) _) eqn:Eo; [done|]. intros _.
  split; intros d Hd.
  - pose proof (existsb_false_elem _ _ _ Ei Hd) as H. cbn in H. by apply negb_false_iff, bool_decide_eq_true_1 in H.
  - pose proof (existsb_false_elem _ _ _ Eo Hd) as H. cbn in H. by apply negb_false_iff, bool_decide_eq_true_1 in H.
Qed.

Lemma compared_comparable input report policy intent observation :
  compared input report policy intent observation -> comparable input policy intent observation.
Proof. intros (? & ? & ? & ? & ? & _). by split. Qed.

(** The evidence of a report is that of the selected documents. *)
Lemma ClassifyScope_evidence input policy report :
  ci_policy input = Some policy -> ClassifyScope input = Value report ->
  cr_evidence report =
    scope_evidence input policy (selected_intent input) (selected_observation input).
Proof.
  unfold ClassifyScope. intros ->. destruct (is_empty _); [done|]. cbv zeta.
  destruct (existsb _ _); [done|]. destruct (existsb _ _); [done|].
  fold (selected_intent input) (selected_observation input).
  set (ev := scope_evidence _ _ _ _).
  repeat (match goal with |- (if ?b then _ else _) = _ -> _ => destruct b; [by intros [= <-]|] end).
  destruct (selected_intent input); [|done].
  repeat (match goal with |- (if ?b then _ else _) = _ -> _ => destruct b; [by intros [= <-]|] end).
  destruct (selected_observation input); [|done].
  destruct (classify_subjects _ _ _ _ _) as [[? ?] ?]. by intros [= <-].
Qed.

(** A conflict selects nothing. *)
Lemma selected_unconflicted input :
  (is_Some (selected_intent input) ->
     sel_conflicted (SelectCurrentIntent (default [] (ci_intents input))) = false) /\
  (is_Some (selected_observation input) ->
     sel_conflicted (SelectCurrentObservation (default [] (ci_observations input))) = false).
Proof.
  unfold selected_intent, selected_observation, SelectCurrentIntent, SelectCurrentObservation.
  split; destruct (select_max _ _ _); try done; destruct (disagrees _ _ _ _); try done;
    intros [? [=]].
Qed.

(** With an intent that has not regressed and a fresh observation, the report compares. *)
Lemma ClassifyScope_compares input policy intent observation report :
  ci_policy input = Some policy -> ClassifyScope input = Value report ->
  selected_intent input = Some intent -> selected_observation input = Some observation ->
  (ci_has_committed_intent input = true ->
     ci_committed_intent_generation input <= in_generation intent) ->
  EvaluateFreshness observation (freshness policy) (ci_live_epoch input) (ci_now_unix_ms input)
    = FV_Fresh ->
  compared input report policy intent observation.
Proof.
  intros Hp Hc Hi Ho Hg Hf. pose proof (selected_unconflicted input) as [Hc1 Hc2].
  unfold compared. split; [done|]. split; [done|]. split; [done|]. split; [done|].
  split; [done|]. revert Hc. unfold ClassifyScope. rewrite Hp. destruct (is_empty _); [done|]. cbv zeta.
  destruct (existsb _ _); [done|]. destruct (existsb _ _); [done|].
  fold (selected_intent input) (selected_observation input).
  rewrite Hc1, Hc2 by (rewrite ?Hi, ?Ho; eauto). rewrite Hi, Ho. cbn [orb negb andb].
  unfold scope_evidence. cbn [ev_has_intent ev_has_observation ev_freshness ev_evidence negb andb].
  rewrite Hf, orb_false_r, (bool_decide_eq_true_2 (FV_Fresh = FV_Fresh)) by done. cbn [negb andb].
  assert (ci_has_committed_intent input && (in_generation intent <? ci_committed_intent_generation input)
    = false) as ->.
  { destruct (ci_has_committed_intent input); [|done]. apply Z.ltb_ge. by apply Hg. }
  cbn [negb andb]. destruct (classify_subjects _ _ _ _ _) as [[? ?] ?] eqn:Ecs. intros [= <-].
  cbn [cr_records cr_subject_visits cr_attribute_comparisons cr_evidence ev_evidence]. by rewrite Ecs.
Qed.

(** The records of a report that compares are those of every subject of either document. *)
Lemma compared_record input report policy intent observation subject :
  om_sorted (in_subjects intent) = true -> om_sorted (ob_subjects observation) = true ->
  compared input report policy intent observation ->
  is_Some (om_find subject (in_subjects intent)) \/ is_Some (om_find subject (ob_subjects observation)) ->
  exists r, r ∈ cr_records report /\
    subject_record (ci_scope input) policy (ev_evidence (cr_evidence report)) intent observation
      subject = Some r.
Proof.
  intros Hsi Hso (_ & _ & _ & _ & _ & Hcs) Hsub. rewrite classify_subjects_reference in Hcs by done.
  injection Hcs as Hrec _ _.
  assert (is_Some (subject_record (ci_scope input) policy (ev_evidence (cr_evidence report)) intent
    observation subject)) as [r Hr].
  { unfold subject_record. destruct (om_find subject (in_subjects intent)),
      (om_find subject (ob_subjects observation)); try done. by destruct Hsub as [[? [=]]|[? [=]]]. }
  exists r. split; [|done]. rewrite Hrec. apply list_elem_of_omap. exists subject. split; [|done].
  apply elem_merge_keys. by rewrite <- !om_find_is_Some_keys.
Qed.

(** ** What the attribute walk proves about a subject *)

Section WalkMeaning.
Variables (ic oc : bool) (policy : ReconciliationPolicy) (desired observed : SubjectState).

(** No gap, nothing unsupported and no actionable difference: the managed parts of
    the two states are equal. *)
Lemma walk_reference_converged key :
  wk_unsupported (walk_reference ic oc policy desired observed) = false ->
  wk_coverage_gap (walk_reference ic oc policy desired observed) = false ->
  HasActionableDelta (wk_deltas (walk_reference ic oc policy desired observed)) = false ->
  IsAttributeUnmanaged policy key = false -> om_find key desired = om_find key observed.
Proof.
  cbn [walk_reference wk_unsupported wk_coverage_gap wk_deltas]. intros Hu Hg Ha Hm.
  destruct (decide (key ∈ merge_keys desired observed)) as [Hin|Hin].
  2: { rewrite elem_merge_keys in Hin.
       destruct (om_find key desired) eqn:E1; [destruct Hin; left; apply om_find_is_Some_keys; by rewrite E1|].
       destruct (om_find key observed) eqn:E2; [destruct Hin; right; apply om_find_is_Some_keys; by rewrite E2|].
       done. }
  pose proof (existsb_false_elem _ _ _ Hu Hin) as Hu'.
  pose proof (existsb_false_elem _ _ _ Hg Hin) as Hg'.
  unfold attribute_unsupported in Hu'. unfold attribute_gap in Hg'. rewrite Hm in Hu', Hg'.
  cbn [negb andb] in *.
  assert (forall delta, attribute_delta ic oc policy key (om_find key desired) (om_find key observed)
            = Some delta -> ad_kind delta = DK_Unmanaged) as Hd.
  { intros delta Hdelta. apply (existsb_false_elem _ _ delta) in Ha; [simpl in Ha; by bool_hyps|].
    apply list_elem_of_omap. by exists key. }
  unfold attribute_delta in Hd. rewrite Hm in Hd.
  destruct (om_find key desired) as [d|], (om_find key observed) as [o|]; bool_hyps; try done.
  - rewrite (proj2 (andb_true_iff _ _)) in Hd by done. cbn [negb] in Hd.
    destruct (bool_decide (av_kind d = av_kind o)); cbn [negb] in Hd.
    + destruct (bool_decide_reflect (d = o)) as [->|]; [done|].
      specialize (Hd _ eq_refl). simpl in Hd. by destruct (IsAttributeObserveOnly policy key).
    + by specialize (Hd _ eq_refl).
  - subst oc. by specialize (Hd _ eq_refl).
  - subst ic. by specialize (Hd _ eq_refl).
Qed.

(** An actionable difference names a managed attribute on which the states differ. *)
Lemma walk_reference_mismatched :
  HasActionableDelta (wk_deltas (walk_reference ic oc policy desired observed)) = true ->
  exists key, IsAttributeUnmanaged policy key = false /\ om_find key desired <> om_find key observed.
Proof.
  unfold HasActionableDelta. rewrite existsb_exists. intros (delta & Hin & Hk). bool_hyps.
  apply list_elem_of_In, list_elem_of_omap in Hin as (key & _ & Hd).
  exists key. unfold attribute_delta in Hd. destruct (IsAttributeUnmanaged policy key).
  { exfalso. destruct (om_find key desired), (om_find key observed); try done;
      by injection Hd as <-. }
  split; [done|]. intros Heq. rewrite Heq in Hd.
  destruct (om_find key observed) as [o|]; [|done].
  destruct (negb _) in Hd; [done|]. by rewrite !bool_decide_eq_true_2 in Hd.
Qed.
End WalkMeaning.

(** *** Differences *)

(** The kind of difference two values of an attribute are reported as. *)
Definition delta_kind (policy : ReconciliationPolicy) (key : bytes) (desired observed : option AttributeValue)
  : AttributeDeltaKind :=
  if IsAttributeUnmanaged policy key then DK_Unmanaged
  else
    match desired, observed with
    | Some d, Some o =>
      if bool_decide (av_kind d = av_kind o) then
        if IsAttributeObserveOnly policy key then DK_ObserveOnly else DK_ValueMismatch
      else DK_NotComparable
    | Some _, None => DK_OnlyInIntent
    | None, _ => DK_OnlyInObservation
    end.

(** The difference gives the values of the two states at its key and what they are to each other,
    and at a managed key they differ. *)
Definition real_delta (policy : ReconciliationPolicy) (desired observed : SubjectState) (d : AttributeDelta) : Prop :=
  let x := om_find (ad_key d) desired in
  let y := om_find (ad_key d) observed in
  ad_intended d = default AV_Absent x /\ ad_observed d = default AV_Absent y /\
  ad_kind d = delta_kind policy (ad_key d) x y /\
  (IsAttributeUnmanaged policy (ad_key d) = false -> x <> y).

(** The differences are real, and no managed attribute on which the states differ is left out. *)
Definition real_deltas (policy : ReconciliationPolicy) (desired observed : SubjectState)
    (deltas : list AttributeDelta) : Prop :=
  (forall d, d ∈ deltas -> real_delta policy desired observed d) /\
  (forall key, IsAttributeUnmanaged policy key = false -> om_find key desired <> om_find key observed ->
     exists d, d ∈ deltas /\ ad_key d = key).

Lemma attribute_delta_real ic oc policy desired observed key d :
  attribute_delta ic oc policy key (om_find key desired) (om_find key observed) = Some d ->
  ad_key d = key /\ real_delta policy desired observed d.
Proof.
  unfold attribute_delta, real_delta, delta_kind. destruct (IsAttributeUnmanaged policy key) eqn:Eu.
  - destruct (om_find key desired) as [x|] eqn:Ex, (om_find key observed) as [y|] eqn:Ey; intros [= <-]; cbn [ad_key ad_intended ad_observed ad_kind];
      rewrite Ex, Ey, Eu; by split_and!.
  - destruct (om_find key desired) as [x|] eqn:Ex, (om_find key observed) as [y|] eqn:Ey; try done.
    + destruct (negb (_ && _)); [done|]. destruct (bool_decide_reflect (av_kind x = av_kind y)) as [Hk|Hk]; cbn [negb].
      * destruct (bool_decide_reflect (x = y)) as [|Hne]; [done|]. intros [= <-]. cbn [ad_key ad_intended ad_observed ad_kind].
        rewrite Ex, Ey, Eu, bool_decide_eq_true_2 by done. split_and!; try done. by intros _ [=].
      * intros [= <-]. cbn [ad_key ad_intended ad_observed ad_kind]. rewrite Ex, Ey, Eu, bool_decide_eq_false_2 by done.
        split_and!; try done. intros _ [= ->]. done.
    + destruct oc; [|done]. intros [= <-]. cbn [ad_key ad_intended ad_observed ad_kind]. by rewrite Ex, Ey, Eu.
    + destruct ic; [|done]. intros [= <-]. cbn [ad_key ad_intended ad_observed ad_kind]. by rewrite Ex, Ey, Eu.
Qed.

(** The differences of a walk without gaps and unsupported values. *)
Lemma walk_reference_real ic oc policy desired observed :
  let walk := walk_reference ic oc policy desired observed in
  wk_unsupported walk = false -> wk_coverage_gap walk = false ->
  real_deltas policy desired observed (wk_deltas walk).
Proof.
  intros walk Hu Hg. split.
  - intros d Hd. apply list_elem_of_omap in Hd as (key & _ & Hd). by apply attribute_delta_real in Hd as [_ Hd].
  - intros key Hm Hne.
    assert (key ∈ merge_keys desired observed) as Hin.
    { rewrite elem_merge_keys, <- !om_find_is_Some_keys.
      destruct (om_find key desired); [by left; eexists|]. destruct (om_find key observed); [by right; eexists|].
      by destruct Hne. }
    pose proof (existsb_false_elem _ _ _ Hu Hin) as Hu'. pose proof (existsb_false_elem _ _ _ Hg Hin) as Hg'.
    unfold attribute_unsupported in Hu'. unfold attribute_gap in Hg'. rewrite Hm in Hu', Hg'. cbn [negb andb] in *.
    assert (is_Some (attribute_delta ic oc policy key (om_find key desired) (om_find key observed))) as [d Hd].
    { unfold attribute_delta. rewrite Hm. destruct (om_find key desired) as [x|], (om_find key observed) as [y|]; try done.
      - rewrite Hu'. destruct (bool_decide (av_kind x = av_kind y)); cbn [negb]; [|done].
        rewrite (bool_decide_eq_false_2 (x = y)); [done|]. by intros ->.
      - apply negb_false_iff in Hg' as ->. done.
      - apply negb_false_iff in Hg' as ->. done. }
    exists d. split; [apply list_elem_of_omap; by exists key|]. by apply attribute_delta_real in Hd as [? _].
Qed.

(** The differences of a subject that only one side has. *)
Lemma managed_deltas_real policy (side : bool) (state : SubjectState) :
  om_sorted state = true ->
  real_deltas policy (if side then state else []) (if side then [] else state)
    (map (fun a => if side then mkDelta a.1 DK_OnlyInIntent a.2 AV_Absent else mkDelta a.1 DK_OnlyInObservation AV_Absent a.2)
       (managed_attributes policy state)).
Proof.
  intros Hs. split.
  - intros d Hd. apply list_elem_of_In, in_map_iff in Hd as ([key v] & <- & Hin). apply filter_In in Hin as [Hin Hm].
    cbn [fst snd] in *. apply negb_true_iff in Hm. apply list_elem_of_In in Hin.
    pose proof (om_find_in _ _ _ Hs Hin) as Hf. unfold real_delta, delta_kind.
    destruct side; cbn [ad_key ad_intended ad_observed ad_kind om_find]; rewrite Hf, Hm; by split_and!.
  - intros key Hm Hne. destruct (om_find key state) as [v|] eqn:Ev; [|by destruct side; cbn in Hne; rewrite Ev in Hne].
    exists (if side then mkDelta key DK_OnlyInIntent v AV_Absent else mkDelta key DK_OnlyInObservation AV_Absent v).
    split; [|by destruct side]. apply list_elem_of_In, in_map_iff. exists (key, v). split; [done|].
    apply filter_In. split; [apply list_elem_of_In; by apply om_find_Some_in|]. cbn [fst]. by rewrite Hm.
Qed.

(** What a decisive record says of the two documents. *)
Definition decisive (policy : ReconciliationPolicy) (intent : IntentDocument) (observation : ObservationDocument)
    (r : DriftRecord) : Prop :=
  match dr_drift r with
  | DC_Missing => exists declared,
    om_find (dr_subject r) (in_subjects intent) = Some declared /\
    om_find (dr_subject r) (ob_subjects observation) = None /\
    (require_complete_coverage_for_absence (freshness policy) = true ->
       ob_complete observation = true /\ ob_authoritative_absence observation = true) /\
    real_deltas policy (si_desired declared) [] (dr_deltas r)
  | DC_Unexpected => exists seen,
    om_find (dr_subject r) (in_subjects intent) = None /\
    om_find (dr_subject r) (ob_subjects observation) = Some seen /\ in_complete intent = true /\
    real_deltas policy [] (so_observed seen) (dr_deltas r)
  | DC_AlreadyConverged => exists declared seen,
    om_find (dr_subject r) (in_subjects intent) = Some declared /\
    om_find (dr_subject r) (ob_subjects observation) = Some seen /\
    (forall key, IsAttributeUnmanaged policy key = false ->
      om_find key (si_desired declared) = om_find key (so_observed seen)) /\
    real_deltas policy (si_desired declared) (so_observed seen) (dr_deltas r)
  | DC_Mismatched => exists declared seen key,
    om_find (dr_subject r) (in_subjects intent) = Some declared /\
    om_find (dr_subject r) (ob_subjects observation) = Some seen /\
    IsAttributeUnmanaged policy key = false /\
    om_find key (si_desired declared) <> om_find key (so_observed seen) /\
    real_deltas policy (si_desired declared) (so_observed seen) (dr_deltas r)
  | _ => True
  end.

Lemma subject_record_decisive scope policy ec intent observation subject r :
  (forall s e, om_find s (in_subjects intent) = Some e -> om_sorted (si_desired e) = true) ->
  (forall s e, om_find s (ob_subjects observation) = Some e -> om_sorted (so_observed e) = true) ->
  subject_record scope policy ec intent observation subject = Some r -> decisive policy intent observation r.
Proof.
  intros Hsi Hso Hr. pose proof (subject_record_subject _ _ _ _ _ _ _ Hr) as (Hsub & _).
  unfold decisive. rewrite Hsub. revert Hr. unfold subject_record.
  destruct (om_find subject (in_subjects intent)) as [declared|] eqn:Ei,
    (om_find subject (ob_subjects observation)) as [seen|] eqn:Eo; intros [= <-].
  - unfold classify_walk, walk_subject. rewrite WalkAttributes_reference by eauto.
    pose proof (walk_reference_real (si_complete_attributes declared) (so_complete_attributes seen) policy
      (si_desired declared) (so_observed seen)) as Hreal. cbv zeta in Hreal.
    set (w := walk_reference _ _ _ _ _) in *.
    destruct (wk_unsupported w) eqn:Hu; [done|]. destruct (wk_coverage_gap w) eqn:Hg; [done|].
    specialize (Hreal eq_refl eq_refl).
    destruct (HasActionableDelta (wk_deltas w)) eqn:Ha; cbn [negb dr_drift dr_deltas with_deltas MakeRecord].
    + destruct (walk_reference_mismatched _ _ _ _ _ Ha) as (key & Hm & Hne). by exists declared, seen, key.
    + exists declared, seen. split_and!; [done|done| |exact Hreal]. intros key Hm. by eapply walk_reference_converged.
  - unfold classify_left, absence_allowed. destruct (_ || _) eqn:E; cbn [dr_drift dr_deltas with_deltas MakeRecord]; [|done].
    exists declared. split_and!; [done|done| |exact (managed_deltas_real policy true _ (Hsi _ _ Ei))].
    intros Hr. rewrite Hr in E. cbn [negb orb] in E. by bool_hyps.
  - unfold classify_right. destruct (in_complete intent); cbn [dr_drift dr_deltas with_deltas MakeRecord]; [|done].
    exists seen. split_and!; [done..|exact (managed_deltas_real policy false _ (Hso _ _ Eo))].
Qed.

(** ** Candidates with ordered maps *)

Definition intent_ordered (d : IntentDocument) : bool :=
  om_sorted (in_subjects d) && forallb (fun e => om_sorted (si_desired e.2)) (in_subjects d).
Definition observation_ordered (d : ObservationDocument) : bool :=
  om_sorted (ob_subjects d) && forallb (fun e => om_sorted (so_observed e.2)) (ob_subjects d).

(** The maps of every candidate are ordered, as [std::map] keeps them. *)
Definition input_ordered (input : ClassificationInput) : bool :=
  forallb (fun c => match c with Some d => intent_ordered d | None => true end)
    (default [] (ci_intents input)) &&
  forallb (fun c => match c with Some d => observation_ordered d | None => true end)
    (default [] (ci_observations input)).

Lemma selected_intent_elem input d :
  selected_intent input = Some d -> Some d ∈ default [] (ci_intents input).
Proof.
  intros H. pose proof (select_current_spec _ in_generation in_digest intent_less_neg_trans
    intent_less_asym (fun a b => proj1 (Z.ltb_ge _ _)) RC_NoIntentForScope
    (default [] (ci_intents input))) as (Hs & _).
  by apply Hs in H as [[? _] _].
Qed.

Lemma selected_observation_elem input d :
  selected_observation input = Some d -> Some d ∈ default [] (ci_observations input).
Proof.
  intros H. pose proof (select_current_spec _ ob_generation ob_digest ObservationKeyLess_neg_trans
    ObservationKeyLess_asym ObservationKeyLess_generation RC_NoObservationForScope
    (default [] (ci_observations input))) as (Hs & _).
  by apply Hs in H as [[? _] _].
Qed.

Lemma om_find_forallb {V} (f : bytes * V -> bool) m k v :
  forallb f m = true -> om_find k m = Some v -> f (k, v) = true.
Proof.
  rewrite forallb_Forall, Forall_forall. intros H Hf. apply H. by apply om_find_Some_in.
Qed.

Lemma compared_ordered input report policy intent observation :
  input_ordered input = true -> compared input report policy intent observation ->
  om_sorted (in_subjects intent) = true /\ om_sorted (ob_subjects observation) = true /\
  (forall s e, om_find s (in_subjects intent) = Some e -> om_sorted (si_desired e) = true) /\
  (forall s e, om_find s (ob_subjects observation) = Some e -> om_sorted (so_observed e) = true).
Proof.
  unfold input_ordered. intros H (_ & Hi & Ho & _). bool_hyps.
  rewrite forallb_Forall, Forall_forall in H. rewrite forallb_Forall, Forall_forall in H0.
  apply selected_intent_elem in Hi. apply selected_observation_elem in Ho.
  specialize (H _ Hi). specialize (H0 _ Ho). simpl in *.
  unfold intent_ordered, observation_ordered in *. bool_hyps.
  split; [done|]. split; [done|].
  split; intros s e He; [apply (om_find_forallb _ _ _ _ H2 He)|apply (om_find_forallb _ _ _ _ H1 He)].
Qed.

(** A subject that some candidate of the input names. *)
Definition candidate_subject (input : ClassificationInput) (s : bytes) : Prop :=
  (exists d, Some d ∈ default [] (ci_intents input) /\ is_Some (om_find s (in_subjects d))) \/
  (exists d, Some d ∈ default [] (ci_observations input) /\ is_Some (om_find s (ob_subjects d))).

Lemma elem_collect_candidates {D V} (subjects_of : D -> list (bytes * V)) candidates : forall into s,
  s ∈ collect_candidates subjects_of candidates into <->
  s ∈ into \/ exists d, Some d ∈ candidates /\ is_Some (om_find s (subjects_of d)).
Proof.
  induction candidates as [|[d|] candidates IH]; intros into s; cbn [collect_candidates foldl].
  - split; [by left|]. intros [H|(d & H & _)]; [done|by apply elem_of_nil in H].
  - fold (collect_candidates subjects_of candidates (CollectSubjects (subjects_of d) into)). rewrite IH.
    unfold CollectSubjects. rewrite os_elem_insert_all, <- om_find_is_Some_keys. split.
    + intros [[H|H]|(d' & Hd & H)]; [right; exists d; split; [left|done]|by left|right; exists d'; split; [by right|done]].
    + intros [H|(d' & Hd & H)]; [by left; right|]. apply elem_of_cons in Hd as [[= ->]|Hd]; [by left; left|right; by exists d'].
  - fold (collect_candidates subjects_of candidates into). rewrite IH. split; (intros [H|(d' & Hd & H)]; [by left|right; exists d']).
    + split; [by right|done].
    + by apply elem_of_cons in Hd as [[=]|Hd].
Qed.

Lemma elem_candidates input s :
  s ∈ collect_candidates ob_subjects (default [] (ci_observations input))
        (collect_candidates in_subjects (default [] (ci_intents input)) []) <-> candidate_subject input s.
Proof.
  rewrite !elem_collect_candidates. unfold candidate_subject. split; [|tauto].
  intros [[H|H]|H]; [by apply elem_of_nil in H|by left|by right].
Qed.

Lemma collect_candidates_sorted {D V} (subjects_of : D -> list (bytes * V)) candidates into :
  os_sorted into = true -> os_sorted (collect_candidates subjects_of candidates into) = true.
Proof.
  revert into. induction candidates as [|[d|] candidates IH]; intros into H; [done|..].
  - apply IH. by apply os_sorted_insert_all.
  - by apply IH.
Qed.

(** *** The records of a report *)

Lemma compared_records input report policy intent observation :
  input_ordered input = true -> compared input report policy intent observation ->
  let keys := merge_keys (in_subjects intent) (ob_subjects observation) in
  cr_records report = omap (subject_record (ci_scope input) policy (ev_evidence (cr_evidence report)) intent observation) keys /\
  cr_subject_visits report = blen keys.
Proof.
  intros Hord Hcmp. destruct (compared_ordered _ _ _ _ _ Hord Hcmp) as (Hsi & Hso & _).
  destruct Hcmp as (_ & _ & _ & _ & _ & Hcs). rewrite classify_subjects_reference in Hcs by done. by injection Hcs.
Qed.

Lemma records_sorted input report :
  input_ordered input = true -> ClassifyScope input = Value report ->
  os_sorted (map dr_subject (cr_records report)) = true.
Proof.
  intros Hord Hc. apply ClassifyScope_inv in Hc as [_ [(drift & reason & over & _ & Hrec & Hover & _)|(p & i & o & H)]].
  - rewrite Hrec, map_map. simpl. rewrite map_id. destruct Hover as [->|(intent & Hi & _ & ->)].
    + by repeat apply collect_candidates_sorted.
    + rewrite os_sorted_keys. apply selected_intent_elem in Hi. unfold input_ordered in Hord. bool_hyps.
      rewrite forallb_Forall, Forall_forall in H. specialize (H _ Hi). simpl in H. unfold intent_ordered in H. by bool_hyps.
  - destruct (compared_records _ _ _ _ _ Hord H) as [-> _]. rewrite records_subjects by done. apply merge_keys_sorted.
Qed.

Lemma records_scope input report r :
  input_ordered input = true -> ClassifyScope input = Value report -> r ∈ cr_records report -> dr_scope r = ci_scope input.
Proof.
  intros Hord Hc Hr. apply ClassifyScope_inv in Hc as [_ [(drift & reason & over & _ & Hrec & _)|(p & i & o & H)]].
  - rewrite Hrec in Hr. by apply list_elem_of_In, in_map_iff in Hr as (s & <- & _).
  - destruct (compared_records _ _ _ _ _ Hord H) as [Hrec _]. rewrite Hrec in Hr.
    apply list_elem_of_omap in Hr as (k & _ & Hk). apply subject_record_subject in Hk. tauto.
Qed.

(** ** Properties *)

(** Clocks that are not negative do not overflow when one is subtracted from another. *)
Lemma sub_i64_exact a b : i64 a && i64 b && (0 <=? a) && (0 <=? b) = true -> sub_i64 a b = a - b.
Proof. intros H. bool_hyps. apply to_signed_wrap. unfold in_signed in *. bool_hyps. bool_goal; lia. Qed.

(** Freshness fails closed: an observation is fresh exactly when it was received in
    the live epoch (where the policy asks for it) and, where the policy bounds its
    age, it is neither from the future nor older than the bound. *)
Theorem freshness_fail_closed observation policy live_epoch now :
  i64 now && (0 <=? ob_received_unix_ms observation) = true ->
  EvaluateFreshness observation policy live_epoch now = FV_Fresh <->
  (require_current_epoch policy = true -> ob_received_epoch observation = live_epoch) /\
  (0 < max_observation_age_ms policy ->
     0 <= now - ob_received_unix_ms observation <= max_observation_age_ms policy).
Proof.
  intros H. bool_hyps. unfold EvaluateFreshness.
  assert (ob_received_unix_ms observation <= now ->
          sub_i64 now (ob_received_unix_ms observation) =
          now - ob_received_unix_ms observation) as Hsub.
  { intros. apply to_signed_wrap. unfold in_signed in *. bool_hyps. bool_goal; lia. }
  destruct (require_current_epoch policy); cbn [andb].
  2: destruct (Z.ltb_spec 0 (max_observation_age_ms policy)); [|naive_solver lia].
  1: destruct (Z.eqb_spec (ob_received_epoch observation) live_epoch); cbn [negb];
     [|naive_solver];
     destruct (Z.ltb_spec 0 (max_observation_age_ms policy)); [|naive_solver lia].
  all: destruct (Z.ltb_spec now (ob_received_unix_ms observation)); [naive_solver lia|].
  all: rewrite Hsub by lia.
  all: destruct (Z.ltb_spec (max_observation_age_ms policy)
                   (now - ob_received_unix_ms observation)); naive_solver lia.
Qed.

Lemma freshness_fail_closed_witness :
  EvaluateFreshness example_observation (freshness DefaultPolicy) 3 1700000030000 = FV_Fresh /\
  EvaluateFreshness example_observation (freshness DefaultPolicy) 3 1700000030001 <> FV_Fresh.
Proof.
  split.
  - apply freshness_fail_closed; [vm_compute; reflexivity|].
    split; intros; [reflexivity|]. vm_compute. split; discriminate.
  - intros H. apply freshness_fail_closed in H as [_ H]; [|vm_compute; reflexivity].
    specialize (H eq_refl). vm_compute in H. destruct H as [_ H]. by apply H.
Defined.

(** C33. The attribute walk, a single merge of two sorted maps, reports exactly the
    differences, gaps and unsupported values that looking every key up in both
    maps reports, in key order, with one comparison per distinct key. *)
Theorem walk_attributes_by_lookup intent_complete observation_complete policy desired observed :
  om_sorted desired = true -> om_sorted observed = true ->
  WalkAttributes intent_complete observation_complete policy desired observed =
  walk_reference intent_complete observation_complete policy desired observed.
Proof. apply WalkAttributes_reference. Qed.

Lemma walk_attributes_by_lookup_witness :
  map ad_key (wk_deltas (WalkAttributes true true DefaultPolicy example_state
    [(B "mtu", AV_Unsigned 1500); (B "speed", AV_Unsigned 25)])) =
  [B "admin-up"; B "mtu"; B "role"; B "speed"].
Proof.
  rewrite walk_attributes_by_lookup by (vm_compute; reflexivity). vm_compute. reflexivity.
Defined.

(** Selection rests on the set of candidates, not on their order or repetition, for
    intents and observations alike: the same conflict verdict and reason, and a
    selected document of the same generation and digest. *)
Theorem selection_order_independent intents1 intents2 observations1 observations2 :
  (forall d, Some d ∈ intents1 <-> Some d ∈ intents2) ->
  (forall d, Some d ∈ observations1 <-> Some d ∈ observations2) ->
  decision in_generation in_digest (SelectCurrentIntent intents1) =
    decision in_generation in_digest (SelectCurrentIntent intents2) /\
  decision ob_generation ob_digest (SelectCurrentObservation observations1) =
    decision ob_generation ob_digest (SelectCurrentObservation observations2).
Proof.
  intros Hi Ho. split.
  - apply (select_current_perm _ in_generation in_digest intent_less_neg_trans
      intent_less_asym (fun a b => proj1 (Z.ltb_ge _ _)) RC_NoIntentForScope _ _ Hi).
  - apply (select_current_perm _ ob_generation ob_digest ObservationKeyLess_neg_trans
      ObservationKeyLess_asym ObservationKeyLess_generation RC_NoObservationForScope _ _ Ho).
Qed.

Lemma selection_order_independent_witness :
  decision in_generation in_digest (SelectCurrentIntent [Some example_intent; None]) =
  decision in_generation in_digest (SelectCurrentIntent [None; Some example_intent]).
Proof.
  apply (selection_order_independent _ _ [] []); intros d; [|done].
  rewrite !elem_of_cons. split; intros [H|[H|H]]; auto.
Defined.


Definition example_input : ClassificationInput :=
  mkInput (B "fabric/rack-7") (Some [Some example_intent]) (Some [Some example_observation]) 4 true
    (Some DefaultPolicy) None 3 1700000000500.

Definition example_missing : DriftRecord :=
  MakeRecord (B "fabric/rack-7") (B "port/eth1") DC_Missing RC_ClassifiedSubjectMissing EC_Real.


(** C18. The report is a partition: its records are in strict subject order and carry the scope of
    the input.  When there is a policy, a selected intent that has not regressed and a selected
    observation that is fresh, the records are exactly those of the subjects of the two documents
    together, each visited once; otherwise all records carry the same indecisive class and reason
    and no difference, and are those of the subjects of all candidates, or of the selected intent
    when there is no observation. *)
Theorem classification_is_a_partition input report :
  input_ordered input = true -> ClassifyScope input = Value report ->
  os_sorted (map dr_subject (cr_records report)) = true /\
  (forall r, r ∈ cr_records report -> dr_scope r = ci_scope input) /\
  (forall policy intent observation, comparable input policy intent observation ->
     cr_subject_visits report = blen (cr_records report) /\
     forall s, s ∈ map dr_subject (cr_records report) <->
       is_Some (om_find s (in_subjects intent)) \/ is_Some (om_find s (ob_subjects observation))) /\
  ((forall policy intent observation, ~ comparable input policy intent observation) ->
     exists drift reason, drift ∈ [DC_Conflict; DC_StaleIntent; DC_Unknown; DC_StaleObservation] /\
       (forall r, r ∈ cr_records report -> dr_drift r = drift /\ dr_reason r = reason /\ dr_deltas r = []) /\
       ((forall s, s ∈ map dr_subject (cr_records report) <-> candidate_subject input s) \/
        selected_observation input = None /\ exists intent, selected_intent input = Some intent /\
          forall s, s ∈ map dr_subject (cr_records report) <-> is_Some (om_find s (in_subjects intent)))).
Proof.
  intros Hord Hc. pose proof (ClassifyScope_inv _ _ Hc) as [Hscope Hcases].
  split; [by eapply records_sorted|]. split; [intros r; by eapply records_scope|]. split.
  - intros policy intent observation H.
    pose proof (ClassifyScope_compares input policy intent observation report (cm_policy _ _ _ _ H) Hc (cm_intent _ _ _ _ H)
      (cm_observation _ _ _ _ H) (cm_generation _ _ _ _ H) (cm_fresh _ _ _ _ H)) as Hcmp.
    destruct (compared_records _ _ _ _ _ Hord Hcmp) as [Hrec ->].
    pose proof (records_subjects (ci_scope input) policy (ev_evidence (cr_evidence report)) intent
      observation _ (fun k Hk => Hk)) as Hs. rewrite Hrec. split.
    + rewrite <- Hs at 1. unfold blen. by rewrite length_map.
    + intros s. rewrite Hs, elem_merge_keys. by rewrite !om_find_is_Some_keys.
  - intros Hno. destruct Hcases as [(drift & reason & over & Hd & Hrec & Hover & _)|(p & i & o & H)].
    2: by apply compared_comparable, Hno in H.
    exists drift, reason. split; [done|]. rewrite Hrec, map_map. cbn [dr_subject MakeRecord]. rewrite map_id. split.
    + intros r Hr. by apply list_elem_of_In, in_map_iff in Hr as (s & <- & _).
    + destruct Hover as [->|(intent & Hi & Hnone & ->)]; [left; apply elem_candidates|right].
      split; [done|]. exists intent. split; [done|]. intros s. by rewrite om_find_is_Some_keys.
Qed.

Lemma classification_is_a_partition_witness :
  exists report, ClassifyScope example_input = Value report /\
    os_sorted (map dr_subject (cr_records report)) = true /\ cr_subject_visits report = blen (cr_records report).
Proof.
  destruct (ClassifyScope example_input) as [report|] eqn:E; [|vm_compute in E; discriminate].
  exists report. split; [reflexivity|].
  destruct (classification_is_a_partition example_input report eq_refl E) as (H1 & _ & H2 & _). split; [exact H1|].
  apply (H2 DefaultPolicy example_intent example_observation). split; try (vm_compute; reflexivity). intros _. vm_compute. discriminate.
Defined.
