(* ===== verification/Work.v ===== *)
(** * The work of the classifier is linear (drift.cpp)

    The report of a classification counts the subjects it visited and the attributes it compared,
    so that its cost is a fact of the result.  Here the two counters are bounded by the size of the
    two documents compared. *)

From Stdlib Require Import ZArith Lia.
From stdpp Require Import prelude.
From S2P Require Import Prelude OrdMap Hash Status Identity Canonical Value Policy Document Drift.
Local Open Scope Z_scope.

(** ** Sums over maps *)

Lemma sum_le {A} (f g : A -> Z) l : (forall a, a ∈ l -> f a <= g a) -> sum_Z (map f l) <= sum_Z (map g l).
Proof.
  induction l as [|a l IH]; intros H; [done|]. cbn. pose proof (H a ltac:(left)).
  specialize (IH ltac:(intros b Hb; apply H; by right)). unfold sum_Z in IH. lia.
Qed.

Lemma sum_plus {A} (f g : A -> Z) l : sum_Z (map (fun a => f a + g a) l) = sum_Z (map f l) + sum_Z (map g l).
Proof. induction l as [|a l IH]; [done|]. cbn. unfold sum_Z in IH. lia. Qed.

Lemma sum_single {A} `{EqDecision A} (k : A) (c : Z) l :
  NoDup l -> 0 <= c -> sum_Z (map (fun a => if decide (a = k) then c else 0) l) <= c.
Proof.
  induction 1 as [|a l Ha Hl IH]; intros Hc; [done|]. specialize (IH Hc). cbn. unfold sum_Z in IH.
  destruct (decide (a = k)) as [->|]; [|lia].
  assert (foldr Z.add 0 (map (fun a => if decide (a = k) then c else 0) l) = 0) as ->; [|lia].
  clear IH Hl. induction l as [|b l IH]; [done|]. cbn. apply not_elem_of_cons in Ha as [Hb Ha].
  by rewrite decide_False, IH.
Qed.

(** What a lookup of each of different keys adds up to is at most the sum over the map. *)
Lemma sum_lookups {V} (size : V -> Z) (m : list (bytes * V)) keys :
  (forall v, 0 <= size v) -> om_sorted m = true -> NoDup keys ->
  sum_Z (map (fun k => default 0 (size <$> om_find k m)) keys) <= sum_Z (map (fun e => size e.2) m).
Proof.
  intros Hpos Hm Hk. induction m as [|[k v] m IH].
  - clear. induction keys as [|k keys IH]; [done|]. cbn. exact IH.
  - apply om_sorted_cons in Hm as [Hf Hm]. specialize (IH Hm). cbn [map].
    change (sum_Z (?x :: ?l)) with (x + sum_Z l). cbn [snd].
    etrans; [|apply Z.add_le_mono; [apply (sum_single k (size v) keys Hk (Hpos v))|exact IH]].
    rewrite <- sum_plus. apply sum_le. intros a _. destruct (decide (a = k)) as [->|Hn].
    + cbn [om_find]. rewrite key_eqb_refl. cbn. destruct (om_find k m) as [w|]; cbn; [pose proof (Hpos w)|]; lia.
    + cbn [om_find]. by rewrite (proj2 (key_eqb_neq a k) Hn).
Qed.

Lemma os_insert_length (k : bytes) (s : list bytes) : blen (os_insert k s) <= blen s + 1.
Proof.
  induction s as [|k' s IH]; cbn [os_insert]; [done|].
  repeat split_case; rewrite ?blen_cons in *; lia.
Qed.

Lemma merge_keys_length {A C} (l : list (bytes * A)) (r : list (bytes * C)) :
  blen (merge_keys l r) <= blen l + blen r.
Proof.
  unfold merge_keys, os_insert_all. set (keys := l.*1 ++ r.*1).
  assert (blen keys = blen l + blen r) as <- by (unfold keys, blen; rewrite length_app, !length_fmap; lia).
  assert (forall s, blen (foldl (fun s k => os_insert k s) s keys) <= blen s + blen keys) as H.
  { induction keys as [|k keys IH]; intros s; cbn [foldl]; [rewrite blen_nil; lia|].
    etrans; [apply IH|]. pose proof (os_insert_length k s). rewrite blen_cons. lia. }
  etrans; [apply H|]. rewrite blen_nil. lia.
Qed.

(** ** The size of the documents *)

Definition declared_attributes (intent : IntentDocument) : Z :=
  sum_Z (map (fun entry => blen (si_desired entry.2)) (in_subjects intent)).
Definition seen_attributes (observation : ObservationDocument) : Z :=
  sum_Z (map (fun entry => blen (so_observed entry.2)) (ob_subjects observation)).

(** A subject costs no more comparisons than its two sides have attributes. *)
Lemma subject_comparisons_bound policy intent observation subject :
  (forall s e, om_find s (in_subjects intent) = Some e -> om_sorted (si_desired e) = true) ->
  (forall s e, om_find s (ob_subjects observation) = Some e -> om_sorted (so_observed e) = true) ->
  0 <= subject_comparisons policy intent observation subject <=
  default 0 ((fun e => blen (si_desired e)) <$> om_find subject (in_subjects intent)) +
  default 0 ((fun e => blen (so_observed e)) <$> om_find subject (ob_subjects observation)).
Proof.
  intros Hd Ho. unfold subject_comparisons.
  destruct (om_find subject (in_subjects intent)) as [d|] eqn:Ed;
    destruct (om_find subject (ob_subjects observation)) as [o|] eqn:Eo; cbn; unfold blen; try lia.
  unfold walk_subject. rewrite WalkAttributes_reference by eauto. cbn [walk_reference wk_comparisons].
  pose proof (merge_keys_length (si_desired d) (so_observed o)). unfold blen in *. lia.
Qed.

(** ** Property *)

(** C17. Classification is linear in its input: the subjects a report visited are no more than those
    of the two documents it compared, each record costing one visit, and the attributes compared no
    more than those of the two documents; a report that compares nothing did no work. *)
Theorem classification_work_is_linear input report :
  input_ordered input = true -> ClassifyScope input = Value report ->
  (cr_subject_visits report = 0 /\ cr_attribute_comparisons report = 0) \/
  exists intent observation,
    selected_intent input = Some intent /\ selected_observation input = Some observation /\
    cr_subject_visits report = blen (cr_records report) /\
    cr_subject_visits report <= blen (in_subjects intent) + blen (ob_subjects observation) /\
    0 <= cr_attribute_comparisons report <= declared_attributes intent + seen_attributes observation.
Proof.
  intros Hord Hc. apply ClassifyScope_inv in Hc as [_ [(d & r & o & _ & _ & _ & H)|(policy & intent & observation & H)]];
    [by left|]. right. exists intent, observation.
  destruct (compared_ordered _ _ _ _ _ Hord H) as (Hsi & Hso & Hd & Ho).
  destruct H as (_ & Hi & Hob & _ & _ & Hcs). split; [done|]. split; [done|].
  rewrite classify_subjects_reference in Hcs by done. injection Hcs as -> -> ->.
  set (keys := merge_keys (in_subjects intent) (ob_subjects observation)).
  assert (NoDup keys) as Hnd by apply os_sorted_NoDup, merge_keys_sorted.
  split; [|split; [apply merge_keys_length|]].
  - rewrite <- (records_subjects (ci_scope input) policy (ev_evidence (cr_evidence report)) intent observation keys)
      at 1 by done. unfold blen. by rewrite length_map.
  - split.
    + transitivity (sum_Z (map (fun _ => 0) keys)); [clear; induction keys; done|].
      apply sum_le. intros k _. by apply subject_comparisons_bound.
    + etrans; [apply sum_le; intros k _; by apply subject_comparisons_bound|]. rewrite sum_plus.
      unfold declared_attributes, seen_attributes.
      apply Z.add_le_mono.
      * apply (sum_lookups (fun e => blen (si_desired e))); [intros v; unfold blen; lia|done|done].
      * apply (sum_lookups (fun e => blen (so_observed e))); [intros v; unfold blen; lia|done|done].
Qed.

Lemma classification_work_is_linear_witness :
  exists report, ClassifyScope example_input = Value report /\ cr_subject_visits report <> 0 /\
    cr_subject_visits report = blen (cr_records report).
Proof.
  destruct (ClassifyScope example_input) as [report|] eqn:E; [|vm_compute in E; discriminate].
  exists report. split; [reflexivity|].
  assert (cr_subject_visits report <> 0) as Hne by (vm_compute in E; injection E as <-; discriminate).
  split; [exact Hne|].
  destruct (classification_work_is_linear example_input report eq_refl E) as [[H _]|(i & o & _ & _ & H & _)];
    [destruct (Hne H)|exact H].
Defined.
