(* ===== verification/Authority.v ===== *)
(** * Authority (authority.hpp, authority.cpp)

    The vector of bindings behind a decision, its codec, and the assessment of a
    vector against live authority. *)

From Stdlib Require Import ZArith Lia.
From stdpp Require Import prelude.
From S2P Require Import Prelude OrdMap Hash Status Identity Canonical Value Policy Document.
Local Open Scope Z_scope.

(** ** Components and masks *)

(** Models [AuthorityComponent], include/summon/fabric_reconciliation/authority.hpp:30-47. *)
Inductive AuthorityComponent :=
| AC_None | AC_CoordinatorEpoch | AC_BootIdentity | AC_PolicyId | AC_PolicyVersion
| AC_PolicyDigest | AC_Definition | AC_IntentGeneration | AC_IntentDigest
| AC_ObservationIdentity | AC_ObservationGeneration | AC_ObservationReporter
| AC_ObservationDigest | AC_ObservationEpoch | AC_ObservationFreshness | AC_Fence.

#[export] Instance AuthorityComponent_eq : EqDecision AuthorityComponent.
Proof. solve_decision. Defined.

(** Models [MaskOf], include/summon/fabric_reconciliation/authority.hpp:51-53. *)
Definition MaskOf (component : AuthorityComponent) : Z :=
  match component with
  | AC_None => 0
  | AC_CoordinatorEpoch => Z.shiftl 1 0
  | AC_BootIdentity => Z.shiftl 1 1
  | AC_PolicyId => Z.shiftl 1 2
  | AC_PolicyVersion => Z.shiftl 1 3
  | AC_PolicyDigest => Z.shiftl 1 4
  | AC_Definition => Z.shiftl 1 5
  | AC_IntentGeneration => Z.shiftl 1 6
  | AC_IntentDigest => Z.shiftl 1 7
  | AC_ObservationIdentity => Z.shiftl 1 8
  | AC_ObservationGeneration => Z.shiftl 1 9
  | AC_ObservationReporter => Z.shiftl 1 10
  | AC_ObservationDigest => Z.shiftl 1 11
  | AC_ObservationEpoch => Z.shiftl 1 12
  | AC_ObservationFreshness => Z.shiftl 1 13
  | AC_Fence => Z.shiftl 1 14
  end.

(** Models [Combine], include/summon/fabric_reconciliation/authority.hpp:55-57. *)
Definition Combine (lhs rhs : Z) : Z := Z.lor lhs rhs.

(** Models [kComponentNames], src/authority.cpp:15-31. *)
Definition kComponentNames : list (AuthorityComponent * bytes) :=
  [(AC_CoordinatorEpoch, B "coordinator-epoch");
   (AC_BootIdentity, B "boot-identity");
   (AC_PolicyId, B "policy-id");
   (AC_PolicyVersion, B "policy-version");
   (AC_PolicyDigest, B "policy-digest");
   (AC_Definition, B "definition");
   (AC_IntentGeneration, B "intent-generation");
   (AC_IntentDigest, B "intent-digest");
   (AC_ObservationIdentity, B "observation-identity");
   (AC_ObservationGeneration, B "observation-generation");
   (AC_ObservationReporter, B "observation-reporter");
   (AC_ObservationDigest, B "observation-digest");
   (AC_ObservationEpoch, B "observation-epoch");
   (AC_ObservationFreshness, B "observation-freshness");
   (AC_Fence, B "fence")].

(** Models [ToText], src/authority.cpp:35-42. *)
Definition AuthorityComponent_ToText (component : AuthorityComponent) : bytes :=
  match List.find (fun entry => bool_decide (entry.1 = component)) kComponentNames with
  | Some entry => entry.2
  | None => B "none"
  end.

(** Models [RenderAuthorityMask], src/authority.cpp:44-59. *)
Definition RenderAuthorityMask (mask : Z) : bytes :=
  if mask =? 0 then B "none"
  else foldl (fun result entry =>
                if Z.land mask (MaskOf entry.1) =? 0 then result
                else (if is_empty result then result else result ++ B ",") ++ entry.2)
             [] kComponentNames.

(** ** The authority vector *)

(** Models [AuthorityVector], include/summon/fabric_reconciliation/authority.hpp:67-95. *)
Record AuthorityVector := mkAuthority {
  av_coordinator_epoch : Z;
  av_boot : bytes;
  av_policy_id : bytes;
  av_policy_version : Z;
  av_policy_digest : bytes;
  av_definition : bytes;
  av_intent_generation : Z;
  av_intent : bytes;
  av_intent_digest : bytes;
  av_observation : bytes;
  av_observation_generation : Z;
  av_observation_reporter : bytes;
  av_observation_digest : bytes;
  av_observation_epoch : Z;
  av_observation_received_unix_ms : Z
}.

#[export] Instance AuthorityVector_eq : EqDecision AuthorityVector.
Proof. solve_decision. Defined.

(** Models [AuthorityVector::Encode], src/authority.cpp:61-78. *)
Definition AuthorityVector_Encode (v : AuthorityVector) : Put :=
  PutU64 (av_coordinator_epoch v) ;+
  PutBytes (av_boot v) ;+
  PutBytes (av_policy_id v) ;+
  PutU64 (av_policy_version v) ;+
  PutDigest (av_policy_digest v) ;+
  PutBytes (av_definition v) ;+
  PutU64 (av_intent_generation v) ;+
  PutBytes (av_intent v) ;+
  PutDigest (av_intent_digest v) ;+
  PutBytes (av_observation v) ;+
  PutU64 (av_observation_generation v) ;+
  PutBytes (av_observation_reporter v) ;+
  PutDigest (av_observation_digest v) ;+
  PutU64 (av_observation_epoch v) ;+
  PutI64 (av_observation_received_unix_ms v).

(** Models [assign], src/authority.cpp:117-127: empty text is carried as it is. *)
Definition assignable (text : bytes) : bool :=
  is_empty text || bool_decide (StringId_TryParse text <> None).

(** Models [AuthorityVector::Decode], src/authority.cpp:80-142. *)
Definition AuthorityVector_Decode : Read AuthorityVector :=
  coordinator_epoch ← ReadU64;
  boot_text ← ReadBytes;
  _ ← require (blen boot_text =? 16);
  policy_id_text ← ReadBytes;
  policy_version ← ReadU64;
  policy_digest ← ReadDigest;
  definition_text ← ReadBytes;
  intent_generation ← ReadU64;
  intent_text ← ReadBytes;
  intent_digest ← ReadDigest;
  observation_text ← ReadBytes;
  observation_generation ← ReadU64;
  reporter_text ← ReadBytes;
  observation_digest ← ReadDigest;
  observation_epoch ← ReadU64;
  observation_received ← ReadI64;
  _ ← require (assignable policy_id_text && assignable definition_text && assignable intent_text &&
               assignable observation_text && assignable reporter_text);
  mret (mkAuthority coordinator_epoch boot_text policy_id_text policy_version policy_digest
          definition_text intent_generation intent_text intent_digest observation_text
          observation_generation reporter_text observation_digest observation_epoch
          observation_received).

(** Models [AuthorityVector::Digest], src/authority.cpp:144-148. *)
Definition AuthorityVector_Digest (v : AuthorityVector) : bytes :=
  writer_Digest (AuthorityVector_Encode v writer_empty).

(** Models [AuthorityVector::Render], src/authority.cpp:150-173. *)
Definition AuthorityVector_Render (v : AuthorityVector) : bytes :=
  B "epoch=" ++ to_string (av_coordinator_epoch v) ++
  B " boot=" ++ firstn 8 (ToHex (av_boot v)) ++
  B " policy=" ++ av_policy_id v ++ B "/" ++ to_string (av_policy_version v) ++
  B " definition=" ++ av_definition v ++
  B " intent=" ++ av_intent v ++ B "/g" ++ to_string (av_intent_generation v) ++
  B " observation=" ++ av_observation v ++ B "/g" ++ to_string (av_observation_generation v) ++
  B "/" ++ av_observation_reporter v.

(** Models [AuthorityAssessment], include/summon/fabric_reconciliation/authority.hpp:98-104. *)
Record AuthorityAssessment := mkAssessment {
  as_proven : bool; as_reason : Z; as_failed_components : Z }.

(** Models [LiveAuthority], include/summon/fabric_reconciliation/authority.hpp:107-113. *)
Record LiveAuthority := mkLive {
  lv_coordinator_epoch : Z;
  lv_boot : bytes;
  lv_policy_id : bytes;
  lv_policy_version : Z;
  lv_policy_digest : bytes
}.

(** The checks of [AssessAuthority] in order: the condition under which each
    component fails to bind. *)
Definition authority_checks (vector : AuthorityVector) (live : LiveAuthority)
    (freshness_ok fence_holds : bool) : list (bool * AuthorityComponent) :=
  [(negb (av_coordinator_epoch vector =? lv_coordinator_epoch live), AC_CoordinatorEpoch);
   (negb (bool_decide (av_boot vector = lv_boot live)), AC_BootIdentity);
   (is_empty (av_policy_id vector) ||
      negb (bool_decide (av_policy_id vector = lv_policy_id live)), AC_PolicyId);
   (negb (av_policy_version vector =? lv_policy_version live), AC_PolicyVersion);
   (negb (bool_decide (av_policy_digest vector = lv_policy_digest live)), AC_PolicyDigest);
   (is_empty (av_definition vector), AC_Definition);
   (av_intent_generation vector =? 0, AC_IntentGeneration);
   (is_empty (av_intent vector), AC_IntentDigest);
   (is_empty (av_observation vector), AC_ObservationIdentity);
   (av_observation_generation vector =? 0, AC_ObservationGeneration);
   (is_empty (av_observation_reporter vector), AC_ObservationReporter);
   (negb (av_observation_epoch vector =? lv_coordinator_epoch live), AC_ObservationEpoch);
   (negb freshness_ok, AC_ObservationFreshness);
   (fence_holds, AC_Fence)].

Definition has_component (mask : Z) (component : AuthorityComponent) : bool :=
  negb (Z.land mask (MaskOf component) =? 0).

(** Models [AssessAuthority], src/authority.cpp:175-257. *)
Definition AssessAuthority (vector : AuthorityVector) (live : LiveAuthority)
    (freshness_reason : Z) (freshness_ok fence_holds : bool) : AuthorityAssessment :=
  let mask :=
    foldl (fun mask check => if check.1 : bool then Combine mask (MaskOf check.2) else mask)
      0 (authority_checks vector live freshness_ok fence_holds) in
  if mask =? 0 then mkAssessment true RC_AuthorityProven mask
  else if has_component mask AC_Fence then mkAssessment false RC_ScopeFenced mask
  else if has_component mask AC_ObservationFreshness then mkAssessment false freshness_reason mask
  else if has_component mask AC_CoordinatorEpoch || has_component mask AC_BootIdentity then
    mkAssessment false RC_AuthorityEpochMismatch mask
  else if negb (Z.land mask (Z.lor (Z.lor (MaskOf AC_PolicyId) (MaskOf AC_PolicyVersion))
                              (MaskOf AC_PolicyDigest)) =? 0) then
    mkAssessment false RC_AuthorityPolicyMismatch mask
  else if negb (Z.land mask (Z.lor (MaskOf AC_IntentGeneration) (MaskOf AC_IntentDigest)) =? 0)
  then mkAssessment false RC_AuthorityIntentGenerationMismatch mask
  else if has_component mask AC_Definition then
    mkAssessment false RC_AuthorityDefinitionMismatch mask
  else mkAssessment false RC_AuthorityObservationGenerationMismatch mask.

(** ** Layout and well-formedness *)

Definition id_or_empty (text : bytes) : bool := is_empty text || IsValidIdentityText text.
Definition digest_wf (d : bytes) : bool := blen d =? 32.

Definition authority_wf (v : AuthorityVector) : bool :=
  u64 (av_coordinator_epoch v) && BootId_valid (av_boot v) && id_or_empty (av_policy_id v) &&
  u64 (av_policy_version v) && digest_wf (av_policy_digest v) && id_or_empty (av_definition v) &&
  u64 (av_intent_generation v) && id_or_empty (av_intent v) && digest_wf (av_intent_digest v) &&
  id_or_empty (av_observation v) && u64 (av_observation_generation v) &&
  id_or_empty (av_observation_reporter v) && digest_wf (av_observation_digest v) &&
  u64 (av_observation_epoch v) && i64 (av_observation_received_unix_ms v).

Definition lay_authority (v : AuthorityVector) : bytes :=
  lay_u64 (av_coordinator_epoch v) ++ lay_bytes (av_boot v) ++ lay_bytes (av_policy_id v) ++
  lay_u64 (av_policy_version v) ++ av_policy_digest v ++ lay_bytes (av_definition v) ++
  lay_u64 (av_intent_generation v) ++ lay_bytes (av_intent v) ++ av_intent_digest v ++
  lay_bytes (av_observation v) ++ lay_u64 (av_observation_generation v) ++
  lay_bytes (av_observation_reporter v) ++ av_observation_digest v ++
  lay_u64 (av_observation_epoch v) ++ lay_i64 (av_observation_received_unix_ms v).

(** ** Facts *)

Lemma id_or_empty_assignable text : id_or_empty text = assignable text.
Proof.
  unfold id_or_empty, assignable. f_equal. unfold StringId_TryParse.
  by destruct (IsValidIdentityText text).
Qed.

Lemma id_or_empty_bound text : id_or_empty text = true -> blen text <= kMaxCanonicalBytes.
Proof.
  unfold id_or_empty. intros H. apply orb_true_iff in H as [H|H]; [|by apply identity_bound].
  apply bool_decide_eq_true in H as ->. unfold kMaxCanonicalBytes, blen. simpl. lia.
Qed.

Lemma digest_wf_length d : digest_wf d = true -> length d = kSha256Bytes.
Proof. unfold digest_wf, blen, kSha256Bytes. intros. bool_hyps. lia. Qed.

Lemma length_digest_wf d : length d = kSha256Bytes -> digest_wf d = true.
Proof. unfold digest_wf, blen, kSha256Bytes. intros ->. done. Qed.

Lemma boot_bound b : BootId_valid b = true -> blen b <= kMaxCanonicalBytes.
Proof. unfold BootId_valid, kMaxCanonicalBytes. intros. bool_hyps. lia. Qed.

#[export] Hint Resolve id_or_empty_bound digest_wf_length boot_bound : codec.
#[export] Hint Resolve length_digest_wf : yields.

Lemma writes_authority v : authority_wf v = true -> writes (AuthorityVector_Encode v) (lay_authority v).
Proof.
  unfold authority_wf. intros H. bool_hyps. unfold AuthorityVector_Encode, lay_authority.
  write_steps.
Qed.

Lemma decodes_authority v :
  authority_wf v = true -> decodes AuthorityVector_Decode (lay_authority v) v.
Proof.
  unfold authority_wf. intros H. bool_hyps. unfold AuthorityVector_Decode, lay_authority.
  do 2 decode_step. decode_step; [done|]. do 13 decode_step.
  decode_step; [rewrite <- !id_or_empty_assignable; by bool_goal|].
  destruct v. apply decodes_ret.
Qed.

Lemma yields_authority : yields AuthorityVector_Decode (fun v => authority_wf v = true).
Proof.
  unfold AuthorityVector_Decode. repeat yield_step.
  rewrite <- !id_or_empty_assignable in *. bool_hyps. unfold authority_wf, BootId_valid. simpl.
  bool_goal; auto with yields.
Qed.

#[export] Hint Resolve writes_authority decodes_authority : codec.
#[export] Hint Resolve yields_authority : yields.

(** The mask collected from a list of checks has the bit of a component exactly
    when a check of that component failed. *)
Lemma mask_collects checks : forall mask component,
  component <> AC_None -> 0 <= mask ->
  has_component
    (foldl (fun mask check => if check.1 : bool then Combine mask (MaskOf check.2) else mask)
       mask checks) component =
  has_component mask component ||
  existsb (fun check => check.1 && bool_decide (check.2 = component)) checks.
Proof.
  induction checks as [|[failed c] checks IH]; intros mask component Hc Hm; simpl.
  { by rewrite orb_false_r. }
  rewrite IH; [|done|].
  2: { destruct failed; [|done]. unfold Combine. apply Z.lor_nonneg. split; [done|by destruct c]. }
  rewrite orb_assoc. f_equal. destruct failed; simpl; [|by rewrite orb_false_r].
  unfold has_component, Combine. rewrite Z.land_lor_distr_l.
  apply eq_true_iff_eq. rewrite orb_true_iff, !negb_true_iff, !Z.eqb_neq, bool_decide_eq_true.
  assert (Z.land (MaskOf c) (MaskOf component) <> 0 <-> c = component) as Hbit.
  { destruct c, component; vm_compute; split; congruence. }
  rewrite <- Hbit, Z.lor_eq_0_iff. lia.
Qed.

Lemma mask_zero checks : forall mask,
  0 <= mask -> (forall check, check ∈ checks -> check.2 <> AC_None) ->
  foldl (fun mask check => if check.1 : bool then Combine mask (MaskOf check.2) else mask)
       mask checks = 0 <-> mask = 0 /\ existsb fst checks = false.
Proof.
  induction checks as [|[failed c] checks IH]; intros mask Hm Hc; simpl; [tauto|].
  assert (0 < MaskOf c) by (specialize (Hc (failed, c) ltac:(left)); by destruct c).
  assert (0 <= Combine mask (MaskOf c)).
  { unfold Combine. apply Z.lor_nonneg. lia. }
  destruct failed; simpl; rewrite IH by (done || set_solver); [|tauto].
  unfold Combine. rewrite Z.lor_eq_0_iff. naive_solver lia.
Qed.

(** The bindings an assessment proves. *)
Lemma AssessAuthority_proven vector live freshness_reason freshness_ok fence_holds :
  as_proven (AssessAuthority vector live freshness_reason freshness_ok fence_holds) = true <->
  av_coordinator_epoch vector = lv_coordinator_epoch live /\ av_boot vector = lv_boot live /\
  av_policy_id vector <> [] /\ av_policy_id vector = lv_policy_id live /\
  av_policy_version vector = lv_policy_version live /\
  av_policy_digest vector = lv_policy_digest live /\
  av_definition vector <> [] /\ av_intent_generation vector <> 0 /\ av_intent vector <> [] /\
  av_observation vector <> [] /\ av_observation_generation vector <> 0 /\
  av_observation_reporter vector <> [] /\
  av_observation_epoch vector = lv_coordinator_epoch live /\
  freshness_ok = true /\ fence_holds = false.
Proof.
  unfold AssessAuthority. cbv zeta. set (checks := authority_checks _ _ _ _).
  set (mask := foldl _ 0 checks).
  assert (mask = 0 <-> existsb fst checks = false) as Hmask.
  { unfold mask. rewrite mask_zero; [tauto|done|].
    unfold checks, authority_checks. set_solver. }
  destruct (Z.eqb_spec mask 0) as [H0|H0]; cbn [as_proven].
  - apply Hmask in H0. unfold checks, authority_checks, is_empty in H0. cbn [existsb fst] in H0.
    bool_hyps. tauto.
  - assert (~ existsb fst checks = false) as Hne by tauto.
    split.
    + intros H. exfalso. revert H. by repeat split_case.
    + intros (E1 & E2 & E3 & E4 & E5 & E6 & E7 & E8 & E9 & E10 & E11 & E12 & E13 & E14 & E15).
      destruct Hne. unfold checks, authority_checks. cbn [existsb fst]. unfold is_empty.
      rewrite E1, E2, <- E4, E5, E6, E13, E14, E15, !Z.eqb_refl.
      apply Z.eqb_neq in E8, E11. rewrite E8, E11.
      repeat (apply orb_false_iff; split); try done;
        first [by apply bool_decide_eq_false | by apply negb_false_iff, bool_decide_eq_true].
Qed.

(** ** Properties *)

(** Authority is proven exactly when every binding holds: same epoch and boot, same
    non-empty policy identity, version and digest, named definition, intent and
    observation of positive generations with a named reporter, evidence of the live
    epoch, a fresh observation and no fence. *)
Theorem authority_proven_iff vector live freshness_reason freshness_ok fence_holds :
  as_proven (AssessAuthority vector live freshness_reason freshness_ok fence_holds) = true <->
  av_coordinator_epoch vector = lv_coordinator_epoch live /\ av_boot vector = lv_boot live /\
  av_policy_id vector <> [] /\ av_policy_id vector = lv_policy_id live /\
  av_policy_version vector = lv_policy_version live /\
  av_policy_digest vector = lv_policy_digest live /\
  av_definition vector <> [] /\ av_intent_generation vector <> 0 /\ av_intent vector <> [] /\
  av_observation vector <> [] /\ av_observation_generation vector <> 0 /\
  av_observation_reporter vector <> [] /\
  av_observation_epoch vector = lv_coordinator_epoch live /\
  freshness_ok = true /\ fence_holds = false.
Proof. apply AssessAuthority_proven. Qed.

(** When authority is not proven, the reported mask names a component exactly when
    its binding fails, and a fence is always the reported reason. *)
Theorem authority_mask_exact vector live freshness_reason freshness_ok fence_holds component :
  let assessment := AssessAuthority vector live freshness_reason freshness_ok fence_holds in
  (component <> AC_None ->
   (has_component (as_failed_components assessment) component = true <->
    (true, component) ∈ authority_checks vector live freshness_ok fence_holds)) /\
  (fence_holds = true -> as_reason assessment = RC_ScopeFenced) /\
  as_proven assessment = (as_failed_components assessment =? 0).
Proof.
  intros assessment. subst assessment.
  unfold AssessAuthority. cbv zeta. set (checks := authority_checks _ _ _ _).
  set (mask := foldl _ 0 checks).
  assert (component <> AC_None ->
    has_component mask component = true <-> (true, component) ∈ checks) as Hmask.
  { intros Hc. unfold mask. rewrite mask_collects by done. cbn [orb has_component].
    replace (has_component 0 component) with false by by destruct component.
    rewrite orb_false_l, existsb_exists. setoid_rewrite <- list_elem_of_In. split.
    - intros ([failed c] & Hin & H). simpl in H. bool_hyps. by subst.
    - intros Hin. eexists. split; [exact Hin|]. simpl. by apply bool_decide_eq_true. }
  split; [intros Hc|split].
  - rewrite <- Hmask by done. by repeat split_case.
  - intros ->.
    assert (has_component mask AC_Fence = true) as Hf.
    { unfold mask. rewrite mask_collects by done. unfold checks, authority_checks. cbn [existsb fst snd].
      rewrite !orb_true_iff. right. do 13 right. by left. }
    rewrite Hf. destruct (Z.eqb_spec mask 0) as [H0|]; [|done].
    rewrite H0 in Hf. done.
  - destruct (mask =? 0) eqn:E; [by symmetry|]. repeat split_case; by symmetry.
Qed.
