(* ===== verification/Plan.v ===== *)
(** * Explanations, decisions and plans (explain.hpp, explain.cpp, plan.hpp, plan.cpp) *)

From Stdlib Require Import ZArith Lia.
From stdpp Require Import prelude.
From S2P Require Import Prelude OrdMap Hash Status Identity Canonical Value Policy Document Drift.
From S2P Require Import Authority.
Local Open Scope Z_scope.

(** ** Explanations *)

(** Models [ExplanationStep], include/summon/fabric_reconciliation/explain.hpp:28-33. *)
Record ExplanationStep := mkStep { xs_code : Z; xs_detail : bytes }.

(** Models [Explanation], include/summon/fabric_reconciliation/explain.hpp:37-60. *)
Record Explanation := mkExplanation {
  ex_steps : list ExplanationStep; ex_max_steps : Z; ex_truncated : bool }.

#[export] Instance ExplanationStep_eq : EqDecision ExplanationStep.
Proof. solve_decision. Defined.
#[export] Instance Explanation_eq : EqDecision Explanation.
Proof. solve_decision. Defined.

(** The default constructor. *)
Definition Explanation_default : Explanation := mkExplanation [] 16 false.

(** Models [Explanation::Explanation], include/summon/fabric_reconciliation/explain.hpp:40-40. *)
Definition Explanation_bounded (max_steps : Z) : Explanation :=
  mkExplanation [] (if max_steps =? 0 then 1 else max_steps) false.

(** Models [Explanation::Add], src/explain.cpp:9-18. *)
Definition Explanation_Add (code : Z) (detail : bytes) (e : Explanation) : Explanation :=
  if ex_max_steps e <=? blen (ex_steps e) then mkExplanation (ex_steps e) (ex_max_steps e) true
  else mkExplanation (ex_steps e ++ [mkStep code detail]) (ex_max_steps e) (ex_truncated e).

(** Models [Explanation::Find], src/explain.cpp:24-31. *)
Definition Explanation_Find (code : Z) (e : Explanation) : option bytes :=
  match List.find (fun step => xs_code step =? code) (ex_steps e) with
  | Some step => Some (xs_detail step)
  | None => None
  end.

(** Models [Explanation::Has], src/explain.cpp:22-22. *)
Definition Explanation_Has (code : Z) (e : Explanation) : bool :=
  match Explanation_Find code e with Some _ => true | None => false end.

(** A line feed. *)
Definition newline : bytes := [Byte.x0a].

(** Models [Explanation::Render], src/explain.cpp:33-47. *)
Definition Explanation_Render (e : Explanation) : bytes :=
  concat (map (fun step =>
                 ReasonCode_ToText (xs_code step) ++
                 (if is_empty (xs_detail step) then [] else B ": " ++ xs_detail step) ++
                 newline) (ex_steps e)) ++
  (if ex_truncated e then B "EXPLANATION_TRUNCATED" ++ newline else []).

(** ** Actions and dispositions *)

(** Models [ActionKind], include/summon/fabric_reconciliation/plan.hpp:32-38. *)
Inductive ActionKind := ACT_None | ACT_ApplyDesired | ACT_WithdrawSubject.

#[export] Instance ActionKind_eq : EqDecision ActionKind.
Proof. solve_decision. Defined.

Definition ActionKind_to_Z (a : ActionKind) : Z :=
  match a with ACT_None => 0 | ACT_ApplyDesired => 1 | ACT_WithdrawSubject => 2 end.

(** The decoders' range check followed by the cast. *)
Definition ActionKind_of_Z (raw : Z) : option ActionKind :=
  if raw =? 0 then Some ACT_None else if raw =? 1 then Some ACT_ApplyDesired
  else if raw =? 2 then Some ACT_WithdrawSubject else None.

(** Models [ToText], src/plan.cpp:54-61. *)
Definition ActionKind_ToText (a : ActionKind) : bytes :=
  match a with
  | ACT_None => B "NONE" | ACT_ApplyDesired => B "APPLY_DESIRED"
  | ACT_WithdrawSubject => B "WITHDRAW_SUBJECT"
  end.

(** Models [TryParseActionKind], src/plan.cpp:63-72. *)
Definition TryParseActionKind (view : bytes) : option ActionKind :=
  if text_eqb view (B "NONE") then Some ACT_None
  else if text_eqb view (B "APPLY_DESIRED") then Some ACT_ApplyDesired
  else if text_eqb view (B "WITHDRAW_SUBJECT") then Some ACT_WithdrawSubject
  else None.

(** Models [DecisionDisposition], include/summon/fabric_reconciliation/plan.hpp:44-60. *)
Inductive DecisionDisposition :=
| DD_Invalid | DD_Actionable | DD_Blocked | DD_Conflicted | DD_Indeterminate
| DD_AlreadySatisfied | DD_Unsupported | DD_Fenced.

#[export] Instance DecisionDisposition_eq : EqDecision DecisionDisposition.
Proof. solve_decision. Defined.

Definition DecisionDisposition_to_Z (d : DecisionDisposition) : Z :=
  match d with
  | DD_Invalid => 0 | DD_Actionable => 1 | DD_Blocked => 2 | DD_Conflicted => 3
  | DD_Indeterminate => 4 | DD_AlreadySatisfied => 5 | DD_Unsupported => 6 | DD_Fenced => 7
  end.

(** Models [ToText], src/plan.cpp:74-86. *)
Definition DecisionDisposition_ToText (d : DecisionDisposition) : bytes :=
  match d with
  | DD_Invalid => B "INVALID" | DD_Actionable => B "ACTIONABLE" | DD_Blocked => B "BLOCKED"
  | DD_Conflicted => B "CONFLICTED" | DD_Indeterminate => B "INDETERMINATE"
  | DD_AlreadySatisfied => B "ALREADY_SATISFIED" | DD_Unsupported => B "UNSUPPORTED"
  | DD_Fenced => B "FENCED"
  end.

(** Models [IsMutationDisposition], src/plan.cpp:88-90. *)
Definition IsMutationDisposition (d : DecisionDisposition) : bool :=
  bool_decide (d = DD_Actionable).

(** Models [ConvergenceVerdict], include/summon/fabric_reconciliation/plan.hpp:84-101. *)
Inductive ConvergenceVerdict :=
| CV_Invalid | CV_ConvergedProven | CV_ConvergenceRequired | CV_ProvenBlocked | CV_Indeterminate
| CV_SearchLimitReached.

#[export] Instance ConvergenceVerdict_eq : EqDecision ConvergenceVerdict.
Proof. solve_decision. Defined.

Definition ConvergenceVerdict_to_Z (v : ConvergenceVerdict) : Z :=
  match v with
  | CV_Invalid => 0 | CV_ConvergedProven => 1 | CV_ConvergenceRequired => 2
  | CV_ProvenBlocked => 3 | CV_Indeterminate => 4 | CV_SearchLimitReached => 5
  end.

(** Models [ToText], src/plan.cpp:92-102. *)
Definition ConvergenceVerdict_ToText (v : ConvergenceVerdict) : bytes :=
  match v with
  | CV_Invalid => B "INVALID" | CV_ConvergedProven => B "CONVERGED_PROVEN"
  | CV_ConvergenceRequired => B "CONVERGENCE_REQUIRED" | CV_ProvenBlocked => B "PROVEN_BLOCKED"
  | CV_Indeterminate => B "INDETERMINATE" | CV_SearchLimitReached => B "SEARCH_LIMIT_REACHED"
  end.

(** ** Decisions and plans *)

(** Models [Decision], include/summon/fabric_reconciliation/plan.hpp:66-81. *)
Record Decision := mkDecision {
  de_scope : bytes;
  de_subject : bytes;
  de_drift : DriftClass;
  de_reason : Z;
  de_action : ActionKind;
  de_disposition : DecisionDisposition;
  de_authority : AuthorityVector;
  de_idempotency_key : bytes;
  de_explanation : Explanation;
  de_evidence : EvidenceClass
}.

(** Models [ReconciliationPlan], include/summon/fabric_reconciliation/plan.hpp:106-147. *)
Record ReconciliationPlan := mkPlan {
  pl_scope : bytes;
  pl_definition : bytes;
  pl_epoch : Z;
  pl_boot : bytes;
  pl_policy_id : bytes;
  pl_policy_version : Z;
  pl_policy_digest : bytes;
  pl_intent_generation : Z;
  pl_intent : bytes;
  pl_intent_digest : bytes;
  pl_observation : bytes;
  pl_observation_generation : Z;
  pl_reporter : bytes;
  pl_observation_digest : bytes;
  pl_observation_epoch : Z;
  pl_observation_received_unix_ms : Z;
  pl_freshness : FreshnessVerdict;
  pl_verdict : ConvergenceVerdict;
  pl_evidence : EvidenceClass;
  pl_truncated : bool;
  pl_decisions : list Decision;
  pl_scope_explanation : Explanation;
  pl_scope_reason : Z;
  pl_plan_digest : bytes;
  pl_plan_id : bytes
}.

Definition put_step (step : ExplanationStep) : Put :=
  PutU16 (wrap 16 (xs_code step)) ;+ PutBytes (xs_detail step).

Definition put_steps (e : Explanation) : Put :=
  PutU32 (Z.land (blen (ex_steps e)) 0xffffffff) ;+ put_each put_step (ex_steps e).

Definition put_decision (decision : Decision) : Put :=
  PutBytes (de_scope decision) ;+
  PutBytes (de_subject decision) ;+
  PutU8 (DriftClass_to_Z (de_drift decision)) ;+
  PutU16 (wrap 16 (de_reason decision)) ;+
  PutU8 (ActionKind_to_Z (de_action decision)) ;+
  PutU8 (DecisionDisposition_to_Z (de_disposition decision)) ;+
  PutDigest (de_idempotency_key decision) ;+
  PutU8 (EvidenceClass_to_Z (de_evidence decision)) ;+
  put_steps (de_explanation decision).

(** Models [EncodePlanContent], src/plan.cpp:10-50. *)
Definition EncodePlanContent (plan : ReconciliationPlan) : Put :=
  PutU16 kCanonicalSchemaVersion ;+
  PutBytes (pl_scope plan) ;+
  PutBytes (pl_definition plan) ;+
  PutU64 (pl_epoch plan) ;+
  PutDigest (pl_policy_digest plan) ;+
  PutU64 (pl_policy_version plan) ;+
  PutBytes (pl_intent plan) ;+
  PutU64 (pl_intent_generation plan) ;+
  PutDigest (pl_intent_digest plan) ;+
  PutBytes (pl_observation plan) ;+
  PutU64 (pl_observation_generation plan) ;+
  PutBytes (pl_reporter plan) ;+
  PutDigest (pl_observation_digest plan) ;+
  PutU8 (ConvergenceVerdict_to_Z (pl_verdict plan)) ;+
  PutU8 (EvidenceClass_to_Z (pl_evidence plan)) ;+
  PutBool (pl_truncated plan) ;+
  PutU16 (wrap 16 (pl_scope_reason plan)) ;+
  put_steps (pl_scope_explanation plan) ;+
  PutU32 (Z.land (blen (pl_decisions plan)) 0xffffffff) ;+
  put_each put_decision (pl_decisions plan).

(** What [ComputeIdempotencyKey] writes before hashing. *)
Definition put_idempotency (scope subject : bytes) (action : ActionKind)
    (authority : AuthorityVector) (desired expected_observed : SubjectState) : Put :=
  PutU16 kCanonicalSchemaVersion ;+
  PutBytes scope ;+
  PutBytes subject ;+
  PutU8 (ActionKind_to_Z action) ;+
  PutU64 (av_intent_generation authority) ;+
  PutDigest (av_intent_digest authority) ;+
  PutU64 (av_observation_generation authority) ;+
  PutDigest (av_observation_digest authority) ;+
  PutBytes (av_definition authority) ;+
  PutDigest (DigestOfState desired) ;+
  PutDigest (DigestOfState expected_observed).

(** Models [ComputeIdempotencyKey], src/plan.cpp:104-121. *)
Definition ComputeIdempotencyKey (scope subject : bytes) (action : ActionKind)
    (authority : AuthorityVector) (desired expected_observed : SubjectState) : bytes :=
  writer_Digest (put_idempotency scope subject action authority desired expected_observed
                   writer_empty).

Definition count_decisions (f : Decision -> bool) (plan : ReconciliationPlan) : Z :=
  blen (List.filter f (pl_decisions plan)).

(** Models [ReconciliationPlan::MutationCount], src/plan.cpp:123-131. *)
Definition MutationCount (plan : ReconciliationPlan) : Z :=
  count_decisions (fun d => IsMutationDisposition (de_disposition d)) plan.

(** Models [ReconciliationPlan::CountDisposition], src/plan.cpp:133-141. *)
Definition CountDisposition (plan : ReconciliationPlan) (value : DecisionDisposition) : Z :=
  count_decisions (fun d => bool_decide (de_disposition d = value)) plan.

(** Models [ReconciliationPlan::CountDrift], src/plan.cpp:143-151. *)
Definition CountDrift (plan : ReconciliationPlan) (value : DriftClass) : Z :=
  count_decisions (fun d => bool_decide (de_drift d = value)) plan.

(** Models [ReconciliationPlan::Seal], src/plan.cpp:153-158. *)
Definition Seal (plan : ReconciliationPlan) : ReconciliationPlan :=
  let digest := writer_Digest (EncodePlanContent plan writer_empty) in
  mkPlan (pl_scope plan) (pl_definition plan) (pl_epoch plan) (pl_boot plan) (pl_policy_id plan)
    (pl_policy_version plan) (pl_policy_digest plan) (pl_intent_generation plan) (pl_intent plan)
    (pl_intent_digest plan) (pl_observation plan) (pl_observation_generation plan)
    (pl_reporter plan) (pl_observation_digest plan) (pl_observation_epoch plan)
    (pl_observation_received_unix_ms plan) (pl_freshness plan) (pl_verdict plan)
    (pl_evidence plan) (pl_truncated plan) (pl_decisions plan) (pl_scope_explanation plan)
    (pl_scope_reason plan) digest (ToHex digest).

(** Models [PlanRequest], include/summon/fabric_reconciliation/plan.hpp:164-173. *)
Record PlanRequest := mkPlanRequest {
  pr_scope : bytes; pr_policy : option ReconciliationPolicy; pr_now_unix_ms : Z; pr_dry_run : bool }.

(** Models [ActionIntent], include/summon/fabric_reconciliation/plan.hpp:176-190. *)
Record ActionIntent := mkActionIntent {
  ai_scope : bytes;
  ai_subject : bytes;
  ai_action : ActionKind;
  ai_desired : SubjectState;
  ai_expected_observed : SubjectState;
  ai_authority : AuthorityVector;
  ai_idempotency_key : bytes;
  ai_attempt : Z;
  ai_epoch : Z;
  ai_boot : bytes;
  ai_issued_unix_ms : Z
}.

(** ** Facts *)

Lemma ActionKind_of_to_Z a : ActionKind_of_Z (ActionKind_to_Z a) = Some a.
Proof. by destruct a. Qed.

Lemma ActionKind_to_Z_u8 a : u8 (ActionKind_to_Z a) = true.
Proof. by destruct a. Qed.

Lemma ActionKind_to_of_Z raw a : ActionKind_of_Z raw = Some a -> raw = ActionKind_to_Z a.
Proof. unfold ActionKind_of_Z. repeat split_case; intros [= <-]; bool_hyps; done. Qed.

Lemma decodes_u8_action a : decodes ReadU8 (lay_u8 (ActionKind_to_Z a)) (ActionKind_to_Z a).
Proof. apply decodes_u8, ActionKind_to_Z_u8. Qed.

#[export] Hint Resolve decodes_u8_action : codec.

(** The bound of an explanation is never exceeded. *)
Definition explanation_bounded (e : Explanation) : Prop := blen (ex_steps e) <= ex_max_steps e.

Lemma Explanation_Add_bounded code detail e :
  explanation_bounded e -> explanation_bounded (Explanation_Add code detail e) /\
  ex_max_steps (Explanation_Add code detail e) = ex_max_steps e.
Proof.
  unfold explanation_bounded, Explanation_Add. intros H.
  destruct (ex_max_steps e <=? blen (ex_steps e)) eqn:E; simpl; [done|]. bool_hyps.
  rewrite blen_app, blen_cons, blen_nil. split; [lia|done].
Qed.

(** The layout of what an idempotency key hashes. *)
Definition lay_idempotency (scope subject : bytes) (action : ActionKind)
    (authority : AuthorityVector) (d1 d2 : bytes) : bytes :=
  lay_u16 kCanonicalSchemaVersion ++ lay_bytes scope ++ lay_bytes subject ++
  lay_u8 (ActionKind_to_Z action) ++ lay_u64 (av_intent_generation authority) ++
  av_intent_digest authority ++ lay_u64 (av_observation_generation authority) ++
  av_observation_digest authority ++ lay_bytes (av_definition authority) ++ d1 ++ d2.

(** Reads a hashed idempotency content back: the layout is unambiguous. *)
Definition read_idempotency
  : Read (bytes * bytes * Z * (Z * bytes) * (Z * bytes) * bytes * bytes * bytes) :=
  _ ← ReadU16; scope ← ReadBytes; subject ← ReadBytes; action ← ReadU8;
  intent_generation ← ReadU64; intent_digest ← ReadDigest;
  observation_generation ← ReadU64; observation_digest ← ReadDigest;
  definition ← ReadBytes; d1 ← ReadDigest; d2 ← ReadDigest;
  mret (scope, subject, action, (intent_generation, intent_digest),
        (observation_generation, observation_digest), definition, d1, d2).

Lemma length_DigestOfState state : length (DigestOfState state) = kSha256Bytes.
Proof. apply length_Sha256Of. Qed.

#[export] Hint Resolve length_DigestOfState : codec.

Lemma lay_state_digest limits state :
  state_wf limits state = true -> blen (lay_state state) <= kMaxCanonicalBytes ->
  DigestOfState state = Sha256Of (lay_state state).
Proof.
  intros Hwf Hl. unfold DigestOfState, writer_Digest. f_equal.
  change (PutU32 _ ;+ put_each put_attribute state) with (EncodeState state).
  by rewrite (writes_fresh _ _ (writes_state _ _ Hwf) Hl).
Qed.

(** Equal digests of two states: the same state, or a collision. *)
Lemma DigestOfState_binding limits s1 s2 :
  state_wf limits s1 = true -> state_wf limits s2 = true ->
  blen (lay_state s1) <= kMaxCanonicalBytes -> blen (lay_state s2) <= kMaxCanonicalBytes ->
  DigestOfState s1 = DigestOfState s2 ->
  s1 = s2 \/ exists m1 m2 : bytes, m1 <> m2 /\ Sha256Of m1 = Sha256Of m2.
Proof.
  intros H1 H2 L1 L2. rewrite (lay_state_digest limits s1), (lay_state_digest limits s2) by done.
  intros Heq. destruct (decide (lay_state s1 = lay_state s2)) as [Hlay|Hne].
  - left. eapply (decodes_inj (DecodeState limits) lay_state); auto using decodes_state.
  - right. eauto.
Qed.

Lemma blen_le n v : blen (le_bytes n v) = Z.of_nat n.
Proof. unfold blen. by rewrite length_le_bytes. Qed.

Lemma blen_lay_bytes bs : blen (lay_bytes bs) = 4 + blen bs.
Proof. unfold lay_bytes, lay_u32. by rewrite blen_app, blen_le. Qed.

Lemma id_or_empty_length text : id_or_empty text = true -> blen text <= kMaxIdentityLength.
Proof.
  unfold id_or_empty. intros H. apply orb_true_iff in H as [H|H].
  - apply bool_decide_eq_true in H as ->. by rewrite blen_nil.
  - apply IsValidIdentityText_length in H. lia.
Qed.

Lemma blen_digest (d : bytes) : length d = kSha256Bytes -> blen d = 32.
Proof. unfold blen, kSha256Bytes. lia. Qed.

Section Idempotency.
Variables (scope subject : bytes) (action : ActionKind) (authority : AuthorityVector).
Variables (desired expected : SubjectState).
Hypothesis Hscope : IsValidIdentityText scope = true.
Hypothesis Hsubject : IsValidIdentityText subject = true.
Hypothesis Hauth : authority_wf authority = true.

Lemma ComputeIdempotencyKey_hash :
  ComputeIdempotencyKey scope subject action authority desired expected =
  Sha256Of (lay_idempotency scope subject action authority (DigestOfState desired)
              (DigestOfState expected)).
Proof.
  pose proof Hauth as H. unfold authority_wf in H. bool_hyps.
  unfold ComputeIdempotencyKey, writer_Digest. f_equal.
  erewrite writes_fresh; [reflexivity| |].
  - unfold put_idempotency, lay_idempotency. apply writes_seq; [by apply writes_u16|]. write_steps.
  - unfold lay_idempotency, lay_u16, lay_u8, lay_u64.
    rewrite !blen_app, !blen_lay_bytes, !blen_le, blen_cons, blen_nil.
    rewrite !(blen_digest (DigestOfState _)) by apply length_DigestOfState.
    rewrite (blen_digest (av_intent_digest _)), (blen_digest (av_observation_digest _))
      by (by apply digest_wf_length).
    pose proof (IsValidIdentityText_length _ Hscope).
    pose proof (IsValidIdentityText_length _ Hsubject).
    pose proof (id_or_empty_length (av_definition authority) ltac:(done)).
    unfold kMaxIdentityLength, kMaxCanonicalBytes in *. lia.
Qed.

Lemma decodes_idempotency :
  decodes read_idempotency
    (lay_idempotency scope subject action authority (DigestOfState desired)
       (DigestOfState expected))
    (scope, subject, ActionKind_to_Z action,
     (av_intent_generation authority, av_intent_digest authority),
     (av_observation_generation authority, av_observation_digest authority),
     av_definition authority, DigestOfState desired, DigestOfState expected).
Proof.
  pose proof Hauth as H. unfold authority_wf in H. bool_hyps.
  unfold read_idempotency, lay_idempotency.
  eapply decodes_bind; [by apply decodes_u16|cbn beta]. repeat decode_step.
Qed.
End Idempotency.

Lemma ActionKind_to_Z_inj a b : ActionKind_to_Z a = ActionKind_to_Z b -> a = b.
Proof. by destruct a, b. Qed.

(** ** Properties *)

(** An explanation never grows past its bound, keeps the steps it has, and says so
    when a step was dropped. *)
Theorem explanation_is_bounded max_steps (additions : list (Z * bytes)) :
  0 <= max_steps ->
  let e := foldl (fun e a => Explanation_Add a.1 a.2 e) (Explanation_bounded max_steps) additions in
  let bound := if max_steps =? 0 then 1 else max_steps in
  ex_steps e = map (fun a => mkStep a.1 a.2) (take (Z.to_nat bound) additions) /\
  ex_truncated e = (bound <? blen additions).
Proof.
  intros Hm. cbv zeta. set (bound := if max_steps =? 0 then 1 else max_steps).
  assert (1 <= bound) as Hb by (unfold bound; destruct (Z.eqb_spec max_steps 0); lia).
  induction additions as [|a additions IH] using rev_ind.
  { simpl. rewrite take_nil. split; [done|]. symmetry. apply Z.ltb_ge. rewrite blen_nil. lia. }
  rewrite foldl_app. cbn [foldl].
  set (e := foldl _ _ additions) in *. destruct IH as [Hs Ht].
  assert (ex_max_steps e = bound) as Hmax.
  { subst e. clear. induction additions as [|a additions IH] using rev_ind; [done|].
    rewrite foldl_app. cbn [foldl]. unfold Explanation_Add at 1.
    by destruct (_ <=? _). }
  assert (blen (ex_steps e) = Z.min bound (blen additions)) as Hlen.
  { rewrite Hs. unfold blen. rewrite length_map, length_take. lia. }
  unfold Explanation_Add. rewrite Hmax, Hlen, blen_app, blen_cons, blen_nil.
  destruct (Z.leb_spec bound (Z.min bound (blen additions))) as [Hle|Hlt]; cbn [ex_steps ex_truncated].
  - rewrite take_app_le by (unfold blen in Hle; lia). split; [done|].
    symmetry. apply Z.ltb_lt. lia.
  - split.
    + rewrite Hs. rewrite !take_ge; [by rewrite map_app| |];
        [rewrite length_app; simpl|]; unfold blen in Hlt; lia.
    + rewrite Ht, !(proj2 (Z.ltb_ge _ _)) by lia. done.
Qed.

Lemma explanation_is_bounded_witness :
  ex_truncated (foldl (fun e a => Explanation_Add a.1 a.2 e) (Explanation_bounded 2)
    [(300, B "a"); (301, B "b"); (302, B "c")]) = true.
Proof.
  exact (proj2 (explanation_is_bounded 2 [(300, B "a"); (301, B "b"); (302, B "c")]
    ltac:(discriminate))).
Defined.

(** Equal idempotency keys mean the same effect for the same reason against the same
    evidence: same scope, subject and action, same intent and observation
    generations and digests, same definition, same desired and expected states;
    otherwise SHA-256 itself collides. *)
Theorem idempotency_key_binds limits scope1 subject1 action1 auth1 desired1 expected1
    scope2 subject2 action2 auth2 desired2 expected2 :
  IsValidIdentityText scope1 && IsValidIdentityText scope2 &&
  IsValidIdentityText subject1 && IsValidIdentityText subject2 &&
  authority_wf auth1 && authority_wf auth2 &&
  forallb (fun s => state_wf limits s && (blen (lay_state s) <=? kMaxCanonicalBytes))
    [desired1; expected1; desired2; expected2] = true ->
  ComputeIdempotencyKey scope1 subject1 action1 auth1 desired1 expected1 =
  ComputeIdempotencyKey scope2 subject2 action2 auth2 desired2 expected2 ->
  (scope1 = scope2 /\ subject1 = subject2 /\ action1 = action2 /\
   av_intent_generation auth1 = av_intent_generation auth2 /\
   av_intent_digest auth1 = av_intent_digest auth2 /\
   av_observation_generation auth1 = av_observation_generation auth2 /\
   av_observation_digest auth1 = av_observation_digest auth2 /\
   av_definition auth1 = av_definition auth2 /\
   desired1 = desired2 /\ expected1 = expected2) \/
  exists m1 m2 : bytes, m1 <> m2 /\ Sha256Of m1 = Sha256Of m2.
Proof.
  intros Hwf. simpl in Hwf. bool_hyps. rewrite !ComputeIdempotencyKey_hash by done. intros Heq.
  match type of Heq with Sha256Of ?a = Sha256Of ?b =>
    destruct (decide (a = b)) as [Hlay|Hne]; [|right; by exists a, b] end.
  pose proof (decodes_idempotency scope1 subject1 action1 auth1 desired1 expected1) as D1.
  pose proof (decodes_idempotency scope2 subject2 action2 auth2 desired2 expected2) as D2.
  specialize (D1 ltac:(done) ltac:(done) ltac:(done)).
  specialize (D2 ltac:(done) ltac:(done) ltac:(done)).
  rewrite Hlay in D1. apply decodes_whole in D1, D2. rewrite D1 in D2.
  injection D2 as -> -> Hact -> -> -> -> -> Hd He. apply ActionKind_to_Z_inj in Hact as ->.
  destruct (DigestOfState_binding limits desired1 desired2) as [->|]; [done..| |by right].
  destruct (DigestOfState_binding limits expected1 expected2) as [->|]; [done..| |by right].
  left. repeat split; congruence.
Qed.

Definition example_authority : AuthorityVector :=
  mkAuthority 3 (repeat Byte.x01 16) (B "default/fail-closed") 1 zero_digest (B "definition-a") 4
    (B "intent-1") (in_digest example_intent) (B "obs-1") 9 (B "agent/a")
    (ob_digest example_observation) 3 1700000000000.

Lemma idempotency_key_binds_witness :
  (B "port/eth0" = B "port/eth0" /\ example_state = example_state) \/
  exists m1 m2 : bytes, m1 <> m2 /\ Sha256Of m1 = Sha256Of m2.
Proof.
  destruct (idempotency_key_binds default_limits
    (B "fabric/rack-7") (B "port/eth0") ACT_ApplyDesired example_authority example_state []
    (B "fabric/rack-7") (B "port/eth0") ACT_ApplyDesired example_authority example_state [])
    as [H|H].
  - vm_compute. reflexivity.
  - reflexivity.
  - left. split; reflexivity.
  - right. exact H.
Defined.
