(* ===== verification/Lineage.v ===== *)
(** * Attempt lineage: attempts, outcomes, fences (lineage.hpp, lineage.cpp) *)

From Stdlib Require Import ZArith Lia.
From stdpp Require Import prelude.
From S2P Require Import Prelude OrdMap Hash Status Identity Canonical Value Policy Document Drift.
From S2P Require Import Authority Plan.
Local Open Scope Z_scope.

(** ** Attempt states *)

(** Models [AttemptState], include/summon/fabric_reconciliation/lineage.hpp:34-46. *)
Inductive AttemptState :=
| AS_Invalid | AS_Issued | AS_Dispatched | AS_Acknowledged | AS_Applied | AS_Verified | AS_Failed
| AS_Abandoned | AS_Superseded | AS_Fenced | AS_Interrupted.

#[export] Instance AttemptState_eq : EqDecision AttemptState.
Proof. solve_decision. Defined.

Definition AttemptState_to_Z (s : AttemptState) : Z :=
  match s with
  | AS_Invalid => 0 | AS_Issued => 1 | AS_Dispatched => 2 | AS_Acknowledged => 3
  | AS_Applied => 4 | AS_Verified => 5 | AS_Failed => 6 | AS_Abandoned => 7
  | AS_Superseded => 8 | AS_Fenced => 9 | AS_Interrupted => 10
  end.

(** The decoders' range check followed by the cast. *)
Definition AttemptState_of_Z (raw : Z) : option AttemptState :=
  if raw =? 0 then Some AS_Invalid else if raw =? 1 then Some AS_Issued
  else if raw =? 2 then Some AS_Dispatched else if raw =? 3 then Some AS_Acknowledged
  else if raw =? 4 then Some AS_Applied else if raw =? 5 then Some AS_Verified
  else if raw =? 6 then Some AS_Failed else if raw =? 7 then Some AS_Abandoned
  else if raw =? 8 then Some AS_Superseded else if raw =? 9 then Some AS_Fenced
  else if raw =? 10 then Some AS_Interrupted else None.

(** Models [ToText], src/lineage.cpp:9-24. *)
Definition AttemptState_ToText (s : AttemptState) : bytes :=
  match s with
  | AS_Invalid => B "INVALID" | AS_Issued => B "ISSUED" | AS_Dispatched => B "DISPATCHED"
  | AS_Acknowledged => B "ACKNOWLEDGED" | AS_Applied => B "APPLIED"
  | AS_Verified => B "VERIFIED" | AS_Failed => B "FAILED" | AS_Abandoned => B "ABANDONED"
  | AS_Superseded => B "SUPERSEDED" | AS_Fenced => B "FENCED"
  | AS_Interrupted => B "INTERRUPTED"
  end.

(** Models [TryParseAttemptState], src/lineage.cpp:26-42. *)
Definition TryParseAttemptState (view : bytes) : option AttemptState :=
  if text_eqb view (B "ISSUED") then Some AS_Issued
  else if text_eqb view (B "DISPATCHED") then Some AS_Dispatched
  else if text_eqb view (B "ACKNOWLEDGED") then Some AS_Acknowledged
  else if text_eqb view (B "APPLIED") then Some AS_Applied
  else if text_eqb view (B "VERIFIED") then Some AS_Verified
  else if text_eqb view (B "FAILED") then Some AS_Failed
  else if text_eqb view (B "ABANDONED") then Some AS_Abandoned
  else if text_eqb view (B "SUPERSEDED") then Some AS_Superseded
  else if text_eqb view (B "FENCED") then Some AS_Fenced
  else if text_eqb view (B "INTERRUPTED") then Some AS_Interrupted
  else None.

(** Models [IsTerminalAttemptState], src/lineage.cpp:44-61. *)
Definition IsTerminalAttemptState (s : AttemptState) : bool :=
  match s with
  | AS_Verified | AS_Failed | AS_Abandoned | AS_Superseded | AS_Fenced | AS_Interrupted => true
  | AS_Issued | AS_Dispatched | AS_Acknowledged | AS_Applied | AS_Invalid => false
  end.

(** Models [IsInconclusiveTerminalState], src/lineage.cpp:63-74. *)
Definition IsInconclusiveTerminalState (s : AttemptState) : bool :=
  match s with
  | AS_Failed | AS_Abandoned | AS_Superseded | AS_Fenced | AS_Interrupted => true
  | _ => false
  end.

(** Models [ReasonOf], src/lineage.cpp:76-91. *)
Definition AttemptState_ReasonOf (s : AttemptState) : Z :=
  match s with
  | AS_Issued => RC_AttemptIssued
  | AS_Dispatched => RC_AttemptIssued
  | AS_Acknowledged => RC_AttemptAcknowledged
  | AS_Applied => RC_AttemptApplied
  | AS_Verified => RC_AttemptVerified
  | AS_Failed => RC_AttemptFailed
  | AS_Abandoned => RC_AttemptAbandoned
  | AS_Superseded => RC_AttemptSuperseded
  | AS_Fenced => RC_AttemptFencedByEpochAdvance
  | AS_Interrupted => RC_AttemptInterruptedByRestart
  | AS_Invalid => RC_AttemptUnknown
  end.

(** ** Records *)

(** Models [AttemptTransition], include/summon/fabric_reconciliation/lineage.hpp:58-68. *)
Record AttemptTransition := mkTransition {
  tr_from : AttemptState;
  tr_to : AttemptState;
  tr_epoch : Z;
  tr_boot : bytes;
  tr_at_unix_ms : Z;
  tr_reason : Z;
  tr_verification_reason : Z
}.

(** Models [AttemptRecord], include/summon/fabric_reconciliation/lineage.hpp:71-85. *)
Record AttemptRecord := mkAttempt {
  at_id : Z;
  at_idempotency_key : bytes;
  at_scope : bytes;
  at_subject : bytes;
  at_action : ActionKind;
  at_epoch : Z;
  at_boot : bytes;
  at_authority : AuthorityVector;
  at_state : AttemptState;
  at_issued_unix_ms : Z;
  at_transitions : list AttemptTransition
}.

(** Models [AttemptRecord::terminal], include/summon/fabric_reconciliation/lineage.hpp:84-84. *)
Definition terminal (a : AttemptRecord) : bool := IsTerminalAttemptState (at_state a).

(** Models [ReconciliationOutcome], include/summon/fabric_reconciliation/lineage.hpp:89-108. *)
Record ReconciliationOutcome := mkOutcome {
  oc_idempotency_key : bytes;
  oc_scope : bytes;
  oc_subject : bytes;
  oc_action : ActionKind;
  oc_attempt : Z;
  oc_epoch : Z;
  oc_boot : bytes;
  oc_terminal_state : AttemptState;
  oc_reason : Z;
  oc_committed_unix_ms : Z;
  oc_verified : bool;
  oc_verified_generation : Z;
  oc_ambiguous : bool
}.

(** Models [VerificationEvidence], include/summon/fabric_reconciliation/lineage.hpp:111-126. *)
Record VerificationEvidence := mkVerification {
  vf_scope : bytes;
  vf_subject : bytes;
  vf_idempotency_key : bytes;
  vf_observation : bytes;
  vf_generation : Z;
  vf_received_epoch : Z;
  vf_verifier : bytes;
  vf_applier : bytes;
  vf_received_unix_ms : Z;
  vf_confirms_effect : bool
}.

(** Models [FenceEntry], include/summon/fabric_reconciliation/lineage.hpp:129-143. *)
Record FenceEntry := mkFence {
  fe_id : bytes;
  fe_scope : bytes;
  fe_subject : bytes;
  fe_fenced_below : Z;
  fe_reason : Z;
  fe_detail : bytes;
  fe_created_unix_ms : Z
}.

(** Models [FenceEntry::scope_wide], include/summon/fabric_reconciliation/lineage.hpp:140-140. *)
Definition scope_wide (f : FenceEntry) : bool := is_empty (fe_subject f).

#[export] Instance AttemptTransition_eq : EqDecision AttemptTransition.
Proof. solve_decision. Defined.
#[export] Instance AttemptRecord_eq : EqDecision AttemptRecord.
Proof. solve_decision. Defined.
#[export] Instance ReconciliationOutcome_eq : EqDecision ReconciliationOutcome.
Proof. solve_decision. Defined.
#[export] Instance FenceEntry_eq : EqDecision FenceEntry.
Proof. solve_decision. Defined.

(** ** Codecs *)

Definition put_fence (fence : FenceEntry) : Put :=
  PutBytes (fe_id fence) ;+
  PutBytes (fe_scope fence) ;+
  PutBytes (fe_subject fence) ;+
  PutU64 (fe_fenced_below fence) ;+
  PutU16 (fe_reason fence) ;+
  PutBytes (fe_detail fence) ;+
  PutI64 (fe_created_unix_ms fence).

(** Models [EncodeFence], src/lineage.cpp:93-106. *)
Definition EncodeFence (fence : FenceEntry) : bytes := finish (put_fence fence writer_empty).

(** Models [DecodeFence], src/lineage.cpp:108-148. *)
Definition DecodeFence : Read FenceEntry :=
  id_text ← ReadBytes;
  scope_text ← ReadBytes;
  subject_text ← ReadBytes;
  fenced_below ← ReadU64;
  reason ← ReadU16;
  detail ← ReadBytes;
  created ← ReadI64;
  _ ← require (all_ids_parse [id_text; scope_text]);
  _ ← require (assignable subject_text);
  _ ← require (reason <=? kMaxReason);
  _ ← require (blen detail <=? kMaxIdentityLength * 4);
  mret (mkFence id_text scope_text subject_text fenced_below reason detail created).

Definition put_outcome (outcome : ReconciliationOutcome) : Put :=
  PutDigest (oc_idempotency_key outcome) ;+
  PutBytes (oc_scope outcome) ;+
  PutBytes (oc_subject outcome) ;+
  PutU8 (ActionKind_to_Z (oc_action outcome)) ;+
  PutU64 (oc_attempt outcome) ;+
  PutU64 (oc_epoch outcome) ;+
  PutBytes (oc_boot outcome) ;+
  PutU8 (AttemptState_to_Z (oc_terminal_state outcome)) ;+
  PutU16 (oc_reason outcome) ;+
  PutI64 (oc_committed_unix_ms outcome) ;+
  PutBool (oc_verified outcome) ;+
  PutU64 (oc_verified_generation outcome) ;+
  PutBool (oc_ambiguous outcome).

(** Models [EncodeOutcome], src/lineage.cpp:150-170. *)
Definition EncodeOutcome (outcome : ReconciliationOutcome) : bytes :=
  finish (put_outcome outcome writer_empty).

Definition read_action (raw : Z) : Read ActionKind :=
  match ActionKind_of_Z raw with Some a => mret a | None => refuse end.

Definition read_attempt_state (raw : Z) : Read AttemptState :=
  match AttemptState_of_Z raw with Some s => mret s | None => refuse end.

(** Models [DecodeOutcome], src/lineage.cpp:172-228. *)
Definition DecodeOutcome : Read ReconciliationOutcome :=
  idempotency_key ← ReadDigest;
  scope_text ← ReadBytes;
  subject_text ← ReadBytes;
  raw_action ← ReadU8;
  attempt ← ReadU64;
  epoch ← ReadU64;
  boot_text ← ReadBytes;
  raw_terminal ← ReadU8;
  reason ← ReadU16;
  committed ← ReadI64;
  verified ← ReadBool;
  verified_generation ← ReadU64;
  ambiguous ← ReadBool;
  _ ← require (blen boot_text =? 16);
  action ← read_action raw_action;
  terminal_state ← read_attempt_state raw_terminal;
  _ ← require (reason <=? kMaxReason);
  _ ← require (all_ids_parse [scope_text; subject_text]);
  mret (mkOutcome idempotency_key scope_text subject_text action attempt epoch boot_text
          terminal_state reason committed verified verified_generation ambiguous).

(** ** Layouts and well-formedness *)

Definition reason_wf (r : Z) : bool := (0 <=? r) && (r <=? kMaxReason).

Definition fence_wf (f : FenceEntry) : bool :=
  IsValidIdentityText (fe_id f) && IsValidIdentityText (fe_scope f) &&
  id_or_empty (fe_subject f) && u64 (fe_fenced_below f) && reason_wf (fe_reason f) &&
  (blen (fe_detail f) <=? kMaxIdentityLength * 4) && i64 (fe_created_unix_ms f).

Definition outcome_wf (o : ReconciliationOutcome) : bool :=
  digest_wf (oc_idempotency_key o) && IsValidIdentityText (oc_scope o) &&
  IsValidIdentityText (oc_subject o) && u64 (oc_attempt o) && u64 (oc_epoch o) &&
  BootId_valid (oc_boot o) && reason_wf (oc_reason o) && i64 (oc_committed_unix_ms o) &&
  u64 (oc_verified_generation o).

Definition lay_fence (f : FenceEntry) : bytes :=
  lay_bytes (fe_id f) ++ lay_bytes (fe_scope f) ++ lay_bytes (fe_subject f) ++
  lay_u64 (fe_fenced_below f) ++ lay_u16 (fe_reason f) ++ lay_bytes (fe_detail f) ++
  lay_i64 (fe_created_unix_ms f).

Definition lay_outcome (o : ReconciliationOutcome) : bytes :=
  oc_idempotency_key o ++ lay_bytes (oc_scope o) ++ lay_bytes (oc_subject o) ++
  lay_u8 (ActionKind_to_Z (oc_action o)) ++ lay_u64 (oc_attempt o) ++ lay_u64 (oc_epoch o) ++
  lay_bytes (oc_boot o) ++ lay_u8 (AttemptState_to_Z (oc_terminal_state o)) ++
  lay_u16 (oc_reason o) ++ lay_i64 (oc_committed_unix_ms o) ++ lay_bool (oc_verified o) ++
  lay_u64 (oc_verified_generation o) ++ lay_bool (oc_ambiguous o).

(** ** Facts *)

Lemma AttemptState_of_to_Z s : AttemptState_of_Z (AttemptState_to_Z s) = Some s.
Proof. by destruct s. Qed.

Lemma AttemptState_parse_text s :
  s <> AS_Invalid -> TryParseAttemptState (AttemptState_ToText s) = Some s.
Proof. by destruct s. Qed.

Lemma decodes_u8_attempt_state s :
  decodes ReadU8 (lay_u8 (AttemptState_to_Z s)) (AttemptState_to_Z s).
Proof. apply decodes_u8. by destruct s. Qed.

Lemma reason_wf_u16 r : reason_wf r = true -> u16 r = true.
Proof.
  unfold reason_wf, kMaxReason, RC_RestartLeasesNotRestored, in_unsigned. intros. bool_hyps.
  bool_goal; lia.
Qed.

Lemma reason_wf_nonneg r : reason_wf r = true -> 0 <= r.
Proof. unfold reason_wf. intros. by bool_hyps. Qed.

Lemma reason_wf_max r : reason_wf r = true -> (r <=? kMaxReason) = true.
Proof. unfold reason_wf. intros. bool_hyps. by apply Z.leb_le. Qed.

Lemma reason_wf_read r : u16 r = true -> r <= kMaxReason -> reason_wf r = true.
Proof. unfold reason_wf. intros H Hm. apply u_nonneg in H. by bool_goal. Qed.

Lemma detail_bound (d : bytes) : blen d <= kMaxIdentityLength * 4 -> blen d <= kMaxCanonicalBytes.
Proof. unfold kMaxIdentityLength, kMaxCanonicalBytes. lia. Qed.

#[export] Hint Resolve decodes_u8_attempt_state reason_wf_u16 reason_wf_nonneg detail_bound : codec.
#[export] Hint Resolve reason_wf_read : yields.

Lemma writes_fence (limits : RuntimeLimits) f :
  fence_wf f = true -> writes (put_fence f) (lay_fence f).
Proof. unfold fence_wf. intros H. bool_hyps. unfold put_fence, lay_fence. write_steps. Qed.

Lemma decodes_fence (limits : RuntimeLimits) f :
  fence_wf f = true -> decodes DecodeFence (lay_fence f) f.
Proof.
  unfold fence_wf. intros H. bool_hyps. unfold DecodeFence, lay_fence.
  pose proof (detail_bound (fe_detail f) ltac:(done)).
  do 7 decode_step. decode_step; [apply all_ids_parse_ok; simpl; by bool_goal|].
  decode_step; [by rewrite <- id_or_empty_assignable|].
  decode_step; [by apply reason_wf_max|]. decode_step; [by apply Z.leb_le|].
  destruct f. apply decodes_ret.
Qed.

Lemma yields_fence : yields DecodeFence (fun f => fence_wf f = true).
Proof.
  unfold DecodeFence. repeat yield_step. ids_valid. rewrite <- id_or_empty_assignable in *.
  bool_hyps. unfold fence_wf. simpl. bool_goal; auto with yields.
Qed.

Lemma decodes_action a : decodes (read_action (ActionKind_to_Z a)) [] a.
Proof. unfold read_action. rewrite ActionKind_of_to_Z. apply decodes_ret. Qed.

Lemma decodes_attempt_state s : decodes (read_attempt_state (AttemptState_to_Z s)) [] s.
Proof. unfold read_attempt_state. rewrite AttemptState_of_to_Z. apply decodes_ret. Qed.

Lemma yields_action raw : yields (read_action raw) (fun _ => True).
Proof.
  unfold read_action. destruct (ActionKind_of_Z raw); [by apply yields_ret|apply yields_refuse].
Qed.

Lemma yields_attempt_state raw : yields (read_attempt_state raw) (fun _ => True).
Proof.
  unfold read_attempt_state. destruct (AttemptState_of_Z raw);
    [by apply yields_ret|apply yields_refuse].
Qed.

#[export] Hint Resolve yields_action yields_attempt_state yields_fence : yields.

Lemma writes_outcome (limits : RuntimeLimits) o :
  outcome_wf o = true -> writes (put_outcome o) (lay_outcome o).
Proof. unfold outcome_wf. intros H. bool_hyps. unfold put_outcome, lay_outcome. write_steps. Qed.

Lemma decodes_outcome (limits : RuntimeLimits) o :
  outcome_wf o = true -> decodes DecodeOutcome (lay_outcome o) o.
Proof.
  unfold outcome_wf. intros H. bool_hyps. unfold DecodeOutcome, lay_outcome.
  do 13 decode_step. decode_step; [done|].
  eapply decodes_silent; [apply decodes_action|].
  eapply decodes_silent; [apply decodes_attempt_state|].
  decode_step; [by apply reason_wf_max|].
  decode_step; [apply all_ids_parse_ok; simpl; by bool_goal|]. destruct o. apply decodes_ret.
Qed.

Lemma yields_outcome : yields DecodeOutcome (fun o => outcome_wf o = true).
Proof.
  unfold DecodeOutcome. repeat yield_step. ids_valid. bool_hyps.
  unfold outcome_wf, BootId_valid. simpl. bool_goal; auto with yields.
Qed.

#[export] Hint Resolve yields_outcome : yields.

#[export] Instance fence_codec : PayloadCodec FenceEntry := {|
  pc_put := put_fence; pc_read := fun _ => DecodeFence; pc_layout := lay_fence;
  pc_wf := fun _ => fence_wf; pc_writes := writes_fence; pc_decodes := decodes_fence |}.

#[export] Instance outcome_codec : PayloadCodec ReconciliationOutcome := {|
  pc_put := put_outcome; pc_read := fun _ => DecodeOutcome; pc_layout := lay_outcome;
  pc_wf := fun _ => outcome_wf; pc_writes := writes_outcome; pc_decodes := decodes_outcome |}.

(** The length of a layout of fixed-width fields, texts and digests. *)
Ltac layout_length :=
  unfold lay_u16, lay_u32, lay_u64, lay_i64, lay_bool, lay_u8;
  rewrite ?blen_app, ?blen_lay_bytes, ?blen_le, ?blen_cons, ?blen_nil.

Lemma lay_fence_length f : fence_wf f = true -> blen (lay_fence f) <= 1442.
Proof.
  unfold fence_wf. intros H. bool_hyps. unfold lay_fence. layout_length.
  pose proof (IsValidIdentityText_length (fe_id f) ltac:(done)).
  pose proof (IsValidIdentityText_length (fe_scope f) ltac:(done)).
  pose proof (id_or_empty_length (fe_subject f) ltac:(done)).
  unfold kMaxIdentityLength in *. lia.
Qed.

Lemma lay_outcome_length o : outcome_wf o = true -> blen (lay_outcome o) <= 504.
Proof.
  unfold outcome_wf, digest_wf, BootId_valid. intros H. bool_hyps. unfold lay_outcome.
  layout_length.
  pose proof (IsValidIdentityText_length (oc_scope o) ltac:(done)).
  pose proof (IsValidIdentityText_length (oc_subject o) ltac:(done)).
  unfold kMaxIdentityLength in *. lia.
Qed.

(** ** Properties *)

(** Every fence and outcome the engine commits is read back from its record as it
    was written; their encoding never fails, since it is bounded by its fields. *)
Theorem lineage_roundtrip fence outcome :
  fence_wf fence && outcome_wf outcome = true ->
  read_exact DecodeFence (EncodeFence fence) = Some fence /\
  read_exact DecodeOutcome (EncodeOutcome outcome) = Some outcome.
Proof.
  intros H. bool_hyps. unfold EncodeFence, EncodeOutcome.
  pose proof (lay_fence_length fence H). pose proof (lay_outcome_length outcome H0).
  rewrite (finish_layout _ _ (writes_fence default_limits fence H))
    by (unfold kMaxCanonicalBytes; lia).
  rewrite (finish_layout _ _ (writes_outcome default_limits outcome H0))
    by (unfold kMaxCanonicalBytes; lia).
  split; apply read_exact_ok; [by apply (decodes_fence default_limits)|].
  by apply (decodes_outcome default_limits).
Qed.

Definition example_fence : FenceEntry :=
  mkFence (B "fence-1") (B "fabric/rack-7") [] 5 RC_ScopeFenced (B "maintenance") 1700000001000.

Definition example_outcome : ReconciliationOutcome :=
  mkOutcome zero_digest (B "fabric/rack-7") (B "port/eth0") ACT_ApplyDesired 12 3
    (repeat Byte.x01 16) AS_Interrupted RC_AttemptInterruptedByRestart 1700000002000 false 0 true.

Lemma lineage_roundtrip_witness :
  read_exact DecodeFence (EncodeFence example_fence) = Some example_fence.
Proof. apply (lineage_roundtrip example_fence example_outcome). vm_compute. reflexivity. Defined.
