(* ===== verification/Journal.v ===== *)
(** * The durable journal (journal.hpp, journal.cpp)

    Header and record images, the scan that opens a journal (with its torn-tail
    recovery), appending behind a durability barrier, and the reset that follows a
    compaction.  The file is its byte content; the results of the host's file
    operations are inputs of each operation, so every error path is modelled. *)

From Stdlib Require Import ZArith Lia.
From stdpp Require Import prelude.
From S2P Require Import Prelude OrdMap Hash Status Identity Canonical.
Local Open Scope Z_scope.

(** ** Constants and vocabulary *)

(** Models [kJournalFormatVersion], include/summon/fabric_reconciliation/version.hpp:25-25. *)
Definition kJournalFormatVersion : Z := 1.
(** Models [kJournalHeaderBytes], include/summon/fabric_reconciliation/journal.hpp:40-40. *)
Definition kJournalHeaderBytes : Z := 96.
(** Models [kRecordHeaderBytes], include/summon/fabric_reconciliation/journal.hpp:41-41. *)
Definition kRecordHeaderBytes : Z := 56.
(** Models [kRecordDigestOffset], include/summon/fabric_reconciliation/journal.hpp:42-42. *)
Definition kRecordDigestOffset : Z := 24.
(** Models [kRecordMagic], include/summon/fabric_reconciliation/journal.hpp:43-43. *)
Definition kRecordMagic : Z := 0x43455246.
(** Models [kRecordFormatVersion], include/summon/fabric_reconciliation/journal.hpp:44-44. *)
Definition kRecordFormatVersion : Z := 1.
(** Models [kJournalFlagsNone], include/summon/fabric_reconciliation/journal.hpp:45-45. *)
Definition kJournalFlagsNone : Z := 0.
(** Models [kJournalMagic], src/journal.cpp:19-19. *)
Definition kJournalMagic : bytes := B "FABRJNL1".

(** Models [RecordType], include/summon/fabric_reconciliation/journal.hpp:48-61. *)
Inductive RecordType :=
| RT_Invalid | RT_StoreHeader | RT_PolicyPut | RT_IntentCommit | RT_ObservationCommit
| RT_AttemptIssued | RT_AttemptTransition | RT_OutcomeCommit | RT_FencePut | RT_FenceClear
| RT_EpochAdvance | RT_LineageTrim.

#[export] Instance RecordType_eq : EqDecision RecordType.
Proof. solve_decision. Defined.

Definition RecordType_to_Z (t : RecordType) : Z :=
  match t with
  | RT_Invalid => 0 | RT_StoreHeader => 1 | RT_PolicyPut => 2 | RT_IntentCommit => 3
  | RT_ObservationCommit => 4 | RT_AttemptIssued => 5 | RT_AttemptTransition => 6
  | RT_OutcomeCommit => 7 | RT_FencePut => 8 | RT_FenceClear => 9 | RT_EpochAdvance => 10
  | RT_LineageTrim => 11
  end.

(** Models [ToText], src/journal.cpp:94-110. *)
Definition RecordType_ToText (t : RecordType) : bytes :=
  match t with
  | RT_Invalid => B "INVALID" | RT_StoreHeader => B "STORE_HEADER"
  | RT_PolicyPut => B "POLICY_PUT" | RT_IntentCommit => B "INTENT_COMMIT"
  | RT_ObservationCommit => B "OBSERVATION_COMMIT" | RT_AttemptIssued => B "ATTEMPT_ISSUED"
  | RT_AttemptTransition => B "ATTEMPT_TRANSITION" | RT_OutcomeCommit => B "OUTCOME_COMMIT"
  | RT_FencePut => B "FENCE_PUT" | RT_FenceClear => B "FENCE_CLEAR"
  | RT_EpochAdvance => B "EPOCH_ADVANCE" | RT_LineageTrim => B "LINEAGE_TRIM"
  end.

(** The cast of an in-range raw value. *)
Definition RecordType_of_Z (raw : Z) : RecordType :=
  if raw =? 1 then RT_StoreHeader else if raw =? 2 then RT_PolicyPut
  else if raw =? 3 then RT_IntentCommit else if raw =? 4 then RT_ObservationCommit
  else if raw =? 5 then RT_AttemptIssued else if raw =? 6 then RT_AttemptTransition
  else if raw =? 7 then RT_OutcomeCommit else if raw =? 8 then RT_FencePut
  else if raw =? 9 then RT_FenceClear else if raw =? 10 then RT_EpochAdvance
  else if raw =? 11 then RT_LineageTrim else RT_Invalid.

(** Models [TryParseRecordType], src/journal.cpp:112-119. *)
Definition TryParseRecordType (raw : Z) : option RecordType :=
  if (raw <? RecordType_to_Z RT_StoreHeader) || (RecordType_to_Z RT_LineageTrim <? raw) then None
  else Some (RecordType_of_Z raw).

(** Models [JournalRecord], include/summon/fabric_reconciliation/journal.hpp:66-70. *)
Record JournalRecord := mkJournalRecord { jr_sequence : Z; jr_type : RecordType; jr_payload : bytes }.

(** Models [JournalHeader], include/summon/fabric_reconciliation/journal.hpp:78-85. *)
Record JournalHeader := mkJournalHeader {
  jh_format_version : Z;
  jh_header_bytes : Z;
  jh_store : bytes;
  jh_created_unix_ms : Z;
  jh_base_sequence : Z
}.

(** Models [JournalOpenReport], include/summon/fabric_reconciliation/journal.hpp:89-98. *)
Record JournalOpenReport := mkOpenReport {
  jo_created : bool;
  jo_recovered_torn_tail : bool;
  jo_recovered_bytes : Z;
  jo_record_count : Z;
  jo_last_sequence : Z;
  jo_header : JournalHeader;
  jo_notes : list Z
}.

(** Models [JournalOpenOptions], include/summon/fabric_reconciliation/journal.hpp:100-105. *)
Record JournalOpenOptions := mkOpenOptions {
  op_limits : RuntimeLimits; op_create_if_missing : bool; op_read_only : bool }.

(** ** Images *)

(** Overwrites the bytes of a buffer from an offset on. *)
Definition store_at (offset : nat) (bs out : bytes) : bytes :=
  take offset out ++ bs ++ drop (offset + length bs) out.

(** The value of an unsigned little-endian field: [value |= data[i] << 8 * i]. *)
Definition load (n offset : nat) (data : bytes) : Z :=
  foldl (fun value i =>
           Z.lor value (Z.shiftl (byte_to_Z (nth (offset + i) data Byte.x00)) (8 * Z.of_nat i)))
        0 (seq 0 n).

(** Models [StoreU16], src/journal.cpp:21-24. *)
Definition StoreU16 (offset : nat) (value : Z) (out : bytes) : bytes :=
  store_at offset [byte_of_Z (Z.land value 255); byte_of_Z (Z.land (Z.shiftr value 8) 255)] out.

(** Models [StoreU32], src/journal.cpp:26-30. *)
Definition StoreU32 (offset : nat) (value : Z) (out : bytes) : bytes :=
  store_at offset (map (fun shift => byte_of_Z (Z.land (Z.shiftr value shift) 255)) (le_shifts 4)) out.

(** Models [StoreU64], src/journal.cpp:32-36. *)
Definition StoreU64 (offset : nat) (value : Z) (out : bytes) : bytes :=
  store_at offset (map (fun shift => byte_of_Z (Z.land (Z.shiftr value shift) 255)) (le_shifts 8)) out.

(** Models [LoadU16], src/journal.cpp:38-42. *)
Definition LoadU16 (offset : nat) (data : bytes) : Z := load 2 offset data.
(** Models [LoadU32], src/journal.cpp:44-50. *)
Definition LoadU32 (offset : nat) (data : bytes) : Z := load 4 offset data.
(** Models [LoadU64], src/journal.cpp:52-58. *)
Definition LoadU64 (offset : nat) (data : bytes) : Z := load 8 offset data.

(** The bytes of a field. *)
Definition slice (offset n : nat) (data : bytes) : bytes := take n (drop offset data).

(** Models [BuildJournalHeaderImage], src/journal.cpp:121-135. *)
Definition BuildJournalHeaderImage (store : bytes) (created_unix_ms base_sequence : Z) : bytes :=
  let image := repeat Byte.x00 (Z.to_nat kJournalHeaderBytes) in
  let image := store_at 0 kJournalMagic image in
  let image := StoreU32 8 kJournalFormatVersion image in
  let image := StoreU32 12 kJournalHeaderBytes image in
  let image := store_at 16 store image in
  let image := StoreU64 32 (wrap 64 created_unix_ms) image in
  let image := StoreU64 40 base_sequence image in
  store_at 64 (Sha256Of (take 64 image)) image.

(** Models [ParseJournalHeaderImage], src/journal.cpp:137-170. *)
Definition ParseJournalHeaderImage (data : bytes) : option JournalHeader :=
  if negb (blen data =? kJournalHeaderBytes) then None
  else if negb (bool_decide (take 8 data = kJournalMagic)) then None
  else
    let version := LoadU32 8 data in
    let header_bytes := LoadU32 12 data in
    if negb (version =? kJournalFormatVersion) then None
    else if negb (header_bytes =? kJournalHeaderBytes) then None
    else if negb (forallb (is_char 0) (slice 48 16 data)) then None
    else if negb (bool_decide (slice 64 32 data = Sha256Of (take 64 data))) then None
    else Some (mkJournalHeader version header_bytes (slice 16 16 data)
                 (to_signed 64 (LoadU64 32 data)) (LoadU64 40 data)).

(** The record header before its digest. *)
Definition record_prefix (sequence : Z) (type : RecordType) (payload : bytes) : bytes :=
  let image := repeat Byte.x00 (Z.to_nat kRecordHeaderBytes) in
  let image := StoreU32 0 kRecordMagic image in
  let image := StoreU16 4 kRecordFormatVersion image in
  let image := StoreU16 6 (RecordType_to_Z type) image in
  let image := StoreU16 8 kJournalFlagsNone image in
  let image := StoreU16 10 0 image in
  let image := StoreU32 12 (Z.land (blen payload) 0xffffffff) image in
  StoreU64 16 sequence image.

(** Models [BuildRecordImage], src/journal.cpp:172-189. *)
Definition BuildRecordImage (sequence : Z) (type : RecordType) (payload : bytes) : bytes :=
  let image := record_prefix sequence type payload ++ payload in
  let digest := Sha256OfParts [take (Z.to_nat kRecordDigestOffset) image; payload] in
  store_at (Z.to_nat kRecordDigestOffset) digest image.

(** Models [DecodeRecordHeader], src/journal.cpp:191-223. *)
Definition DecodeRecordHeader (data : bytes) (available max_payload : Z)
  : option (RecordType * Z * Z) :=
  if available <? kRecordHeaderBytes then None
  else if negb (LoadU32 0 data =? kRecordMagic) then None
  else if negb (LoadU16 4 data =? kRecordFormatVersion) then None
  else
    match TryParseRecordType (LoadU16 6 data) with
    | None => None
    | Some type =>
      if negb (LoadU16 8 data =? kJournalFlagsNone) then None
      else if negb (LoadU16 10 data =? 0) then None
      else
        let length := LoadU32 12 data in
        if max_payload <? length then None
        else Some (type, length, LoadU64 16 data)
    end.

(** Models [VerifyRecordImage], src/journal.cpp:225-242. *)
Definition VerifyRecordImage (image : bytes) : bool :=
  if blen image <? kRecordHeaderBytes then false
  else if negb (LoadU32 0 image =? kRecordMagic) then false
  else
    let payload_len := LoadU32 12 image in
    if negb (blen image =? kRecordHeaderBytes + payload_len) then false
    else bool_decide
           (slice (Z.to_nat kRecordDigestOffset) kSha256Bytes image =
            Sha256OfParts [take (Z.to_nat kRecordDigestOffset) image;
                           slice (Z.to_nat kRecordHeaderBytes) (Z.to_nat payload_len) image]).

(** ** The scan *)

Inductive ScanEnd :=
| Scan_Complete
| Scan_Torn (torn_offset : Z)
| Scan_Failed (status : Status).

(** Models [Journal::Open], src/journal.cpp:399-468: the loop over the records; [rest] is the
    content from [offset] on, and the fuel is its length. *)
Fixpoint scan (fuel : nat) (limits : RuntimeLimits) (rest : bytes) (offset expected : Z)
    (records : list JournalRecord) : list JournalRecord * ScanEnd :=
  match rest, fuel with
  | [], _ => (records, Scan_Complete)
  | _, O => (records, Scan_Complete)
  | _ :: _, S fuel' =>
    let remaining := blen rest in
    if remaining <? kRecordDigestOffset then (records, Scan_Torn offset)
    else if negb (LoadU32 0 rest =? kRecordMagic) then
      (records, Scan_Failed (mkStatus SC_IntegrityFailure RC_JournalTrailingGarbage
        (B "journal contains a complete record header region without a record magic")))
    else
      match DecodeRecordHeader rest remaining (wrap 32 (max_journal_payload_bytes limits)) with
      | None =>
        if remaining <? kRecordHeaderBytes then (records, Scan_Torn offset)
        else
          let declared := LoadU32 12 rest in
          if max_journal_payload_bytes limits <? declared then
            (records, Scan_Failed (mkStatus SC_IntegrityFailure RC_JournalPayloadLengthInvalid
              (B "journal record declares an impossible payload length")))
          else if remaining <? kRecordHeaderBytes + declared then (records, Scan_Torn offset)
          else (records, Scan_Failed (mkStatus SC_IntegrityFailure RC_JournalRecordTypeUnknown
                 (B "journal record header is invalid")))
      | Some (type, payload_len, sequence) =>
        if remaining <? kRecordHeaderBytes + payload_len then (records, Scan_Torn offset)
        else
          let size := kRecordHeaderBytes + payload_len in
          let image := take (Z.to_nat size) rest in
          if negb (VerifyRecordImage image) then
            (records, Scan_Failed (mkStatus SC_IntegrityFailure RC_JournalRecordDigestMismatch
              (B "journal record failed its integrity digest")))
          else if negb (sequence =? expected) then
            (records, Scan_Failed (mkStatus SC_IntegrityFailure RC_JournalSequenceRegression
              (B "journal record sequence is not contiguous")))
          else
            scan fuel' limits (drop (Z.to_nat size) rest) (offset + size) (wrap 64 (sequence + 1))
              (records ++ [mkJournalRecord sequence type
                             (slice (Z.to_nat kRecordHeaderBytes) (Z.to_nat payload_len) image)])
      end
  end.

(** ** The journal object *)

(** Models [Journal], include/summon/fabric_reconciliation/journal.hpp:108-156.
    [jn_content] is the content of the file as this process has written it and
    [jn_synced] the length covered by the last durability barrier. *)
Record Journal := mkJournal {
  jn_open : bool;
  jn_content : bytes;
  jn_synced : Z;
  jn_last_sequence : Z;
  jn_bytes_written : Z;
  jn_limits : RuntimeLimits;
  jn_read_only : bool;
  jn_write_failed : bool
}.

(** What the host answers to one write and its barrier: the bytes [fwrite] took
    and whether [fflush] and [fsync] succeeded. *)
Record WriteIo := mkWriteIo { wi_written : Z; wi_flush_ok : bool; wi_sync_ok : bool }.

(** The answers when nothing fails: the write of [size] bytes is complete. *)
Definition io_good (size : Z) : WriteIo := mkWriteIo size true true.

Definition set_content (content : bytes) (bytes_written : Z) (failed : bool) (j : Journal) : Journal :=
  mkJournal (jn_open j) content (jn_synced j) (jn_last_sequence j) bytes_written (jn_limits j)
    (jn_read_only j) failed.
Definition set_synced (j : Journal) : Journal :=
  mkJournal (jn_open j) (jn_content j) (blen (jn_content j)) (jn_last_sequence j)
    (jn_bytes_written j) (jn_limits j) (jn_read_only j) (jn_write_failed j).
Definition set_failed (j : Journal) : Journal :=
  set_content (jn_content j) (jn_bytes_written j) true j.
Definition set_last_sequence (sequence : Z) (j : Journal) : Journal :=
  mkJournal (jn_open j) (jn_content j) (jn_synced j) sequence (jn_bytes_written j) (jn_limits j)
    (jn_read_only j) (jn_write_failed j).

(** Models [Journal::Close], src/journal.cpp:274-280. *)
Definition Journal_Close (j : Journal) : Journal :=
  mkJournal false (jn_content j) (jn_synced j) (jn_last_sequence j) (jn_bytes_written j)
    (jn_limits j) (jn_read_only j) (jn_write_failed j).

(** Models [FlushToDisk], src/journal.cpp:60-77. *)
Definition FlushToDisk (io : WriteIo) (j : Journal) : Status * Journal :=
  if negb (wi_flush_ok io) then
    (mkStatus SC_IntegrityFailure RC_DurableWriteFailed (B "flush failed"), j)
  else if negb (wi_sync_ok io) then
    (mkStatus SC_IntegrityFailure RC_DurableWriteFailed (B "fsync failed"), j)
  else (Status_Ok, set_synced j).

(** Models [Journal::WriteAll], src/journal.cpp:282-302. *)
Definition WriteAll (io : WriteIo) (data : bytes) (j : Journal) : Status * Journal :=
  if negb (jn_open j) then
    (mkStatus SC_PreconditionFailed RC_DurableWriteFailed (B "journal is not open"), j)
  else if jn_write_failed j then
    (mkStatus SC_IntegrityFailure RC_DurableWriteFailed (B "journal write previously failed"), j)
  else if blen data =? 0 then (Status_Ok, j)
  else if negb (wi_written io =? blen data) then
    (mkStatus SC_IntegrityFailure RC_DurableWriteFailed (B "short write on journal"),
     set_content (jn_content j ++ take (Z.to_nat (wi_written io)) data) (jn_bytes_written j) true j)
  else
    (Status_Ok,
     set_content (jn_content j ++ data) (wrap 64 (jn_bytes_written j + blen data)) false j).

(** Models [Journal::WriteHeader], src/journal.cpp:304-307. *)
Definition WriteHeader (io : WriteIo) (store : bytes) (base_sequence now : Z) (j : Journal)
  : Status * Journal :=
  WriteAll io (BuildJournalHeaderImage store now base_sequence) j.

(** Models [Journal::Append], src/journal.cpp:519-545. *)
Definition Append (io : WriteIo) (type : RecordType) (payload : bytes) (j : Journal)
  : Status * Journal :=
  if jn_read_only j then
    (mkStatus SC_PreconditionFailed RC_DurableWriteFailed (B "journal is open read-only"), j)
  else if negb (jn_open j) then
    (mkStatus SC_PreconditionFailed RC_DurableWriteFailed (B "journal is not open"), j)
  else if max_journal_payload_bytes (jn_limits j) <? blen payload then
    (mkStatus SC_LimitExceeded RC_JournalPayloadLengthInvalid
       (B "record payload exceeds the configured bound"), j)
  else
    let next := wrap 64 (jn_last_sequence j + 1) in
    let '(status, j) := WriteAll io (BuildRecordImage next type payload) j in
    if negb (Status_ok status) then (status, j)
    else
      let '(status, j) := FlushToDisk io j in
      if negb (Status_ok status) then (status, set_failed j)
      else (Status_Ok, set_last_sequence next j).

(** Models [Journal::Sync], src/journal.cpp:547-552. *)
Definition Sync (io : WriteIo) (j : Journal) : Status * Journal :=
  if negb (jn_open j) || jn_read_only j then (Status_Ok, j) else FlushToDisk io j.

(** What the host answers while a journal is opened or recreated. *)
Record OpenIo := mkOpenIo {
  oi_stat_ok : bool;
  oi_size_ok : bool;
  oi_open_ok : bool;
  oi_read_ok : bool;
  oi_flush_ok : bool;
  oi_truncate_ok : bool;
  oi_seek_ok : bool;
  oi_write : WriteIo
}.

Definition open_io_good : OpenIo :=
  mkOpenIo true true true true true true true (io_good kJournalHeaderBytes).

Definition fresh_header (store : bytes) (created base : Z) : JournalHeader :=
  mkJournalHeader kJournalFormatVersion kJournalHeaderBytes store created base.

(** What [Journal::Open] leaves behind: the status, the records, the report, the
    journal object and the content of the file on disk. *)
Record Opened := mkOpened {
  od_status : Status;
  od_records : list JournalRecord;
  od_report : option JournalOpenReport;
  od_journal : option Journal;
  od_file : option bytes
}.

Definition open_failed (status : Status) (file : option bytes) : Opened :=
  mkOpened status [] None None file.

(** Models [Journal::Open], src/journal.cpp:328-357: no file there yet. *)
Definition open_created (io : OpenIo) (options : JournalOpenOptions) (store : bytes)
    (now_header now_report : Z) : Opened :=
  if negb (op_create_if_missing options) then
    open_failed (mkStatus SC_NotFound RC_DurableWriteFailed (B "journal does not exist")) None
  else if negb (oi_open_ok io) then
    open_failed (mkStatus SC_Rejected RC_DurableWriteFailed (B "cannot create journal")) None
  else
    let j := mkJournal true [] 0 0 0 (op_limits options) (op_read_only options) false in
    let '(status, j) := WriteHeader (oi_write io) store 0 now_header j in
    if negb (Status_ok status) then open_failed status (Some (jn_content j))
    else
      let '(status, j) := FlushToDisk (oi_write io) j in
      if negb (Status_ok status) then open_failed status (Some (jn_content j))
      else
        mkOpened Status_Ok []
          (Some (mkOpenReport true false 0 0 0 (fresh_header store now_report 0) []))
          (Some j) (Some (jn_content j)).

(** Models [Journal::Open], src/journal.cpp:470-517: after the scan. *)
Definition open_scanned (io : OpenIo) (options : JournalOpenOptions) (content : bytes)
    (header : JournalHeader) (records : list JournalRecord) (torn : option Z) : Opened :=
  let finish_open content' recovered notes :=
    let last := match last records with Some r => jr_sequence r | None => jh_base_sequence header end in
    mkOpened Status_Ok records
      (Some (mkOpenReport false (bool_decide (is_Some torn)) recovered (blen records) last header notes))
      (Some (mkJournal true content' (blen content') last (blen content') (op_limits options)
               (op_read_only options) false))
      (Some content') in
  match torn with
  | Some torn_offset =>
    if op_read_only options then
      open_failed (mkStatus SC_IntegrityFailure RC_JournalTornTailRecovered
        (B "journal has a torn tail and was opened read-only")) (Some content)
    else if negb (oi_flush_ok io) then
      open_failed (mkStatus SC_IntegrityFailure RC_DurableWriteFailed
        (B "cannot flush journal before truncation")) (Some content)
    else if negb (oi_truncate_ok io) then
      open_failed (mkStatus SC_IntegrityFailure RC_DurableWriteFailed
        (B "cannot truncate torn tail")) (Some content)
    else
      let content' := take (Z.to_nat torn_offset) content in
      if negb (oi_seek_ok io) then
        open_failed (mkStatus SC_IntegrityFailure RC_DurableWriteFailed
          (B "cannot seek after truncation")) (Some content')
      else finish_open content' (blen content - torn_offset) [RC_JournalTornTailRecovered]
  | None =>
    if negb (op_read_only options) && negb (oi_seek_ok io) then
      open_failed (mkStatus SC_IntegrityFailure RC_DurableWriteFailed
        (B "cannot seek to journal end")) (Some content)
    else finish_open content 0 []
  end.

(** Models [Journal::Open], src/journal.cpp:309-517. [file] is the file at the path, [None] when
    there is none; [store] is the identity [StoreId::Generate] draws. *)
Definition Journal_Open (io : OpenIo) (options : JournalOpenOptions) (store : bytes)
    (now_header now_report : Z) (file : option bytes) : Opened :=
  if negb (oi_stat_ok io) then
    open_failed (mkStatus SC_Rejected RC_DurableWriteFailed (B "cannot stat journal path")) file
  else
    match file with
    | None => open_created io options store now_header now_report
    | Some content =>
      if negb (oi_size_ok io) then
        open_failed (mkStatus SC_Rejected RC_DurableWriteFailed (B "cannot size journal file")) file
      else if max_journal_bytes (op_limits options) <? blen content then
        open_failed (mkStatus SC_LimitExceeded RC_JournalPayloadLengthInvalid
          (B "journal exceeds the configured maximum size")) file
      else if negb (oi_open_ok io) then
        open_failed (mkStatus SC_Rejected RC_DurableWriteFailed (B "cannot open journal")) file
      else if negb (oi_read_ok io) then
        open_failed (mkStatus SC_IntegrityFailure RC_DurableWriteFailed
          (B "short read on journal")) file
      else if blen content <? kJournalHeaderBytes then
        open_failed (mkStatus SC_IntegrityFailure RC_JournalHeaderInvalid
          (B "journal is shorter than its fixed header")) file
      else
        match ParseJournalHeaderImage (take (Z.to_nat kJournalHeaderBytes) content) with
        | None => open_failed (mkStatus SC_IntegrityFailure RC_JournalHeaderInvalid
                    (B "journal header failed validation")) file
        | Some header =>
          let rest := drop (Z.to_nat kJournalHeaderBytes) content in
          match scan (length rest) (op_limits options) rest kJournalHeaderBytes
                  (wrap 64 (jh_base_sequence header + 1)) [] with
          | (_, Scan_Failed status) => open_failed status file
          | (records, Scan_Torn torn_offset) =>
            open_scanned io options content header records (Some torn_offset)
          | (records, Scan_Complete) => open_scanned io options content header records None
          end
        end
    end.

(** Models [Journal::Reset], src/journal.cpp:554-589: the file is truncated when it is reopened,
    before the new header is written. *)
Definition Journal_Reset (io : OpenIo) (store : bytes) (now : Z) (j : Journal)
  : Status * Journal :=
  if jn_read_only j then
    (mkStatus SC_PreconditionFailed RC_DurableWriteFailed (B "journal is open read-only"), j)
  else
    let carry := jn_last_sequence j in
    let j := Journal_Close j in
    if negb (oi_open_ok io) then
      (mkStatus SC_Rejected RC_SnapshotReplacementFailed (B "cannot recreate journal"), j)
    else
      let j := mkJournal true [] 0 (jn_last_sequence j) (jn_bytes_written j) (jn_limits j)
                 (jn_read_only j) (jn_write_failed j) in
      let '(status, j) := WriteHeader (oi_write io) store carry now j in
      if negb (Status_ok status) then (status, Journal_Close j)
      else
        let '(status, j) := FlushToDisk (oi_write io) j in
        if negb (Status_ok status) then (status, Journal_Close j)
        else
          (Status_Ok,
           mkJournal true (jn_content j) (jn_synced j) carry kJournalHeaderBytes (jn_limits j)
             (jn_read_only j) (jn_write_failed j)).

(** ** Facts on images *)

Lemma shifts_le n v : 0 <= v ->
  map (fun shift => byte_of_Z (Z.land (Z.shiftr v shift) 255)) (le_shifts n) = le_bytes n v.
Proof.
  intros Hv. unfold le_shifts. rewrite map_map. rewrite (le_bytes_shifts n v 0 Hv).
  by rewrite Z.shiftr_0_r.
Qed.

Lemma StoreU32_le offset v out : 0 <= v -> StoreU32 offset v out = store_at offset (le_bytes 4 v) out.
Proof. intros H. unfold StoreU32. by rewrite shifts_le. Qed.

Lemma StoreU64_le offset v out : 0 <= v -> StoreU64 offset v out = store_at offset (le_bytes 8 v) out.
Proof. intros H. unfold StoreU64. by rewrite shifts_le. Qed.

Lemma StoreU16_le offset v out : StoreU16 offset v out = store_at offset (le_bytes 2 v) out.
Proof. unfold StoreU16. by rewrite !byte_of_land. Qed.

Lemma le_value_app a b : le_value (a ++ b) = le_value a + 2 ^ (8 * blen a) * le_value b.
Proof.
  induction a as [|x a IH]; [unfold blen; cbn; lia|].
  cbn [app le_value]. rewrite IH, blen_cons.
  replace (8 * (1 + blen a)) with (8 + 8 * blen a) by lia.
  pose proof (blen_nonneg a). rewrite Z.pow_add_r by lia. change (2 ^ 8) with 256. lia.
Qed.

Lemma load_spec n offset data :
  (offset + n <= length data)%nat -> load n offset data = le_value (slice offset n data).
Proof.
  unfold load, slice. intros Hl. induction n as [|n IH]; [done|].
  rewrite seq_S, foldl_app. cbn [foldl]. rewrite IH by lia. cbn [plus].
  destruct (lookup_lt_is_Some_2 data (offset + n)) as [b Hb]; [lia|].
  rewrite (nth_lookup_Some _ _ _ _ Hb).
  rewrite (take_S_r _ _ b) by (by rewrite lookup_drop).
  assert (blen (take n (drop offset data)) = Z.of_nat n) as Hlen.
  { unfold blen. rewrite length_take, length_drop. lia. }
  pose proof (le_value_range (take n (drop offset data))) as Hr. rewrite Hlen in Hr.
  pose proof (byte_to_Z_range b).
  rewrite lor_shift_add by lia. rewrite le_value_app, Hlen. cbn [le_value]. lia.
Qed.

Lemma slice_app pre mid post :
  slice (length pre) (length mid) (pre ++ mid ++ post) = mid.
Proof. unfold slice. by rewrite drop_app_length, take_app_length. Qed.

(** A field of a prefix is the field of the whole. *)
Lemma slice_app_l offset n (p q : bytes) :
  (offset + n <= length p)%nat -> slice offset n (p ++ q) = slice offset n p.
Proof.
  intros H. unfold slice. rewrite drop_app_le by lia. rewrite take_app_le; [done|].
  rewrite length_drop. lia.
Qed.

Lemma load_app_l n offset (p q : bytes) :
  (offset + n <= length p)%nat -> load n offset (p ++ q) = load n offset p.
Proof.
  intros H. rewrite !load_spec by (rewrite ?length_app; lia). by rewrite slice_app_l.
Qed.

Lemma load_field n offset (pre post : bytes) v :
  length pre = offset -> 0 <= v < 2 ^ (8 * Z.of_nat n) ->
  load n offset (pre ++ le_bytes n v ++ post) = v.
Proof.
  intros <- Hv. rewrite load_spec by (rewrite !length_app, length_le_bytes; lia).
  pose proof (slice_app pre (le_bytes n v) post) as Hs. rewrite length_le_bytes in Hs.
  rewrite Hs, le_value_bytes. by apply Z.mod_small.
Qed.

(** *** Record images *)

(** The 24 bytes before the digest. *)
Definition record_head (sequence : Z) (type : RecordType) (payload : bytes) : bytes :=
  le_bytes 4 kRecordMagic ++ le_bytes 2 kRecordFormatVersion ++
  le_bytes 2 (RecordType_to_Z type) ++ le_bytes 2 kJournalFlagsNone ++ le_bytes 2 0 ++
  le_bytes 4 (blen payload) ++ le_bytes 8 sequence.

Definition record_digest (sequence : Z) (type : RecordType) (payload : bytes) : bytes :=
  Sha256Of (record_head sequence type payload ++ payload).

Definition lay_record (sequence : Z) (type : RecordType) (payload : bytes) : bytes :=
  record_head sequence type payload ++ record_digest sequence type payload ++ payload.

Lemma length_record_head s t p : length (record_head s t p) = 24%nat.
Proof. done. Qed.

Lemma length_record_digest s t p : length (record_digest s t p) = 32%nat.
Proof. apply length_Sha256Of. Qed.

Lemma blen_lay_record s t p : blen (lay_record s t p) = kRecordHeaderBytes + blen p.
Proof.
  unfold lay_record. rewrite !blen_app. unfold blen at 1 2.
  rewrite length_record_head, length_record_digest. unfold kRecordHeaderBytes. lia.
Qed.

Lemma record_prefix_head s t p :
  0 <= s -> blen p < 2 ^ 32 ->
  record_prefix s t p = record_head s t p ++ repeat Byte.x00 32.
Proof.
  intros Hs Hp. pose proof (blen_nonneg p). unfold record_prefix.
  assert (Z.land (blen p) 0xffffffff = blen p) as ->.
  { change 0xffffffff with (Z.ones 32). rewrite Z.land_ones by lia. by apply Z.mod_small. }
  rewrite !StoreU16_le, StoreU64_le by lia. rewrite !StoreU32_le by (done || lia).
  unfold record_head. set (n := le_bytes 4 (blen p)). set (q := le_bytes 8 s).
  assert (exists a b c d, n = [a; b; c; d]) as (a & b & c & d & ->) by (subst n; cbn; eauto).
  assert (exists q1 q2 q3 q4 q5 q6 q7 q8, q = [q1; q2; q3; q4; q5; q6; q7; q8])
    as (q1 & q2 & q3 & q4 & q5 & q6 & q7 & q8 & ->) by (subst q; cbn; eauto 12).
  by destruct t.
Qed.

Lemma Sha256OfParts_two a b : Sha256OfParts [a; b] = Sha256Of (a ++ b).
Proof. rewrite Sha256OfParts_concat, Sha256Of_reference. cbn. by rewrite app_nil_r. Qed.

Lemma store_at_middle (a b c d : bytes) :
  length b = length d -> store_at (length a) d (a ++ b ++ c) = a ++ d ++ c.
Proof.
  intros H. unfold store_at. rewrite take_app_length, <- H.
  assert (drop (length a + length b) (a ++ b ++ c) = c) as ->; [|done].
  rewrite app_assoc, <- length_app. apply drop_app_length.
Qed.

Lemma BuildRecordImage_lay s t p :
  0 <= s -> blen p < 2 ^ 32 -> BuildRecordImage s t p = lay_record s t p.
Proof.
  intros Hs Hp. unfold BuildRecordImage. rewrite record_prefix_head by done.
  rewrite Sha256OfParts_two, <- app_assoc.
  change (Z.to_nat kRecordDigestOffset) with (length (record_head s t p)).
  rewrite take_app_length. apply store_at_middle.
  by rewrite length_Sha256Of.
Qed.

Lemma record_fields s t p q :
  0 <= s < 2 ^ 64 -> blen p < 2 ^ 32 ->
  let data := record_head s t p ++ q in
  LoadU32 0 data = kRecordMagic /\ LoadU16 4 data = kRecordFormatVersion /\
  LoadU16 6 data = RecordType_to_Z t /\ LoadU16 8 data = kJournalFlagsNone /\
  LoadU16 10 data = 0 /\ LoadU32 12 data = blen p /\ LoadU64 16 data = s.
Proof.
  intros Hs Hp data. subst data. pose proof (blen_nonneg p).
  unfold record_head. rewrite <- !app_assoc.
  split; [by apply (load_field 4 0 [])|].
  split; [by apply load_field|]. rewrite app_assoc.
  split; [apply load_field; [done|by destruct t]|]. rewrite app_assoc.
  split; [by apply load_field|]. rewrite app_assoc.
  split; [by apply load_field|]. rewrite app_assoc.
  split; [by apply load_field|]. rewrite app_assoc.
  by apply load_field.
Qed.

Lemma TryParseRecordType_ok t : t <> RT_Invalid -> TryParseRecordType (RecordType_to_Z t) = Some t.
Proof. by destruct t. Qed.

Definition record_wf (limits : RuntimeLimits) (r : JournalRecord) : Prop :=
  jr_type r <> RT_Invalid /\ 0 <= jr_sequence r < 2 ^ 64 /\
  blen (jr_payload r) <= max_journal_payload_bytes limits.

(** The payload bound must fit the 32-bit length field. *)
Definition limits_wf (limits : RuntimeLimits) : Prop :=
  0 <= max_journal_payload_bytes limits < 2 ^ 32.

Definition record_image (r : JournalRecord) : bytes :=
  lay_record (jr_sequence r) (jr_type r) (jr_payload r).

Lemma DecodeRecordHeader_ok limits r q :
  limits_wf limits -> record_wf limits r ->
  32 <= blen q ->
  DecodeRecordHeader (record_head (jr_sequence r) (jr_type r) (jr_payload r) ++ q)
    (24 + blen q) (wrap 32 (max_journal_payload_bytes limits)) =
  Some (jr_type r, blen (jr_payload r), jr_sequence r).
Proof.
  intros [Hl1 Hl2] (Ht & Hs & Hp) Hq. pose proof (blen_nonneg (jr_payload r)).
  unfold DecodeRecordHeader.
  pose proof (record_fields (jr_sequence r) (jr_type r) (jr_payload r) q Hs ltac:(lia)) as F.
  cbv zeta in F. destruct F as (-> & -> & -> & -> & -> & -> & ->).
  rewrite TryParseRecordType_ok by done.
  unfold wrap. rewrite (Z.mod_small (max_journal_payload_bytes limits)) by lia.
  rewrite !(proj2 (Z.ltb_ge _ _)) by (unfold kRecordHeaderBytes; lia). done.
Qed.

Lemma lay_record_payload s t p :
  slice (Z.to_nat kRecordHeaderBytes) (Z.to_nat (blen p)) (lay_record s t p) = p.
Proof.
  pose proof (slice_app (record_head s t p ++ record_digest s t p) p []) as H.
  rewrite app_nil_r, length_app, length_record_digest in H. unfold blen. rewrite Nat2Z.id.
  unfold lay_record. by rewrite app_assoc.
Qed.

Lemma VerifyRecordImage_ok limits r :
  limits_wf limits -> record_wf limits r -> VerifyRecordImage (record_image r) = true.
Proof.
  intros [Hl1 Hl2] (Ht & Hs & Hp). destruct r as [s t p].
  cbn [jr_sequence jr_type jr_payload] in *. unfold VerifyRecordImage, record_image.
  cbn [jr_sequence jr_type jr_payload].
  pose proof (blen_lay_record s t p) as Hlen. pose proof (blen_nonneg p).
  unfold lay_record in *.
  pose proof (record_fields s t p (record_digest s t p ++ p) Hs ltac:(lia)) as F.
  cbv zeta in F. destruct F as (-> & _ & _ & _ & _ & -> & _).
  rewrite Hlen, !Z.eqb_refl. rewrite (proj2 (Z.ltb_ge _ _)) by (unfold kRecordHeaderBytes; lia).
  cbn [negb]. apply bool_decide_eq_true.
  change (Z.to_nat kRecordDigestOffset) with (length (record_head s t p)).
  rewrite <- (length_record_digest s t p) at 1. rewrite slice_app, take_app_length.
  fold (lay_record s t p). rewrite lay_record_payload. by rewrite Sha256OfParts_two.
Qed.

(** *** The scan over record images *)

Definition images (rs : list JournalRecord) : bytes := concat (map record_image rs).

Lemma concat_map_one {X Y} (f : X -> list Y) a : concat (map f [a]) = f a.
Proof. cbn. apply app_nil_r. Qed.

Lemma images_app a b : images (a ++ b) = images a ++ images b.
Proof. unfold images. by rewrite map_app, concat_app. Qed.

(** Sequences continue from [expected] without a gap. *)
Fixpoint contiguous (expected : Z) (rs : list JournalRecord) : Prop :=
  match rs with
  | [] => True
  | r :: rs' => jr_sequence r = expected /\ contiguous (expected + 1) rs'
  end.

Lemma record_image_nonempty r : exists b l, record_image r = b :: l.
Proof. unfold record_image, lay_record, record_head. cbn. eauto. Qed.

Lemma length_record_image r :
  Z.of_nat (length (record_image r)) = kRecordHeaderBytes + blen (jr_payload r).
Proof. apply blen_lay_record. Qed.

Section Scan.
Variable limits : RuntimeLimits.
Hypothesis Hlimits : limits_wf limits.

(** A whole record is consumed and the scan goes on behind it. *)
Lemma scan_record fuel r rest offset records :
  record_wf limits r -> jr_sequence r + 1 < 2 ^ 64 ->
  scan (S fuel) limits (record_image r ++ rest) offset (jr_sequence r) records =
  scan fuel limits rest (offset + blen (record_image r)) (jr_sequence r + 1) (records ++ [r]).
Proof.
  intros Hr Hs1. pose proof Hr as (Ht & Hs & Hp). pose proof Hlimits as [Hl1 Hl2].
  pose proof (blen_nonneg (jr_payload r)). pose proof (blen_nonneg rest).
  pose proof (VerifyRecordImage_ok limits r Hlimits Hr) as Hv.
  assert (blen (record_image r ++ rest) =
          24 + blen (record_digest (jr_sequence r) (jr_type r) (jr_payload r) ++
                     jr_payload r ++ rest)) as Hlen.
  { rewrite blen_app. unfold record_image. rewrite blen_lay_record, !blen_app.
    unfold blen at 3. rewrite length_record_digest. unfold kRecordHeaderBytes. lia. }
  assert (record_image r ++ rest =
    record_head (jr_sequence r) (jr_type r) (jr_payload r) ++
    (record_digest (jr_sequence r) (jr_type r) (jr_payload r) ++ jr_payload r ++ rest)) as Himg.
  { unfold record_image, lay_record. by rewrite <- !app_assoc. }
  assert (blen (record_image r) = kRecordHeaderBytes + blen (jr_payload r)) as Hri
    by apply blen_lay_record.
  pose proof (record_fields (jr_sequence r) (jr_type r) (jr_payload r)
    (record_digest (jr_sequence r) (jr_type r) (jr_payload r) ++ jr_payload r ++ rest)
    Hs ltac:(lia)) as F.
  cbv zeta in F. destruct F as (Fm & _). rewrite <- Himg in Fm.
  pose proof (DecodeRecordHeader_ok limits r
    (record_digest (jr_sequence r) (jr_type r) (jr_payload r) ++ jr_payload r ++ rest)
    Hlimits Hr) as Fd.
  rewrite <- Himg, <- Hlen in Fd.
  destruct (record_image_nonempty r) as (b & l & Hne).
  replace (record_image r ++ rest) with (b :: (l ++ rest)) in * by (by rewrite Hne).
  cbn [scan]. cbv zeta.
  replace (b :: l ++ rest) with (record_image r ++ rest) in * by (by rewrite Hne).
  rewrite (proj2 (Z.ltb_ge _ _)).
  2: { rewrite blen_app, Hri. unfold kRecordDigestOffset, kRecordHeaderBytes. lia. }
  rewrite Fm. cbn [negb Z.eqb]. rewrite Z.eqb_refl. cbn [negb].
  rewrite Fd.
  2: { rewrite !blen_app. unfold blen at 1. rewrite length_record_digest. lia. }
  rewrite (proj2 (Z.ltb_ge _ _)) by (rewrite blen_app, Hri; lia).
  rewrite <- Hri. unfold blen at 1 2 5. rewrite !Nat2Z.id, take_app_length, drop_app_length.
  rewrite Hv, Z.eqb_refl. cbn [negb].
  unfold wrap. rewrite (Z.mod_small (jr_sequence r + 1)) by lia. f_equal.
  do 2 f_equal. destruct r as [s t p]. cbn [jr_sequence jr_type jr_payload] in *. f_equal.
  apply lay_record_payload.
Qed.

(** A strict, non-empty prefix of a record is a torn tail. *)
Lemma scan_torn fuel r p q offset expected records :
  record_wf limits r -> record_image r = p ++ q -> p <> [] -> q <> [] ->
  scan (S fuel) limits p offset expected records = (records, Scan_Torn offset).
Proof.
  intros Hr Himg Hp Hq. pose proof Hr as (Ht & Hs & Hpay). pose proof Hlimits as [Hl1 Hl2].
  pose proof (blen_lay_record (jr_sequence r) (jr_type r) (jr_payload r)) as Hlen.
  fold (record_image r) in Hlen. rewrite Himg, blen_app in Hlen.
  assert (0 < blen q) as Hq0 by (destruct q; [done|]; rewrite blen_cons; pose proof (blen_nonneg q); lia).
  destruct p as [|b p]; [done|]. cbn [scan]. cbv zeta. set (pp := b :: p) in *.
  destruct (blen pp <? kRecordDigestOffset) eqn:E1; [done|]. bool_hyps.
  unfold kRecordDigestOffset in E1.
  (* the prefix holds the whole head of the record *)
  assert (exists d, pp = record_head (jr_sequence r) (jr_type r) (jr_payload r) ++ d) as [d Hd].
  { exists (drop 24 pp). rewrite <- (take_drop 24 pp) at 1. f_equal.
    apply (f_equal (take 24)) in Himg. unfold record_image, lay_record in Himg.
    rewrite take_app_le in Himg by (rewrite length_record_head; lia).
    rewrite take_ge in Himg by (rewrite length_record_head; lia).
    rewrite take_app_le in Himg by (unfold blen in E1; lia). done. }
  pose proof (record_fields (jr_sequence r) (jr_type r) (jr_payload r) d Hs ltac:(lia)) as F.
  cbv zeta in F. rewrite <- Hd in F. destruct F as (Fm & _).
  rewrite Fm, Z.eqb_refl. cbn [negb].
  assert (blen pp = 24 + blen d) as Hpl.
  { rewrite Hd, blen_app. unfold blen at 1. by rewrite length_record_head. }
  destruct (Z.ltb_spec (blen pp) kRecordHeaderBytes) as [Hshort|Hlong].
  - unfold DecodeRecordHeader. by rewrite (proj2 (Z.ltb_lt _ _) Hshort).
  - unfold kRecordHeaderBytes in Hlong.
    pose proof (DecodeRecordHeader_ok limits r d Hlimits Hr ltac:(lia)) as Fd.
    rewrite <- Hd, <- Hpl in Fd. rewrite Fd.
    rewrite (proj2 (Z.ltb_lt _ _)) by lia. done.
Qed.

(** Scanning any prefix of a sequence of records finds the records that are whole
    in it and stops, torn, at the first that is not. *)
Lemma scan_prefix rs : forall fuel p q offset expected records,
  Forall (record_wf limits) rs -> contiguous expected rs ->
  expected + blen rs < 2 ^ 64 -> images rs = p ++ q -> (length p <= fuel)%nat ->
  exists rs1 rs2 tail,
    rs = rs1 ++ rs2 /\ p = images rs1 ++ tail /\
    (tail = [] \/ exists r rs2', rs2 = r :: rs2' /\ blen tail < blen (record_image r)) /\
    scan fuel limits p offset expected records =
      (records ++ rs1,
       if decide (tail = []) then Scan_Complete else Scan_Torn (offset + blen (images rs1))).
Proof.
  induction rs as [|r rs IH]; intros fuel p q offset expected records Hwf Hc Hb Himg Hf.
  { assert (p = []) as -> by (destruct p; [done|]; discriminate Himg).
    exists [], [], []. repeat split; [by left|]. rewrite app_nil_r.
    destruct fuel; by rewrite decide_True. }
  apply Forall_cons in Hwf as [Hr Hwf]. destruct Hc as [Hseq Hc]. rewrite blen_cons in Hb.
  pose proof (blen_nonneg rs). pose proof Hr as (_ & Hs & _).
  change (images (r :: rs)) with (record_image r ++ images rs) in Himg.
  destruct (decide (length (record_image r) <= length p)%nat) as [Hle|Hgt].
  - assert (exists p', p = record_image r ++ p') as [p' ->].
    { exists (drop (length (record_image r)) p). rewrite <- (take_drop (length (record_image r)) p) at 1.
      f_equal. apply (f_equal (take (length (record_image r)))) in Himg.
      rewrite take_app_length in Himg. by rewrite take_app_le in Himg by lia. }
    rewrite <- app_assoc in Himg. apply app_inv_head in Himg.
    rewrite length_app in Hf. destruct (record_image_nonempty r) as (b & l & Hne).
    assert (length (record_image r) = S (length l)) as Hlen by (by rewrite Hne).
    destruct fuel as [|fuel]; [lia|].
    subst expected. rewrite scan_record by (done || lia).
    destruct (IH fuel p' q (offset + blen (record_image r)) (jr_sequence r + 1) (records ++ [r]))
      as (rs1 & rs2 & tail & -> & -> & Htail & Hscan); [done|done|lia|done|lia|].
    exists (r :: rs1), rs2, tail. repeat split.
    + change (images (r :: rs1)) with (record_image r ++ images rs1). by rewrite <- app_assoc.
    + done.
    + rewrite Hscan. rewrite <- app_assoc. f_equal.
      change (images (r :: rs1)) with (record_image r ++ images rs1). rewrite blen_app.
      by rewrite Z.add_assoc.
  - exists [], (r :: rs), p. repeat split.
    + right. exists r, rs. split; [done|]. unfold blen. lia.
    + rewrite app_nil_r. destruct (decide (p = [])) as [->|Hp]; [by destruct fuel|].
      destruct fuel as [|fuel]; [destruct p; simpl in Hf; [done|lia]|].
      change (images []) with (@nil byte).
      rewrite blen_nil, Z.add_0_r.
      apply (scan_torn fuel r p (drop (length p) (record_image r))); [done| |done|].
      * rewrite <- (take_drop (length p) (record_image r)) at 1. f_equal.
        apply (f_equal (take (length p))) in Himg.
        rewrite take_app_length in Himg. by rewrite take_app_le in Himg by lia.
      * intros H0. apply (f_equal length) in H0. rewrite length_drop in H0.
        change (length []) with 0%nat in H0. lia.
Qed.
End Scan.

(** *** The header image *)

Definition header_head (store : bytes) (created base : Z) : bytes :=
  kJournalMagic ++ le_bytes 4 kJournalFormatVersion ++ le_bytes 4 kJournalHeaderBytes ++ store ++
  le_bytes 8 (wrap 64 created) ++ le_bytes 8 base ++ repeat Byte.x00 16.

Definition lay_header (store : bytes) (created base : Z) : bytes :=
  header_head store created base ++ Sha256Of (header_head store created base).

Lemma length_header_head store created base :
  length store = 16%nat -> length (header_head store created base) = 64%nat.
Proof. intros H. unfold header_head. rewrite !length_app, !length_le_bytes, H. done. Qed.

Lemma length_lay_header store created base :
  length store = 16%nat -> length (lay_header store created base) = 96%nat.
Proof.
  intros H. unfold lay_header. by rewrite length_app, length_header_head, length_Sha256Of.
Qed.

(** Sixteen bytes, one by one. *)
Lemma sixteen_bytes (l : bytes) : length l = 16%nat ->
  exists a b c d e f g h i j k m n o p q,
    l = [a; b; c; d; e; f; g; h; i; j; k; m; n; o; p; q].
Proof.
  intros H. do 16 (destruct l as [|? l]; [done|]). destruct l; [|done]. by repeat eexists.
Qed.

Lemma BuildJournalHeaderImage_lay store created base :
  length store = 16%nat -> 0 <= base ->
  BuildJournalHeaderImage store created base = lay_header store created base.
Proof.
  intros Hst Hb. unfold BuildJournalHeaderImage. cbv zeta.
  rewrite !StoreU32_le by done. rewrite !StoreU64_le by (done || by apply wrap_nonneg).
  match goal with |- store_at 64 (Sha256Of (take 64 ?i)) ?i = _ =>
    assert (i = header_head store created base ++ repeat Byte.x00 32) as -> end.
  - destruct (sixteen_bytes store Hst) as (a & b & c & d & e & f & g & h & i & j & k & m & n & o & p & q & ->).
    unfold header_head. set (u := le_bytes 8 (wrap 64 created)). set (v := le_bytes 8 base).
    assert (exists u1 u2 u3 u4 u5 u6 u7 u8, u = [u1; u2; u3; u4; u5; u6; u7; u8])
      as (u1 & u2 & u3 & u4 & u5 & u6 & u7 & u8 & ->) by (subst u; cbn; eauto 12).
    assert (exists v1 v2 v3 v4 v5 v6 v7 v8, v = [v1; v2; v3; v4; v5; v6; v7; v8])
      as (v1 & v2 & v3 & v4 & v5 & v6 & v7 & v8 & ->) by (subst v; cbn; eauto 12).
    reflexivity.
  - pose proof (length_header_head store created base Hst) as Hl.
    rewrite <- Hl, take_app_length. unfold lay_header.
    rewrite <- (app_nil_r (repeat Byte.x00 32)), <- (app_nil_r (Sha256Of _)).
    rewrite app_nil_r at 1. apply store_at_middle. by rewrite length_Sha256Of.
Qed.

Lemma header_fields store created base q :
  length store = 16%nat -> 0 <= base < 2 ^ 64 ->
  let data := header_head store created base ++ q in
  take 8 data = kJournalMagic /\ LoadU32 8 data = kJournalFormatVersion /\
  LoadU32 12 data = kJournalHeaderBytes /\ slice 16 16 data = store /\
  LoadU64 32 data = wrap 64 created /\ LoadU64 40 data = base /\
  slice 48 16 data = repeat Byte.x00 16 /\ take 64 data = header_head store created base.
Proof.
  intros Hst Hb data. subst data.
  assert (take 64 (header_head store created base ++ q) = header_head store created base) as Ht.
  { rewrite <- (length_header_head store created base Hst). apply take_app_length. }
  rewrite Ht. clear Ht. unfold header_head. rewrite <- !app_assoc.
  split; [done|]. split; [by apply load_field|]. rewrite app_assoc.
  split; [by apply load_field|]. rewrite app_assoc.
  split. { pose proof (slice_app ((kJournalMagic ++ le_bytes 4 kJournalFormatVersion) ++
             le_bytes 4 kJournalHeaderBytes) store
             (le_bytes 8 (wrap 64 created) ++ le_bytes 8 base ++ repeat Byte.x00 16 ++ q)) as H.
           by rewrite Hst in H. }
  rewrite app_assoc.
  split; [apply load_field; [by rewrite !length_app, Hst|]|].
  { unfold wrap. apply Z.mod_pos_bound. lia. }
  rewrite app_assoc. split; [apply load_field; [by rewrite !length_app, Hst|done]|].
  rewrite app_assoc. split; [|done].
  match goal with |- slice _ _ (?a ++ ?b ++ ?c) = _ => pose proof (slice_app a b c) as H end.
  rewrite !length_app, !length_le_bytes, Hst in H. exact H.
Qed.

Lemma ParseJournalHeaderImage_ok store created base :
  length store = 16%nat -> i64 created = true -> 0 <= base < 2 ^ 64 ->
  ParseJournalHeaderImage (lay_header store created base) = Some (fresh_header store created base).
Proof.
  intros Hst Hc Hb. unfold ParseJournalHeaderImage, lay_header.
  pose proof (header_fields store created base (Sha256Of (header_head store created base)) Hst Hb) as F.
  cbv zeta in F. destruct F as (-> & -> & -> & -> & -> & -> & -> & ->).
  assert (blen (header_head store created base ++ Sha256Of (header_head store created base)) =
          kJournalHeaderBytes) as ->.
  { fold (lay_header store created base). unfold blen. by rewrite length_lay_header. }
  rewrite Z.eqb_refl, bool_decide_eq_true_2 by done. cbn [negb].
  rewrite !Z.eqb_refl. cbn [negb forallb repeat is_char].
  assert (slice 64 32 (header_head store created base ++ Sha256Of (header_head store created base)) =
          Sha256Of (header_head store created base)) as ->.
  { pose proof (slice_app (header_head store created base)
      (Sha256Of (header_head store created base)) []) as H.
    rewrite app_nil_r, length_Sha256Of, length_header_head in H by done. exact H. }
  rewrite bool_decide_eq_true_2 by done. cbn [negb andb].
  change (forallb (is_char 0) (repeat Byte.x00 16)) with true || idtac.
  rewrite to_signed_wrap by done. done.
Qed.

(** ** Histories of a journal: creation, appends, crashes *)

Lemma contiguous_app expected a b :
  contiguous expected (a ++ b) <-> contiguous expected a /\ contiguous (expected + blen a) b.
Proof.
  revert expected. induction a as [|r a IH]; intros expected; simpl.
  - rewrite blen_nil, Z.add_0_r. tauto.
  - rewrite IH, blen_cons. replace (expected + 1 + blen a) with (expected + (1 + blen a)) by lia.
    tauto.
Qed.

Lemma contiguous_snoc expected rs r :
  contiguous expected rs -> jr_sequence r = expected + blen rs -> contiguous expected (rs ++ [r]).
Proof. intros Hc Hs. apply contiguous_app. by repeat split. Qed.

Lemma images_snoc rs r : images (rs ++ [r]) = images rs ++ record_image r.
Proof. unfold images. by rewrite map_app, concat_app, concat_map_one. Qed.

Lemma blen_snoc {A} (l : list A) a : blen (l ++ [a]) = blen l + 1.
Proof. by rewrite blen_app, blen_cons, blen_nil. Qed.

(** Projects the fields of a journal given by its constructor. *)
Ltac jn_fields :=
  cbn [jn_open jn_content jn_synced jn_last_sequence jn_bytes_written jn_limits jn_read_only
       jn_write_failed].

(** A crash loses some suffix of the content written after the last barrier. *)
Definition crash_image (j : Journal) (p : bytes) : Prop :=
  exists q, jn_content j = p ++ q /\ jn_synced j <= blen p.

Section Histories.
Variable limits : RuntimeLimits.
Hypothesis Hlimits : limits_wf limits.
(** What the journal's owner guarantees of the records it appends. *)
Variable P : RecordType -> bytes -> Prop.

Definition good (r : JournalRecord) : Prop := record_wf limits r /\ P (jr_type r) (jr_payload r).

(** The journal of the store [store] holds the records [rs] after the sequence [base],
    followed by the [tail] an unfinished append left behind. *)
Record journal_holds (store : bytes) (created base : Z) (j : Journal) (rs : list JournalRecord)
    (tail : bytes) : Prop := mkHolds {
  h_store : length store = 16%nat;
  h_created : i64 created = true;
  h_base : 0 <= base;
  h_room : base + blen rs + 2 < 2 ^ 64;
  h_open : jn_open j = true;
  h_writable : jn_read_only j = false;
  h_limits : jn_limits j = limits;
  h_good : Forall good rs;
  h_contiguous : contiguous (base + 1) rs;
  h_last : jn_last_sequence j = base + blen rs;
  h_content : jn_content j = lay_header store created base ++ images rs ++ tail;
  h_synced : blen (lay_header store created base ++ images rs) <= jn_synced j;
  h_pending : tail = [] \/
    jn_write_failed j = true /\ exists r q,
      good r /\ jr_sequence r = base + blen rs + 1 /\ record_image r = tail ++ q
}.

Definition holds (store : bytes) (created base : Z) (j : Journal) (rs : list JournalRecord) : Prop :=
  exists tail, journal_holds store created base j rs tail.

Lemma good_forall rs : Forall good rs -> Forall (record_wf limits) rs.
Proof. intros H. eapply Forall_impl; [exact H|]. by intros r []. Qed.

(** The next record a journal would append. *)
Lemma next_record_good base (rs : list JournalRecord) type payload :
  0 <= base -> base + blen rs + 3 < 2 ^ 64 -> type <> RT_Invalid ->
  blen payload <= max_journal_payload_bytes limits -> P type payload ->
  good (mkJournalRecord (base + blen rs + 1) type payload).
Proof. pose proof (blen_nonneg rs). intros. repeat split; simpl; done || lia. Qed.

(** A failed write or barrier leaves a prefix of the record and poisons the journal. *)
Lemma holds_pending store created base j rs r tail q j' :
  journal_holds store created base j rs [] -> good r -> jr_sequence r = base + blen rs + 1 ->
  record_image r = tail ++ q ->
  j' = mkJournal (jn_open j) (jn_content j ++ tail) (jn_synced j) (jn_last_sequence j)
         (jn_bytes_written j') (jn_limits j) (jn_read_only j) true ->
  holds store created base j' rs.
Proof.
  intros [] Hr Hseq Himg ->. exists tail. split; jn_fields; try done.
  - by rewrite h_content0, app_nil_r, <- app_assoc.
  - right. split; [done|]. by exists r, q.
Qed.

(** A record that is written and synced is acknowledged. *)
Lemma holds_extend store created base j rs r j' :
  journal_holds store created base j rs [] -> good r -> jr_sequence r = base + blen rs + 1 ->
  base + blen rs + 3 < 2 ^ 64 ->
  j' = mkJournal (jn_open j) (jn_content j ++ record_image r) (blen (jn_content j ++ record_image r))
         (jr_sequence r) (jn_bytes_written j') (jn_limits j) (jn_read_only j) false ->
  holds store created base j' (rs ++ [r]).
Proof.
  intros [] Hr Hseq Hroom ->. exists []. rewrite app_nil_r in h_content0.
  split; jn_fields; rewrite ?blen_snoc, ?images_snoc, ?h_content0, ?app_nil_r, <- ?app_assoc; try done; try lia.
  - apply Forall_app. split; [done|]. by constructor.
  - apply contiguous_snoc; [done|lia].
  - by left.
Qed.

(** Appending acknowledges a record exactly when it is written and synced. *)
Lemma Append_holds store created base j rs io type payload :
  holds store created base j rs -> type <> RT_Invalid -> P type payload ->
  jn_last_sequence j + 3 < 2 ^ 64 ->
  let '(status, j') := Append io type payload j in
  (Status_ok status = true ->
     jn_last_sequence j' = jn_last_sequence j + 1 /\
     holds store created base j' (rs ++ [mkJournalRecord (jn_last_sequence j') type payload])) /\
  (Status_ok status = false -> holds store created base j' rs).
Proof.
  intros [tail Hh] Ht HP Hroom. pose proof Hh as []. pose proof (blen_nonneg rs).
  pose proof Hlimits as [Hl1 Hl2].
  assert (holds store created base j rs) as Hsame by (by exists tail).
  unfold Append. rewrite h_writable0, h_open0, h_limits0. cbn [negb].
  destruct (max_journal_payload_bytes limits <? blen payload) eqn:Epay; [by split|]. bool_hyps.
  assert (wrap 64 (jn_last_sequence j + 1) = base + blen rs + 1) as ->
    by (unfold wrap; rewrite h_last0; apply Z.mod_small; lia).
  pose proof (next_record_good base rs type payload) as Hr.
  set (r := mkJournalRecord (base + blen rs + 1) type payload) in *.
  assert (BuildRecordImage (base + blen rs + 1) type payload = record_image r) as ->
    by (apply BuildRecordImage_lay; lia).
  unfold WriteAll. rewrite h_open0. cbn [negb].
  destruct (jn_write_failed j) eqn:Hnf; [by split|].
  destruct h_pending0 as [->|[Hf _]]; [|congruence].
  pose proof (length_record_image r) as Hlen. fold (blen (record_image r)) in Hlen.
  pose proof (blen_nonneg (jr_payload r)).
  rewrite (proj2 (Z.eqb_neq (blen (record_image r)) 0)) by (unfold kRecordHeaderBytes in Hlen; lia).
  assert (good r) as Hgood by (apply Hr; done || lia).
  destruct (negb (wi_written io =? blen (record_image r))).
  { cbn [Status_ok]. split; [done|]. intros _.
    eapply (holds_pending _ _ _ j rs r (take (Z.to_nat (wi_written io)) (record_image r)));
      [done..|by rewrite take_drop|done]. }
  change (Status_ok Status_Ok) with true. cbn [negb]. unfold FlushToDisk.
  assert (record_image r = record_image r ++ []) as Hall by (by rewrite app_nil_r).
  destruct (wi_flush_ok io), (wi_sync_ok io); cbn [negb].
  2-4: split; [done|]; intros _; by eapply (holds_pending _ _ _ j rs r (record_image r) []).
  change (Status_ok Status_Ok) with true. cbn [negb]. split; [|done]. intros _.
  split; [cbn; lia|]. eapply (holds_extend _ _ _ j rs r); [done..|lia|done].
Qed.

(** A write of which no byte arrives appends nothing, and poisons the journal. *)
Lemma Append_nothing store created base j rs io type payload :
  holds store created base j rs -> wi_written io = 0 ->
  let '(status, j') := Append io type payload j in
  Status_ok status = false /\ jn_last_sequence j' = jn_last_sequence j /\ holds store created base j' rs.
Proof.
  intros [tail Hh] Hio. pose proof Hh as [].
  assert (holds store created base j rs) as Hsame by (by exists tail).
  unfold Append. rewrite h_writable0, h_open0. cbn [negb].
  destruct (_ <? blen payload) eqn:Epay; [done|]. bool_hyps. cbv zeta. rewrite h_limits0 in Epay.
  pose proof Hlimits as [Hl1 Hl2].
  assert (0 <= wrap 64 (jn_last_sequence j + 1)) as Hn by (by apply Z.mod_pos_bound).
  rewrite BuildRecordImage_lay by (done || lia).
  pose proof (blen_lay_record (wrap 64 (jn_last_sequence j + 1)) type payload) as Hlen.
  pose proof (blen_nonneg payload). unfold WriteAll. rewrite h_open0. cbn [negb].
  destruct (jn_write_failed j) eqn:Hnf; [done|]. destruct h_pending0 as [->|[Hf _]]; [|congruence].
  unfold kRecordHeaderBytes in Hlen.
  rewrite Hio, (proj2 (Z.eqb_neq (blen _) 0)), (proj2 (Z.eqb_neq 0 (blen _))) by lia. cbn [negb].
  split; [done|]. split; [done|]. exists []. change (Z.to_nat 0) with 0%nat. rewrite take_0.
  unfold set_content. split; jn_fields; rewrite ?app_nil_r in *; try done. by left.
Qed.

(** A barrier alone changes nothing that is held. *)
Lemma Sync_holds store created base j rs io :
  holds store created base j rs ->
  jn_last_sequence (Sync io j).2 = jn_last_sequence j /\ holds store created base (Sync io j).2 rs.
Proof.
  intros [tail Hh]. pose proof Hh as []. unfold Sync. rewrite h_open0, h_writable0. cbn [negb orb].
  unfold FlushToDisk. destruct (wi_flush_ok io), (wi_sync_ok io); cbn [negb snd];
    (split; [done|]); exists tail; try exact Hh.
  unfold set_synced. split; jn_fields; try done.
  rewrite h_content0, !blen_app. pose proof (blen_nonneg tail). lia.
Qed.

(** The records found in any prefix that covers the synced part: all of [rs], and at
    most the one that was being appended. *)
Lemma scan_covers rs r p q :
  images (rs ++ [r]) = p ++ q -> blen (images rs) <= blen p ->
  forall rs1 rs2 tail, rs ++ [r] = rs1 ++ rs2 -> p = images rs1 ++ tail ->
  (tail = [] \/ exists r' rs2', rs2 = r' :: rs2' /\ blen tail < blen (record_image r')) ->
  rs1 = rs \/ rs1 = rs ++ [r].
Proof.
  intros Himg Hcov rs1 rs2 tail Hsplit -> Htail.
  destruct rs2 as [|x rs2] using rev_ind.
  { right. by rewrite app_nil_r in Hsplit. }
  clear IHrs2. left. rewrite app_assoc in Hsplit. apply app_inj_tail in Hsplit as [-> ->].
  rewrite images_app, !blen_app in Hcov. pose proof (blen_nonneg tail).
  destruct rs2 as [|y rs2]; [by rewrite app_nil_r|]. exfalso.
  assert (blen (record_image y) <= blen (images (y :: rs2))) as Hy.
  { change (images (y :: rs2)) with (record_image y ++ images rs2). rewrite blen_app.
    pose proof (blen_nonneg (images rs2)). lia. }
  pose proof (length_record_image y) as Hly. fold (blen (record_image y)) in Hly.
  pose proof (blen_nonneg (jr_payload y)). unfold kRecordHeaderBytes in Hly.
  destruct Htail as [->|(r' & rs2' & [= <- _] & Hlt)]; [rewrite blen_nil in Hcov|]; lia.
Qed.

(** A crash image is the whole header and a prefix of the acknowledged records and one
    more, which is good when any of it is there. *)
Lemma crash_prefix store created base j rs p :
  holds store created base j rs -> crash_image j p ->
  exists r p' q,
    p = lay_header store created base ++ p' /\ images (rs ++ [r]) = p' ++ q /\
    blen (images rs) <= blen p' /\ record_wf limits r /\ jr_sequence r = base + blen rs + 1 /\
    (good r \/ p' = images rs).
Proof.
  intros [tail []] (q0 & Hpq & Hsynced). pose proof (blen_nonneg rs).
  pose proof (length_lay_header store created base h_store0) as Hlh.
  rewrite blen_app in h_synced0. pose proof (blen_nonneg (images rs)).
  assert (exists p', p = lay_header store created base ++ p') as [p' ->].
  { exists (drop 96 p). rewrite <- (take_drop 96 p) at 1. f_equal.
    rewrite h_content0 in Hpq. apply (f_equal (take 96)) in Hpq.
    rewrite take_app_le in Hpq by lia. rewrite take_ge in Hpq by lia.
    rewrite take_app_le in Hpq by (unfold blen in *; lia). done. }
  rewrite h_content0, <- app_assoc in Hpq. apply app_inv_head in Hpq.
  rewrite blen_app in Hsynced. destruct h_pending0 as [->|[_ (r & q & Hr & Hseq & Hq)]].
  - rewrite app_nil_r in Hpq.
    assert (q0 = []) as -> by (apply length_zero_iff_nil; apply (f_equal blen) in Hpq;
      rewrite blen_app in Hpq; unfold blen in *; lia).
    rewrite app_nil_r in Hpq.
    exists (mkJournalRecord (base + blen rs + 1) RT_EpochAdvance []), p',
      (record_image (mkJournalRecord (base + blen rs + 1) RT_EpochAdvance [])).
    rewrite images_snoc, Hpq. pose proof Hlimits as [? ?].
    split; [done|]. split; [done|]. split; [by rewrite <- Hpq|]. split; [|split; [done|by right]].
    repeat split; cbn [jr_type jr_sequence jr_payload]; rewrite ?blen_nil; done || lia.
  - exists r, p', (q0 ++ q). rewrite images_snoc, Hq, app_assoc, Hpq, <- app_assoc.
    split; [done|]. split; [done|]. split; [lia|]. split; [apply Hr|]. split; [done|by left].
Qed.

Lemma last_contiguous base rs :
  contiguous (base + 1) rs ->
  match last rs with Some r => jr_sequence r | None => base end = base + blen rs.
Proof.
  destruct rs as [|r rs] using rev_ind; [rewrite blen_nil; simpl; lia|].
  rewrite last_snoc. intros H. apply contiguous_app in H as [_ [H _]].
  rewrite blen_app, blen_cons, blen_nil. lia.
Qed.

(** What the scan of a crash image finds. *)
Lemma crash_scan store created base j rs p :
  holds store created base j rs -> crash_image j p ->
  exists p' extra tail,
    p = lay_header store created base ++ p' /\ p' = images (rs ++ extra) ++ tail /\
    blen extra <= 1 /\ Forall good extra /\ contiguous (base + 1) (rs ++ extra) /\
    scan (length p') limits p' kJournalHeaderBytes (base + 1) [] =
      (rs ++ extra, if decide (tail = []) then Scan_Complete
                    else Scan_Torn (kJournalHeaderBytes + blen (images (rs ++ extra)))).
Proof.
  intros Hh Hc. destruct (crash_prefix _ _ _ _ _ _ Hh Hc)
    as (r & p' & q & -> & Himg & Hcov & Hr & Hseq & Hor).
  destruct Hh as [tl []]. pose proof (blen_nonneg rs).
  assert (contiguous (base + 1) (rs ++ [r])) as Hcr by (apply contiguous_snoc; [done|lia]).
  assert (Forall (record_wf limits) (rs ++ [r])) as Hwf
    by (apply Forall_app; split; [by apply good_forall|by constructor]).
  destruct (scan_prefix limits Hlimits (rs ++ [r]) (length p') p' q kJournalHeaderBytes
    (base + 1) []) as (rs1 & rs2 & tail & Hsplit & Hp' & Htail & Hscan);
    [done|done|rewrite blen_snoc; lia|done|done|].
  destruct (scan_covers rs r p' q Himg Hcov rs1 rs2 tail Hsplit Hp' Htail) as [-> | ->].
  - exists p', [], tail. rewrite !app_nil_r. by rewrite app_nil_l in Hscan.
  - exists p', [r], tail. do 3 (split; [done|]). split; [|by rewrite app_nil_l in Hscan].
    constructor; [|done]. destruct Hor as [Hg|Hp]; [done|]. exfalso.
    apply (f_equal blen) in Hp'. rewrite Hp, images_snoc, !blen_app in Hp'.
    pose proof (length_record_image r) as Hlr. fold (blen (record_image r)) in Hlr.
    pose proof (blen_nonneg tail). pose proof (blen_nonneg (jr_payload r)).
    unfold kRecordHeaderBytes in Hlr. lia.
Qed.

(** The journal and report an open builds from a scan. *)
Definition reopened (store : bytes) (created base : Z) (rs : list JournalRecord) (torn : Z)
    (o : Opened) : Prop :=
  let content := lay_header store created base ++ images rs in
  let j := mkJournal true content (blen content) (base + blen rs) (blen content) limits false false in
  exists notes,
    o = mkOpened Status_Ok rs
          (Some (mkOpenReport false (negb (torn =? 0)) torn (blen rs) (base + blen rs)
                   (fresh_header store created base) notes)) (Some j) (Some content).

Lemma reopened_holds store created base j rs extra :
  holds store created base j rs -> blen extra <= 1 -> Forall good extra ->
  contiguous (base + 1) (rs ++ extra) -> jn_last_sequence j + 3 < 2 ^ 64 ->
  let content := lay_header store created base ++ images (rs ++ extra) in
  holds store created base
    (mkJournal true content (blen content) (base + blen (rs ++ extra)) (blen content) limits false false)
    (rs ++ extra).
Proof.
  intros [tl []] Hex Hg Hc Hroom. exists []. pose proof (blen_nonneg extra).
  split; jn_fields; try done; [rewrite blen_app; lia| |by rewrite app_nil_r|by left].
  by apply Forall_app.
Qed.

(** Opening what a crash left recovers every acknowledged record. *)
Lemma Open_recovers sid created base j rs p create store now1 now2 :
  holds sid created base j rs -> crash_image j p -> blen p <= max_journal_bytes limits ->
  jn_last_sequence j + 3 < 2 ^ 64 ->
  let o := Journal_Open open_io_good (mkOpenOptions limits create false) store now1 now2 (Some p) in
  exists extra torn, blen extra <= 1 /\ Forall good extra /\
    contiguous (base + 1) (rs ++ extra) /\ reopened sid created base (rs ++ extra) torn o.
Proof.
  intros Hh Hcr Hmax Hroom.
  destruct (crash_scan _ _ _ _ _ _ Hh Hcr) as (p' & extra & tail & -> & Hp' & Hex & Hg & Hc & Hscan).
  pose proof Hh as [tl []]. pose proof (blen_nonneg rs). pose proof (blen_nonneg extra).
  pose proof (length_lay_header sid created base h_store0) as Hlh.
  exists extra, (blen tail). do 3 (split; [done|]).
  unfold Journal_Open. cbn [oi_stat_ok open_io_good negb oi_size_ok op_limits].
  rewrite (proj2 (Z.ltb_ge _ _)) by done. cbn [oi_open_ok oi_read_ok negb].
  rewrite (proj2 (Z.ltb_ge (blen (lay_header sid created base ++ p')) _)).
  2: { rewrite blen_app. unfold blen at 1. rewrite Hlh. pose proof (blen_nonneg p').
       unfold kJournalHeaderBytes. lia. }
  replace (Z.to_nat kJournalHeaderBytes) with (length (lay_header sid created base)) by (by rewrite Hlh).
  rewrite take_app_length, drop_app_length, ParseJournalHeaderImage_ok by (done || lia).
  cbn [jh_base_sequence fresh_header].
  assert (wrap 64 (base + 1) = base + 1) as -> by (unfold wrap; apply Z.mod_small; lia).
  rewrite Hscan. pose proof (last_contiguous base (rs ++ extra) Hc) as Hlast.
  unfold reopened, open_scanned. rewrite <- Hlast.
  destruct (decide (tail = [])) as [->|Hne].
  - rewrite app_nil_r in Hp'. subst p'. by exists [].
  - assert (blen tail =? 0 = false) as -> by (apply Z.eqb_neq; destruct tail; [done|];
      rewrite blen_cons; pose proof (blen_nonneg tail); lia).
    exists [RC_JournalTornTailRecovered].
    cbn [op_read_only oi_flush_ok oi_truncate_ok oi_seek_ok open_io_good negb]. subst p'.
    rewrite app_assoc.
    replace (Z.to_nat (kJournalHeaderBytes + blen (images (rs ++ extra)))) with
      (length (lay_header sid created base ++ images (rs ++ extra)))
      by (rewrite length_app, Hlh; unfold blen, kJournalHeaderBytes; lia).
    rewrite take_app_length. cbn [fresh_header jh_base_sequence op_limits].
    replace (blen ((lay_header sid created base ++ images (rs ++ extra)) ++ tail) -
             (kJournalHeaderBytes + blen (images (rs ++ extra)))) with (blen tail); [done|].
    rewrite !blen_app. unfold blen at 2. rewrite Hlh. unfold kJournalHeaderBytes. lia.
Qed.

(** A file that holds a header and nothing more opens as a journal without records. *)
Lemma Journal_Open_header sid created create store now1 now2 :
  length sid = 16%nat -> i64 created = true -> kJournalHeaderBytes <= max_journal_bytes limits ->
  reopened sid created 0 [] 0
    (Journal_Open open_io_good (mkOpenOptions limits create false) store now1 now2 (Some (lay_header sid created 0))).
Proof.
  intros Hsid Hc Hmax. pose proof (length_lay_header sid created 0 Hsid) as Hlen.
  assert (blen (lay_header sid created 0) = kJournalHeaderBytes) as Hb by (unfold blen; by rewrite Hlen).
  unfold Journal_Open. cbn [oi_stat_ok oi_size_ok oi_open_ok oi_read_ok open_io_good negb op_limits].
  rewrite Hb, (proj2 (Z.ltb_ge _ _)) by done. rewrite Z.ltb_irrefl.
  replace (Z.to_nat kJournalHeaderBytes) with (length (lay_header sid created 0)) by (by rewrite Hlen).
  rewrite firstn_all, drop_all, ParseJournalHeaderImage_ok by done. exists []. rewrite app_nil_r. reflexivity.
Qed.

(** A new journal holds nothing. *)
Lemma fresh_holds store created base bytes_written :
  length store = 16%nat -> i64 created = true -> 0 <= base -> base + 2 < 2 ^ 64 ->
  holds store created base
    (mkJournal true (lay_header store created base) (blen (lay_header store created base)) base
       bytes_written limits false false) [].
Proof.
  intros Hst Hcr Hb Hroom. exists [].
  split; jn_fields; rewrite ?blen_nil, ?app_nil_r; try done; try lia; by left.
Qed.

Lemma open_created_holds store created now j :
  length store = 16%nat -> i64 created = true ->
  od_journal (Journal_Open open_io_good (mkOpenOptions limits true false) store created now None)
    = Some j ->
  holds store created 0 j [].
Proof.
  intros Hst Hcr. unfold Journal_Open, open_created. cbn [oi_stat_ok open_io_good negb
    op_create_if_missing oi_open_ok op_limits op_read_only oi_write].
  unfold WriteHeader. rewrite BuildJournalHeaderImage_lay by done.
  pose proof (length_lay_header store created 0 Hst) as Hl.
  unfold WriteAll. cbn [jn_open jn_write_failed negb jn_content jn_bytes_written].
  assert (blen (lay_header store created 0) = 96) as Hbl by (unfold blen; by rewrite Hl).
  rewrite Hbl. cbn [Z.eqb wi_written io_good]. rewrite Z.eqb_refl. cbn [negb app].
  change (Status_ok Status_Ok) with true. cbn [negb]. unfold FlushToDisk.
  cbn [wi_flush_ok wi_sync_ok io_good negb]. change (Status_ok Status_Ok) with true. cbn [negb].
  intros [= <-]. by apply fresh_holds.
Qed.

(** A reset that succeeds leaves an empty journal that goes on from the last sequence; it does
    not succeed on a journal whose write failed. *)
Lemma Reset_fresh j sid now io :
  jn_read_only j = false -> jn_limits j = limits -> 0 <= jn_last_sequence j -> jn_last_sequence j + 2 < 2 ^ 64 ->
  length sid = 16%nat -> i64 now = true ->
  let '(status, j') := Journal_Reset io sid now j in
  Status_ok status = true ->
  jn_last_sequence j' = jn_last_sequence j /\ holds sid now (jn_last_sequence j) j' [].
Proof.
  intros Hw Hl H0 Hroom Hsid Hnow. unfold Journal_Reset. rewrite Hw.
  destruct (oi_open_ok io); cbn [negb]; [|done].
  cbn [Journal_Close jn_last_sequence jn_bytes_written jn_limits jn_read_only jn_write_failed].
  unfold WriteHeader. rewrite BuildJournalHeaderImage_lay by done.
  pose proof (length_lay_header sid now (jn_last_sequence j) Hsid) as Hlen.
  unfold WriteAll. cbn [jn_open jn_write_failed negb jn_content jn_bytes_written].
  destruct (jn_write_failed j); [done|].
  assert (blen (lay_header sid now (jn_last_sequence j)) = 96) as Hbl by (unfold blen; by rewrite Hlen).
  rewrite Hbl. cbn [Z.eqb]. destruct (wi_written (oi_write io) =? 96); cbn [negb app]; [|done].
  change (Status_ok Status_Ok) with true. cbn [negb]. unfold FlushToDisk.
  destruct (wi_flush_ok _); cbn [negb]; [|done]. destruct (wi_sync_ok _); cbn [negb]; [|done].
  change (Status_ok Status_Ok) with true. cbn [negb]. intros _. split; [done|].
  cbn [set_synced set_content jn_open jn_content jn_synced jn_limits jn_read_only jn_write_failed].
  rewrite Hl, Hw. by apply fresh_holds.
Qed.

Lemma Reset_holds store created base j rs sid now io :
  holds store created base j rs -> length sid = 16%nat -> i64 now = true ->
  let '(status, j') := Journal_Reset io sid now j in
  Status_ok status = true ->
  jn_last_sequence j' = jn_last_sequence j /\ holds sid now (jn_last_sequence j) j' [].
Proof. intros [tl []] Hsid Hnow. pose proof (blen_nonneg rs). apply Reset_fresh; done || lia. Qed.

(** A reset that fails leaves the journal closed, over the file as it was or over what arrived of
    the new header. *)
Lemma Reset_fails j sid now io :
  jn_read_only j = false -> length sid = 16%nat -> 0 <= jn_last_sequence j ->
  let '(status, j') := Journal_Reset io sid now j in
  Status_ok status = false ->
  jn_open j' = false /\ jn_read_only j' = false /\ jn_limits j' = jn_limits j /\
  jn_last_sequence j' = jn_last_sequence j /\
  (jn_content j' = jn_content j /\ jn_synced j' = jn_synced j \/
   exists q, lay_header sid now (jn_last_sequence j) = jn_content j' ++ q).
Proof.
  intros Hw Hsid H0. unfold Journal_Reset. rewrite Hw.
  destruct (oi_open_ok io); cbn [negb]; [|intros _; by split_and!; [..|left]].
  cbn [Journal_Close jn_last_sequence jn_bytes_written jn_limits jn_read_only jn_write_failed].
  unfold WriteHeader, WriteAll. rewrite BuildJournalHeaderImage_lay by done.
  cbn [jn_open jn_write_failed negb jn_content jn_bytes_written].
  set (image := lay_header sid now (jn_last_sequence j)).
  destruct (jn_write_failed j); cbn [Status_ok negb]; [intros _; split_and!; [done..|right; by exists image]|].
  destruct (blen image =? 0) eqn:E0.
  { exfalso. apply Z.eqb_eq in E0. unfold image, blen in E0. by rewrite (length_lay_header _ _ _ Hsid) in E0. }
  destruct (_ =? blen image); cbn [negb].
  - change (Status_ok Status_Ok) with true. cbn [negb]. unfold FlushToDisk.
    destruct (wi_flush_ok _), (wi_sync_ok _); cbn [negb]; intros Hs; try done;
      (split_and!; [done..|right; exists []; by rewrite app_nil_r]).
  - intros _. split_and!; [done..|]. right. exists (drop (Z.to_nat (wi_written (oi_write io))) image).
    cbn [set_content Journal_Close jn_content app]. by rewrite take_drop.
Qed.

(** The life of a journal: created, appended to with any outcome of the host's writes
    and barriers, and reopened after crashes.  The list holds the acknowledged records. *)
Inductive history : Journal -> list JournalRecord -> Prop :=
| history_created store created now j :
  length store = 16%nat -> i64 created = true ->
  od_journal (Journal_Open open_io_good (mkOpenOptions limits true false) store created now None)
    = Some j ->
  history j []
| history_append j acked io type payload :
  history j acked -> type <> RT_Invalid -> P type payload -> jn_last_sequence j + 3 < 2 ^ 64 ->
  history (Append io type payload j).2
    (if Status_ok (Append io type payload j).1
     then acked ++ [mkJournalRecord (jn_last_sequence j + 1) type payload] else acked)
| history_crash j acked p create store now1 now2 j' :
  history j acked -> crash_image j p -> blen p <= max_journal_bytes limits ->
  jn_last_sequence j + 3 < 2 ^ 64 ->
  od_journal (Journal_Open open_io_good (mkOpenOptions limits create false) store now1 now2 (Some p))
    = Some j' ->
  history j' (od_records
    (Journal_Open open_io_good (mkOpenOptions limits create false) store now1 now2 (Some p))).

Lemma history_holds j acked :
  history j acked -> exists store created base, holds store created base j acked.
Proof.
  induction 1 as [store created now j Hst Hcr Ho|j acked io type payload Hh IH Ht HP Hroom|
                  j acked p create store now1 now2 j' Hh IH Hcr Hmax Hroom Ho].
  - exists store, created, 0. by eapply open_created_holds.
  - destruct IH as (sid & created & base & IH). exists sid, created, base.
    pose proof (Append_holds _ _ _ j acked io type payload IH Ht HP Hroom) as Ha.
    destruct (Append io type payload j) as [status j']. destruct Ha as [Ha1 Ha2]. cbn [fst snd].
    destruct (Status_ok status); [|by apply Ha2].
    destruct (Ha1 eq_refl) as [Hl H]. by rewrite Hl in H.
  - destruct IH as (sid & created & base & IH). exists sid, created, base.
    destruct (Open_recovers _ _ _ j acked p create store now1 now2 IH Hcr Hmax Hroom)
      as (extra & torn & Hex & Hg & Hc & notes & Hop).
    rewrite Hop in Ho |- *. cbn in Ho |- *. injection Ho as <-. by apply reopened_holds with j.
Qed.
End Histories.

(** ** Properties *)

(** A journal header and every record built for the journal are accepted back, field
    for field: the header parses to its store, time and base sequence, the record
    header decodes to its type, length and sequence, and the digest verifies. *)
Theorem journal_images_roundtrip limits store created base r :
  limits_wf limits -> record_wf limits r ->
  blen store = 16 -> i64 created = true -> 0 <= base < 2 ^ 64 ->
  ParseJournalHeaderImage (BuildJournalHeaderImage store created base) =
    Some (fresh_header store created base) /\
  let image := BuildRecordImage (jr_sequence r) (jr_type r) (jr_payload r) in
  blen image = kRecordHeaderBytes + blen (jr_payload r) /\
  DecodeRecordHeader image (blen image) (wrap 32 (max_journal_payload_bytes limits)) =
    Some (jr_type r, blen (jr_payload r), jr_sequence r) /\
  VerifyRecordImage image = true.
Proof.
  intros Hl Hr Hst Hcr Hb. assert (length store = 16%nat) as Hst' by (unfold blen in Hst; lia).
  pose proof Hl as [Hl1 Hl2]. pose proof Hr as (_ & Hs & Hp).
  rewrite BuildJournalHeaderImage_lay by (done || lia).
  rewrite BuildRecordImage_lay by lia. split; [by apply ParseJournalHeaderImage_ok|].
  cbv zeta. split; [apply blen_lay_record|]. split; [|exact (VerifyRecordImage_ok limits r Hl Hr)].
  pose proof (DecodeRecordHeader_ok limits r
    (record_digest (jr_sequence r) (jr_type r) (jr_payload r) ++ jr_payload r) Hl Hr) as H.
  assert (blen (record_digest (jr_sequence r) (jr_type r) (jr_payload r)) = 32) as Hd
    by (unfold blen; by rewrite length_record_digest).
  rewrite blen_lay_record. unfold lay_record.
  rewrite blen_app, Hd in H.
  replace (kRecordHeaderBytes + blen (jr_payload r)) with
    (24 + (32 + blen (jr_payload r))) by (unfold kRecordHeaderBytes; lia).
  apply H. pose proof (blen_nonneg (jr_payload r)). lia.
Qed.

Lemma journal_images_roundtrip_witness :
  VerifyRecordImage (BuildRecordImage 7 RT_FencePut (B "payload")) = true.
Proof.
  apply (journal_images_roundtrip default_limits (repeat Byte.x07 16) 1700000000000 6
           (mkJournalRecord 7 RT_FencePut (B "payload"))).
  - split; vm_compute; [discriminate|reflexivity].
  - repeat split; vm_compute; discriminate || reflexivity.
  - reflexivity.
  - reflexivity.
  - split; vm_compute; [discriminate|reflexivity].
Defined.

(** C3. Crash safety of the journal: whatever sequence of appends, host write errors and
    earlier crashes produced the file, after a crash that keeps at least what was
    behind the last barrier the journal opens, every acknowledged record is there in
    order and intact, and at most the one record whose append was not acknowledged
    follows them. *)
Theorem acknowledged_records_survive limits j acked p create store now1 now2 :
  limits_wf limits -> history limits (fun _ _ => True) j acked -> crash_image j p ->
  blen p <= max_journal_bytes limits -> jn_last_sequence j + 3 < 2 ^ 64 ->
  let o := Journal_Open open_io_good (mkOpenOptions limits create false) store now1 now2 (Some p) in
  od_status o = Status_Ok /\ exists extra, od_records o = acked ++ extra /\ blen extra <= 1.
Proof.
  intros Hl Hh Hc Hmax Hroom. apply history_holds in Hh as (sid & created & base & Hh); [|done].
  destruct (Open_recovers limits Hl _ _ _ _ j acked p create store now1 now2 Hh Hc Hmax Hroom)
    as (extra & torn & Hex & _ & _ & notes & Hop).
  cbv zeta. rewrite Hop. split; [done|]. by exists extra.
Qed.

(** A history with an acknowledged record, a torn append and a crash in its middle. *)
Definition example_store : bytes := repeat Byte.x07 16.
Definition example_journal0 : Journal :=
  mkJournal true (BuildJournalHeaderImage example_store 1700000000000 0) 96 0 96 default_limits
    false false.
Definition example_journal1 : Journal :=
  (Append (io_good 61) RT_EpochAdvance (B "first") example_journal0).2.
Definition example_journal2 : Journal :=
  (Append (mkWriteIo 40 true true) RT_FencePut (B "second") example_journal1).2.

Lemma acknowledged_records_survive_witness :
  exists extra,
    od_records (Journal_Open open_io_good (mkOpenOptions default_limits true false) example_store
                  0 0 (Some (take 180 (jn_content example_journal2)))) =
    [mkJournalRecord 1 RT_EpochAdvance (B "first")] ++ extra.
Proof.
  destruct (acknowledged_records_survive default_limits example_journal2
    [mkJournalRecord 1 RT_EpochAdvance (B "first")] (take 180 (jn_content example_journal2))
    true example_store 0 0) as (_ & extra & Hr & _).
  - split; vm_compute; [discriminate|reflexivity].
  - apply (history_append default_limits (fun _ _ => True) example_journal1
      [mkJournalRecord 1 RT_EpochAdvance (B "first")] (mkWriteIo 40 true true) RT_FencePut
      (B "second")); [|discriminate|exact I|vm_compute; reflexivity].
    apply (history_append default_limits (fun _ _ => True) example_journal0 [] (io_good 61) RT_EpochAdvance
      (B "first")); [|discriminate|exact I|vm_compute; reflexivity].
    apply (history_created default_limits (fun _ _ => True) example_store 1700000000000 0);
      [reflexivity|reflexivity|vm_compute; reflexivity].
  - exists (drop 180 (jn_content example_journal2)). split; [by rewrite take_drop|].
    vm_compute. discriminate.
  - vm_compute. discriminate.
  - vm_compute. reflexivity.
  - by exists extra.
Defined.

(** A journal fails closed: an append that was accepted for writing and then fails, at
    the write or at either barrier, poisons the journal, and from then on every append is
    refused and leaves the file untouched, whatever the host would answer. *)
Theorem append_fails_closed j io type payload :
  jn_open j && negb (jn_read_only j) &&
    (blen payload <=? max_journal_payload_bytes (jn_limits j)) = true ->
  Status_ok (Append io type payload j).1 = false ->
  let j' := (Append io type payload j).2 in
  jn_write_failed j' = true /\
  forall io' type' payload',
    Status_ok (Append io' type' payload' j').1 = false /\
    jn_content (Append io' type' payload' j').2 = jn_content j'.
Proof.
  intros Hok Hfail. bool_hyps. cbv zeta.
  assert (jn_write_failed (Append io type payload j).2 = true) as Hf.
  { revert Hfail. unfold Append, WriteAll, FlushToDisk. rewrite H, H1. cbn [negb].
    rewrite (proj2 (Z.ltb_ge _ _)) by done.
    destruct (jn_write_failed j) eqn:Ef; [done|].
    destruct (_ =? 0); [|destruct (negb (_ =? _)); [done|]];
      change (Status_ok Status_Ok) with true; cbn [negb];
      destruct (wi_flush_ok io), (wi_sync_ok io); done. }
  split; [done|]. revert Hf. generalize (Append io type payload j).2. clear. intros j Hf io type payload.
  unfold Append. destruct (jn_read_only j); [done|]. destruct (negb (jn_open j)) eqn:Ho; [done|].
  destruct (_ <? _); [done|]. unfold WriteAll. by rewrite Ho, Hf.
Qed.

Lemma append_fails_closed_witness :
  jn_write_failed example_journal2 = true /\
  forall io' type' payload',
    Status_ok (Append io' type' payload' example_journal2).1 = false /\
    jn_content (Append io' type' payload' example_journal2).2 = jn_content example_journal2.
Proof.
  apply (append_fails_closed example_journal1 (mkWriteIo 40 true true) RT_FencePut (B "second"));
    vm_compute; reflexivity.
Defined.
