(* ===== verification/Snapshot.v ===== *)
(** * Snapshots (snapshot.hpp, snapshot.cpp)

    The snapshot image (header, digest, payload), its parser, and publication through a
    staging file.  The directory entry is the pair of what is published and what is
    staged; the answers of the host's file operations are inputs, and publication also
    returns the directory at every point where a crash can strike. *)

From Stdlib Require Import ZArith Lia.
From stdpp Require Import prelude.
From S2P Require Import Prelude OrdMap Hash Status Identity Canonical Journal.
Local Open Scope Z_scope.

(** ** Images *)

(** Models [kSnapshotFormatVersion], include/summon/fabric_reconciliation/version.hpp:26-26. *)
Definition kSnapshotFormatVersion : Z := 1.
(** Models [kSnapshotHeaderBytes], include/summon/fabric_reconciliation/snapshot.hpp:29-29. *)
Definition kSnapshotHeaderBytes : Z := 112.
(** Models [kSnapshotMagic], include/summon/fabric_reconciliation/snapshot.hpp:30-31. *)
Definition kSnapshotMagic : bytes := B "FABRSNAP".

(** Models [SnapshotHeader], include/summon/fabric_reconciliation/snapshot.hpp:33-41. *)
Record SnapshotHeader := mkSnapshotHeader {
  sh_format_version : Z;
  sh_header_bytes : Z;
  sh_store : bytes;
  sh_watermark : Z;
  sh_epoch : Z;
  sh_created_unix_ms : Z;
  sh_payload_len : Z
}.

(** The header of an image before its digest is stored. *)
Definition snapshot_prefix (header : SnapshotHeader) (payload : bytes) : bytes :=
  let image := repeat Byte.x00 (Z.to_nat kSnapshotHeaderBytes) in
  let image := store_at 0 kSnapshotMagic image in
  let image := StoreU32 8 (sh_format_version header) image in
  let image := StoreU32 12 (sh_header_bytes header) image in
  let image := store_at 16 (sh_store header) image in
  let image := StoreU64 32 (sh_watermark header) image in
  let image := StoreU64 40 (sh_epoch header) image in
  let image := StoreU64 48 (wrap 64 (sh_created_unix_ms header)) image in
  StoreU64 56 (blen payload) image.

(** Models [BuildSnapshotImage], src/snapshot.cpp:79-97. *)
Definition BuildSnapshotImage (header : SnapshotHeader) (payload : bytes) : bytes :=
  let image := snapshot_prefix header payload in
  let digest := Sha256OfParts [take 80 image; payload] in
  store_at 80 digest image ++ payload.

(** Models [ParseSnapshotImage], src/snapshot.cpp:99-143. *)
Definition ParseSnapshotImage (image : bytes) : option (SnapshotHeader * bytes) :=
  if blen image <? kSnapshotHeaderBytes then None
  else if negb (bool_decide (take 8 image = kSnapshotMagic)) then None
  else
    let version := LoadU32 8 image in
    let header_bytes := LoadU32 12 image in
    if negb (version =? kSnapshotFormatVersion) then None
    else if negb (header_bytes =? kSnapshotHeaderBytes) then None
    else if negb (forallb (is_char 0) (slice 64 16 image)) then None
    else
      let payload_len := LoadU64 56 image in
      if negb (blen image - kSnapshotHeaderBytes =? payload_len) then None
      else
        let payload := slice (Z.to_nat kSnapshotHeaderBytes) (Z.to_nat payload_len) image in
        if negb (bool_decide (slice 80 32 image = Sha256OfParts [take 80 image; payload])) then None
        else
          Some (mkSnapshotHeader version header_bytes (slice 16 16 image) (LoadU64 32 image)
                  (LoadU64 40 image) (to_signed 64 (LoadU64 48 image)) payload_len,
                payload).

(** ** Publication *)

(** The snapshot's entries of the store directory. *)
Record SnapshotDir := mkSnapshotDir { sd_published : option bytes; sd_staging : option bytes }.

(** What the host answers: removing the old staging file, creating the new one, the bytes
    [fwrite] took, the barrier, the rename, and removing the staging file after an error. *)
Record PublishIo := mkPublishIo {
  pi_remove_ok : bool;
  pi_create_ok : bool;
  pi_written : Z;
  pi_flush_ok : bool;
  pi_sync_ok : bool;
  pi_rename_ok : bool;
  pi_cleanup_ok : bool
}.

Definition publish_io_good (size : Z) : PublishIo := mkPublishIo true true size true true true true.

Definition remove_staging (ok : bool) (dir : SnapshotDir) : SnapshotDir :=
  if ok then mkSnapshotDir (sd_published dir) None else dir.

(** Models [WriteSnapshotAtomic], src/snapshot.cpp:145-176. The last component lists the
    directory before each of the steps that change it, oldest first. *)
Definition WriteSnapshotAtomic (io : PublishIo) (header : SnapshotHeader) (payload : bytes)
    (dir : SnapshotDir) : Status * SnapshotDir * list SnapshotDir :=
  let dir1 := remove_staging (pi_remove_ok io) dir in
  if negb (pi_create_ok io) then
    (mkStatus SC_Rejected RC_SnapshotReplacementFailed (B "cannot create snapshot staging file"),
     dir1, [dir])
  else
    let dir2 := mkSnapshotDir (sd_published dir1) (Some []) in
    let image := BuildSnapshotImage header payload in
    let dir3 := mkSnapshotDir (sd_published dir1) (Some (take (Z.to_nat (pi_written io)) image)) in
    if negb (pi_written io =? blen image) then
      (mkStatus SC_IntegrityFailure RC_SnapshotReplacementFailed
         (B "short write on snapshot staging file"),
       remove_staging (pi_cleanup_ok io) dir3, [dir; dir1; dir2; dir3])
    else if negb (pi_flush_ok io) then
      (mkStatus SC_IntegrityFailure RC_DurableWriteFailed (B "flush failed"),
       remove_staging (pi_cleanup_ok io) dir3, [dir; dir1; dir2; dir3])
    else if negb (pi_sync_ok io) then
      (mkStatus SC_IntegrityFailure RC_DurableWriteFailed (B "fsync failed"),
       remove_staging (pi_cleanup_ok io) dir3, [dir; dir1; dir2; dir3])
    else if negb (pi_rename_ok io) then
      (mkStatus SC_IntegrityFailure RC_SnapshotReplacementFailed
         (B "atomic snapshot replacement failed"),
       remove_staging (pi_cleanup_ok io) dir3, [dir; dir1; dir2; dir3])
    else (Status_Ok, mkSnapshotDir (Some image) None, [dir; dir1; dir2; dir3]).

(** What the host answers while a snapshot is read. *)
Record ReadIo := mkReadIo { ri_size_ok : bool; ri_open_ok : bool; ri_read_ok : bool }.

Definition read_io_good : ReadIo := mkReadIo true true true.

(** Models [ReadSnapshot], src/snapshot.cpp:178-218. *)
Definition ReadSnapshot (io : ReadIo) (limits : RuntimeLimits) (dir : SnapshotDir)
  : Status * option (SnapshotHeader * bytes) :=
  match sd_published dir with
  | None => (mkStatus SC_NotFound RC_None (B "snapshot does not exist"), None)
  | Some content =>
    if negb (ri_size_ok io) then
      (mkStatus SC_Rejected RC_SnapshotDigestMismatch (B "cannot size snapshot file"), None)
    else if max_journal_bytes limits + kSnapshotHeaderBytes <? blen content then
      (mkStatus SC_LimitExceeded RC_SnapshotDigestMismatch
         (B "snapshot exceeds the configured maximum size"), None)
    else if negb (ri_open_ok io) then
      (mkStatus SC_Rejected RC_SnapshotDigestMismatch (B "cannot open snapshot file"), None)
    else if (0 <? blen content) && negb (ri_read_ok io) then
      (mkStatus SC_IntegrityFailure RC_SnapshotDigestMismatch (B "short read on snapshot file"), None)
    else
      match ParseSnapshotImage content with
      | None =>
        (mkStatus SC_IntegrityFailure RC_SnapshotDigestMismatch (B "snapshot failed validation"), None)
      | Some parsed => (Status_Ok, Some parsed)
      end
  end.

(** Models [RemoveStagingFile], src/snapshot.cpp:220-229. *)
Definition RemoveStagingFile (ok : bool) (dir : SnapshotDir) : Status * SnapshotDir :=
  if ok then (Status_Ok, remove_staging true dir)
  else (mkStatus SC_IntegrityFailure RC_SnapshotReplacementFailed
          (B "cannot remove snapshot staging file"), dir).

(** ** Layout of an image *)

Definition snapshot_head (header : SnapshotHeader) (payload : bytes) : bytes :=
  kSnapshotMagic ++ le_bytes 4 (sh_format_version header) ++ le_bytes 4 (sh_header_bytes header) ++
  sh_store header ++ le_bytes 8 (sh_watermark header) ++ le_bytes 8 (sh_epoch header) ++
  le_bytes 8 (wrap 64 (sh_created_unix_ms header)) ++ le_bytes 8 (blen payload) ++
  repeat Byte.x00 16.

Definition lay_snapshot (header : SnapshotHeader) (payload : bytes) : bytes :=
  snapshot_head header payload ++ Sha256Of (snapshot_head header payload ++ payload) ++ payload.

(** The headers the store publishes. *)
Definition snapshot_header_wf (h : SnapshotHeader) (payload : bytes) : bool :=
  (sh_format_version h =? kSnapshotFormatVersion) && (sh_header_bytes h =? kSnapshotHeaderBytes) &&
  (blen (sh_store h) =? 16) && u64 (sh_watermark h) && u64 (sh_epoch h) &&
  i64 (sh_created_unix_ms h) && (sh_payload_len h =? blen payload) && u64 (blen payload).

Lemma length_snapshot_head h p :
  length (sh_store h) = 16%nat -> length (snapshot_head h p) = 80%nat.
Proof. intros H. unfold snapshot_head. rewrite !length_app, !length_le_bytes, H. done. Qed.

Lemma eight_bytes v : exists a b c d e f g h, le_bytes 8 v = [a; b; c; d; e; f; g; h].
Proof. cbn. eauto 12. Qed.

Lemma snapshot_prefix_head h p :
  snapshot_header_wf h p = true ->
  snapshot_prefix h p = snapshot_head h p ++ repeat Byte.x00 32.
Proof.
  unfold snapshot_header_wf. intros Hwf. bool_hyps.
  unfold snapshot_prefix, snapshot_head. cbv zeta.
  repeat match goal with H : u64 _ = true |- _ => apply u_range in H end.
  rewrite !StoreU64_le by (lia || by apply wrap_nonneg).
  destruct h as [v hb store wm ep cr pl]. cbn [sh_format_version sh_header_bytes sh_store
    sh_watermark sh_epoch sh_created_unix_ms sh_payload_len] in *. subst v hb.
  rewrite !StoreU32_le by done.
  assert (length store = 16%nat) as Hst by (unfold blen in *; lia).
  destruct (sixteen_bytes store Hst)
    as (a & b & c & d & e & f & g & h & i & j & k & m & n & o & q & r & ->).
  destruct (eight_bytes wm) as (? & ? & ? & ? & ? & ? & ? & ? & ->).
  destruct (eight_bytes ep) as (? & ? & ? & ? & ? & ? & ? & ? & ->).
  destruct (eight_bytes (wrap 64 cr)) as (? & ? & ? & ? & ? & ? & ? & ? & ->).
  destruct (eight_bytes (blen p)) as (? & ? & ? & ? & ? & ? & ? & ? & ->).
  reflexivity.
Qed.

Lemma snapshot_store_length h p :
  snapshot_header_wf h p = true -> length (sh_store h) = 16%nat.
Proof. unfold snapshot_header_wf, blen. intros H. bool_hyps. lia. Qed.

Lemma BuildSnapshotImage_lay h p :
  snapshot_header_wf h p = true -> BuildSnapshotImage h p = lay_snapshot h p.
Proof.
  intros Hwf. pose proof (length_snapshot_head h p (snapshot_store_length h p Hwf)) as Hl.
  unfold BuildSnapshotImage. cbv zeta. rewrite snapshot_prefix_head by done.
  rewrite <- Hl, take_app_length, Sha256OfParts_two. unfold lay_snapshot.
  rewrite <- (app_nil_r (repeat Byte.x00 32)), store_at_middle by (by rewrite length_Sha256Of).
  by rewrite app_nil_r, <- app_assoc.
Qed.

(** The fields of an image are where the parser looks for them. *)
Lemma snapshot_fields h p q :
  snapshot_header_wf h p = true ->
  let data := snapshot_head h p ++ q in
  take 8 data = kSnapshotMagic /\ LoadU32 8 data = sh_format_version h /\
  LoadU32 12 data = sh_header_bytes h /\ slice 16 16 data = sh_store h /\
  LoadU64 32 data = sh_watermark h /\ LoadU64 40 data = sh_epoch h /\
  LoadU64 48 data = wrap 64 (sh_created_unix_ms h) /\ LoadU64 56 data = blen p /\
  slice 64 16 data = repeat Byte.x00 16 /\ take 80 data = snapshot_head h p.
Proof.
  intros Hwf data. subst data. pose proof (snapshot_store_length h p Hwf) as Hst.
  assert (take 80 (snapshot_head h p ++ q) = snapshot_head h p) as ->.
  { rewrite <- (length_snapshot_head h p Hst). apply take_app_length. }
  unfold snapshot_header_wf in Hwf. bool_hyps.
  repeat match goal with H : u64 _ = true |- _ => apply u_range in H end.
  assert (0 <= wrap 64 (sh_created_unix_ms h) < 2 ^ 64)
    by (unfold wrap; apply Z.mod_pos_bound; lia).
  assert (forall (a b c : bytes) n, length a = n -> length b = 16%nat -> slice n 16 (a ++ b ++ c) = b)
    as Hslice by (intros a b c n <- <-; apply slice_app).
  unfold snapshot_head. rewrite <- !app_assoc.
  split; [done|]. split; [apply load_field; [done|]; rewrite H; done|]. rewrite app_assoc.
  split; [apply load_field; [done|]; rewrite H6; done|]. rewrite app_assoc.
  split; [by apply Hslice|]. rewrite app_assoc.
  do 4 (split; [apply load_field; [by rewrite !length_app, Hst|done]|]; rewrite app_assoc).
  split; [|done]. apply Hslice; [|done]. by rewrite !length_app, !length_le_bytes, Hst.
Qed.

Lemma blen_lay_snapshot h p :
  snapshot_header_wf h p = true -> blen (lay_snapshot h p) = kSnapshotHeaderBytes + blen p.
Proof.
  intros Hwf. unfold lay_snapshot, kSnapshotHeaderBytes, blen. rewrite !length_app.
  rewrite length_Sha256Of, (length_snapshot_head h p (snapshot_store_length h p Hwf)).
  unfold kSha256Bytes. lia.
Qed.

Lemma ParseSnapshotImage_lay h p :
  snapshot_header_wf h p = true -> ParseSnapshotImage (lay_snapshot h p) = Some (h, p).
Proof.
  intros Hwf. pose proof (blen_lay_snapshot h p Hwf) as Hlen. pose proof (blen_nonneg p).
  pose proof (length_snapshot_head h p (snapshot_store_length h p Hwf)) as Hl.
  unfold ParseSnapshotImage. rewrite Hlen, (proj2 (Z.ltb_ge _ _)) by lia. cbv zeta.
  assert (slice 80 32 (lay_snapshot h p) = Sha256Of (snapshot_head h p ++ p)) as ->.
  { pose proof (slice_app (snapshot_head h p) (Sha256Of (snapshot_head h p ++ p)) p) as F.
    by rewrite Hl, length_Sha256Of in F. }
  assert (slice (Z.to_nat kSnapshotHeaderBytes) (Z.to_nat (blen p)) (lay_snapshot h p) = p) as Hp.
  { pose proof (slice_app (snapshot_head h p ++ Sha256Of (snapshot_head h p ++ p)) p []) as F.
    rewrite app_nil_r, length_app, Hl, length_Sha256Of, <- app_assoc in F.
    unfold blen. by rewrite Nat2Z.id. }
  pose proof (snapshot_fields h p (Sha256Of (snapshot_head h p ++ p) ++ p) Hwf) as F.
  cbv zeta in F. fold (lay_snapshot h p) in F.
  destruct F as (-> & -> & -> & -> & -> & -> & -> & -> & -> & ->). rewrite Hp.
  unfold snapshot_header_wf in Hwf. bool_hyps.
  rewrite bool_decide_eq_true_2 by done. cbn [negb].
  replace (kSnapshotHeaderBytes + blen p - kSnapshotHeaderBytes) with (blen p) by lia.
  rewrite (proj2 (Z.eqb_eq _ _) H0), (proj2 (Z.eqb_eq _ _) H7), Z.eqb_refl. cbn [negb].
  change (forallb (is_char 0) (repeat Byte.x00 16)) with true. cbn [negb].
  rewrite Sha256OfParts_two, bool_decide_eq_true_2 by done. cbn [negb].
  rewrite to_signed_wrap by done. by destruct h; simpl in *; subst.
Qed.

(** What is published at every point of a publication. *)
Lemma publication_published io header payload dir :
  let '(status, dir', trace) := WriteSnapshotAtomic io header payload dir in
  forall d, d ∈ dir' :: trace ->
    sd_published d = sd_published dir \/ sd_published d = Some (BuildSnapshotImage header payload).
Proof.
  unfold WriteSnapshotAtomic.
  assert (forall ok d, sd_published (remove_staging ok d) = sd_published d) as Hr by (by intros []).
  repeat match goal with |- context [if negb ?c then _ else _] => destruct c; cbn [negb] end;
    intros d Hd; set_unfold in Hd; repeat destruct Hd as [->|Hd]; rewrite ?Hr; cbn [sd_published];
    rewrite ?Hr; auto; done.
Qed.

(** ** Properties *)

(** A published snapshot is read back with the header and payload it was built from. *)
Theorem snapshot_image_roundtrip header payload :
  snapshot_header_wf header payload = true ->
  ParseSnapshotImage (BuildSnapshotImage header payload) = Some (header, payload).
Proof. intros H. rewrite BuildSnapshotImage_lay by done. by apply ParseSnapshotImage_lay. Qed.

Definition example_snapshot_header : SnapshotHeader :=
  mkSnapshotHeader 1 112 (repeat Byte.x07 16) 41 3 1700000000000 5.

Lemma snapshot_image_roundtrip_witness :
  ParseSnapshotImage (BuildSnapshotImage example_snapshot_header (B "state")) =
    Some (example_snapshot_header, B "state").
Proof. apply snapshot_image_roundtrip. reflexivity. Defined.

(** Publication is atomic: at every point where a crash can strike, whatever the host
    answers, what is published is still the old snapshot; when publication reports
    success the complete new image is published, and when it fails the old one is. *)
Theorem publication_is_atomic io header payload dir :
  let '(status, dir', trace) := WriteSnapshotAtomic io header payload dir in
  Forall (fun d => sd_published d = sd_published dir) trace /\
  sd_published dir' =
    (if Status_ok status then Some (BuildSnapshotImage header payload) else sd_published dir).
Proof.
  unfold WriteSnapshotAtomic.
  assert (sd_published (remove_staging (pi_remove_ok io) dir) = sd_published dir) as Hd
    by (by destruct (pi_remove_ok io)).
  destruct (pi_create_ok io); [|by repeat constructor]. cbn [negb].
  repeat match goal with |- context [if negb ?c then _ else _] => destruct c; cbn [negb] end;
    (split; [by repeat constructor|]); try done; by destruct (pi_cleanup_ok io).
Qed.
