(* ===== verification/StoreState.v ===== *)
(** * The durable state and its records (store.hpp, store.cpp)

    The attempt codec, the durable state, what applying each journal record does to it
    (with the retention trims), and the snapshot payload that holds the whole state. *)

From Stdlib Require Import ZArith Lia.
From stdpp Require Import prelude.
From S2P Require Import Prelude OrdMap Hash Status Identity Canonical Value Policy Document Drift.
From S2P Require Import Authority Plan Lineage Journal.
Local Open Scope Z_scope.

(** ** The attempt codec *)

Definition put_transition (t : AttemptTransition) : Put :=
  PutU8 (AttemptState_to_Z (tr_from t)) ;+
  PutU8 (AttemptState_to_Z (tr_to t)) ;+
  PutU64 (tr_epoch t) ;+
  PutBytes (tr_boot t) ;+
  PutI64 (tr_at_unix_ms t) ;+
  PutU16 (tr_reason t) ;+
  PutU16 (tr_verification_reason t).

(** Models [EncodeAttempt], src/store.cpp:69-92. *)
Definition EncodeAttempt (attempt : AttemptRecord) : Put :=
  PutU64 (at_id attempt) ;+
  PutDigest (at_idempotency_key attempt) ;+
  PutBytes (at_scope attempt) ;+
  PutBytes (at_subject attempt) ;+
  PutU8 (ActionKind_to_Z (at_action attempt)) ;+
  PutU64 (at_epoch attempt) ;+
  PutBytes (at_boot attempt) ;+
  AuthorityVector_Encode (at_authority attempt) ;+
  PutU8 (AttemptState_to_Z (at_state attempt)) ;+
  PutI64 (at_issued_unix_ms attempt) ;+
  PutU32 (Z.land (blen (at_transitions attempt)) 0xffffffff) ;+
  put_each put_transition (at_transitions attempt).

(** The loop body of [DecodeAttempt], src/store.cpp:135-166. *)
Definition read_transition : Read AttemptTransition :=
  from ← ReadU8;
  to ← ReadU8;
  transition_epoch ← ReadU64;
  transition_boot ← ReadBytes;
  _ ← require (blen transition_boot =? 16);
  at_unix_ms ← ReadI64;
  reason ← ReadU16;
  verification ← ReadU16;
  from ← read_attempt_state from;
  to ← read_attempt_state to;
  _ ← require ((reason <=? kMaxReason) && (verification <=? kMaxReason));
  mret (mkTransition from to transition_epoch transition_boot at_unix_ms reason verification).

(** Models [DecodeAttempt], src/store.cpp:94-169. *)
Definition DecodeAttempt (limits : RuntimeLimits) : Read AttemptRecord :=
  id ← ReadU64;
  idempotency_key ← ReadDigest;
  scope_text ← ReadBytes;
  subject_text ← ReadBytes;
  action ← ReadU8;
  epoch ← ReadU64;
  boot_text ← ReadBytes;
  _ ← require (blen boot_text =? 16);
  authority ← AuthorityVector_Decode;
  state ← ReadU8;
  issued ← ReadI64;
  transitions ← ReadU32;
  _ ← require (negb (id =? 0));
  action ← read_action action;
  _ ← require (negb (state =? 0));
  state ← read_attempt_state state;
  _ ← require (transitions <=? max_attempt_transitions limits);
  _ ← require (all_ids_parse [scope_text; subject_text]);
  list ← read_list transitions read_transition;
  mret (mkAttempt id idempotency_key scope_text subject_text action epoch boot_text authority
          state issued list).

(** Models [EncodeAttemptRecord], src/store.cpp:171-178. *)
Definition EncodeAttemptRecord (attempt : AttemptRecord) : bytes :=
  finish (EncodeAttempt attempt writer_empty).

(** ** The durable state *)

(** Models [DurableState], include/summon/fabric_reconciliation/store.hpp:46-65. *)
Record DurableState := mkState {
  ds_store : bytes;
  ds_last_epoch : Z;
  ds_sequence : Z;
  ds_next_attempt : Z;
  ds_has_policy : bool;
  ds_policy : ReconciliationPolicy;
  ds_intents : list (bytes * IntentDocument);
  ds_intent_generations : list (bytes * list Z);
  ds_observations : list (bytes * list ObservationDocument);
  ds_attempts : list (Z * AttemptRecord);
  ds_outcomes : list ReconciliationOutcome;
  ds_fences : list (bytes * FenceEntry);
  ds_compactions : Z
}.

(** A default-constructed [ReconciliationPolicy]: the member initialisers, no identity. *)
Definition empty_policy : ReconciliationPolicy :=
  mkPolicy [] 0 (mkFreshness 30000 true true) true true true true true [] [].

(** A default-constructed [DurableState]. *)
Definition empty_state : DurableState :=
  mkState (repeat Byte.x00 16) 0 0 1 false empty_policy [] [] [] [] [] [] 0.

Definition with_store (v : bytes) (s : DurableState) : DurableState :=
  mkState v (ds_last_epoch s) (ds_sequence s) (ds_next_attempt s) (ds_has_policy s) (ds_policy s)
    (ds_intents s) (ds_intent_generations s) (ds_observations s) (ds_attempts s) (ds_outcomes s)
    (ds_fences s) (ds_compactions s).
Definition with_last_epoch (v : Z) (s : DurableState) : DurableState :=
  mkState (ds_store s) v (ds_sequence s) (ds_next_attempt s) (ds_has_policy s) (ds_policy s)
    (ds_intents s) (ds_intent_generations s) (ds_observations s) (ds_attempts s) (ds_outcomes s)
    (ds_fences s) (ds_compactions s).
Definition with_sequence (v : Z) (s : DurableState) : DurableState :=
  mkState (ds_store s) (ds_last_epoch s) v (ds_next_attempt s) (ds_has_policy s) (ds_policy s)
    (ds_intents s) (ds_intent_generations s) (ds_observations s) (ds_attempts s) (ds_outcomes s)
    (ds_fences s) (ds_compactions s).
Definition with_policy (v : ReconciliationPolicy) (s : DurableState) : DurableState :=
  mkState (ds_store s) (ds_last_epoch s) (ds_sequence s) (ds_next_attempt s) true v
    (ds_intents s) (ds_intent_generations s) (ds_observations s) (ds_attempts s) (ds_outcomes s)
    (ds_fences s) (ds_compactions s).
Definition with_intents (i : list (bytes * IntentDocument)) (g : list (bytes * list Z))
    (s : DurableState) : DurableState :=
  mkState (ds_store s) (ds_last_epoch s) (ds_sequence s) (ds_next_attempt s) (ds_has_policy s)
    (ds_policy s) i g (ds_observations s) (ds_attempts s) (ds_outcomes s) (ds_fences s)
    (ds_compactions s).
Definition with_observations (v : list (bytes * list ObservationDocument)) (s : DurableState)
  : DurableState :=
  mkState (ds_store s) (ds_last_epoch s) (ds_sequence s) (ds_next_attempt s) (ds_has_policy s)
    (ds_policy s) (ds_intents s) (ds_intent_generations s) v (ds_attempts s) (ds_outcomes s)
    (ds_fences s) (ds_compactions s).
Definition with_attempts (next : Z) (v : list (Z * AttemptRecord)) (s : DurableState)
  : DurableState :=
  mkState (ds_store s) (ds_last_epoch s) (ds_sequence s) next (ds_has_policy s)
    (ds_policy s) (ds_intents s) (ds_intent_generations s) (ds_observations s) v (ds_outcomes s)
    (ds_fences s) (ds_compactions s).
Definition with_outcomes (v : list ReconciliationOutcome) (s : DurableState) : DurableState :=
  mkState (ds_store s) (ds_last_epoch s) (ds_sequence s) (ds_next_attempt s) (ds_has_policy s)
    (ds_policy s) (ds_intents s) (ds_intent_generations s) (ds_observations s) (ds_attempts s) v
    (ds_fences s) (ds_compactions s).
Definition with_fences (v : list (bytes * FenceEntry)) (s : DurableState) : DurableState :=
  mkState (ds_store s) (ds_last_epoch s) (ds_sequence s) (ds_next_attempt s) (ds_has_policy s)
    (ds_policy s) (ds_intents s) (ds_intent_generations s) (ds_observations s) (ds_attempts s)
    (ds_outcomes s) v (ds_compactions s).
Definition with_compactions (v : Z) (s : DurableState) : DurableState :=
  mkState (ds_store s) (ds_last_epoch s) (ds_sequence s) (ds_next_attempt s) (ds_has_policy s)
    (ds_policy s) (ds_intents s) (ds_intent_generations s) (ds_observations s) (ds_attempts s)
    (ds_outcomes s) (ds_fences s) v.

(** ** Retention *)

(** [while (size > bound) pop_front()], and the equivalent range erase. *)
Definition keep_last {A} (bound : Z) (l : list A) : list A :=
  drop (Z.to_nat (blen l - bound)) l.

(** [map[key]]: the value, default-constructed when absent. *)
Definition entry_or_empty {A} (key : bytes) (m : list (bytes * list A)) : list A :=
  match om_find key m with Some l => l | None => [] end.

(** Models [DurableStore::TrimObservations], src/store.cpp:459-468. *)
Definition TrimObservations (limits : RuntimeLimits) (scope : bytes)
    (m : list (bytes * list ObservationDocument)) : list (bytes * list ObservationDocument) :=
  match om_find scope m with
  | None => m
  | Some stream => om_insert scope (keep_last (max_retained_observations_per_scope limits) stream) m
  end.

(** The scan for the victim: the first terminal attempt in identity order. *)
Fixpoint first_terminal (m : list (Z * AttemptRecord)) : option Z :=
  match m with
  | [] => None
  | (id, attempt) :: m' =>
    if IsTerminalAttemptState (at_state attempt) then Some id else first_terminal m'
  end.

(** Models [DurableStore::TrimAttempts], src/store.cpp:470-484. Every round erases an attempt, so
    the size of the map is enough fuel. *)
Fixpoint trim_attempts (fuel : nat) (bound : Z) (m : list (Z * AttemptRecord))
  : list (Z * AttemptRecord) :=
  match fuel with
  | O => m
  | S fuel' =>
    if bound <? blen m then
      match first_terminal m with
      | None => m
      | Some id => trim_attempts fuel' bound (om_erase id m)
      end
    else m
  end.
Definition TrimAttempts (limits : RuntimeLimits) (m : list (Z * AttemptRecord))
  : list (Z * AttemptRecord) := trim_attempts (length m) (max_retained_attempts limits) m.

(** Models [DurableStore::TrimOutcomes], src/store.cpp:486-490. *)
Definition TrimOutcomes (limits : RuntimeLimits) (l : list ReconciliationOutcome)
  : list ReconciliationOutcome := keep_last (max_retained_outcomes limits) l.

(** ** Applying a record *)

Definition apply_intent (limits : RuntimeLimits) (document : IntentDocument) (s : DurableState)
  : DurableState :=
  let scope := in_scope document in
  let generations := entry_or_empty scope (ds_intent_generations s) ++ [in_generation document] in
  with_intents (om_insert scope document (ds_intents s))
    (om_insert scope (keep_last (max_retained_observations_per_scope limits) generations)
       (ds_intent_generations s)) s.

Definition apply_observation (limits : RuntimeLimits) (document : ObservationDocument)
    (s : DurableState) : DurableState :=
  let scope := ob_scope document in
  let stream := entry_or_empty scope (ds_observations s) ++ [document] in
  with_observations (TrimObservations limits scope (om_insert scope stream (ds_observations s))) s.

Definition apply_attempt (limits : RuntimeLimits) (attempt : AttemptRecord) (s : DurableState)
  : DurableState :=
  let next := if ds_next_attempt s <=? at_id attempt then wrap 64 (at_id attempt + 1)
              else ds_next_attempt s in
  let next := if next =? 0 then 1 else next in
  with_attempts next (TrimAttempts limits (om_insert (at_id attempt) attempt (ds_attempts s))) s.

Definition apply_outcome (limits : RuntimeLimits) (outcome : ReconciliationOutcome)
    (s : DurableState) : DurableState :=
  with_outcomes (TrimOutcomes limits (ds_outcomes s ++ [outcome])) s.

Definition apply_fence (fence : FenceEntry) (s : DurableState) : DurableState :=
  with_fences (om_insert (fe_id fence) fence (ds_fences s)) s.

Definition apply_fence_clear (id : bytes) (s : DurableState) : DurableState :=
  with_fences (om_erase id (ds_fences s)) s.

Definition apply_epoch (epoch : Z) (s : DurableState) : DurableState :=
  if ds_last_epoch s <? epoch then with_last_epoch epoch s else s.

Definition record_refused (detail : bytes) : Status :=
  mkStatus SC_IntegrityFailure RC_JournalEnumInvalid detail.

(** A record that decodes changes the state; one that does not is refused and leaves it. *)
Definition applied {A} (decoded : option A) (detail : bytes) (f : A -> DurableState -> DurableState)
    (s : DurableState) : Status * DurableState :=
  match decoded with
  | None => (record_refused detail, s)
  | Some a => (Status_Ok, f a s)
  end.

(** Models [DurableStore::ApplyPayload], src/store.cpp:342-457. *)
Definition ApplyPayload (limits : RuntimeLimits) (type : RecordType) (payload : bytes)
    (s : DurableState) : Status * DurableState :=
  match type with
  | RT_StoreHeader => (Status_Ok, s)
  | RT_PolicyPut =>
    applied (DecodePolicyExact payload limits) (B "policy record failed validation") with_policy s
  | RT_IntentCommit =>
    applied (DecodeIntentExact payload limits) (B "intent record failed validation")
      (apply_intent limits) s
  | RT_ObservationCommit =>
    applied (DecodeObservationExact payload limits) (B "observation record failed validation")
      (apply_observation limits) s
  | RT_AttemptIssued | RT_AttemptTransition =>
    applied (read_exact (DecodeAttempt limits) payload) (B "attempt record failed validation")
      (apply_attempt limits) s
  | RT_OutcomeCommit =>
    applied (read_exact DecodeOutcome payload) (B "outcome record failed validation")
      (apply_outcome limits) s
  | RT_FencePut =>
    applied (read_exact DecodeFence payload) (B "fence record failed validation") apply_fence s
  | RT_FenceClear =>
    match read_exact ReadBytes payload with
    | None => (record_refused (B "fence clear record failed validation"), s)
    | Some id_text =>
      applied (StringId_TryParse id_text) (B "fence clear record carries an invalid identity")
        apply_fence_clear s
    end
  | RT_EpochAdvance =>
    applied (read_exact ReadU64 payload) (B "epoch record failed validation") apply_epoch s
  | RT_LineageTrim => (Status_Ok, s)
  | RT_Invalid =>
    (mkStatus SC_IntegrityFailure RC_JournalRecordTypeUnknown (B "unknown record type"), s)
  end.

(** Models [DurableStore::ApplyRecord], src/store.cpp:338-340. *)
Definition ApplyRecord (limits : RuntimeLimits) (record : JournalRecord) (s : DurableState)
  : Status * DurableState := ApplyPayload limits (jr_type record) (jr_payload record) s.

(** ** The snapshot payload *)

(** A table: its size and its entries. *)
Definition put_table {A} (put_entry : A -> Put) (l : list A) : Put :=
  PutU32 (Z.land (blen l) 0xffffffff) ;+ put_each put_entry l.

Definition put_generations (entry : bytes * list Z) : Put :=
  PutBytes entry.1 ;+ put_table PutU64 entry.2.

Definition put_observations (entry : bytes * list ObservationDocument) : Put :=
  PutBytes entry.1 ;+ put_table (fun document => PutBytes (EncodeObservation document)) entry.2.

Definition put_snapshot (s : DurableState) : Put :=
  PutU16 kCanonicalSchemaVersion ;+
  PutU64 (ds_last_epoch s) ;+
  PutU64 (ds_next_attempt s) ;+
  PutBool (ds_has_policy s) ;+
  (if ds_has_policy s then PutBytes (EncodePolicy (ds_policy s)) else put_nop) ;+
  put_table put_generations (ds_intent_generations s) ;+
  put_table (fun entry => PutBytes (EncodeIntent entry.2)) (ds_intents s) ;+
  put_table put_observations (ds_observations s) ;+
  put_table (fun entry => PutBytes (EncodeAttemptRecord entry.2)) (ds_attempts s) ;+
  put_table (fun outcome => PutBytes (EncodeOutcome outcome)) (ds_outcomes s) ;+
  put_table (fun entry => PutBytes (EncodeFence entry.2)) (ds_fences s) ;+
  PutU64 (ds_compactions s).

(** Models [DurableStore::EncodeSnapshotPayload], src/store.cpp:632-685. *)
Definition EncodeSnapshotPayload (s : DurableState) : bytes := finish (put_snapshot s writer_empty).

(** Loading stops with a status at the first field that is not accepted. *)
Definition Load (A : Type) := CanonicalReader -> Status + A * CanonicalReader.

#[export] Instance Load_ret : MRet Load := fun A a r => inr (a, r).
#[export] Instance Load_bind : MBind Load := fun A A' f m r =>
  match m r with
  | inl status => inl status
  | inr (a, r') => f a r'
  end.

Definition snapshot_refused (detail : bytes) : Status :=
  mkStatus SC_IntegrityFailure RC_SnapshotDigestMismatch detail.

(** [if (!read) return Status(..., detail);] *)
Definition expect {A} (detail : bytes) (m : Read A) : Load A := fun r =>
  match m r with
  | (Some a, r') => inr (a, r')
  | (None, _) => inl (snapshot_refused detail)
  end.

Fixpoint load_times {A} (n : nat) (round : A -> Load A) (acc : A) : Load A :=
  match n with
  | O => mret acc
  | S n' => acc' ← round acc; load_times n' round acc'
  end.

(** A table whose size is refused above [bound]. *)
Definition load_table {A} (bound : Z) (detail : bytes) (round : A -> Load A) (acc : A) : Load A :=
  count ← expect detail (count ← ReadU32; _ ← require (count <=? bound); mret count);
  load_times (Z.to_nat count) round acc.

(** An entry held as its own encoding. *)
Definition load_nested {A} (truncated invalid : bytes) (decode : bytes -> option A) : Load A :=
  payload ← expect truncated ReadBytes;
  expect invalid (match decode payload with Some a => mret a | None => refuse end).

Definition bad_scope : bytes := B "snapshot carries an invalid scope identity".

(** The scope and entry count of a per-scope table. *)
Definition load_scope_entry (limits : RuntimeLimits) (detail : bytes) : Load (bytes * Z) :=
  entry ← expect detail
    (scope_text ← ReadBytes; count ← ReadU32;
     _ ← require (count <=? max_retained_observations_per_scope limits); mret (scope_text, count));
  scope ← expect bad_scope
    (match StringId_TryParse entry.1 with Some scope => mret scope | None => refuse end);
  mret (scope, entry.2).

(** Models [DurableStore::ApplySnapshotPayload], src/store.cpp:722-745: one entry of the generation table. *)
Definition load_generations (limits : RuntimeLimits) (m : list (bytes * list Z))
  : Load (list (bytes * list Z)) :=
  entry ← load_scope_entry limits (B "snapshot generation entry is invalid");
  generations ← load_times (Z.to_nat entry.2)
    (fun acc => value ← expect (B "snapshot generation list is truncated") ReadU64;
                mret (acc ++ [value])) [];
  mret (om_insert entry.1 generations m).

(** Models [DurableStore::ApplySnapshotPayload], src/store.cpp:753-765: one entry of the intent table. *)
Definition load_intent (limits : RuntimeLimits) (m : list (bytes * IntentDocument))
  : Load (list (bytes * IntentDocument)) :=
  document ← load_nested (B "snapshot intent is truncated") (B "snapshot intent failed validation")
    (fun payload => DecodeIntentExact payload limits);
  mret (om_insert (in_scope document) document m).

(** Models [DurableStore::ApplySnapshotPayload], src/store.cpp:773-801: one entry of the observation table. *)
Definition load_observations (limits : RuntimeLimits) (m : list (bytes * list ObservationDocument))
  : Load (list (bytes * list ObservationDocument)) :=
  entry ← load_scope_entry limits (B "snapshot observation entry is invalid");
  stream ← load_times (Z.to_nat entry.2)
    (fun acc => document ← load_nested (B "snapshot observation list is truncated")
                  (B "snapshot observation failed validation")
                  (fun payload => DecodeObservationExact payload limits);
                mret (acc ++ [document])) [];
  mret (om_insert entry.1 stream m).

(** Models [DurableStore::ApplySnapshotPayload], src/store.cpp:809-822: one entry of the attempt table. *)
Definition load_attempt (limits : RuntimeLimits) (m : list (Z * AttemptRecord))
  : Load (list (Z * AttemptRecord)) :=
  attempt ← load_nested (B "snapshot attempt is truncated") (B "snapshot attempt failed validation")
    (read_exact (DecodeAttempt limits));
  mret (om_insert (at_id attempt) attempt m).

(** Models [DurableStore::ApplySnapshotPayload], src/store.cpp:830-843: one entry of the outcome table. *)
Definition load_outcome (l : list ReconciliationOutcome) : Load (list ReconciliationOutcome) :=
  outcome ← load_nested (B "snapshot outcome is truncated") (B "snapshot outcome failed validation")
    (read_exact DecodeOutcome);
  mret (l ++ [outcome]).

(** Models [DurableStore::ApplySnapshotPayload], src/store.cpp:851-864: one entry of the fence table. *)
Definition load_fence (m : list (bytes * FenceEntry)) : Load (list (bytes * FenceEntry)) :=
  fence ← load_nested (B "snapshot fence is truncated") (B "snapshot fence failed validation")
    (read_exact DecodeFence);
  mret (om_insert (fe_id fence) fence m).

(** Models [DurableStore::ApplySnapshotPayload], src/store.cpp:701-714: the policy, when the
    snapshot carries one. *)
Definition load_policy (limits : RuntimeLimits) (has_policy : bool) (s : DurableState)
  : Load DurableState :=
  if has_policy then
    policy ← load_nested (B "snapshot policy is truncated") (B "snapshot policy failed validation")
      (fun payload => DecodePolicyExact payload limits);
    mret (with_policy policy s)
  else mret s.

Definition load_header : Read (Z * Z * bool) :=
  schema ← ReadU16;
  _ ← require (schema =? kCanonicalSchemaVersion);
  last_epoch ← ReadU64;
  next_attempt ← ReadU64;
  has_policy ← ReadBool;
  mret (last_epoch, next_attempt, has_policy).

Definition read_end : Read unit := fun r => (if AtEnd r then Some tt else None, r).

(** The last field; nothing may follow it. *)
Definition load_end : Read Z := compactions ← ReadU64; _ ← read_end; mret compactions.

Definition load_snapshot (limits : RuntimeLimits) (s : DurableState) : Load DurableState :=
  header ← expect (B "snapshot payload header is invalid") load_header;
  let s := with_last_epoch header.1.1 s in
  let s := with_attempts (if header.1.2 =? 0 then 1 else header.1.2) (ds_attempts s) s in
  s ← load_policy limits header.2 s;
  generations ← load_table (max_scopes limits) (B "snapshot generation table is invalid")
    (load_generations limits) (ds_intent_generations s);
  intents ← load_table (max_scopes limits) (B "snapshot intent table is invalid")
    (load_intent limits) (ds_intents s);
  observations ← load_table (max_scopes limits) (B "snapshot observation table is invalid")
    (load_observations limits) (ds_observations s);
  attempts ← load_table (max_retained_attempts limits) (B "snapshot attempt table is invalid")
    (load_attempt limits) (ds_attempts s);
  outcomes ← load_table (max_retained_outcomes limits) (B "snapshot outcome table is invalid")
    load_outcome (ds_outcomes s);
  fences ← load_table (wrap 64 (max_scopes limits * 16)) (B "snapshot fence table is invalid")
    load_fence (ds_fences s);
  compactions ← expect (B "snapshot payload has trailing bytes or is truncated") load_end;
  mret (with_compactions compactions (with_fences fences (with_outcomes outcomes
          (with_attempts (ds_next_attempt s) attempts (with_observations observations
             (with_intents intents generations s)))))).

(** Models [DurableStore::ApplySnapshotPayload], src/store.cpp:687-873. A refused payload leaves
    the state object unused, since the open that was loading it is given up. *)
Definition ApplySnapshotPayload (limits : RuntimeLimits) (payload : bytes) (s : DurableState)
  : Status + DurableState :=
  match load_snapshot limits s (reader_of payload) with
  | inl status => inl status
  | inr (s', _) => inr s'
  end.

(** ** Well-formedness and layouts *)

Definition transition_wf (t : AttemptTransition) : bool :=
  u64 (tr_epoch t) && BootId_valid (tr_boot t) && i64 (tr_at_unix_ms t) &&
  reason_wf (tr_reason t) && reason_wf (tr_verification_reason t).

Definition attempt_wf (limits : RuntimeLimits) (a : AttemptRecord) : bool :=
  u64 (at_id a) && negb (at_id a =? 0) && digest_wf (at_idempotency_key a) &&
  IsValidIdentityText (at_scope a) && IsValidIdentityText (at_subject a) && u64 (at_epoch a) &&
  BootId_valid (at_boot a) && authority_wf (at_authority a) &&
  negb (AttemptState_to_Z (at_state a) =? 0) && i64 (at_issued_unix_ms a) &&
  (blen (at_transitions a) <=? max_attempt_transitions limits) &&
  (blen (at_transitions a) <? 2 ^ 32) && forallb transition_wf (at_transitions a).

Definition lay_transition (t : AttemptTransition) : bytes :=
  lay_u8 (AttemptState_to_Z (tr_from t)) ++ lay_u8 (AttemptState_to_Z (tr_to t)) ++
  lay_u64 (tr_epoch t) ++ lay_bytes (tr_boot t) ++ lay_i64 (tr_at_unix_ms t) ++
  lay_u16 (tr_reason t) ++ lay_u16 (tr_verification_reason t).

Definition lay_attempt (a : AttemptRecord) : bytes :=
  lay_u64 (at_id a) ++ at_idempotency_key a ++ lay_bytes (at_scope a) ++ lay_bytes (at_subject a) ++
  lay_u8 (ActionKind_to_Z (at_action a)) ++ lay_u64 (at_epoch a) ++ lay_bytes (at_boot a) ++
  lay_authority (at_authority a) ++ lay_u8 (AttemptState_to_Z (at_state a)) ++
  lay_i64 (at_issued_unix_ms a) ++ lay_u32 (blen (at_transitions a)) ++
  concat (map lay_transition (at_transitions a)).

(** ** Facts on the attempt codec *)

Lemma writes_transition t : transition_wf t = true -> writes (put_transition t) (lay_transition t).
Proof.
  unfold transition_wf. intros H. bool_hyps. unfold put_transition, lay_transition. write_steps.
Qed.

Lemma decodes_transition t : transition_wf t = true -> decodes read_transition (lay_transition t) t.
Proof.
  unfold transition_wf. intros H. bool_hyps. unfold read_transition, lay_transition.
  do 4 decode_step. decode_step; [done|]. do 3 decode_step.
  eapply decodes_silent; [apply decodes_attempt_state|].
  eapply decodes_silent; [apply decodes_attempt_state|].
  decode_step; [by rewrite !reason_wf_max|]. destruct t. apply decodes_ret.
Qed.

Lemma yields_transition : yields read_transition (fun t => transition_wf t = true).
Proof.
  unfold read_transition. repeat yield_step. bool_hyps.
  unfold transition_wf, BootId_valid. simpl. bool_goal; auto with yields.
Qed.

#[export] Hint Resolve yields_transition : yields.

Lemma writes_attempt limits a :
  attempt_wf limits a = true -> writes (EncodeAttempt a) (lay_attempt a).
Proof.
  unfold attempt_wf. intros H. bool_hyps. unfold EncodeAttempt, lay_attempt.
  assert (writes (put_each put_transition (at_transitions a))
            (concat (map lay_transition (at_transitions a)))).
  { apply writes_each. eapply Forall_impl; [by apply forallb_Forall|]. apply writes_transition. }
  write_steps.
Qed.

Lemma decodes_attempt limits a :
  attempt_wf limits a = true -> decodes (DecodeAttempt limits) (lay_attempt a) a.
Proof.
  unfold attempt_wf. intros H. bool_hyps. unfold DecodeAttempt, lay_attempt.
  do 7 decode_step. decode_step; [done|]. do 4 decode_step.
  decode_step; [by apply negb_true_iff, Z.eqb_neq|]. eapply decodes_silent; [apply decodes_action|].
  decode_step; [by apply negb_true_iff, Z.eqb_neq|]. eapply decodes_silent; [apply decodes_attempt_state|].
  decode_step; [by apply Z.leb_le|].
  decode_step; [apply all_ids_parse_ok; simpl; by bool_goal|].
  eapply decodes_end.
  - apply (decodes_list read_transition lay_transition). eapply Forall_impl; [by apply forallb_Forall|].
    apply decodes_transition.
  - destruct a. apply decodes_ret.
Qed.

Lemma AttemptState_of_Z_to raw s : AttemptState_of_Z raw = Some s -> AttemptState_to_Z s = raw.
Proof.
  unfold AttemptState_of_Z. intros H.
  repeat match type of H with (if ?raw =? ?k then _ else _) = _ =>
    destruct (Z.eqb_spec raw k) as [->|]; [by injection H as <-|] end.
  done.
Qed.

(** The state read keeps its number. *)
Lemma yields_attempt_state_raw raw :
  yields (read_attempt_state raw) (fun s => AttemptState_to_Z s = raw).
Proof.
  unfold read_attempt_state. destruct (AttemptState_of_Z raw) eqn:E; [|apply yields_refuse].
  apply yields_ret. by apply AttemptState_of_Z_to.
Qed.

Lemma yields_attempt limits : yields (DecodeAttempt limits) (fun a => attempt_wf limits a = true).
Proof.
  unfold DecodeAttempt. do 15 yield_step.
  eapply yields_bind; [apply yields_attempt_state_raw|]. intros st Hst. do 2 yield_step.
  eapply yields_bind; [apply yields_list; [by eauto with codec|apply yields_transition]|].
  intros l [Hl Hwf]. yield_step. ids_valid. bool_hyps.
  unfold attempt_wf, BootId_valid. simpl.
  cbn beta in Hst. rewrite Hst, Hl.
  bool_goal; auto with yields; try by apply Z.eqb_neq.
  - by apply u32_count.
  - by apply forallb_Forall.
Qed.

#[export] Instance attempt_codec : PayloadCodec AttemptRecord := {|
  pc_put := EncodeAttempt; pc_read := DecodeAttempt; pc_layout := lay_attempt;
  pc_wf := attempt_wf; pc_writes := writes_attempt; pc_decodes := decodes_attempt |}.

(** ** Facts on loading *)

(** [m] loads [a] from the bytes [bs], wherever they are, and stops right after them. *)
Definition loads {A} (m : Load A) (bs : bytes) (a : A) : Prop := forall pre post,
  m (mkReader (pre ++ bs ++ post) (blen pre) true) =
  inr (a, mkReader (pre ++ bs ++ post) (blen pre + blen bs) true).

Lemma loads_ret {A} (a : A) : loads (mret a) [] a.
Proof. intros pre post. unfold mret, Load_ret. by rewrite blen_nil, Z.add_0_r. Qed.

Lemma loads_bind {A C} (m : Load A) (f : A -> Load C) b1 b2 a c :
  loads m b1 a -> loads (f a) b2 c -> loads (m ≫= f) (b1 ++ b2) c.
Proof.
  intros Hm Hf pre post. unfold mbind, Load_bind.
  specialize (Hm pre (b2 ++ post)). specialize (Hf (pre ++ b1) post).
  rewrite <- !app_assoc in *. rewrite Hm. rewrite blen_app in *. rewrite Hf.
  by rewrite Z.add_assoc.
Qed.

Lemma loads_end {A C} (m : Load A) (f : A -> Load C) bs a c :
  loads m bs a -> loads (f a) [] c -> loads (m ≫= f) bs c.
Proof. intros H Hf. rewrite <- (app_nil_r bs). by eapply loads_bind. Qed.

Lemma loads_silent {A C} (m : Load A) (f : A -> Load C) bs a c :
  loads m [] a -> loads (f a) bs c -> loads (m ≫= f) bs c.
Proof. intros Hm Hf. exact (loads_bind _ _ [] bs _ _ Hm Hf). Qed.

Lemma loads_expect {A} detail (m : Read A) bs a : decodes m bs a -> loads (expect detail m) bs a.
Proof. intros H pre post. unfold expect. by rewrite H. Qed.

Lemma loads_times {A S} (lay : A -> bytes) (round : S -> Load S) (step : S -> A -> S) l : forall s,
  Forall (fun a => forall s, loads (round s) (lay a) (step s a)) l ->
  loads (load_times (length l) round s) (concat (map lay l)) (foldl step s l).
Proof.
  induction l as [|a l IH]; intros s H; [apply loads_ret|].
  apply Forall_cons in H as [Ha Hl]. cbn [length load_times map concat foldl].
  eapply loads_bind; [apply Ha|by apply IH].
Qed.

Definition lay_table {A} (lay : A -> bytes) (l : list A) : bytes :=
  lay_u32 (blen l) ++ concat (map lay l).

(** A table the loader accepts: its size is within the bound and its field. *)
Definition table_fits {A} (bound : Z) (l : list A) : bool := (blen l <=? bound) && (blen l <? 2 ^ 32).

Lemma loads_counted {A S} (lay : A -> bytes) (round : S -> Load S) (step : S -> A -> S) l s :
  Forall (fun a => forall s, loads (round s) (lay a) (step s a)) l ->
  loads (load_times (Z.to_nat (blen l)) round s) (concat (map lay l)) (foldl step s l).
Proof. unfold blen. rewrite Nat2Z.id. apply loads_times. Qed.

Lemma loads_table {A S} bound detail (lay : A -> bytes) (round : S -> Load S) step l s :
  table_fits bound l = true ->
  Forall (fun a => forall s, loads (round s) (lay a) (step s a)) l ->
  loads (load_table bound detail round s) (lay_table lay l) (foldl step s l).
Proof.
  unfold table_fits. intros H Hl. bool_hyps. eapply loads_bind.
  - apply loads_expect. decode_step. decode_step; [by apply Z.leb_le|]. apply decodes_ret.
  - by apply loads_counted.
Qed.

Lemma writes_table {A} (put : A -> Put) lay (l : list A) :
  blen l < 2 ^ 32 -> Forall (fun a => writes (put a) (lay a)) l ->
  writes (put_table put l) (lay_table lay l).
Proof. intros H Hl. apply writes_seq; [by apply writes_count|by apply writes_each]. Qed.

(** Inserting the entries of a map in order rebuilds it. *)
Lemma om_insert_all {K V} `{KeyOrder K} (l : list (K * V)) :
  om_sorted l = true -> foldl (fun m e => om_insert e.1 e.2 m) [] l = l.
Proof.
  induction l as [|[k v] l IH] using rev_ind; intros Hs; [done|].
  apply om_sorted_app in Hs as Hs'. destruct Hs' as (Hs1 & _).
  rewrite foldl_app, IH by done. simpl. apply om_insert_snoc.
  by eapply (om_sorted_snoc_lt l k v []).
Qed.

Lemma foldl_snoc {A} (l acc : list A) : foldl (fun acc a => acc ++ [a]) acc l = acc ++ l.
Proof.
  revert acc. induction l as [|a l IH]; intros acc; simpl; [by rewrite app_nil_r|].
  by rewrite IH, <- app_assoc.
Qed.

Lemma finish_bound p bs : writes p bs -> blen (finish (p writer_empty)) <= kMaxCanonicalBytes.
Proof.
  intros Hw. unfold finish.
  destruct (Z.leb_spec (blen bs) kMaxCanonicalBytes) as [Hl|Hl].
  - by rewrite (writes_fresh _ _ Hw Hl).
  - rewrite (writes_overflow _ _ Hw Hl). rewrite blen_nil. unfold kMaxCanonicalBytes. lia.
Qed.

(** An entry held as the encoding of a payload type. *)
Definition nested_wf {A} `{PayloadCodec A} (limits : RuntimeLimits) (a : A) : bool :=
  pc_wf limits a && negb (is_empty (encode_payload a)).

Lemma is_empty_false (l : bytes) : is_empty l = false -> l <> [].
Proof. unfold is_empty. intros H ->. by rewrite bool_decide_eq_true_2 in H. Qed.

Lemma loads_nested {A} `{PayloadCodec A} limits truncated invalid decode (a : A) :
  (forall bs, decode bs = decode_payload limits bs) -> nested_wf limits a = true ->
  loads (load_nested truncated invalid decode) (lay_bytes (encode_payload a)) a.
Proof.
  unfold nested_wf. intros Hdec Hwf. bool_hyps. eapply loads_end.
  - apply loads_expect, decodes_bytes. apply (finish_bound _ (pc_layout a)).
    by apply (pc_writes limits).
  - apply loads_expect. rewrite Hdec, payload_roundtrip; [apply decodes_ret|done|].
    by apply is_empty_false.
Qed.

(** The encoders are the payload encoders of their types. *)
Lemma EncodePolicy_payload p : EncodePolicy p = encode_payload p.
Proof. unfold EncodePolicy, encode_payload. cbn [pc_put policy_codec]. reflexivity. Qed.
Lemma EncodeIntent_payload d : EncodeIntent d = encode_payload d.
Proof. unfold EncodeIntent, encode_payload. cbn [pc_put intent_codec]. reflexivity. Qed.
Lemma EncodeObservation_payload d : EncodeObservation d = encode_payload d.
Proof. unfold EncodeObservation, encode_payload. cbn [pc_put observation_codec]. reflexivity. Qed.
Lemma EncodeAttempt_payload a : EncodeAttemptRecord a = encode_payload a.
Proof. unfold EncodeAttemptRecord, encode_payload. cbn [pc_put attempt_codec]. reflexivity. Qed.
Lemma EncodeOutcome_payload o : EncodeOutcome o = encode_payload o.
Proof. unfold EncodeOutcome, encode_payload. cbn [pc_put outcome_codec]. reflexivity. Qed.
Lemma EncodeFence_payload f : EncodeFence f = encode_payload f.
Proof. unfold EncodeFence, encode_payload. cbn [pc_put fence_codec]. reflexivity. Qed.

(** So are the decoders that take no limits. *)
Lemma DecodeOutcome_payload limits bs : read_exact DecodeOutcome bs = decode_payload limits bs.
Proof. unfold decode_payload. cbn [pc_read outcome_codec]. reflexivity. Qed.
Lemma DecodeFence_payload limits bs : read_exact DecodeFence bs = decode_payload limits bs.
Proof. unfold decode_payload. cbn [pc_read fence_codec]. reflexivity. Qed.

Lemma writes_nested {A} `{PayloadCodec A} (a : A) bs :
  bs = encode_payload a -> writes (PutBytes bs) (lay_bytes (encode_payload a)).
Proof. intros ->. apply writes_bytes. Qed.

(** ** The states the runtime reaches, and those a snapshot can carry *)

Definition generations_wf (limits : RuntimeLimits) (e : bytes * list Z) : bool :=
  IsValidIdentityText e.1 && (blen e.2 <=? max_retained_observations_per_scope limits) &&
  forallb u64 e.2.

Definition stream_wf (limits : RuntimeLimits) (e : bytes * list ObservationDocument) : bool :=
  IsValidIdentityText e.1 && (blen e.2 <=? max_retained_observations_per_scope limits) &&
  forallb (nested_wf limits) e.2.

Definition keyed {K V} `{EqDecision K} (key : V -> K) (wf : V -> bool) (e : K * V) : bool :=
  bool_decide (key e.2 = e.1) && wf e.2.

(** The representation invariant: typed counters, maps sorted and keyed by their own
    entries, every document accepted by its decoder, retention within the limits. *)
Definition durable_wf (limits : RuntimeLimits) (s : DurableState) : bool :=
  u64 (ds_last_epoch s) && u64 (ds_next_attempt s) && negb (ds_next_attempt s =? 0) &&
  (if ds_has_policy s then nested_wf limits (ds_policy s)
   else bool_decide (ds_policy s = empty_policy)) &&
  om_sorted (ds_intent_generations s) && forallb (generations_wf limits) (ds_intent_generations s) &&
  om_sorted (ds_intents s) && forallb (keyed in_scope (nested_wf limits)) (ds_intents s) &&
  om_sorted (ds_observations s) && forallb (stream_wf limits) (ds_observations s) &&
  om_sorted (ds_attempts s) && forallb (keyed at_id (nested_wf limits)) (ds_attempts s) &&
  (blen (ds_outcomes s) <=? max_retained_outcomes limits) &&
  forallb (nested_wf limits) (ds_outcomes s) &&
  om_sorted (ds_fences s) && forallb (keyed fe_id (nested_wf limits)) (ds_fences s) &&
  u64 (ds_compactions s).

(** The table sizes the snapshot loader accepts. *)
Definition snapshot_fits (limits : RuntimeLimits) (s : DurableState) : bool :=
  table_fits (max_scopes limits) (ds_intent_generations s) &&
  table_fits (max_scopes limits) (ds_intents s) &&
  table_fits (max_scopes limits) (ds_observations s) &&
  table_fits (max_retained_attempts limits) (ds_attempts s) &&
  table_fits (max_retained_outcomes limits) (ds_outcomes s) &&
  table_fits (wrap 64 (max_scopes limits * 16)) (ds_fences s) &&
  (max_retained_observations_per_scope limits <? 2 ^ 32).

Definition lay_generations (e : bytes * list Z) : bytes := lay_bytes e.1 ++ lay_table lay_u64 e.2.
Definition lay_stream (e : bytes * list ObservationDocument) : bytes :=
  lay_bytes e.1 ++ lay_table (fun d => lay_bytes (encode_payload d)) e.2.

Definition lay_snapshot_header (s : DurableState) : bytes :=
  lay_u16 kCanonicalSchemaVersion ++ lay_u64 (ds_last_epoch s) ++ lay_u64 (ds_next_attempt s) ++
  lay_bool (ds_has_policy s).

Definition lay_snapshot_payload (s : DurableState) : bytes :=
  lay_snapshot_header s ++
  (if ds_has_policy s then lay_bytes (encode_payload (ds_policy s)) else []) ++
  lay_table lay_generations (ds_intent_generations s) ++
  lay_table (fun e => lay_bytes (encode_payload e.2)) (ds_intents s) ++
  lay_table lay_stream (ds_observations s) ++
  lay_table (fun e => lay_bytes (encode_payload e.2)) (ds_attempts s) ++
  lay_table (fun o => lay_bytes (encode_payload o)) (ds_outcomes s) ++
  lay_table (fun e => lay_bytes (encode_payload e.2)) (ds_fences s) ++
  lay_u64 (ds_compactions s).

Section SnapshotPayload.
Variable limits : RuntimeLimits.
Hypothesis Hbound : max_retained_observations_per_scope limits < 2 ^ 32.

Lemma table_small {A} bound (l : list A) : table_fits bound l = true -> blen l < 2 ^ 32.
Proof. unfold table_fits. intros. by bool_hyps. Qed.

Lemma writes_generations e :
  generations_wf limits e = true -> writes (put_generations e) (lay_generations e).
Proof.
  unfold generations_wf. intros H. bool_hyps. apply writes_seq; [apply writes_bytes|].
  apply writes_table; [lia|]. eapply Forall_impl; [by apply forallb_Forall|].
  intros v Hv. apply writes_u64. by apply u_nonneg in Hv.
Qed.

Lemma writes_stream e : stream_wf limits e = true -> writes (put_observations e) (lay_stream e).
Proof.
  unfold stream_wf. intros H. bool_hyps. apply writes_seq; [apply writes_bytes|].
  apply writes_table; [lia|]. apply Forall_true. intros d.
  apply writes_nested, EncodeObservation_payload.
Qed.

Lemma writes_snapshot s :
  durable_wf limits s = true -> snapshot_fits limits s = true ->
  writes (put_snapshot s) (lay_snapshot_payload s).
Proof.
  unfold durable_wf, snapshot_fits. intros Hwf Hfits. bool_hyps.
  repeat match goal with H : table_fits _ _ = true |- _ => apply table_small in H end.
  repeat match goal with H : u64 _ = true |- _ => apply u_nonneg in H end.
  unfold put_snapshot, lay_snapshot_payload, lay_snapshot_header. rewrite <- !app_assoc.
  do 4 (apply writes_seq; [by eauto with codec|]).
  apply writes_seq;
    [destruct (ds_has_policy s); [apply writes_nested, EncodePolicy_payload|apply writes_nop]|].
  apply writes_seq; [apply writes_table; [done|]; eapply Forall_impl;
    [by apply forallb_Forall|apply writes_generations]|].
  apply writes_seq; [apply writes_table;
    [done|apply Forall_true; intros; apply writes_nested, EncodeIntent_payload]|].
  apply writes_seq; [apply writes_table; [done|]; eapply Forall_impl;
    [by apply forallb_Forall|apply writes_stream]|].
  apply writes_seq; [apply writes_table;
    [done|apply Forall_true; intros; apply writes_nested, EncodeAttempt_payload]|].
  apply writes_seq; [apply writes_table;
    [done|apply Forall_true; intros; apply writes_nested, EncodeOutcome_payload]|].
  apply writes_seq; [apply writes_table;
    [done|apply Forall_true; intros; apply writes_nested, EncodeFence_payload]|].
  by apply writes_u64.
Qed.

Lemma loads_scope_entry {A} detail scope (l : list A) :
  IsValidIdentityText scope = true -> blen l <= max_retained_observations_per_scope limits ->
  loads (load_scope_entry limits detail) (lay_bytes scope ++ lay_u32 (blen l)) (scope, blen l).
Proof.
  intros Hs Hl. pose proof (identity_bound scope Hs). pose proof Hbound.
  assert (blen l < 2 ^ 32) by lia. eapply loads_end.
  - apply loads_expect. decode_step. decode_step. decode_step; [by apply Z.leb_le|]. apply decodes_ret.
  - eapply loads_end; [|apply loads_ret]. apply loads_expect. cbn [fst].
    rewrite StringId_TryParse_ok by done. apply decodes_ret.
Qed.

Lemma loads_generations e m :
  generations_wf limits e = true ->
  loads (load_generations limits m) (lay_generations e) (om_insert e.1 e.2 m).
Proof.
  unfold generations_wf. intros H. bool_hyps. unfold lay_generations, lay_table.
  rewrite app_assoc. eapply loads_bind; [by apply loads_scope_entry|]. cbn [fst snd].
  eapply loads_end; [|apply loads_ret].
  pose proof (loads_counted lay_u64
    (fun acc => value ← expect (B "snapshot generation list is truncated") ReadU64;
                mret (acc ++ [value])) (fun acc a => acc ++ [a]) e.2 []) as Ht.
  rewrite foldl_snoc in Ht. apply Ht. eapply Forall_impl; [by apply forallb_Forall|].
  intros v Hv acc. eapply loads_end; [by apply loads_expect, decodes_u64|apply loads_ret].
Qed.

Lemma loads_stream e m :
  stream_wf limits e = true ->
  loads (load_observations limits m) (lay_stream e) (om_insert e.1 e.2 m).
Proof.
  unfold stream_wf. intros H. bool_hyps. unfold lay_stream, lay_table.
  rewrite app_assoc. eapply loads_bind; [by apply loads_scope_entry|]. cbn [fst snd].
  eapply loads_end; [|apply loads_ret].
  pose proof (fun Q => loads_counted (fun d : ObservationDocument => lay_bytes (encode_payload d)) Q
    (fun acc a => acc ++ [a]) e.2 []) as Ht.
  rewrite foldl_snoc in Ht. apply Ht. eapply Forall_impl; [by apply forallb_Forall|].
  intros d Hd acc. eapply loads_end; [by apply (loads_nested limits _ _ (fun bs => DecodeObservationExact bs limits))|apply loads_ret].
Qed.

(** A table of keyed payloads is loaded as the map it was written from. *)
Lemma loads_keyed_table {K V} `{KeyOrder K} `{EqDecision K} `{PayloadCodec V} (key : V -> K) bound
    detail truncated invalid decode (l : list (K * V)) :
  (forall bs, decode bs = decode_payload limits bs) ->
  table_fits bound l = true -> om_sorted l = true ->
  forallb (keyed key (nested_wf limits)) l = true ->
  loads (load_table bound detail
           (fun m => a ← load_nested truncated invalid decode;
                     mret (om_insert (key a) a m)) [])
        (lay_table (fun e => lay_bytes (encode_payload e.2)) l) l.
Proof.
  intros Hdec Hf Hs Hl. rewrite <- (om_insert_all l Hs) at 2. apply loads_table; [done|].
  eapply Forall_impl; [by apply forallb_Forall|]. intros e He m. unfold keyed in He. bool_hyps.
  eapply loads_end; [by apply (loads_nested limits)|]. rewrite H1. apply loads_ret.
Qed.

Lemma loads_policy s0 s :
  (if ds_has_policy s then nested_wf limits (ds_policy s)
   else bool_decide (ds_policy s = empty_policy)) = true ->
  ds_has_policy s0 = false -> ds_policy s0 = empty_policy ->
  loads (load_policy limits (ds_has_policy s) s0)
    (if ds_has_policy s then lay_bytes (encode_payload (ds_policy s)) else [])
    (mkState (ds_store s0) (ds_last_epoch s0) (ds_sequence s0) (ds_next_attempt s0)
       (ds_has_policy s) (ds_policy s) (ds_intents s0) (ds_intent_generations s0)
       (ds_observations s0) (ds_attempts s0) (ds_outcomes s0) (ds_fences s0) (ds_compactions s0)).
Proof.
  intros Hp Hh0 Hp0. unfold load_policy. destruct (ds_has_policy s).
  - eapply loads_end; [|apply loads_ret].
    by apply (loads_nested limits _ _ (fun bs => DecodePolicyExact bs limits)).
  - apply bool_decide_eq_true in Hp as ->. rewrite <- Hp0, <- Hh0. destruct s0. apply loads_ret.
Qed.

(** The whole payload, except for its last field, from which reading must end. *)
Lemma loads_header s :
  durable_wf limits s = true ->
  loads (expect (B "snapshot payload header is invalid") load_header)
    (lay_snapshot_header s) (ds_last_epoch s, ds_next_attempt s, ds_has_policy s).
Proof.
  unfold durable_wf. intros H. bool_hyps. apply loads_expect. unfold load_header, lay_snapshot_header.
  assert (u16 kCanonicalSchemaVersion = true) by done.
  decode_step. decode_step; [done|]. do 3 decode_step. apply decodes_ret.
Qed.

(** The last step of a load, at the end of the payload. *)
Lemma load_end_here data v :
  u64 v = true ->
  expect (B "snapshot payload has trailing bytes or is truncated") load_end
    (mkReader (data ++ lay_u64 v) (blen data) true) =
  inr (v, mkReader (data ++ lay_u64 v) (blen (data ++ lay_u64 v)) true).
Proof.
  intros Hv. pose proof (decodes_u64 v Hv data []) as Hd. rewrite !app_nil_r in Hd.
  unfold expect, load_end, mbind, Read_bind. rewrite Hd. unfold read_end, AtEnd.
  cbn [r_ok r_offset r_data andb]. rewrite blen_app, Z.eqb_refl. reflexivity.
Qed.

Lemma load_bind_at {A C} (m : Load A) (f : A -> Load C) pre bs rest a :
  loads m bs a ->
  (m ≫= f) (mkReader (pre ++ bs ++ rest) (blen pre) true) =
  f a (mkReader ((pre ++ bs) ++ rest) (blen (pre ++ bs)) true).
Proof. intros H. unfold mbind, Load_bind. by rewrite H, blen_app, <- app_assoc. Qed.

Lemma load_bind_start {A C} (m : Load A) (f : A -> Load C) bs rest a :
  loads m bs a ->
  (m ≫= f) (reader_of (bs ++ rest)) = f a (mkReader (bs ++ rest) (blen bs) true).
Proof. apply (load_bind_at m f [] bs rest a). Qed.
End SnapshotPayload.

(** A payload written from a well-formed state that fits the loader's tables is loaded
    as that state; the store identity comes from the snapshot header, the sequence from
    the journal. *)
Lemma ApplySnapshotPayload_layout limits s store epoch :
  durable_wf limits s = true -> snapshot_fits limits s = true ->
  ApplySnapshotPayload limits (lay_snapshot_payload s)
    (with_last_epoch epoch (with_store store empty_state)) =
  inr (with_sequence 0 (with_store store s)).
Proof.
  intros Hwf Hfits. pose proof (loads_header limits s Hwf) as Hh.
  unfold durable_wf, snapshot_fits in *. bool_hyps.
  unfold ApplySnapshotPayload, load_snapshot, lay_snapshot_payload.
  rewrite (load_bind_start _ _ _ _ _ Hh). cbn [fst snd].
  rewrite (proj2 (Z.eqb_neq (ds_next_attempt s) 0)) by done. cbv zeta.
  erewrite load_bind_at by (by apply loads_policy).
  cbn [ds_intent_generations ds_intents ds_observations ds_attempts ds_outcomes ds_fences
       with_attempts with_last_epoch with_store empty_state].
  rewrite (load_bind_at _ _ _ _ _ (ds_intent_generations s)).
  2: { rewrite <- (om_insert_all (ds_intent_generations s)) at 2 by done.
       apply loads_table; [done|]. eapply Forall_impl; [by apply forallb_Forall|].
       intros e He m. by apply loads_generations. }
  erewrite load_bind_at by (by apply (loads_keyed_table limits in_scope _ _ _ _
    (fun bs => DecodeIntentExact bs limits))).
  rewrite (load_bind_at _ _ _ _ _ (ds_observations s)).
  2: { rewrite <- (om_insert_all (ds_observations s)) at 2 by done.
       apply loads_table; [done|]. eapply Forall_impl; [by apply forallb_Forall|].
       intros e He m. by apply loads_stream. }
  erewrite load_bind_at by (by apply (loads_keyed_table limits at_id _ _ _ _
    (read_exact (DecodeAttempt limits)))).
  rewrite (load_bind_at _ _ _ _ _ (ds_outcomes s)).
  2: { rewrite <- (app_nil_l (ds_outcomes s)) at 2. rewrite <- foldl_snoc.
       apply loads_table; [done|]. eapply Forall_impl; [by apply forallb_Forall|].
       intros o Ho l. eapply loads_end; [|apply loads_ret].
       by apply (loads_nested limits _ _ (read_exact DecodeOutcome)). }
  erewrite load_bind_at by (by apply (loads_keyed_table limits fe_id _ _ _ _
    (read_exact DecodeFence))).
  unfold mbind at 1, Load_bind. rewrite load_end_here by done.
  by destruct s.
Qed.

Lemma EncodeSnapshotPayload_loads limits s store epoch :
  durable_wf limits s = true -> snapshot_fits limits s = true -> EncodeSnapshotPayload s <> [] ->
  ApplySnapshotPayload limits (EncodeSnapshotPayload s)
    (with_last_epoch epoch (with_store store empty_state)) =
  inr (with_sequence 0 (with_store store s)).
Proof.
  intros Hwf Hfits. assert (max_retained_observations_per_scope limits < 2 ^ 32) as Hb
    by (unfold snapshot_fits in Hfits; by bool_hyps).
  pose proof (writes_snapshot limits Hb s Hwf Hfits) as Hw. unfold EncodeSnapshotPayload, finish.
  destruct (Z.leb_spec (blen (lay_snapshot_payload s)) kMaxCanonicalBytes) as [Hl|Hl].
  - rewrite (writes_fresh _ _ Hw Hl). intros _. by apply ApplySnapshotPayload_layout.
  - by rewrite (writes_overflow _ _ Hw Hl).
Qed.

(** ** The abstract specification: the durable state as a fold of events *)

Inductive StoreEvent :=
| Ev_Policy (policy : ReconciliationPolicy)
| Ev_Intent (document : IntentDocument)
| Ev_Observation (document : ObservationDocument)
| Ev_AttemptIssued (attempt : AttemptRecord)
| Ev_AttemptTransition (attempt : AttemptRecord)
| Ev_Outcome (outcome : ReconciliationOutcome)
| Ev_Fence (fence : FenceEntry)
| Ev_FenceClear (id : bytes)
| Ev_Epoch (epoch : Z).

Definition apply_event (limits : RuntimeLimits) (event : StoreEvent) (s : DurableState)
  : DurableState :=
  match event with
  | Ev_Policy policy => with_policy policy s
  | Ev_Intent document => apply_intent limits document s
  | Ev_Observation document => apply_observation limits document s
  | Ev_AttemptIssued attempt | Ev_AttemptTransition attempt => apply_attempt limits attempt s
  | Ev_Outcome outcome => apply_outcome limits outcome s
  | Ev_Fence fence => apply_fence fence s
  | Ev_FenceClear id => apply_fence_clear id s
  | Ev_Epoch epoch => apply_epoch epoch s
  end.

Definition apply_events (limits : RuntimeLimits) (events : list StoreEvent) (s : DurableState)
  : DurableState := foldl (fun s event => apply_event limits event s) s events.

(** The record an event is journalled as. *)
Definition event_type (event : StoreEvent) : RecordType :=
  match event with
  | Ev_Policy _ => RT_PolicyPut | Ev_Intent _ => RT_IntentCommit
  | Ev_Observation _ => RT_ObservationCommit | Ev_AttemptIssued _ => RT_AttemptIssued
  | Ev_AttemptTransition _ => RT_AttemptTransition | Ev_Outcome _ => RT_OutcomeCommit
  | Ev_Fence _ => RT_FencePut | Ev_FenceClear _ => RT_FenceClear | Ev_Epoch _ => RT_EpochAdvance
  end.

Definition event_payload (event : StoreEvent) : bytes :=
  match event with
  | Ev_Policy policy => EncodePolicy policy
  | Ev_Intent document => EncodeIntent document
  | Ev_Observation document => EncodeObservation document
  | Ev_AttemptIssued attempt | Ev_AttemptTransition attempt => EncodeAttemptRecord attempt
  | Ev_Outcome outcome => EncodeOutcome outcome
  | Ev_Fence fence => EncodeFence fence
  | Ev_FenceClear id => finish (PutBytes id writer_empty)
  | Ev_Epoch epoch => finish (PutU64 epoch writer_empty)
  end.

(** Events whose record is accepted back. *)
Definition event_wf (limits : RuntimeLimits) (event : StoreEvent) : bool :=
  match event with
  | Ev_Policy policy => nested_wf limits policy
  | Ev_Intent document => nested_wf limits document
  | Ev_Observation document => nested_wf limits document
  | Ev_AttemptIssued attempt | Ev_AttemptTransition attempt => nested_wf limits attempt
  | Ev_Outcome outcome => nested_wf limits outcome
  | Ev_Fence fence => nested_wf limits fence
  | Ev_FenceClear id => IsValidIdentityText id
  | Ev_Epoch epoch => u64 epoch
  end.

Lemma nested_roundtrip {A} `{PayloadCodec A} limits (a : A) :
  nested_wf limits a = true ->
  encode_payload a <> [] /\ decode_payload limits (encode_payload a) = Some a.
Proof.
  unfold nested_wf. intros Hwf. bool_hyps. apply is_empty_false in H1. split; [done|].
  by apply payload_roundtrip.
Qed.

Lemma applied_payload {A} `{PayloadCodec A} limits (a : A) decoded bs detail f s :
  nested_wf limits a = true -> bs = encode_payload a ->
  decoded = decode_payload limits bs -> applied decoded detail f s = (Status_Ok, f a s).
Proof. intros Hwf -> ->. by rewrite (proj2 (nested_roundtrip limits a Hwf)). Qed.

Lemma finish_id id : IsValidIdentityText id = true -> finish (PutBytes id writer_empty) = lay_bytes id.
Proof.
  intros H. apply finish_layout; [apply writes_bytes|]. rewrite blen_lay_bytes.
  apply IsValidIdentityText_length in H. unfold kMaxIdentityLength, kMaxCanonicalBytes in *. lia.
Qed.

Lemma finish_epoch e : u64 e = true -> finish (PutU64 e writer_empty) = lay_u64 e.
Proof. intros H. apply finish_layout; [apply writes_u64; by eapply u_nonneg|done]. Qed.

(** Applying the record of an event does what the event says. *)
Lemma ApplyPayload_event limits event s :
  event_wf limits event = true ->
  ApplyPayload limits (event_type event) (event_payload event) s =
  (Status_Ok, apply_event limits event s).
Proof.
  destruct event as [p|d|d|a|a|o|f|id|e]; cbn [event_wf event_type event_payload apply_event];
    unfold ApplyPayload; intros Hwf.
  - eapply (applied_payload limits p); [done|apply EncodePolicy_payload|done].
  - eapply (applied_payload limits d); [done|apply EncodeIntent_payload|done].
  - eapply (applied_payload limits d); [done|apply EncodeObservation_payload|done].
  - eapply (applied_payload limits a); [done|apply EncodeAttempt_payload|done].
  - eapply (applied_payload limits a); [done|apply EncodeAttempt_payload|done].
  - eapply (applied_payload limits o); [done|apply EncodeOutcome_payload|apply DecodeOutcome_payload].
  - eapply (applied_payload limits f); [done|apply EncodeFence_payload|apply DecodeFence_payload].
  - rewrite finish_id, (read_exact_ok _ _ id) by (done || by apply decodes_bytes, identity_bound).
    by rewrite StringId_TryParse_ok.
  - by rewrite finish_epoch, (read_exact_ok _ _ e) by (done || by apply decodes_u64).
Qed.

Lemma event_type_valid event : event_type event <> RT_Invalid.
Proof. by destruct event. Qed.

(** The records of a sequence of events replay as that sequence. *)
Definition record_of (event : StoreEvent) (r : JournalRecord) : Prop :=
  jr_type r = event_type event /\ jr_payload r = event_payload event.

(** [for (record : records) ApplyRecord(record)], stopping at the first refusal. *)
Fixpoint replay (limits : RuntimeLimits) (records : list JournalRecord) (s : DurableState)
  : Status * DurableState :=
  match records with
  | [] => (Status_Ok, s)
  | r :: records' =>
    let '(status, s') := ApplyRecord limits r s in
    if Status_ok status then replay limits records' s' else (status, s')
  end.

Lemma replay_events limits events records s :
  forallb (event_wf limits) events = true -> Forall2 record_of events records ->
  replay limits records s = (Status_Ok, apply_events limits events s).
Proof.
  intros Hwf Hr. revert s. induction Hr as [|ev r events records [Ht Hp] Hr IH]; intros s; [done|].
  cbn [forallb] in Hwf. bool_hyps. cbn [replay]. unfold ApplyRecord.
  rewrite Ht, Hp, ApplyPayload_event by done. change (Status_ok Status_Ok) with true.
  by rewrite IH.
Qed.

(** ** Retention *)

Lemma blen_keep_last {A} bound (l : list A) : 0 <= bound -> blen (keep_last bound l) <= bound.
Proof. intros H. unfold keep_last, blen. rewrite length_drop. lia. Qed.

Lemma keep_last_forallb {A} (f : A -> bool) bound l :
  forallb f l = true -> forallb f (keep_last bound l) = true.
Proof.
  rewrite !forallb_Forall. unfold keep_last. intros H. by apply Forall_drop.
Qed.

Lemma forallb_snoc {A} (f : A -> bool) l a :
  forallb f l = true -> f a = true -> forallb f (l ++ [a]) = true.
Proof. intros Hl Ha. rewrite forallb_app, Hl. simpl. by rewrite Ha. Qed.

Lemma om_insert_forallb {K V} `{KeyOrder K} (f : K * V -> bool) k v m :
  f (k, v) = true -> forallb f m = true -> forallb f (om_insert k v m) = true.
Proof. rewrite !forallb_Forall. intros. by apply om_insert_Forall. Qed.

Lemma om_find_wf {K V} `{KeyOrder K} (f : K * V -> bool) k v m :
  forallb f m = true -> om_find k m = Some v -> f (k, v) = true.
Proof.
  rewrite forallb_Forall, Forall_forall. intros Hf Hk. apply Hf. by apply om_find_Some_in.
Qed.

Lemma om_length_erase {K V} `{KeyOrder K} (k : K) (v : V) m :
  om_find k m = Some v -> length m = S (length (om_erase k m)).
Proof.
  induction m as [|[k' v'] m IH]; simpl; [done|]. destruct (key_eqb k k'); [done|].
  intros Hf. simpl. by rewrite <- (IH Hf).
Qed.

Lemma first_terminal_Some m id :
  first_terminal m = Some id -> exists a, (id, a) ∈ m /\ IsTerminalAttemptState (at_state a) = true.
Proof.
  induction m as [|[k a] m IH]; simpl; [done|]. destruct (IsTerminalAttemptState (at_state a)) eqn:E.
  - intros [= <-]. exists a. split; [left|done].
  - intros Hf. destruct (IH Hf) as (a' & Hin & Ht). exists a'. split; [by right|done].
Qed.

Lemma first_terminal_None m :
  first_terminal m = None -> Forall (fun e => IsTerminalAttemptState (at_state e.2) = false) m.
Proof.
  induction m as [|[k a] m IH]; simpl; [constructor|].
  destruct (IsTerminalAttemptState (at_state a)) eqn:E; [done|]. constructor; [done|auto].
Qed.

(** A property every eviction of a terminal attempt preserves holds after the trim. *)
Lemma trim_attempts_inv (P : list (Z * AttemptRecord) -> Prop) bound fuel : forall m,
  (forall m id a, P m -> om_sorted m = true -> om_find id m = Some a ->
     IsTerminalAttemptState (at_state a) = true -> P (om_erase id m)) ->
  P m -> om_sorted m = true ->
  P (trim_attempts fuel bound m) /\ om_sorted (trim_attempts fuel bound m) = true.
Proof.
  induction fuel as [|fuel IH]; intros m Hstep HP Hs; cbn [trim_attempts]; [done|].
  destruct (bound <? blen m); [|done].
  destruct (first_terminal m) as [id|] eqn:E; [|done].
  destruct (first_terminal_Some m id E) as (a & Hin & Ht).
  apply IH; [done| |by apply om_sorted_erase].
  by apply (Hstep m id a); [..|apply om_find_in|].
Qed.

Lemma TrimAttempts_sorted limits m : om_sorted m = true -> om_sorted (TrimAttempts limits m) = true.
Proof. intros Hs. by apply (trim_attempts_inv (fun _ => True)). Qed.

Lemma TrimAttempts_forallb limits f m :
  forallb f m = true -> om_sorted m = true -> forallb f (TrimAttempts limits m) = true.
Proof.
  intros Hf Hs. apply (trim_attempts_inv (fun m => forallb f m = true)); [|done|done].
  intros m' id a. rewrite !forallb_Forall. intros. by apply om_erase_Forall.
Qed.

(** Attempts in flight are never evicted. *)
Lemma TrimAttempts_keeps limits m id a :
  om_sorted m = true -> om_find id m = Some a -> IsTerminalAttemptState (at_state a) = false ->
  om_find id (TrimAttempts limits m) = Some a.
Proof.
  intros Hs Hf Ht. apply (trim_attempts_inv (fun m => om_find id m = Some a)); [|done|done].
  intros m' id' a' Hf' Hs' Hid' Ht'. rewrite om_find_erase_ne; [done|]. intros ->. congruence.
Qed.

(** The trim invents nothing. *)
Lemma TrimAttempts_find limits m id a :
  om_sorted m = true -> om_find id (TrimAttempts limits m) = Some a -> om_find id m = Some a.
Proof.
  intros Hs. apply (trim_attempts_inv
    (fun m' => om_find id m' = Some a -> om_find id m = Some a)); [|done|done].
  intros m' id' a' IH Hs' Hid' Ht' Hf. apply IH.
  destruct (decide (id = id')) as [->|Hne]; [|by rewrite om_find_erase_ne in Hf].
  by rewrite om_find_erase_eq in Hf.
Qed.

(** The trim reaches the bound, unless only attempts in flight are left. *)
Lemma trim_attempts_bounded fuel bound : forall m,
  om_sorted m = true -> (length m <= fuel)%nat -> 0 <= bound ->
  blen (trim_attempts fuel bound m) <= bound \/
  Forall (fun e => IsTerminalAttemptState (at_state e.2) = false) (trim_attempts fuel bound m).
Proof.
  induction fuel as [|fuel IH]; intros m Hs Hf Hb; cbn [trim_attempts].
  - destruct m; [|simpl in Hf; lia]. left. by rewrite blen_nil.
  - destruct (Z.ltb_spec bound (blen m)); [|by left].
    destruct (first_terminal m) as [id|] eqn:E; [|right; by apply first_terminal_None].
    destruct (first_terminal_Some m id E) as (a & Hin & Ht).
    pose proof (om_length_erase id a m (om_find_in _ _ _ Hs Hin)).
    apply IH; [by apply om_sorted_erase|lia|done].
Qed.

(** ** The invariant of the durable state *)

(** The retention limits are unsigned. *)
Definition retention_wf (limits : RuntimeLimits) : bool :=
  (0 <=? max_retained_observations_per_scope limits) && (0 <=? max_retained_outcomes limits) &&
  (0 <=? max_retained_attempts limits).

(** Attempt identities still to be issued are above every retained one. *)
Definition ids_below_next (s : DurableState) : bool :=
  forallb (fun e => e.1 <? ds_next_attempt s) (ds_attempts s).

Section EventInvariant.
Variable limits : RuntimeLimits.
Hypothesis Hlimits : retention_wf limits = true.

Lemma bound_nonneg :
  0 <= max_retained_observations_per_scope limits /\ 0 <= max_retained_outcomes limits /\
  0 <= max_retained_attempts limits.
Proof. unfold retention_wf in Hlimits. bool_hyps. done. Qed.

Lemma nested_pc_wf {A} `{PayloadCodec A} (a : A) : nested_wf limits a = true -> pc_wf limits a = true.
Proof. unfold nested_wf. intros. by bool_hyps. Qed.

Lemma entry_or_empty_wf {A} (f : A -> bool) (g : bytes * list A -> bool) scope m :
  (forall e, g e = true -> forallb f e.2 = true) -> forallb g m = true ->
  forallb f (entry_or_empty scope m) = true.
Proof.
  intros Hg Hm. unfold entry_or_empty. destruct (om_find scope m) as [l|] eqn:E; [|done].
  apply (Hg (scope, l)). by eapply om_find_wf.
Qed.

Lemma generations_wf_insert document m :
  intent_wf limits document = true -> forallb (generations_wf limits) m = true ->
  forallb (generations_wf limits) (om_insert (in_scope document)
    (keep_last (max_retained_observations_per_scope limits)
       (entry_or_empty (in_scope document) m ++ [in_generation document])) m) = true.
Proof.
  intros Hd Hm. apply om_insert_forallb; [|done].
  unfold generations_wf. cbn [fst snd]. unfold intent_wf in Hd. bool_hyps. bool_goal; [done| |].
  - apply blen_keep_last, bound_nonneg.
  - apply keep_last_forallb, forallb_snoc; [|done].
    apply (entry_or_empty_wf _ (generations_wf limits)); [|done].
    intros e He. unfold generations_wf in He. by bool_hyps.
Qed.

Lemma TrimObservations_insert scope stream m :
  om_sorted m = true ->
  TrimObservations limits scope (om_insert scope stream m) =
  om_insert scope (keep_last (max_retained_observations_per_scope limits) stream) m.
Proof.
  intros Hs. unfold TrimObservations. rewrite om_find_insert_eq.
  apply om_ext; [by repeat apply om_sorted_insert|by apply om_sorted_insert|].
  intros k. destruct (decide (k = scope)) as [->|Hne].
  - by rewrite !om_find_insert_eq.
  - by rewrite !om_find_insert_ne.
Qed.

Lemma stream_wf_insert document m :
  nested_wf limits document = true -> forallb (stream_wf limits) m = true ->
  forallb (stream_wf limits) (om_insert (ob_scope document)
    (keep_last (max_retained_observations_per_scope limits)
       (entry_or_empty (ob_scope document) m ++ [document])) m) = true.
Proof.
  intros Hd Hm. pose proof (nested_pc_wf _ Hd) as Hwf. cbn [pc_wf observation_codec] in Hwf.
  unfold observation_wf in Hwf. bool_hyps. apply om_insert_forallb; [|done].
  unfold stream_wf. cbn [fst snd]. bool_goal; [done| |].
  - apply blen_keep_last, bound_nonneg.
  - apply keep_last_forallb, forallb_snoc; [|done].
    apply (entry_or_empty_wf _ (stream_wf limits)); [|done].
    intros e He. unfold stream_wf in He. by bool_hyps.
Qed.

Lemma next_attempt_wf attempt s :
  u64 (at_id attempt) = true -> u64 (ds_next_attempt s) = true -> ds_next_attempt s <> 0 ->
  u64 (ds_next_attempt (apply_attempt limits attempt s)) = true /\
  ds_next_attempt (apply_attempt limits attempt s) <> 0.
Proof.
  intros Ha Hn H0. cbn [apply_attempt with_attempts ds_next_attempt].
  assert (u64 (wrap 64 (at_id attempt + 1)) = true).
  { apply in_unsigned_intro. unfold wrap. by apply Z.mod_pos_bound. }
  destruct (ds_next_attempt s <=? at_id attempt);
    match goal with |- context [?x =? 0] => destruct (Z.eqb_spec x 0) end; done.
Qed.

Lemma keyed_intro {K V} `{EqDecision K} (key : V -> K) wf v :
  wf v = true -> keyed key wf (key v, v) = true.
Proof. intros H. unfold keyed. cbn. by bool_goal. Qed.

(** The conjuncts of the invariant that an event does not touch. *)
Ltac durable_goal :=
  unfold durable_wf; cbn -[TrimObservations TrimAttempts TrimOutcomes apply_attempt];
  bool_goal; try done; try by apply Z.eqb_neq.

Lemma apply_attempt_wf attempt s :
  durable_wf limits s = true -> nested_wf limits attempt = true ->
  durable_wf limits (apply_attempt limits attempt s) = true.
Proof.
  intros Hwf Ha. unfold durable_wf in Hwf. bool_hyps. pose proof (nested_pc_wf _ Ha) as Hpc.
  cbn [pc_wf attempt_codec] in Hpc. unfold attempt_wf in Hpc. bool_hyps.
  destruct (next_attempt_wf attempt s) as [Hn1 Hn2]; [done..|].
  assert (om_sorted (om_insert (at_id attempt) attempt (ds_attempts s)) = true)
    by (by apply om_sorted_insert).
  durable_goal; [by apply TrimAttempts_sorted|].
  apply TrimAttempts_forallb; [|done]. apply om_insert_forallb; [by apply keyed_intro|done].
Qed.

(** Every event keeps the durable state well-formed. *)
Lemma apply_event_wf event s :
  durable_wf limits s = true -> event_wf limits event = true ->
  durable_wf limits (apply_event limits event s) = true.
Proof.
  pose proof bound_nonneg as (Hb1 & Hb2 & Hb3).
  intros Hwf Hev. pose proof Hwf as Hwf0. unfold durable_wf in Hwf. bool_hyps.
  destruct event as [p|d|d|a|a|o|f|id|e]; cbn [event_wf apply_event] in *.
  - durable_goal.
  - pose proof (nested_pc_wf _ Hev). durable_goal.
    + by apply om_sorted_insert.
    + by apply generations_wf_insert.
    + by apply om_sorted_insert.
    + apply om_insert_forallb; [by apply keyed_intro|done].
  - unfold apply_observation. rewrite TrimObservations_insert by done.
    durable_goal; [by apply om_sorted_insert|by apply stream_wf_insert].
  - by apply apply_attempt_wf.
  - by apply apply_attempt_wf.
  - durable_goal; [by apply blen_keep_last|by apply keep_last_forallb, forallb_snoc].
  - durable_goal; [by apply om_sorted_insert|]. apply om_insert_forallb; [by apply keyed_intro|done].
  - durable_goal; [by apply om_sorted_erase|]. rewrite forallb_Forall in *. by apply om_erase_Forall.
  - unfold apply_epoch. destruct (_ <? _); durable_goal.
Qed.

Lemma apply_events_wf events s :
  durable_wf limits s = true -> forallb (event_wf limits) events = true ->
  durable_wf limits (apply_events limits events s) = true.
Proof.
  revert s. induction events as [|ev events IH]; intros s Hs Hev; [done|].
  cbn [forallb] in Hev. bool_hyps. apply IH; [by apply apply_event_wf|done].
Qed.

(** Identities below the counter stay below it, until the counter wraps. *)
Lemma apply_attempt_fresh attempt s :
  om_sorted (ds_attempts s) = true -> 0 <= at_id attempt < 2 ^ 64 - 1 ->
  ids_below_next s = true -> ids_below_next (apply_attempt limits attempt s) = true.
Proof.
  unfold ids_below_next. intros Hs Ha Hb.
  cbn [apply_attempt with_attempts ds_next_attempt ds_attempts].
  assert (wrap 64 (at_id attempt + 1) = at_id attempt + 1) as ->
    by (unfold wrap; apply Z.mod_small; lia).
  apply TrimAttempts_forallb; [|by apply om_sorted_insert].
  apply om_insert_forallb; cbn [fst].
  - destruct (Z.leb_spec (ds_next_attempt s) (at_id attempt));
      match goal with |- context [?x =? 0] => destruct (Z.eqb_spec x 0) end; apply Z.ltb_lt; lia.
  - rewrite forallb_Forall in Hb |- *. eapply Forall_impl; [exact Hb|].
    intros e He. cbn beta in *. bool_hyps. apply Z.ltb_lt.
    destruct (Z.leb_spec (ds_next_attempt s) (at_id attempt));
      match goal with |- context [?x =? 0] => destruct (Z.eqb_spec x 0) end; lia.
Qed.
End EventInvariant.

(** ** Properties *)

(** The durable state refines its abstract specification: replaying the journal records
    of any sequence of accepted events yields exactly the fold of those events, is never
    refused, and keeps the state well-formed (typed counters, maps sorted and keyed by
    their own entries, every document decodable, retention within its limits). *)
Theorem replay_refines_events limits events records s :
  retention_wf limits && durable_wf limits s && forallb (event_wf limits) events = true ->
  Forall2 record_of events records ->
  replay limits records s = (Status_Ok, apply_events limits events s) /\
  durable_wf limits (apply_events limits events s) = true.
Proof.
  intros H Hr. bool_hyps. split; [by apply replay_events|by apply apply_events_wf].
Qed.

Definition example_events : list StoreEvent :=
  [Ev_Policy DefaultPolicy; Ev_Epoch 1; Ev_Intent example_intent; Ev_Observation example_observation;
   Ev_Fence example_fence; Ev_Outcome example_outcome; Ev_FenceClear (B "fence-1")].

Definition records_of (events : list StoreEvent) : list JournalRecord :=
  map (fun ev => mkJournalRecord 0 (event_type ev) (event_payload ev)) events.

Lemma replay_refines_events_witness :
  replay default_limits (records_of example_events) empty_state =
    (Status_Ok, apply_events default_limits example_events empty_state) /\
  durable_wf default_limits (apply_events default_limits example_events empty_state) = true.
Proof.
  apply (replay_refines_events default_limits example_events (records_of example_events) empty_state).
  - vm_compute. reflexivity.
  - repeat constructor.
Defined.

(** A snapshot payload holds the whole durable state: loading what was encoded from a
    well-formed state within the loader's table sizes gives that state back, with the
    store identity of the snapshot header and the sequence still to be set. *)
Theorem snapshot_payload_roundtrip limits s store epoch :
  durable_wf limits s && snapshot_fits limits s = true -> EncodeSnapshotPayload s <> [] ->
  ApplySnapshotPayload limits (EncodeSnapshotPayload s)
    (with_last_epoch epoch (with_store store empty_state)) =
  inr (with_sequence 0 (with_store store s)).
Proof. intros H. bool_hyps. by apply EncodeSnapshotPayload_loads. Qed.

Definition example_durable : DurableState :=
  apply_events default_limits
    [Ev_Policy DefaultPolicy; Ev_Epoch 4; Ev_Fence example_fence; Ev_Outcome example_outcome]
    empty_state.

Lemma snapshot_payload_roundtrip_witness :
  ApplySnapshotPayload default_limits (EncodeSnapshotPayload example_durable)
    (with_last_epoch 4 (with_store (repeat Byte.x07 16) empty_state)) =
  inr (with_sequence 0 (with_store (repeat Byte.x07 16) example_durable)).
Proof.
  apply (snapshot_payload_roundtrip default_limits example_durable).
  - vm_compute. reflexivity.
  - vm_compute. discriminate.
Defined.

(** C35. Retention of attempts: recording an attempt never evicts one that is still in flight
    (nor changes it), evicts terminal attempts until the bound is met, and exceeds the
    bound only when nothing but attempts in flight is left. *)
Theorem retention_keeps_in_flight limits attempt s :
  retention_wf limits && durable_wf limits s = true ->
  let s' := apply_attempt limits attempt s in
  (forall id a, om_find id (om_insert (at_id attempt) attempt (ds_attempts s)) = Some a ->
     terminal a = false -> om_find id (ds_attempts s') = Some a) /\
  (forall id a, om_find id (ds_attempts s') = Some a ->
     om_find id (om_insert (at_id attempt) attempt (ds_attempts s)) = Some a) /\
  (blen (ds_attempts s') <= max_retained_attempts limits \/
   Forall (fun e => terminal e.2 = false) (ds_attempts s')).
Proof.
  intros H. bool_hyps. unfold retention_wf, durable_wf in *. bool_hyps. cbv zeta.
  cbn [apply_attempt with_attempts ds_attempts].
  assert (om_sorted (om_insert (at_id attempt) attempt (ds_attempts s)) = true)
    by (by apply om_sorted_insert).
  split; [intros; by apply TrimAttempts_keeps|].
  split; [intros id a; by apply TrimAttempts_find|]. by apply trim_attempts_bounded.
Qed.

Definition example_attempt : AttemptRecord :=
  mkAttempt 1 zero_digest (B "fabric/rack-7") (B "port/eth0") ACT_ApplyDesired 3
    (repeat Byte.x01 16) example_authority AS_Dispatched 1700000000000 [].

Lemma retention_keeps_in_flight_witness :
  let s' := apply_attempt default_limits example_attempt empty_state in
  om_find 1 (ds_attempts s') = Some example_attempt /\
  (blen (ds_attempts s') <= 16384 \/ Forall (fun e => terminal e.2 = false) (ds_attempts s')).
Proof.
  destruct (retention_keeps_in_flight default_limits example_attempt empty_state) as (H & _ & Hb).
  - vm_compute. reflexivity.
  - cbv zeta. split; [apply H; reflexivity|exact Hb].
Defined.
