(* ===== verification/Store.v ===== *)
(** * The durable store (store.hpp, store.cpp)

    The store object: opening (lock, staging file, snapshot, journal, replay), the durable
    mutations that journal a record before they touch the state, and compaction.  The
    directory is what is on disk; the answers of the host are inputs. *)

From Stdlib Require Import ZArith Lia.
From stdpp Require Import prelude.
From S2P Require Import Prelude OrdMap Hash Status Identity Canonical Value Policy Document Drift.
From S2P Require Import Authority Plan Lineage Journal Snapshot StoreState.
Local Open Scope Z_scope.

(** ** The store and its directory *)

(** Models [DurableStore], include/summon/fabric_reconciliation/store.hpp:83-159. The file paths
    and the lock handle of the process are left out; the snapshot's directory entries stand
    for the files the paths name. *)
Record DurableStore := mkStore {
  st_limits : RuntimeLimits;
  st_state : DurableState;
  st_journal : Journal;
  st_snapshot : SnapshotDir;
  st_read_only : bool
}.

Definition set_state (s : DurableState) (store : DurableStore) : DurableStore :=
  mkStore (st_limits store) s (st_journal store) (st_snapshot store) (st_read_only store).
Definition set_journal (j : Journal) (store : DurableStore) : DurableStore :=
  mkStore (st_limits store) (st_state store) j (st_snapshot store) (st_read_only store).
Definition set_snapshot (d : SnapshotDir) (store : DurableStore) : DurableStore :=
  mkStore (st_limits store) (st_state store) (st_journal store) d (st_read_only store).

(** What is at the store path. *)
Record StoreDisk := mkDisk {
  dk_exists : bool;
  dk_is_directory : bool;
  dk_snapshot : SnapshotDir;
  dk_journal : option bytes
}.

Definition empty_disk : StoreDisk := mkDisk false false (mkSnapshotDir None None) None.

(** Models [StoreOpenReport], include/summon/fabric_reconciliation/store.hpp:68-79. *)
Record StoreOpenReport := mkStoreReport {
  so_created : bool;
  so_snapshot_loaded : bool;
  so_recovered_torn_tail : bool;
  so_recovered_bytes : Z;
  so_records_replayed : Z;
  so_records_skipped_by_watermark : Z;
  so_last_sequence : Z;
  so_last_epoch : Z;
  so_attempts_restored : Z;
  so_notes : list Z
}.

(** What the host answers while a store is opened; [sio_lock_ok] is the answer to
    [AcquireStoreLock]. *)
Record StoreIo := mkStoreIo {
  sio_mkdir_ok : bool;
  sio_lock_ok : bool;
  sio_unstage_ok : bool;
  sio_read : ReadIo;
  sio_journal : OpenIo
}.

Definition store_io_good : StoreIo := mkStoreIo true true true read_io_good open_io_good.

(** What opening leaves: its status, the store and its report when it succeeds, and the
    directory. *)
Record StoreOpened := mkStoreOpened {
  sp_status : Status;
  sp_store : option (DurableStore * StoreOpenReport);
  sp_disk : StoreDisk
}.

Definition store_failed (status : Status) (disk : StoreDisk) : StoreOpened :=
  mkStoreOpened status None disk.

(** Models [DurableStore::Open], src/store.cpp:319-328: replaying the records above the
    watermark; the counts are those skipped and those applied. *)
Fixpoint replay_above (limits : RuntimeLimits) (watermark : Z) (records : list JournalRecord)
    (skipped replayed : Z) (s : DurableState) : Status * DurableState * Z * Z :=
  match records with
  | [] => (Status_Ok, s, skipped, replayed)
  | r :: records' =>
    if jr_sequence r <=? watermark then
      replay_above limits watermark records' (skipped + 1) replayed s
    else
      let '(status, s') := ApplyRecord limits r s in
      if negb (Status_ok status) then (status, s', skipped, replayed)
      else replay_above limits watermark records' skipped (replayed + 1) s'
  end.

(** Models [DurableStore::Open], src/store.cpp:298-335: the state, from the snapshot and the
    journal. *)
Definition open_state (limits : RuntimeLimits) (read_only created : bool)
    (snapshot : option (SnapshotHeader * bytes)) (records : list JournalRecord)
    (report : JournalOpenReport) (journal : Journal) (disk : StoreDisk) : StoreOpened :=
  let base :=
    match snapshot with
    | None => inr (with_store (jh_store (jo_header report)) empty_state, 0)
    | Some (header, payload) =>
      if negb (bool_decide (sh_store header = jh_store (jo_header report))) then
        inl (mkStatus SC_IntegrityFailure RC_SnapshotStoreMismatch
               (B "snapshot and journal belong to different stores"))
      else if jo_last_sequence report <? sh_watermark header then
        inl (mkStatus SC_IntegrityFailure RC_SnapshotAheadOfJournal
               (B "snapshot watermark is ahead of the journal"))
      else
        match ApplySnapshotPayload limits payload
                (with_last_epoch (sh_epoch header) (with_store (sh_store header) empty_state)) with
        | inl status => inl status
        | inr s => inr (s, sh_watermark header)
        end
    end in
  match base with
  | inl status => store_failed status disk
  | inr (s, watermark) =>
    let '(status, s, skipped, replayed) := replay_above limits watermark records 0 0 s in
    if negb (Status_ok status) then store_failed status disk
    else
      let s := with_sequence (jo_last_sequence report) s in
      mkStoreOpened Status_Ok
        (Some (mkStore limits s journal (dk_snapshot disk) read_only,
               mkStoreReport (created || jo_created report) (bool_decide (is_Some snapshot))
                 (jo_recovered_torn_tail report) (jo_recovered_bytes report) replayed skipped
                 (jo_last_sequence report) (ds_last_epoch s) (blen (ds_attempts s))
                 (jo_notes report)))
        disk
  end.

(** Models [DurableStore::Open], src/store.cpp:253-336: the directory is there. [fresh] is the
    identity a new journal draws, [now_header] and [now_report] its clock readings. *)
Definition enter_directory (io : StoreIo) (limits : RuntimeLimits) (create_if_missing read_only : bool)
    (fresh : bytes) (now_header now_report : Z) (disk : StoreDisk) (created : bool) : StoreOpened :=
  if negb (sio_lock_ok io) then
    store_failed (mkStatus SC_ConflictState RC_DurableWriteFailed
      (B "store is already open by another live process")) disk
  else
    let '(status, dir) :=
      if read_only then (Status_Ok, dk_snapshot disk)
      else RemoveStagingFile (sio_unstage_ok io) (dk_snapshot disk) in
    let disk := mkDisk (dk_exists disk) (dk_is_directory disk) dir (dk_journal disk) in
    if negb (Status_ok status) then store_failed status disk
    else
      let '(status, snapshot) := ReadSnapshot (sio_read io) limits dir in
      if negb (Status_ok status) && negb (bool_decide (st_code status = SC_NotFound)) then
        store_failed status disk
      else
        let o := Journal_Open (sio_journal io)
                   (mkOpenOptions limits (create_if_missing && negb read_only) read_only)
                   fresh now_header now_report (dk_journal disk) in
        let disk := mkDisk (dk_exists disk) (dk_is_directory disk) dir (od_file o) in
        match od_report o, od_journal o with
        | Some report, Some journal =>
          open_state limits read_only created snapshot (od_records o) report journal disk
        | _, _ => store_failed (od_status o) disk
        end.

(** Models [DurableStore::Open], src/store.cpp:222-336. *)
Definition DurableStore_Open (io : StoreIo) (limits : RuntimeLimits)
    (create_if_missing read_only : bool) (fresh : bytes) (now_header now_report : Z)
    (disk : StoreDisk) : StoreOpened :=
  let enter := enter_directory io limits create_if_missing read_only fresh now_header now_report in
  if negb (dk_exists disk) then
    if negb create_if_missing then
      store_failed (mkStatus SC_NotFound RC_DurableWriteFailed
        (B "store directory does not exist")) disk
    else if negb (sio_mkdir_ok io) then
      store_failed (mkStatus SC_Rejected RC_DurableWriteFailed
        (B "cannot create store directory")) disk
    else enter (mkDisk true true (dk_snapshot disk) (dk_journal disk)) true
  else if negb (dk_is_directory disk) then
    store_failed (mkStatus SC_Rejected RC_DurableWriteFailed
      (B "store path exists and is not a directory")) disk
  else enter disk false.

(** ** Durable mutations *)

(** Models [DurableStore::AppendAndApply], src/store.cpp:492-503. *)
Definition AppendAndApply (io : WriteIo) (type : RecordType) (payload : bytes)
    (store : DurableStore) : Status * DurableStore :=
  let '(status, j) := Append io type payload (st_journal store) in
  let store := set_journal j store in
  if negb (Status_ok status) then (status, store)
  else
    let s := with_sequence (jn_last_sequence j) (st_state store) in
    let '(status, s) := ApplyPayload (st_limits store) type payload s in
    (status, set_state s store).

Definition store_read_only : Status :=
  mkStatus SC_PreconditionFailed RC_DurableWriteFailed (B "store is read-only").

Definition not_encoded (detail : bytes) : Status :=
  mkStatus SC_Rejected RC_DurableWriteFailed detail.

(** The common shape: refused when read-only or not encodable. *)
Definition commit_payload (io : WriteIo) (type : RecordType) (payload detail : bytes)
    (store : DurableStore) : Status * DurableStore :=
  if st_read_only store then (store_read_only, store)
  else if is_empty payload then (not_encoded detail, store)
  else AppendAndApply io type payload store.

(** Models [DurableStore::PutPolicy], src/store.cpp:505-516. *)
Definition Store_PutPolicy (io : WriteIo) (policy : ReconciliationPolicy) : DurableStore ->
    Status * DurableStore :=
  commit_payload io RT_PolicyPut (EncodePolicy policy) (B "policy could not be encoded").

(** Models [DurableStore::CommitIntent], src/store.cpp:518-529. *)
Definition Store_CommitIntent (io : WriteIo) (document : IntentDocument) : DurableStore ->
    Status * DurableStore :=
  commit_payload io RT_IntentCommit (EncodeIntent document) (B "intent could not be encoded").

(** Models [DurableStore::CommitObservation], src/store.cpp:531-542. *)
Definition Store_CommitObservation (io : WriteIo) (document : ObservationDocument) : DurableStore ->
    Status * DurableStore :=
  commit_payload io RT_ObservationCommit (EncodeObservation document)
    (B "observation could not be encoded").

(** Models [DurableStore::IssueAttempt], src/store.cpp:544-559. *)
Definition Store_IssueAttempt (io : WriteIo) (attempt : AttemptRecord) (store : DurableStore)
  : Status * DurableStore :=
  if st_read_only store then (store_read_only, store)
  else if at_id attempt =? 0 then
    (mkStatus SC_Rejected RC_UnsupportedInput (B "attempt identity zero is never valid"), store)
  else commit_payload io RT_AttemptIssued (EncodeAttemptRecord attempt)
         (B "attempt could not be encoded") store.

(** Models [DurableStore::TransitionAttempt], src/store.cpp:561-572. *)
Definition Store_TransitionAttempt (io : WriteIo) (attempt : AttemptRecord) : DurableStore ->
    Status * DurableStore :=
  commit_payload io RT_AttemptTransition (EncodeAttemptRecord attempt)
    (B "attempt could not be encoded").

(** Models [DurableStore::CommitOutcome], src/store.cpp:574-585. *)
Definition Store_CommitOutcome (io : WriteIo) (outcome : ReconciliationOutcome) : DurableStore ->
    Status * DurableStore :=
  commit_payload io RT_OutcomeCommit (EncodeOutcome outcome) (B "outcome could not be encoded").

(** Models [DurableStore::PutFence], src/store.cpp:587-598. *)
Definition Store_PutFence (io : WriteIo) (fence : FenceEntry) : DurableStore ->
    Status * DurableStore :=
  commit_payload io RT_FencePut (EncodeFence fence) (B "fence could not be encoded").

(** Models [DurableStore::ClearFence], src/store.cpp:600-612. *)
Definition Store_ClearFence (io : WriteIo) (fence : bytes) (store : DurableStore)
  : Status * DurableStore :=
  if st_read_only store then (store_read_only, store)
  else
    let writer := PutBytes fence writer_empty in
    if negb (w_ok writer) then (not_encoded (B "fence identity could not be encoded"), store)
    else AppendAndApply io RT_FenceClear (w_buffer writer) store.

(** Models [DurableStore::AdvanceEpoch], src/store.cpp:614-630. *)
Definition Store_AdvanceEpoch (io : WriteIo) (epoch : Z) (store : DurableStore)
  : Status * DurableStore :=
  if st_read_only store then (store_read_only, store)
  else if epoch <=? ds_last_epoch (st_state store) then
    (mkStatus SC_ConflictState RC_FenceEpochNotNewer
       (B "epoch advance must be strictly increasing"), store)
  else
    let writer := PutU64 epoch writer_empty in
    if negb (w_ok writer) then (not_encoded (B "epoch could not be encoded"), store)
    else AppendAndApply io RT_EpochAdvance (w_buffer writer) store.

(** What the host answers during a compaction, and its clock readings. *)
Record CompactIo := mkCompactIo {
  ci_publish : PublishIo;
  ci_reset : OpenIo;
  ci_now_snapshot : Z;
  ci_now_journal : Z
}.

Definition snapshot_header_of (s : DurableState) (now : Z) (payload : bytes) : SnapshotHeader :=
  mkSnapshotHeader kSnapshotFormatVersion kSnapshotHeaderBytes (ds_store s) (ds_sequence s)
    (ds_last_epoch s) now (blen payload).

(** Models [DurableStore::Compact], src/store.cpp:875-910. *)
Definition Store_Compact (io : CompactIo) (store : DurableStore) : Status * DurableStore :=
  if st_read_only store then (store_read_only, store)
  else
    let s := with_compactions (wrap 64 (ds_compactions (st_state store) + 1)) (st_state store) in
    let payload := EncodeSnapshotPayload s in
    if is_empty payload then (not_encoded (B "snapshot payload could not be encoded"), store)
    else
      let '(status, dir, _) :=
        WriteSnapshotAtomic (ci_publish io) (snapshot_header_of s (ci_now_snapshot io) payload)
          payload (st_snapshot store) in
      let store1 := set_snapshot dir store in
      if negb (Status_ok status) then (status, store1)
      else
        let '(status, j) := Journal_Reset (ci_reset io) (ds_store s) (ci_now_journal io)
                              (st_journal store1) in
        let store2 := set_journal j store1 in
        if negb (Status_ok status) then (status, store2)
        else (Status_Ok, set_state (with_sequence (jn_last_sequence j) s) store2).

(** Models [DurableStore::SyncJournal], src/store.cpp:912-912. *)
Definition Store_SyncJournal (io : WriteIo) (store : DurableStore) : Status * DurableStore :=
  let '(status, j) := Sync io (st_journal store) in (status, set_journal j store).

(** Models [DurableStore::ReopenJournalForTesting], src/store.cpp:914-922. *)
Definition Store_ReopenJournalForTesting (io : OpenIo) (now : Z) (store : DurableStore)
  : Status * DurableStore :=
  if st_read_only store then (store_read_only, store)
  else
    let '(status, j) := Journal_Reset io (ds_store (st_state store)) now (st_journal store) in
    (status, set_journal j store).

(** Models [DurableStore::Close], src/store.cpp:216-220: the lock is released with the process's
    handle; the files stay. *)
Definition Store_Close (store : DurableStore) : DurableStore :=
  set_journal (Journal_Close (st_journal store)) store.

(** ** The store as a history of events *)

(** The record types and payloads the mutations journal. *)
Definition journalled (limits : RuntimeLimits) (type : RecordType) (payload : bytes) : Prop :=
  exists event, event_wf limits event = true /\ type = event_type event /\
    payload = event_payload event.

(** The identity and sequence of a state are kept outside the replayed events. *)
Definition unsequenced (s : DurableState) : DurableState := with_sequence 0 s.

Lemma apply_event_sequence limits event n s :
  apply_event limits event (with_sequence n s) = with_sequence n (apply_event limits event s).
Proof.
  destruct event; try reflexivity. cbn [apply_event]. unfold apply_epoch.
  cbn [with_sequence ds_last_epoch]. by destruct (_ <? _).
Qed.

Lemma apply_event_store limits event s : ds_store (apply_event limits event s) = ds_store s.
Proof. destruct event; try reflexivity. cbn. unfold apply_epoch. by destruct (_ <? _). Qed.

Lemma apply_events_store limits events s : ds_store (apply_events limits events s) = ds_store s.
Proof.
  revert s. induction events as [|ev events IH]; intros s; [done|].
  cbn [apply_events foldl]. etransitivity; [apply IH|apply apply_event_store].
Qed.

Lemma apply_events_unsequenced limits events s :
  ds_sequence (apply_events limits events s) = ds_sequence s.
Proof.
  revert s. induction events as [|ev events IH]; intros s; [done|].
  cbn [apply_events foldl]. etransitivity; [apply IH|].
  destruct ev; try reflexivity. cbn. unfold apply_epoch. by destruct (_ <? _).
Qed.

Lemma apply_events_app limits a b s :
  apply_events limits (a ++ b) s = apply_events limits b (apply_events limits a s).
Proof. apply foldl_app. Qed.

(** *** Replay above a watermark *)

Lemma replay_above_all limits watermark rs : forall skipped replayed s s',
  Forall (fun r => watermark < jr_sequence r) rs -> replay limits rs s = (Status_Ok, s') ->
  replay_above limits watermark rs skipped replayed s =
  (Status_Ok, s', skipped, replayed + blen rs).
Proof.
  induction rs as [|r rs IH]; intros skipped replayed s s' Hw; cbn [replay replay_above].
  - intros [= <-]. by rewrite blen_nil, Z.add_0_r.
  - apply Forall_cons in Hw as [Hr Hw]. rewrite (proj2 (Z.leb_gt _ _)) by done.
    destruct (ApplyRecord limits r s) as [status s1]. destruct (Status_ok status) eqn:E; cbn [negb].
    + intros H. rewrite (IH _ _ _ _ Hw H). f_equal. rewrite blen_cons. lia.
    + intros [= -> ->]. done.
Qed.

Lemma replay_above_none limits watermark rs : forall skipped replayed s,
  Forall (fun r => jr_sequence r <= watermark) rs ->
  replay_above limits watermark rs skipped replayed s =
  (Status_Ok, s, skipped + blen rs, replayed).
Proof.
  induction rs as [|r rs IH]; intros skipped replayed s Hw; cbn [replay_above].
  - by rewrite blen_nil, Z.add_0_r.
  - apply Forall_cons in Hw as [Hr Hw]. rewrite (proj2 (Z.leb_le _ _)) by done.
    rewrite IH by done. rewrite blen_cons. by rewrite Z.add_assoc.
Qed.

Lemma replay_above_app limits watermark a b : forall skipped replayed s s' skipped' replayed',
  replay_above limits watermark a skipped replayed s = (Status_Ok, s', skipped', replayed') ->
  replay_above limits watermark (a ++ b) skipped replayed s =
  replay_above limits watermark b skipped' replayed' s'.
Proof.
  induction a as [|r a IH]; intros skipped replayed s s' skipped' replayed'; cbn [replay_above app].
  - by intros [= <- <- <-].
  - destruct (_ <=? _); [apply IH|].
    destruct (ApplyRecord limits r s) as [status s1]. destruct (Status_ok status) eqn:E; cbn [negb].
    + apply IH.
    + by intros [= -> _ _ _].
Qed.

Lemma contiguous_above base rs :
  contiguous (base + 1) rs ->
  Forall (fun r => base < jr_sequence r /\ jr_sequence r <= base + blen rs) rs.
Proof.
  induction rs as [|r rs IH] using rev_ind; intros Hc; [constructor|].
  apply contiguous_app in Hc as [Hc [Hr _]]. pose proof (blen_nonneg rs).
  rewrite blen_snoc. apply Forall_app. split.
  - eapply Forall_impl; [by apply IH|]. cbn. lia.
  - constructor; [lia|done].
Qed.

(** Records up to the watermark are skipped, the others replayed. *)
Lemma replay_above_split limits first old rs events base :
  contiguous (first + 1) (old ++ rs) -> Forall2 record_of events rs ->
  forallb (event_wf limits) events = true ->
  replay_above limits (first + blen old) (old ++ rs) 0 0 base =
  (Status_Ok, apply_events limits events base, blen old, blen rs).
Proof.
  intros Hc Hr Hev. apply contiguous_app in Hc as [Hc1 Hc2].
  replace (first + 1 + blen old) with (first + blen old + 1) in Hc2 by lia.
  apply contiguous_above in Hc1, Hc2.
  rewrite (replay_above_app _ _ _ _ _ _ _ base (blen old) 0).
  - apply (replay_above_all limits _ rs (blen old) 0); [|by apply replay_events].
    eapply Forall_impl; [exact Hc2|]. by intros r [].
  - apply replay_above_none. eapply Forall_impl; [exact Hc1|]. by intros r [].
Qed.

Lemma short_journal_refused io options fresh now1 now2 p :
  blen p < kJournalHeaderBytes ->
  od_report (Journal_Open io options fresh now1 now2 (Some p)) = None.
Proof.
  intros Hp. unfold Journal_Open. repeat (split_case; [done|]).
  match goal with H : (blen p <? kJournalHeaderBytes) = false |- _ => bool_hyps; lia end.
Qed.

(** A store whose journal is shorter than its header cannot be opened, whatever else is
    there. *)
Lemma short_journal_locks io limits create ro fresh now1 now2 e d dir p :
  blen p < kJournalHeaderBytes ->
  sp_store (DurableStore_Open io limits create ro fresh now1 now2 (mkDisk e d dir (Some p))) = None.
Proof.
  intros Hp. unfold DurableStore_Open, enter_directory. cbn [dk_exists dk_is_directory dk_snapshot dk_journal].
  assert (forall options, od_report (Journal_Open (sio_journal io) options fresh now1 now2 (Some p)) = None)
    as Hj by (intros; by apply short_journal_refused).
  destruct e, d, create, (sio_mkdir_ok io), (sio_lock_ok io); cbn [negb andb]; try done;
    destruct (if ro then _ else _) as [status dir'];
    destruct (negb (Status_ok status)); try done;
    destruct (ReadSnapshot (sio_read io) limits dir') as [status' snapshot];
    destruct (negb (Status_ok status') && _); try done; by rewrite Hj.
Qed.

(** *** The snapshot under a store *)

Section Recovery.
Variable limits : RuntimeLimits.
Hypothesis Hlimits : limits_wf limits.
Hypothesis Hretention : retention_wf limits = true.
Hypothesis Hsnapshots : kMaxCanonicalBytes <= max_journal_bytes limits.

(** What is published for the store [sid]: nothing yet, or a snapshot of a state as of a
    watermark.  The state is what loading gives. *)
Inductive published (dir : SnapshotDir) (sid : bytes) : DurableState -> Z -> Prop :=
| published_nothing :
  sd_published dir = None -> published dir sid (with_store sid empty_state) 0
| published_snapshot s watermark now :
  ds_store s = sid -> durable_wf limits s = true -> snapshot_fits limits s = true ->
  EncodeSnapshotPayload s <> [] -> 0 <= watermark < 2 ^ 64 -> i64 now = true ->
  sd_published dir = Some (BuildSnapshotImage
    (snapshot_header_of (with_sequence watermark s) now (EncodeSnapshotPayload s))
    (EncodeSnapshotPayload s)) ->
  published dir sid (unsequenced s) watermark.

Lemma empty_state_wf sid : durable_wf limits (with_store sid empty_state) = true.
Proof.
  pose proof (bound_nonneg limits Hretention) as (_ & Hb & _). unfold durable_wf. cbn.
  bool_goal; done || (unfold blen; simpl; lia).
Qed.

Lemma published_wf dir sid base watermark :
  published dir sid base watermark ->
  durable_wf limits base = true /\ ds_store base = sid /\ ds_sequence base = 0 /\ 0 <= watermark.
Proof.
  intros [|s w now Hs Hwf]; repeat split; try done; [apply empty_state_wf|lia].
Qed.

(** The state a store is opened with before the replay. *)
Definition snapshot_of (dir : SnapshotDir) : option (SnapshotHeader * bytes) :=
  (ReadSnapshot read_io_good limits dir).2.

Lemma payload_bound s :
  durable_wf limits s = true -> snapshot_fits limits s = true ->
  blen (EncodeSnapshotPayload s) <= kMaxCanonicalBytes.
Proof.
  intros Hwf Hfits. unfold EncodeSnapshotPayload. apply (finish_bound _ (lay_snapshot_payload s)).
  apply (writes_snapshot limits); [|done|done]. unfold snapshot_fits in Hfits. by bool_hyps.
Qed.

Lemma snapshot_header_of_wf s watermark now :
  length (ds_store s) = 16%nat -> durable_wf limits s = true -> snapshot_fits limits s = true ->
  0 <= watermark < 2 ^ 64 -> i64 now = true ->
  snapshot_header_wf (snapshot_header_of (with_sequence watermark s) now (EncodeSnapshotPayload s))
    (EncodeSnapshotPayload s) = true.
Proof.
  intros Hst Hwf Hfits Hw Hnow. pose proof (payload_bound s Hwf Hfits) as Hb.
  pose proof (blen_nonneg (EncodeSnapshotPayload s)). unfold durable_wf in Hwf. bool_hyps.
  unfold snapshot_header_wf, snapshot_header_of. cbn [sh_format_version sh_header_bytes sh_store
    sh_watermark sh_epoch sh_created_unix_ms sh_payload_len with_sequence ds_store ds_sequence
    ds_last_epoch].
  bool_goal; try done; [unfold blen; lia|by apply in_unsigned_intro|].
  apply in_unsigned_intro. unfold kMaxCanonicalBytes in Hb. lia.
Qed.

(** Reading what is published gives its header and payload back. *)
Lemma published_reads dir sid base watermark :
  length sid = 16%nat -> published dir sid base watermark ->
  (snapshot_of dir = None /\ base = with_store sid empty_state /\ watermark = 0 /\
   (ReadSnapshot read_io_good limits dir).1 =
     mkStatus SC_NotFound RC_None (B "snapshot does not exist")) \/
  (exists header payload, ReadSnapshot read_io_good limits dir = (Status_Ok, Some (header, payload)) /\
     sh_store header = sid /\ sh_watermark header = watermark /\
     ApplySnapshotPayload limits payload
       (with_last_epoch (sh_epoch header) (with_store sid empty_state)) = inr base).
Proof.
  intros Hsid [Hnone|s w now Hst Hwf Hfits Hne Hw Hnow Hpub].
  - left. unfold snapshot_of, ReadSnapshot. by rewrite Hnone.
  - right. pose proof (payload_bound s Hwf Hfits) as Hb.
    assert (length (ds_store s) = 16%nat) as Hl by (by rewrite Hst).
    pose proof (snapshot_header_of_wf s w now Hl Hwf Hfits Hw Hnow) as Hh.
    unfold ReadSnapshot. rewrite Hpub. rewrite BuildSnapshotImage_lay by done.
    cbn [ri_size_ok read_io_good negb ri_open_ok ri_read_ok].
    rewrite blen_lay_snapshot, (proj2 (Z.ltb_ge _ _)) by (done || lia).
    rewrite andb_false_r, ParseSnapshotImage_lay by done.
    do 2 eexists. split; [reflexivity|]. split; [exact Hst|]. split; [reflexivity|].
    rewrite EncodeSnapshotPayload_loads by done. unfold unsequenced. rewrite <- Hst.
    by destruct s.
Qed.

(** *** The invariant *)

(** The store [sid] holds the state [spec]: the published state followed by the events of
    the acknowledged journal records above its watermark, which is also its state in memory.
    Records [old] up to the watermark are there until the journal is reset. *)
Definition store_holds (sid : bytes) (store : DurableStore) (spec : DurableState) : Prop :=
  exists created first base old rs events,
    st_limits store = limits /\ st_read_only store = false /\
    holds limits (journalled limits) sid created first (st_journal store) (old ++ rs) /\
    published (st_snapshot store) sid base (first + blen old) /\
    Forall2 record_of events rs /\ forallb (event_wf limits) events = true /\
    spec = apply_events limits events base /\
    st_state store = with_sequence (jn_last_sequence (st_journal store)) spec.

Lemma store_holds_wf sid store spec :
  store_holds sid store spec ->
  length sid = 16%nat /\ durable_wf limits spec = true /\ ds_store spec = sid.
Proof.
  intros (created & w & base & old & rs & events & _ & _ & [tl []] & Hp & _ & Hev & -> & _).
  destruct (published_wf _ _ _ _ Hp) as (Hb & Hs & _). repeat split; [done| |].
  - by apply apply_events_wf.
  - by rewrite apply_events_store.
Qed.

(** A write for which the journal has a sequence number left, or of which no byte arrives. *)
Definition write_has_room (io : WriteIo) (store : DurableStore) : Prop :=
  jn_last_sequence (st_journal store) + 3 < 2 ^ 64 \/ wi_written io = 0.

(** A mutation commits its event durably before memory, or not at all. *)
Lemma commit_holds sid store spec io event :
  store_holds sid store spec -> event_wf limits event = true -> write_has_room io store ->
  let '(status, store') := AppendAndApply io (event_type event) (event_payload event) store in
  (Status_ok status = true -> store_holds sid store' (apply_event limits event spec)) /\
  (Status_ok status = false -> store_holds sid store' spec).
Proof.
  intros (created & w & base & old & rs & events & Hlim & Hro & Hj & Hp & Hr & Hev & Hspec & Hst)
    Hwf Hroom.
  assert (let '(status, j') := Append io (event_type event) (event_payload event) (st_journal store) in
    (Status_ok status = true -> holds limits (journalled limits) sid created w j'
       ((old ++ rs) ++ [mkJournalRecord (jn_last_sequence j') (event_type event) (event_payload event)])) /\
    (Status_ok status = false -> holds limits (journalled limits) sid created w j' (old ++ rs))) as Ha.
  { destruct Hroom as [Hroom|Hio].
    - pose proof (Append_holds limits Hlimits (journalled limits) sid created w (st_journal store)
        (old ++ rs) io (event_type event) (event_payload event) Hj (event_type_valid event)
        ltac:(by exists event) Hroom) as Ha.
      destruct (Append _ _ _ _) as [status j]. destruct Ha as [H1 H2]. split; [|done].
      intros E. by apply H1.
    - pose proof (Append_nothing limits Hlimits (journalled limits) sid created w (st_journal store)
        (old ++ rs) io (event_type event) (event_payload event) Hj Hio) as Ha.
      destruct (Append _ _ _ _) as [status j]. destruct Ha as (H1 & _ & H2). by rewrite H1. }
  unfold AppendAndApply. destruct (Append _ _ _ _) as [status j]. destruct Ha as [Hok Hbad].
  destruct (Status_ok status) eqn:E; cbn [negb].
  - pose proof (Hok eq_refl) as Hj'. cbn [st_state set_journal st_limits].
    rewrite Hlim, Hst, ApplyPayload_event by done. split; [intros _|done].
    exists created, w, base, old, (rs ++ [mkJournalRecord (jn_last_sequence j) (event_type event)
      (event_payload event)]), (events ++ [event]).
    cbn [st_limits st_read_only st_journal st_snapshot st_state set_state set_journal].
    repeat split; try done.
    + by rewrite app_assoc.
    + apply Forall2_app; [done|]. by repeat constructor.
    + by apply forallb_snoc.
    + by rewrite apply_events_app, Hspec.
    + by rewrite !apply_event_sequence.
  - rewrite E. split; [done|]. intros _. exists created, w, base, old, rs, events.
    cbn [st_limits st_read_only st_journal st_snapshot st_state set_journal].
    repeat split; try done; [by apply Hbad|].
    rewrite Hst. destruct (Hbad eq_refl) as [tl' []]. destruct Hj as [tl0 []]. congruence.
Qed.

(** The events behind records that were appended by mutations. *)
Lemma journalled_events rs :
  Forall (good limits (journalled limits)) rs ->
  exists events, Forall2 record_of events rs /\ forallb (event_wf limits) events = true.
Proof.
  induction 1 as [|r rs [_ (ev & Hwf & Ht & Hp)] Hrs (events & Hr & Hev)]; [by exists []|].
  exists (ev :: events). split; [by constructor|]. cbn. by rewrite Hwf, Hev.
Qed.

(** The state is rebuilt from the published snapshot and the journal. *)
Lemma open_state_recovers sid created first base dir old rs events torn notes journal file :
  length sid = 16%nat -> published dir sid base (first + blen old) ->
  contiguous (first + 1) (old ++ rs) ->
  Forall2 record_of events rs -> forallb (event_wf limits) events = true ->
  exists report,
    open_state limits false false (snapshot_of dir) (old ++ rs)
      (mkOpenReport false (negb (torn =? 0)) torn (blen (old ++ rs)) (first + blen (old ++ rs))
         (fresh_header sid created first) notes) journal (mkDisk true true dir file) =
    mkStoreOpened Status_Ok
      (Some (mkStore limits (with_sequence (first + blen (old ++ rs)) (apply_events limits events base))
               journal dir false, report))
      (mkDisk true true dir file).
Proof.
  intros Hsid Hp Hc Hr Hev. pose proof (blen_nonneg rs).
  pose proof (replay_above_split limits first old rs events base Hc Hr Hev) as Hreplay.
  destruct (published_reads dir sid base _ Hsid Hp)
    as [(Hn & -> & Hw & _)|(header & payload & Hread & Hst & Hw & Happly)].
  - rewrite Hn. unfold open_state. cbn [jo_header fresh_header jh_store].
    rewrite Hw in Hreplay. rewrite Hreplay. eexists. reflexivity.
  - unfold snapshot_of. rewrite Hread. unfold open_state.
    cbn [snd jo_header fresh_header jh_store jo_last_sequence].
    rewrite bool_decide_eq_true_2 by done. cbn [negb].
    rewrite Hst, Hw, (proj2 (Z.ltb_ge _ _)), Happly by (rewrite blen_app; lia).
    rewrite Hreplay. eexists. reflexivity.
Qed.

(** Opening a store whose journal is opened as [o] and whose snapshot is readable. *)
Lemma Open_enters create fresh now1 now2 dir p :
  let o := Journal_Open open_io_good (mkOpenOptions limits create false) fresh now1 now2 (Some p) in
  let dir' := mkSnapshotDir (sd_published dir) None in
  (Status_ok (ReadSnapshot read_io_good limits dir').1 = true \/
   st_code (ReadSnapshot read_io_good limits dir').1 = SC_NotFound) ->
  DurableStore_Open store_io_good limits create false fresh now1 now2 (mkDisk true true dir (Some p)) =
  match od_report o, od_journal o with
  | Some report, Some journal =>
    open_state limits false false (snapshot_of dir') (od_records o) report journal
      (mkDisk true true dir' (od_file o))
  | _, _ => store_failed (od_status o) (mkDisk true true dir' (od_file o))
  end.
Proof.
  intros o dir' Hread. unfold DurableStore_Open, enter_directory.
  cbn [dk_exists dk_is_directory negb sio_lock_ok store_io_good dk_snapshot dk_journal
       sio_unstage_ok sio_read sio_journal RemoveStagingFile remove_staging].
  change (Status_ok Status_Ok) with true. cbn [negb]. fold dir'. unfold snapshot_of.
  destruct (ReadSnapshot read_io_good limits dir') as [status snapshot]. cbn [fst snd] in *.
  assert (negb (Status_ok status) && negb (bool_decide (st_code status = SC_NotFound)) = false) as ->.
  { destruct Hread as [-> | ->]; [done|]. by rewrite bool_decide_eq_true_2, andb_false_r. }
  by rewrite andb_true_r.
Qed.

Lemma published_readable dir sid base w :
  length sid = 16%nat -> published dir sid base w ->
  Status_ok (ReadSnapshot read_io_good limits dir).1 = true \/
  st_code (ReadSnapshot read_io_good limits dir).1 = SC_NotFound.
Proof.
  intros Hsid Hp. destruct (published_reads dir sid base w Hsid Hp)
    as [(_ & _ & _ & ->)|(header & payload & -> & _)]; [by right|by left].
Qed.

Lemma published_unstaged dir sid base w :
  published dir sid base w -> published (mkSnapshotDir (sd_published dir) None) sid base w.
Proof. intros []; econstructor; done. Qed.

(** Opening what a crash left of a store gives the acknowledged state back, with at most
    one more event: the one whose commit was not acknowledged. *)
Lemma store_recovers sid store spec p staging create fresh now1 now2 :
  store_holds sid store spec -> crash_image (st_journal store) p ->
  blen p <= max_journal_bytes limits -> jn_last_sequence (st_journal store) + 3 < 2 ^ 64 ->
  let o := DurableStore_Open store_io_good limits create false fresh now1 now2
             (mkDisk true true (mkSnapshotDir (sd_published (st_snapshot store)) staging) (Some p)) in
  exists store' report extra,
    sp_status o = Status_Ok /\ sp_store o = Some (store', report) /\
    blen extra <= 1 /\ forallb (event_wf limits) extra = true /\
    store_holds sid store' (apply_events limits extra spec).
Proof.
  intros (created & w & base & old & rs & events & Hlim & Hro & Hj & Hp & Hr & Hev & -> & Hst)
    Hc Hmax Hroom.
  assert (length sid = 16%nat) as Hsid by (by destruct Hj as [? []]).
  apply published_unstaged in Hp as Hp'.
  destruct (Open_recovers limits Hlimits (journalled limits) sid created w (st_journal store)
    (old ++ rs) p create fresh now1 now2 Hj Hc Hmax Hroom) as (extra & torn & Hex & Hg & Hcont & notes & Hop).
  destruct (journalled_events extra Hg) as (evs & Hr2 & Hev2).
  rewrite Open_enters by (cbn [sd_published]; by eapply published_readable).
  cbv zeta. rewrite Hop. cbn [od_report od_journal od_records od_file sd_published].
  assert (Forall2 record_of (events ++ evs) (rs ++ extra)) as Hall by (by apply Forall2_app).
  assert (forallb (event_wf limits) (events ++ evs) = true) as Hwf by (by rewrite forallb_app, Hev, Hev2).
  rewrite <- app_assoc in *.
  destruct (open_state_recovers sid created w base _ old (rs ++ extra) (events ++ evs) torn notes
    (mkJournal true (lay_header sid created w ++ images (old ++ rs ++ extra))
       (blen (lay_header sid created w ++ images (old ++ rs ++ extra))) (w + blen (old ++ rs ++ extra))
       (blen (lay_header sid created w ++ images (old ++ rs ++ extra))) limits false false)
    (Some (lay_header sid created w ++ images (old ++ rs ++ extra)))
    Hsid Hp' Hcont Hall Hwf) as (report & ->).
  do 2 eexists. exists evs. split; [reflexivity|]. split; [reflexivity|].
  split; [unfold blen in *; by rewrite (Forall2_length _ _ _ Hr2)|].
  split; [done|]. exists created, w, base, old, (rs ++ extra), (events ++ evs).
  cbn [st_limits st_read_only st_journal st_snapshot st_state jn_last_sequence].
  rewrite apply_events_app. repeat split; try done.
  rewrite app_assoc in *. by apply reopened_holds with (st_journal store).
Qed.

(** *** Answers of the host while a store is opened *)

(** A journal, a snapshot or a store that opens at all opens as if every answer had been good. *)
Lemma Journal_Open_as_good io options fresh now1 now2 file r :
  op_read_only options = false -> (file = None -> length fresh = 16%nat) ->
  od_report (Journal_Open io options fresh now1 now2 file) = Some r ->
  Journal_Open io options fresh now1 now2 file = Journal_Open open_io_good options fresh now1 now2 file.
Proof.
  intros Hro Hfresh. unfold Journal_Open. destruct (oi_stat_ok io); cbn [negb oi_stat_ok open_io_good]; [|done].
  destruct file as [content|].
  - destruct (oi_size_ok io); cbn [negb oi_size_ok]; [|done]. destruct (_ <? blen content); [done|].
    destruct (oi_open_ok io); cbn [negb oi_open_ok]; [|done]. destruct (oi_read_ok io); cbn [negb oi_read_ok]; [|done].
    destruct (blen content <? _); [done|]. destruct (ParseJournalHeaderImage _); [|done].
    destruct (scan _ _ _ _ _ _) as [records [|torn|status]]; [| |done]; unfold open_scanned; rewrite Hro;
      cbn [oi_flush_ok oi_truncate_ok oi_seek_ok negb andb].
    + by destruct (oi_seek_ok io).
    + by destruct (oi_flush_ok io), (oi_truncate_ok io), (oi_seek_ok io).
  - specialize (Hfresh eq_refl). unfold open_created. destruct (op_create_if_missing options); cbn [negb]; [|done].
    destruct (oi_open_ok io); cbn [negb oi_open_ok]; [|done]. unfold WriteHeader, WriteAll.
    rewrite BuildJournalHeaderImage_lay by done. cbn [jn_open jn_write_failed negb jn_content jn_bytes_written oi_write open_io_good].
    assert (blen (lay_header fresh now1 0) = 96) as -> by (unfold blen; by rewrite length_lay_header).
    cbn [Z.eqb wi_written io_good]. rewrite Z.eqb_refl. destruct (_ =? 96); cbn [negb]; [|done].
    change (Status_ok Status_Ok) with true. cbn [negb]. unfold FlushToDisk. cbn [wi_flush_ok wi_sync_ok io_good negb].
    by destruct (wi_flush_ok _), (wi_sync_ok _).
Qed.

Lemma ReadSnapshot_as_good io dir :
  negb (Status_ok (ReadSnapshot io limits dir).1) &&
    negb (bool_decide (st_code (ReadSnapshot io limits dir).1 = SC_NotFound)) = false ->
  ReadSnapshot io limits dir = ReadSnapshot read_io_good limits dir.
Proof.
  unfold ReadSnapshot. destruct (sd_published dir) as [content|]; [|done].
  cbn [ri_size_ok ri_open_ok ri_read_ok read_io_good negb]. rewrite andb_false_r.
  destruct (ri_size_ok io); cbn [negb]; [|done]. destruct (_ <? blen content); [done|].
  destruct (ri_open_ok io); cbn [negb]; [|done]. destruct (ri_read_ok io); cbn [negb]; [by rewrite andb_false_r|].
  by destruct (0 <? blen content).
Qed.

Lemma enter_as_good io create fresh now1 now2 disk created x :
  (dk_journal disk = None -> length fresh = 16%nat) ->
  sp_store (enter_directory io limits create false fresh now1 now2 disk created) = Some x ->
  enter_directory io limits create false fresh now1 now2 disk created =
  enter_directory store_io_good limits create false fresh now1 now2 disk created.
Proof.
  intros Hfresh. unfold enter_directory. cbn [sio_lock_ok sio_unstage_ok sio_read sio_journal store_io_good negb].
  destruct (sio_lock_ok io); cbn [negb]; [|done].
  destruct (sio_unstage_ok io); cbn [RemoveStagingFile]; [|done].
  change (Status_ok Status_Ok) with true. cbn [negb].
  pose proof (ReadSnapshot_as_good (sio_read io) (remove_staging true (dk_snapshot disk))) as Hr.
  destruct (ReadSnapshot (sio_read io) _ _) as [status snapshot]. cbn [fst] in Hr.
  destruct (negb (Status_ok status) && _) eqn:Es; [done|]. rewrite <- (Hr eq_refl), Es. cbn [dk_journal].
  pose proof (Journal_Open_as_good (sio_journal io) (mkOpenOptions limits (create && true) false) fresh now1 now2
    (dk_journal disk)) as Ho.
  destruct (od_report (Journal_Open (sio_journal io) _ _ _ _ _)) as [r|] eqn:Er; [|done].
  by rewrite <- (Ho r eq_refl Hfresh eq_refl), Er.
Qed.

Lemma Open_as_good io create fresh now1 now2 disk x :
  (dk_journal disk = None -> length fresh = 16%nat) ->
  sp_store (DurableStore_Open io limits create false fresh now1 now2 disk) = Some x ->
  DurableStore_Open io limits create false fresh now1 now2 disk =
  DurableStore_Open store_io_good limits create false fresh now1 now2 disk.
Proof.
  intros Hfresh. unfold DurableStore_Open. cbn [sio_mkdir_ok store_io_good negb].
  destruct (dk_exists disk); cbn [negb].
  - destruct (dk_is_directory disk); cbn [negb]; [|done]. by apply enter_as_good.
  - destruct create; cbn [negb]; [|done]. destruct (sio_mkdir_ok io); cbn [negb]; [|done]. by apply enter_as_good.
Qed.

(** *** Compaction *)

(** The state as a compaction publishes it. *)
Definition compacted (s : DurableState) : DurableState :=
  with_compactions (wrap 64 (ds_compactions s + 1)) s.

Lemma compacted_wf s : durable_wf limits s = true -> durable_wf limits (compacted s) = true.
Proof.
  unfold durable_wf. intros H. bool_hyps.
  cbn [compacted with_compactions ds_last_epoch ds_next_attempt ds_has_policy ds_policy ds_intents
       ds_intent_generations ds_observations ds_attempts ds_outcomes ds_fences ds_compactions].
  bool_goal; try done; [by apply Z.eqb_neq|].
  apply in_unsigned_intro. by apply Z.mod_pos_bound.
Qed.

Lemma EncodeSnapshotPayload_sequence n s :
  EncodeSnapshotPayload (with_sequence n s) = EncodeSnapshotPayload s.
Proof.
  unfold EncodeSnapshotPayload, put_snapshot.
  cbn [with_sequence ds_last_epoch ds_next_attempt ds_has_policy ds_policy ds_intents
       ds_intent_generations ds_observations ds_attempts ds_outcomes ds_fences ds_compactions].
  reflexivity.
Qed.

Lemma is_empty_nonempty (l : bytes) : l <> [] -> is_empty l = false.
Proof. intros H. unfold is_empty. by rewrite bool_decide_eq_false_2. Qed.

(** The directory after publication: the new snapshot with the watermark of the store. *)
Lemma published_compacted sid spec sequence now :
  ds_store spec = sid -> durable_wf limits spec = true -> snapshot_fits limits (compacted spec) = true ->
  EncodeSnapshotPayload (compacted spec) <> [] -> 0 <= sequence < 2 ^ 64 -> i64 now = true ->
  published (mkSnapshotDir (Some (BuildSnapshotImage
      (snapshot_header_of (with_sequence sequence (compacted spec)) now
         (EncodeSnapshotPayload (compacted spec))) (EncodeSnapshotPayload (compacted spec)))) None)
    sid (unsequenced (compacted spec)) sequence.
Proof.
  intros Hs Hwf Hfits Hne Hq Hnow.
  apply (published_snapshot _ _ _ _ now); try done. by apply compacted_wf.
Qed.

Lemma store_holds_sequence sid store spec :
  store_holds sid store spec ->
  ds_sequence spec = 0 /\ 0 <= jn_last_sequence (st_journal store) < 2 ^ 64.
Proof.
  intros (created & w & base & old & rs & events & _ & _ & [tl []] & Hp & _ & _ & -> & _).
  destruct (published_wf _ _ _ _ Hp) as (_ & _ & Hseq0 & _). pose proof (blen_nonneg (old ++ rs)).
  rewrite apply_events_unsequenced. split; [done|lia].
Qed.

(** The directory once a compaction of the state [spec] has published. *)
Definition compacted_dir (spec : DurableState) (n now : Z) : SnapshotDir :=
  let payload := EncodeSnapshotPayload (compacted spec) in
  mkSnapshotDir (Some (BuildSnapshotImage
    (snapshot_header_of (with_sequence n (compacted spec)) now payload) payload)) None.

Lemma compacted_dir_published sid spec n now :
  ds_store spec = sid -> durable_wf limits spec = true -> ds_sequence spec = 0 -> 0 <= n < 2 ^ 64 ->
  snapshot_fits limits (compacted spec) = true -> EncodeSnapshotPayload (compacted spec) <> [] -> i64 now = true ->
  published (compacted_dir spec n now) sid (compacted spec) n.
Proof.
  intros Hss Hwf H0 Hq Hfits Hne Hnow. pose proof (published_compacted sid spec n now Hss Hwf Hfits Hne Hq Hnow) as Hp.
  replace (unsequenced (compacted spec)) with (compacted spec) in Hp; [done|].
  clear -H0. destruct spec. cbn in *. by subst.
Qed.

(** A snapshot of a state as of the last record covers every record of the journal: they are
    still there and will be skipped. *)
Lemma covered_holds sid store spec dir s :
  store_holds sid store spec -> published dir sid s (jn_last_sequence (st_journal store)) ->
  store_holds sid (mkStore limits (with_sequence (jn_last_sequence (st_journal store)) s) (st_journal store) dir false) s.
Proof.
  intros (created & w & base & old & rs & events & Hlim & Hro & Hj & Hp & Hr & Hev & Hspec & Hst) Hpub.
  assert (jn_last_sequence (st_journal store) = w + blen (old ++ rs)) as Hlast by (by destruct Hj as [? []]).
  exists created, w, s, (old ++ rs), [], [].
  cbn [st_limits st_read_only st_journal st_snapshot st_state]. rewrite app_nil_r, <- Hlast. by repeat split.
Qed.

Lemma publish_published sid store spec now :
  store_holds sid store spec -> snapshot_fits limits (compacted spec) = true ->
  EncodeSnapshotPayload (compacted spec) <> [] -> i64 now = true ->
  published (compacted_dir spec (jn_last_sequence (st_journal store)) now) sid (compacted spec)
    (jn_last_sequence (st_journal store)).
Proof.
  intros Hh Hfits Hne Hnow. destruct (store_holds_wf _ _ _ Hh) as (Hsid & Hwf & Hss).
  destruct (store_holds_sequence _ _ _ Hh) as [H0 Hq]. by apply compacted_dir_published.
Qed.

(** Between publication and the reset of the journal. *)
Lemma publish_holds sid store spec now :
  store_holds sid store spec -> snapshot_fits limits (compacted spec) = true ->
  EncodeSnapshotPayload (compacted spec) <> [] -> i64 now = true ->
  store_holds sid (mkStore limits (with_sequence (jn_last_sequence (st_journal store)) (compacted spec))
    (st_journal store) (compacted_dir spec (jn_last_sequence (st_journal store)) now) false) (compacted spec).
Proof. intros Hh Hfits Hne Hnow. eapply covered_holds; [exact Hh|]. by apply publish_published. Qed.

(** Resetting the journal drops records the snapshot covers, and nothing else. *)
Lemma reset_holds sid store s now io :
  store_holds sid store s -> published (st_snapshot store) sid s (jn_last_sequence (st_journal store)) ->
  i64 now = true ->
  let '(status, j') := Journal_Reset io sid now (st_journal store) in
  Status_ok status = true ->
  jn_last_sequence j' = jn_last_sequence (st_journal store) /\ store_holds sid (set_journal j' store) s.
Proof.
  intros Hh Hpub Hnow. destruct (store_holds_wf _ _ _ Hh) as (Hsid & Hwf & Hss).
  destruct Hh as (created & w & base & old & rs & events & Hlim & Hro & Hj & Hp & Hr & Hev & Hspec & Hst).
  pose proof (Reset_holds limits (journalled limits) sid created w (st_journal store) (old ++ rs)
    sid now io Hj Hsid Hnow) as Hr'.
  destruct (Journal_Reset _ _ _ _) as [status j']. intros E. destruct (Hr' E) as [Hlast Hholds].
  split; [done|]. exists now, (jn_last_sequence (st_journal store)), s, [], [], [].
  cbn [st_limits st_read_only st_journal st_snapshot st_state set_journal app].
  rewrite blen_nil, Z.add_0_r, Hlast. repeat split; done.
Qed.

(** A publication that reports success has put the new snapshot in place. *)
Lemma WriteSnapshotAtomic_done io header payload dir :
  Status_ok (WriteSnapshotAtomic io header payload dir).1.1 = true ->
  (WriteSnapshotAtomic io header payload dir).1.2 =
    mkSnapshotDir (Some (BuildSnapshotImage header payload)) None.
Proof.
  unfold WriteSnapshotAtomic. cbv zeta. by repeat (case_match; [done|]).
Qed.

(** A publication that fails leaves what was published. *)
Lemma WriteSnapshotAtomic_refused io header payload dir :
  Status_ok (WriteSnapshotAtomic io header payload dir).1.1 = false ->
  sd_published (WriteSnapshotAtomic io header payload dir).1.2 = sd_published dir.
Proof.
  unfold WriteSnapshotAtomic, remove_staging. cbv zeta. by repeat case_match.
Qed.

(** Whether a compaction gets as far as replacing the snapshot. *)
Definition publishes (io : CompactIo) (store : DurableStore) : bool :=
  let s := compacted (st_state store) in
  negb (is_empty (EncodeSnapshotPayload s)) &&
  Status_ok (WriteSnapshotAtomic (ci_publish io) (snapshot_header_of s (ci_now_snapshot io)
    (EncodeSnapshotPayload s)) (EncodeSnapshotPayload s) (st_snapshot store)).1.1.

(** What a compaction does once it has published. *)
Lemma compact_published io store :
  st_read_only store = false -> publishes io store = true ->
  let s := compacted (st_state store) in
  let '(status, j) := Journal_Reset (ci_reset io) (ds_store s) (ci_now_journal io) (st_journal store) in
  let store' := set_journal j (set_snapshot (mkSnapshotDir (Some (BuildSnapshotImage
    (snapshot_header_of s (ci_now_snapshot io) (EncodeSnapshotPayload s)) (EncodeSnapshotPayload s))) None) store) in
  Store_Compact io store =
    if negb (Status_ok status) then (status, store')
    else (Status_Ok, set_state (with_sequence (jn_last_sequence j) s) store').
Proof.
  unfold publishes, Store_Compact. intros ->. fold (compacted (st_state store)).
  generalize (compacted (st_state store)). intros s Hpub. cbv zeta in *.
  apply andb_true_iff in Hpub as [Hne Hpub]. apply negb_true_iff in Hne. rewrite Hne.
  apply WriteSnapshotAtomic_done in Hpub as Hdir.
  destruct (WriteSnapshotAtomic _ _ _ _) as [[status dir] trace]. cbn [fst snd] in Hpub, Hdir.
  rewrite Hpub, Hdir. cbn [negb]. change (st_journal (set_snapshot ?d store)) with (st_journal store).
  by destruct (Journal_Reset _ _ _ _) as [status' j].
Qed.

(** A compaction that reports success has published. *)
Lemma compact_ok_publishes io store :
  Status_ok (Store_Compact io store).1 = true -> st_read_only store = false /\ publishes io store = true.
Proof.
  unfold Store_Compact, publishes. fold (compacted (st_state store)). cbv zeta.
  destruct (st_read_only store); [done|]. destruct (is_empty _); [done|].
  destruct (WriteSnapshotAtomic _ _ _ _) as [[status dir] trace]. cbn [fst snd negb andb].
  destruct (Status_ok status) eqn:E; [done|]. cbn [negb fst]. congruence.
Qed.

Lemma compacted_sequence n s : compacted (with_sequence n s) = with_sequence n (compacted s).
Proof. reflexivity. Qed.

Lemma compacted_store n s : ds_store (with_sequence n (compacted s)) = ds_store s.
Proof. reflexivity. Qed.

#[local] Strategy opaque [EncodeSnapshotPayload BuildSnapshotImage snapshot_header_of].

(** What a compaction leaves once it has published: the new snapshot beside the journal as the
    reset left it, on a state in memory of the sequence [n]. *)
Lemma compact_resets io store n spec :
  st_read_only store = false -> publishes io store = true -> st_state store = with_sequence n spec ->
  EncodeSnapshotPayload (compacted spec) <> [] /\
  let '(status, j) := Journal_Reset (ci_reset io) (ds_store spec) (ci_now_journal io) (st_journal store) in
  let store' s := mkStore (st_limits store) s j (compacted_dir spec n (ci_now_snapshot io)) (st_read_only store) in
  Store_Compact io store =
    if negb (Status_ok status) then (status, store' (with_sequence n spec))
    else (Status_Ok, store' (with_sequence (jn_last_sequence j) (compacted spec))).
Proof.
  intros Hro Hpub Hst. pose proof (compact_published io store Hro Hpub) as Hc. cbv zeta in Hc.
  unfold publishes in Hpub. cbv zeta in Hpub. apply andb_true_iff in Hpub as [Hne _].
  rewrite Hst, compacted_sequence in Hne, Hc. rewrite EncodeSnapshotPayload_sequence in Hne, Hc.
  rewrite compacted_store in Hc. unfold compacted_dir. cbv zeta.
  generalize dependent (EncodeSnapshotPayload (compacted spec)). intros payload Hne Hc.
  split; [intros E; by rewrite E in Hne|]. destruct (Journal_Reset _ _ _ _) as [status j]. rewrite Hc.
  destruct store as [l s j0 dir ro]. cbn [set_journal set_snapshot set_state st_limits st_state st_read_only] in *.
  by rewrite Hst.
Qed.

(** A compaction that reports success has replaced the journal by a snapshot of the state. *)
Lemma compact_holds sid store spec io :
  store_holds sid store spec -> snapshot_fits limits (compacted spec) = true ->
  i64 (ci_now_snapshot io) && i64 (ci_now_journal io) = true ->
  Status_ok (Store_Compact io store).1 = true ->
  store_holds sid (Store_Compact io store).2 (compacted spec).
Proof.
  intros Hh Hfits Hclock Hok. apply andb_true_iff in Hclock as [Hn1 Hn2].
  destruct (store_holds_wf _ _ _ Hh) as (Hsid & Hwf & Hss).
  assert (st_limits store = limits /\
          st_state store = with_sequence (jn_last_sequence (st_journal store)) spec) as [Hlim Hst]
    by (by destruct Hh as (? & ? & ? & ? & ? & ? & ? & _ & _ & _ & _ & _ & _ & ?)).
  destruct (compact_ok_publishes io store Hok) as [Hro Hpub].
  destruct (compact_resets io store _ spec Hro Hpub Hst) as [Hne Hc].
  pose proof (publish_holds sid store spec (ci_now_snapshot io) Hh Hfits Hne Hn1) as Hmid.
  pose proof (publish_published sid store spec (ci_now_snapshot io) Hh Hfits Hne Hn1) as Hnew.
  pose proof (reset_holds _ _ _ (ci_now_journal io) (ci_reset io) Hmid Hnew Hn2) as Hr.
  cbn [st_journal] in Hr. rewrite Hss in Hc.
  destruct (Journal_Reset _ _ _ _) as [status' j']. cbv zeta in Hc. rewrite Hc in Hok |- *.
  destruct (Status_ok status') eqn:E'; cbn [negb fst snd] in *; [|congruence].
  destruct (Hr eq_refl) as [Hlast Hholds]. rewrite Hlast, Hlim, Hro. exact Hholds.
Qed.

(** The store depends on the published snapshot only. *)
Lemma store_holds_published sid store spec dir :
  store_holds sid store spec -> sd_published dir = sd_published (st_snapshot store) ->
  store_holds sid (set_snapshot dir store) spec.
Proof.
  intros (created & w & base & old & rs & events & Hlim & Hro & Hj & Hp & Hr & Hev & Hspec & Hst) Hd.
  exists created, w, base, old, rs, events.
  cbn [st_limits st_read_only st_journal st_snapshot st_state set_snapshot]. repeat split; try done.
  destruct Hp as [Hn|s' w' now]; [by apply published_nothing; rewrite Hd|].
  apply published_snapshot with now; try done. by rewrite Hd.
Qed.

(** A compaction that stops before it replaces the snapshot changes nothing that is held. *)
Lemma compact_stopped_holds sid store spec io :
  store_holds sid store spec -> publishes io store = false ->
  store_holds sid (Store_Compact io store).2 spec /\
  st_journal (Store_Compact io store).2 = st_journal store.
Proof.
  intros Hh. unfold publishes, Store_Compact. fold (compacted (st_state store)). cbv zeta.
  destruct (st_read_only store); [done|]. destruct (is_empty _); cbn [negb andb]; [done|].
  pose proof (WriteSnapshotAtomic_refused (ci_publish io) (snapshot_header_of (compacted (st_state store))
    (ci_now_snapshot io) (EncodeSnapshotPayload (compacted (st_state store))))
    (EncodeSnapshotPayload (compacted (st_state store))) (st_snapshot store)) as Hd.
  destruct (WriteSnapshotAtomic _ _ _ _) as [[status dir] trace]. cbn [fst snd] in *.
  intros E. rewrite E. cbn [negb snd]. split; [|done]. apply store_holds_published; [done|by apply Hd].
Qed.

(** A barrier changes nothing that is held. *)
Lemma sync_holds sid store spec io :
  store_holds sid store spec ->
  store_holds sid (Store_SyncJournal io store).2 spec.
Proof.
  intros (created & w & base & old & rs & events & Hlim & Hro & Hj & Hp & Hr & Hev & Hspec & Hst).
  unfold Store_SyncJournal. pose proof (Sync_holds limits (journalled limits) sid created w _ _ io Hj) as [Hl Hs].
  destruct (Sync _ _) as [status j]. cbn [snd] in *. exists created, w, base, old, rs, events.
  cbn [st_limits st_read_only st_journal st_snapshot st_state set_journal]. repeat split; try done.
  by rewrite Hl.
Qed.

(** *** A compaction whose reset failed *)

(** The snapshot of the state is in place and the journal is closed, over the file as it was or
    over what arrived of a new header. *)
Record cut (sid : bytes) (store : DurableStore) (spec : DurableState) : Prop := {
  ct_limits : st_limits store = limits;
  ct_writable : st_read_only store = false;
  ct_closed : jn_open (st_journal store) = false;
  ct_journal_writable : jn_read_only (st_journal store) = false;
  ct_journal_limits : jn_limits (st_journal store) = limits;
  ct_first : 0 <= jn_last_sequence (st_journal store);
  ct_room : jn_last_sequence (st_journal store) + 2 < 2 ^ 64;
  ct_sid : length sid = 16%nat;
  ct_store : ds_store spec = sid;
  ct_wf : durable_wf limits spec = true;
  ct_unsequenced : ds_sequence spec = 0;
  ct_state : st_state store = with_sequence (jn_last_sequence (st_journal store)) spec;
  ct_published : published (st_snapshot store) sid (compacted spec) (jn_last_sequence (st_journal store));
  ct_file :
    (exists store0 spec0, store_holds sid store0 spec0 /\
       jn_last_sequence (st_journal store0) = jn_last_sequence (st_journal store) /\
       jn_content (st_journal store0) = jn_content (st_journal store) /\
       jn_synced (st_journal store0) = jn_synced (st_journal store)) \/
    (exists now q, i64 now = true /\
       lay_header sid now (jn_last_sequence (st_journal store)) = jn_content (st_journal store) ++ q)
}.

Lemma published_again dir dir' sid s w :
  published dir sid s w -> sd_published dir' = sd_published dir -> published dir' sid s w.
Proof.
  intros [Hn|s' w' now] Hd; [by apply published_nothing; rewrite Hd|].
  apply published_snapshot with now; try done. by rewrite Hd.
Qed.

(** The reset of a compaction that has published, from either kind of store. *)
Lemma reset_cuts sid store spec j now now' io :
  st_limits store = limits -> st_read_only store = false -> jn_read_only (st_journal store) = false ->
  jn_limits (st_journal store) = limits -> 0 <= jn_last_sequence (st_journal store) ->
  jn_last_sequence (st_journal store) + 2 < 2 ^ 64 -> length sid = 16%nat -> ds_store spec = sid ->
  durable_wf limits spec = true -> ds_sequence spec = 0 -> snapshot_fits limits (compacted spec) = true ->
  EncodeSnapshotPayload (compacted spec) <> [] -> i64 now = true -> i64 now' = true ->
  (exists store0 spec0, store_holds sid store0 spec0 /\
     jn_last_sequence (st_journal store0) = jn_last_sequence (st_journal store) /\
     jn_content (st_journal store0) = jn_content (st_journal store) /\
     jn_synced (st_journal store0) = jn_synced (st_journal store)) \/
  (exists now q, i64 now = true /\
     lay_header sid now (jn_last_sequence (st_journal store)) = jn_content (st_journal store) ++ q) ->
  Journal_Reset io sid now' (st_journal store) = j -> Status_ok j.1 = false ->
  cut sid (mkStore (st_limits store) (with_sequence (jn_last_sequence (st_journal store)) spec) j.2
    (compacted_dir spec (jn_last_sequence (st_journal store)) now) (st_read_only store)) spec.
Proof.
  intros Hlim Hro Hjw Hjl H0 Hroom Hsid Hss Hwf Hseq Hfits Hne Hnow Hnow' Hfile <- Hbad.
  pose proof (Reset_fails (st_journal store) sid now' io Hjw Hsid H0) as Hr.
  destruct (Journal_Reset _ _ _ _) as [status j]. cbn [fst snd] in *.
  destruct (Hr Hbad) as (Hclosed & Hw & Hl & Hlast & Hcase).
  split; cbn [st_limits st_read_only st_journal st_state st_snapshot]; rewrite ?Hlast; try done; try congruence.
  - apply compacted_dir_published; done || lia.
  - destruct Hcase as [[-> ->]|[q Hq]]; [exact Hfile|]. right. by exists now', q.
Qed.

(** From there, no mutation is accepted. *)
Lemma cut_commit sid store spec io event :
  cut sid store spec ->
  let r := AppendAndApply io (event_type event) (event_payload event) store in
  Status_ok r.1 = false /\ cut sid r.2 spec.
Proof.
  intros Hc. pose proof Hc as []. unfold AppendAndApply, Append. rewrite ct_journal_writable0, ct_closed0. cbn [negb].
  cbn [Status_ok fst snd negb]. split; [done|]. by destruct store.
Qed.

Lemma cut_sync sid store spec io : cut sid store spec -> cut sid (Store_SyncJournal io store).2 spec.
Proof.
  intros Hc. pose proof Hc as []. unfold Store_SyncJournal, Sync. rewrite ct_closed0. cbn [negb orb snd]. by destruct store.
Qed.

(** A compaction is tried again: it stops, or it is cut once more, or it mends the store. *)
Lemma cut_compact sid store spec io :
  cut sid store spec -> i64 (ci_now_snapshot io) && i64 (ci_now_journal io) = true ->
  (publishes io store = true -> snapshot_fits limits (compacted spec) = true) ->
  if Status_ok (Store_Compact io store).1 then store_holds sid (Store_Compact io store).2 (compacted spec)
  else cut sid (Store_Compact io store).2 spec.
Proof.
  intros Hcut Hclock Hfits. pose proof Hcut as []. apply andb_true_iff in Hclock as [Hn1 Hn2].
  destruct (publishes io store) eqn:Hpub.
  - destruct (compact_resets io store _ spec ct_writable0 Hpub ct_state0) as [Hne Hc]. rewrite ct_store0 in Hc.
    pose proof (Reset_fresh limits (journalled limits) (st_journal store) sid (ci_now_journal io) (ci_reset io)
      ct_journal_writable0 ct_journal_limits0 ct_first0 ct_room0 ct_sid0 Hn2) as Hr.
    destruct (Journal_Reset _ _ _ _) as [status j] eqn:Ej. rewrite Hc.
    destruct (Status_ok status) eqn:E; cbn [negb fst snd].
    + change (Status_ok Status_Ok) with true. destruct (Hr eq_refl) as [Hlast Hj]. cbv iota.
      exists (ci_now_journal io), (jn_last_sequence (st_journal store)), (compacted spec), [], [], [].
      cbn [st_limits st_read_only st_journal st_snapshot st_state app]. rewrite blen_nil, Z.add_0_r.
      repeat split; try done. apply compacted_dir_published; try done; [lia|by apply Hfits].
    + rewrite E. rewrite <- (ct_state0 : _ = _).
      pose proof (reset_cuts sid store spec (status, j) (ci_now_snapshot io) (ci_now_journal io) (ci_reset io)) as Hcuts.
      rewrite ct_state0. by apply Hcuts; auto.
  - unfold Store_Compact, publishes in *. fold (compacted (st_state store)) in *. cbv zeta in *.
    rewrite ct_writable0. destruct (is_empty _); cbn [negb andb] in Hpub; [done|].
    pose proof (WriteSnapshotAtomic_refused (ci_publish io) (snapshot_header_of (compacted (st_state store))
      (ci_now_snapshot io) (EncodeSnapshotPayload (compacted (st_state store))))
      (EncodeSnapshotPayload (compacted (st_state store))) (st_snapshot store)) as Hd.
    destruct (WriteSnapshotAtomic _ _ _ _) as [[status dir] trace]. cbn [fst snd] in *.
    rewrite Hpub. cbn [negb fst snd]. rewrite Hpub. split; try done. eapply published_again; [done|]. by apply Hd.
Qed.

(** A compaction of a store that holds its state: it completes, or leaves the store as it was, or
    cuts it. *)
Lemma holds_compact sid store spec io :
  store_holds sid store spec -> i64 (ci_now_snapshot io) && i64 (ci_now_journal io) = true ->
  (publishes io store = true -> snapshot_fits limits (compacted spec) = true) ->
  if Status_ok (Store_Compact io store).1 then store_holds sid (Store_Compact io store).2 (compacted spec)
  else store_holds sid (Store_Compact io store).2 spec \/ cut sid (Store_Compact io store).2 spec.
Proof.
  intros Hh Hclock Hfits. destruct (Status_ok (Store_Compact io store).1) eqn:Hok.
  { destruct (compact_ok_publishes io store Hok) as [_ Hpub]. apply compact_holds; auto. }
  destruct (publishes io store) eqn:Hpub; [right|left; by apply compact_stopped_holds].
  apply andb_true_iff in Hclock as [Hn1 Hn2]. destruct (store_holds_wf _ _ _ Hh) as (Hsid & Hwf & Hss).
  destruct (store_holds_sequence _ _ _ Hh) as [Hseq Hq]. pose proof Hh as Hh0.
  destruct Hh as (created & w & base & old & rs & events & Hlim & Hro & [tl []] & Hp & Hr & Hev & Hspec & Hst).
  destruct (compact_resets io store _ spec Hro Hpub Hst) as [Hne Hc]. rewrite Hss in Hc.
  destruct (Journal_Reset _ _ _ _) as [status j] eqn:Ej. rewrite Hc in Hok |- *.
  destruct (Status_ok status) eqn:E; cbn [negb fst snd] in *; [done|].
  apply (reset_cuts sid store spec (status, j) (ci_now_snapshot io) (ci_now_journal io) (ci_reset io)); auto; try lia.
  left. by exists store, spec.
Qed.

(** What a crash leaves of a cut store is shorter than a header, or is what a store that holds
    the state would leave. *)
Lemma cut_image sid store spec p :
  cut sid store spec -> crash_image (st_journal store) p ->
  blen p < kJournalHeaderBytes \/
  exists store0, store_holds sid store0 (compacted spec) /\ st_snapshot store0 = st_snapshot store /\
    jn_last_sequence (st_journal store0) = jn_last_sequence (st_journal store) /\ crash_image (st_journal store0) p.
Proof.
  intros [] (q & Hq & Hs). destruct ct_file0 as [(store0 & spec0 & Hh & Hl & Hc & Hsy)|(now & q' & Hnow & Hc)].
  - right. rewrite <- Hl in ct_published0. pose proof (covered_holds _ _ _ _ _ Hh ct_published0) as Hcov.
    eexists. split; [exact Hcov|]. cbn [st_snapshot st_journal]. split; [done|]. split; [done|].
    exists q. split; [congruence|lia].
  - rewrite Hq, <- app_assoc in Hc. destruct (Z.ltb_spec (blen p) kJournalHeaderBytes) as [|Hlen]; [by left|]. right.
    pose proof (f_equal length Hc) as Hlc. rewrite (length_lay_header _ _ _ ct_sid0), length_app in Hlc.
    unfold kJournalHeaderBytes, blen in Hlen.
    assert (q ++ q' = []) as Hnil by (apply length_zero_iff_nil; lia). rewrite Hnil, app_nil_r in Hc. subst p.
    exists (mkStore limits (with_sequence (jn_last_sequence (st_journal store)) (compacted spec))
      (mkJournal true (lay_header sid now (jn_last_sequence (st_journal store)))
         (blen (lay_header sid now (jn_last_sequence (st_journal store)))) (jn_last_sequence (st_journal store)) 96
         limits false false) (st_snapshot store) false).
    cbn [st_snapshot st_journal jn_last_sequence]. split; [|split; [done|split; [done|]]].
    + exists now, (jn_last_sequence (st_journal store)), (compacted spec), [], [], [].
      cbn [st_limits st_read_only st_journal st_snapshot st_state app]. rewrite blen_nil, Z.add_0_r.
      repeat split; try done. by apply fresh_holds.
    + exists []. cbn [jn_content jn_synced]. rewrite app_nil_r. split; [done|lia].
Qed.

(** *** Histories *)

(** The store stands for the state: it holds it, or a compaction was cut after it had published
    it. *)
Definition stands (sid : bytes) (store : DurableStore) (spec : DurableState) : Prop :=
  store_holds sid store spec \/ cut sid store spec.

Lemma stands_open sid store spec :
  stands sid store spec -> jn_open (st_journal store) = true -> store_holds sid store spec.
Proof. intros [H|[]]; [done|congruence]. Qed.

(** What a crash of the store leaves to be read back: the acknowledged state; or, when the reset of
    a compaction was cut, the state the compaction had published. *)
Definition on_disk (store : DurableStore) (spec s : DurableState) : Prop :=
  s = spec \/ jn_open (st_journal store) = false /\ s = compacted spec.

Lemma stands_image sid store spec p :
  stands sid store spec -> crash_image (st_journal store) p ->
  (jn_open (st_journal store) = false /\ blen p < kJournalHeaderBytes) \/
  exists store0 s, on_disk store spec s /\ store_holds sid store0 s /\
    st_snapshot store0 = st_snapshot store /\
    jn_last_sequence (st_journal store0) = jn_last_sequence (st_journal store) /\ crash_image (st_journal store0) p.
Proof.
  intros [Hh|Hc] Hp; [right; exists store, spec; split_and!; auto; by left|].
  destruct (cut_image _ _ _ _ Hc Hp) as [Hs|(store0 & H1 & H2 & H3 & H4)].
  - left. by destruct Hc.
  - right. exists store0, (compacted spec). split_and!; auto. right. by destruct Hc.
Qed.

(** A directory in which no store has been acknowledged: no snapshot, and no journal or what
    arrived of the header of a new one. *)
Definition unborn (disk : StoreDisk) : Prop :=
  sd_published (dk_snapshot disk) = None /\
  (dk_journal disk = None \/
   exists sid created p q, dk_journal disk = Some p /\ length sid = 16%nat /\ i64 created = true /\
     lay_header sid created 0 = p ++ q).

Lemma enter_blank create fresh now1 now2 disk flag :
  sd_published (dk_snapshot disk) = None ->
  enter_directory store_io_good limits create false fresh now1 now2 disk flag =
  let o := Journal_Open open_io_good (mkOpenOptions limits (create && true) false) fresh now1 now2 (dk_journal disk) in
  let disk := mkDisk (dk_exists disk) (dk_is_directory disk) (remove_staging true (dk_snapshot disk)) (od_file o) in
  match od_report o, od_journal o with
  | Some report, Some journal => open_state limits false flag None (od_records o) report journal disk
  | _, _ => store_failed (od_status o) disk
  end.
Proof.
  intros Hp. unfold enter_directory.
  cbn [sio_lock_ok sio_unstage_ok sio_read sio_journal store_io_good negb RemoveStagingFile].
  change (Status_ok Status_Ok) with true. cbn [negb dk_journal]. unfold ReadSnapshot. cbn [remove_staging sd_published].
  rewrite Hp. change (Status_ok (mkStatus SC_NotFound _ _)) with false.
  cbn [negb st_code andb]. by rewrite bool_decide_eq_true_2.
Qed.

(** A journal without records gives the empty state. *)
Lemma blank_holds sid created o flag disk store report :
  sd_published (dk_snapshot disk) = None -> od_records o = [] ->
  (forall r, od_report o = Some r -> jh_store (jo_header r) = sid /\ jo_last_sequence r = 0) ->
  (forall j, od_journal o = Some j -> holds limits (journalled limits) sid created 0 j []) ->
  sp_store (match od_report o, od_journal o with
    | Some report, Some journal => open_state limits false flag None (od_records o) report journal disk
    | _, _ => store_failed (od_status o) disk
    end) = Some (store, report) ->
  store_holds sid store (with_store sid empty_state).
Proof.
  intros Hp Hrec Hrep Hj. destruct o as [st recs [rep|] [j|] file]; [|done..].
  cbn [od_report od_journal od_records od_status] in *. subst recs.
  destruct (Hrep rep eq_refl) as [Hs Hq]. specialize (Hj j eq_refl). unfold open_state. rewrite Hs, Hq.
  cbn [replay_above]. change (Status_ok Status_Ok) with true. cbn [negb sp_store]. intros [= <- <-].
  exists created, 0, (with_store sid empty_state), [], [], [].
  cbn [st_limits st_read_only st_journal st_snapshot st_state app].
  repeat split; try done; [by apply published_nothing|]. destruct Hj as [tl []]. by rewrite h_last.
Qed.

Lemma enter_unborn create fresh created now disk flag store report :
  unborn disk -> length fresh = 16%nat -> i64 created = true ->
  sp_store (enter_directory store_io_good limits create false fresh created now disk flag) = Some (store, report) ->
  exists sid, store_holds sid store (with_store sid empty_state).
Proof.
  intros [Hp Hjn] Hf Hc. rewrite enter_blank by done. cbv zeta. rewrite andb_true_r.
  destruct Hjn as [Hn|(sid & cr & p & q & Hn & Hsid & Hcr & Hq)]; rewrite Hn.
  - intros Ho. exists fresh. apply (blank_holds fresh created) in Ho; [done|done|..];
      unfold Journal_Open, open_created; cbn [oi_stat_ok open_io_good negb op_create_if_missing oi_open_ok].
    1-2: destruct create; cbn [negb]; [|done]; destruct (WriteHeader _ _ _ _ _) as [st1 j1];
      destruct (negb (Status_ok st1)); [done|]; destruct (FlushToDisk _ j1) as [st2 j2];
      destruct (negb (Status_ok st2)); [done|]; first [done|by intros r [= <-]].
    intros j Hj. destruct create; [|done].
    by eapply (open_created_holds limits (journalled limits) fresh created now j).
  - destruct (Z.ltb_spec (blen p) kJournalHeaderBytes) as [Hs|Hlen].
    { destruct (od_report (Journal_Open _ _ _ _ _ _)) eqn:E; [|done]. by rewrite short_journal_refused in E. }
    assert (q = []) as ->.
    { pose proof (f_equal length Hq) as Hl. rewrite (length_lay_header _ _ _ Hsid), length_app in Hl.
      unfold kJournalHeaderBytes, blen in Hlen. apply length_zero_iff_nil. lia. }
    rewrite app_nil_r in Hq. subst p. intros Ho. exists sid.
    destruct (Journal_Open_header limits sid cr create fresh created now Hsid Hcr) as (notes & He).
    { unfold kMaxCanonicalBytes in *. unfold kJournalHeaderBytes. lia. }
    rewrite He in Ho. apply (blank_holds sid cr) in Ho; [done|done|done|by intros r [= <-]|].
    intros j Hj. apply (inj Some) in Hj as <-. assert (lay_header sid cr 0 ++ images [] = lay_header sid cr 0) as -> by apply app_nil_r.
    by apply fresh_holds.
Qed.

(** A new store holds the empty state, whatever the host answers, also in a directory in which
    the creation of a store has failed before. *)
Lemma born io create fresh created now disk store report :
  unborn disk -> length fresh = 16%nat -> i64 created = true ->
  sp_store (DurableStore_Open io limits create false fresh created now disk) = Some (store, report) ->
  exists sid, store_holds sid store (with_store sid empty_state).
Proof.
  intros Hu Hf Hc Ho. assert (He := Ho). apply Open_as_good in He; [|by intros _]. rewrite He in Ho. revert Ho. clear He.
  unfold DurableStore_Open. destruct (dk_exists disk); cbn [negb].
  - destruct (dk_is_directory disk); cbn [negb]; [|done]. by apply enter_unborn.
  - destruct create; cbn [negb sio_mkdir_ok store_io_good]; [|done]. by apply enter_unborn.
Qed.

Lemma store_holds_state sid store spec :
  store_holds sid store spec -> unsequenced (st_state store) = spec.
Proof.
  intros Hh. destruct (store_holds_sequence _ _ _ Hh) as [H0 _].
  destruct Hh as (? & ? & ? & ? & ? & ? & _ & _ & _ & _ & _ & _ & _ & Hst). rewrite Hst.
  clear -H0. destruct spec. cbn in *. by subst.
Qed.

Lemma stands_state sid store spec : stands sid store spec -> unsequenced (st_state store) = spec.
Proof.
  intros [Hh|[]]; [by eapply store_holds_state|]. rewrite ct_state0. clear -ct_unsequenced0. destruct spec. cbn in *. by subst.
Qed.

(** What a crash leaves of a store: the snapshot it had published, any staging file, and a part of
    the journal that covers what was behind the last barrier. *)
Record crashed (store : DurableStore) (disk : StoreDisk) : Prop := {
  cd_there : dk_exists disk = true;
  cd_directory : dk_is_directory disk = true;
  cd_snapshot : sd_published (dk_snapshot disk) = sd_published (st_snapshot store);
  cd_journal : exists p, dk_journal disk = Some p /\ crash_image (st_journal store) p /\
    blen p <= max_journal_bytes limits;
  cd_room : jn_last_sequence (st_journal store) + 3 < 2 ^ 64
}.

(** Whatever the host answers, a store opened on what a crash left holds what was acknowledged,
    counting a compaction that had published, and at most one event more; and the opening succeeds
    when no answer is bad, unless the reset of a compaction was cut. *)
Lemma reopens sid store spec disk :
  stands sid store spec -> crashed store disk ->
  exists s, on_disk store spec s /\
    forall io create fresh now1 now2,
      let o := DurableStore_Open io limits create false fresh now1 now2 disk in
      (io = store_io_good -> jn_open (st_journal store) = true -> is_Some (sp_store o)) /\
      (forall store' report, sp_store o = Some (store', report) ->
        sp_status o = Status_Ok /\
        exists extra, blen extra <= 1 /\ forallb (event_wf limits) extra = true /\
          store_holds sid store' (apply_events limits extra s)).
Proof.
  intros Hst [Hex Hdir Hsnap (p & Hp & Hc & Hmax) Hroom].
  destruct disk as [ex isdir [pub staging] journal]. cbn in *. subst ex isdir journal pub.
  destruct (stands_image _ _ _ _ Hst Hc) as [[Hcl Hshort]|(store0 & s & Hs & Hh & Hsn & Hl & Hc0)].
  - exists spec. split; [by left|]. intros io create fresh now1 now2. cbv zeta.
    rewrite short_journal_locks by done. split; [congruence|done].
  - exists s. split; [done|]. intros io create fresh now1 now2. cbv zeta. rewrite <- Hl in Hroom.
    rewrite <- Hsn.
    destruct (store_recovers sid store0 s p staging create fresh now1 now2 Hh Hc0 Hmax Hroom)
      as (store1 & report1 & extra & H1 & H2 & H3 & H4 & H5). cbv zeta in H1, H2. split.
    + intros -> _. by eexists.
    + intros store' report Ho. assert (He := Ho). apply Open_as_good in He; [|done].
      rewrite He in Ho |- *. rewrite Ho in H2. injection H2 as <- <-. split; [done|]. by exists extra.
Qed.

(** The life of a store: created, mutated with any outcome of the host's writes and
    barriers, flushed, compacted with any outcome (of a state whose tables a snapshot can hold),
    and reopened after crashes with any answers of the host.  The state is the one that was
    acknowledged.  A crash in the middle of an operation leaves what the operation leaves when the
    host fails it from there on. *)
Inductive store_history : DurableStore -> DurableState -> Prop :=
| sh_created io create fresh created now disk store report :
  unborn disk -> length fresh = 16%nat -> i64 created = true ->
  sp_store (DurableStore_Open io limits create false fresh created now disk) = Some (store, report) ->
  store_history store (with_store (ds_store (st_state store)) empty_state)
| sh_commit store spec io event :
  store_history store spec -> event_wf limits event = true -> write_has_room io store ->
  store_history (AppendAndApply io (event_type event) (event_payload event) store).2
    (if Status_ok (AppendAndApply io (event_type event) (event_payload event) store).1
     then apply_event limits event spec else spec)
| sh_synced store spec io :
  store_history store spec -> store_history (Store_SyncJournal io store).2 spec
| sh_compact store spec io :
  store_history store spec -> i64 (ci_now_snapshot io) && i64 (ci_now_journal io) = true ->
  (publishes io store = true -> snapshot_fits limits (compacted spec) = true) ->
  store_history (Store_Compact io store).2
    (if Status_ok (Store_Compact io store).1 then compacted spec else spec)
| sh_crash store spec disk io create fresh now1 now2 store' report :
  store_history store spec -> crashed store disk ->
  sp_store (DurableStore_Open io limits create false fresh now1 now2 disk) = Some (store', report) ->
  store_history store' (unsequenced (st_state store')).

Lemma history_stands store spec :
  store_history store spec -> exists sid, stands sid store spec.
Proof.
  induction 1 as [io create fresh created now disk store report Hu Hf Hc Ho|store spec io event Hh [sid IH] Hwf Hroom|
    store spec io Hh [sid IH]|store spec io Hh [sid IH] Hclock Hfits|
    store spec disk io create fresh now1 now2 store' report Hh [sid IH] Hcr Ho].
  - destruct (born io create fresh created now disk store report Hu Hf Hc Ho) as [sid Hb].
    exists sid. left. replace (ds_store (st_state store)) with sid; [done|].
    symmetry. exact (f_equal ds_store (store_holds_state _ _ _ Hb)).
  - exists sid. destruct IH as [IH|IH].
    + left. pose proof (commit_holds sid store spec io event IH Hwf Hroom) as Hcommit.
      destruct (AppendAndApply _ _ _ _) as [status store']. destruct Hcommit as [H1 H2]. cbn [fst snd].
      destruct (Status_ok status); auto.
    + right. destruct (cut_commit sid store spec io event IH) as [-> Hc]. exact Hc.
  - exists sid. destruct IH as [IH|IH]; [left; by apply sync_holds|right; by apply cut_sync].
  - exists sid. destruct IH as [IH|IH].
    + pose proof (holds_compact sid store spec io IH Hclock Hfits) as Hs. destruct (Status_ok _); [by left|exact Hs].
    + pose proof (cut_compact sid store spec io IH Hclock Hfits) as Hs. by destruct (Status_ok _); [left|right].
  - exists sid. left. destruct (reopens sid store spec disk IH Hcr) as (s & _ & Hr).
    destruct (Hr io create fresh now1 now2) as [_ Hr']. destruct (Hr' _ _ Ho) as (_ & extra & _ & _ & Hholds). by rewrite (store_holds_state _ _ _ Hholds).
Qed.
End Recovery.

(** ** The mutations as commits of events *)

(** The encoders are used through their lemmas only from here on. *)
Local Opaque EncodePolicy EncodeIntent EncodeObservation EncodeAttemptRecord EncodeOutcome EncodeFence.

Definition commit (io : WriteIo) (event : StoreEvent) (store : DurableStore) : Status * DurableStore :=
  AppendAndApply io (event_type event) (event_payload event) store.

Lemma event_payload_nonempty limits event :
  event_wf limits event = true -> event_payload event <> [].
Proof.
  destruct event as [p|d|d|a|a|o|f|id|e]; cbn [event_wf event_payload]; intros Hwf.
  - rewrite EncodePolicy_payload. by apply (nested_roundtrip limits).
  - rewrite EncodeIntent_payload. by apply (nested_roundtrip limits).
  - rewrite EncodeObservation_payload. by apply (nested_roundtrip limits).
  - rewrite EncodeAttempt_payload. by apply (nested_roundtrip limits).
  - rewrite EncodeAttempt_payload. by apply (nested_roundtrip limits).
  - rewrite EncodeOutcome_payload. by apply (nested_roundtrip limits).
  - rewrite EncodeFence_payload. by apply (nested_roundtrip limits).
  - by rewrite finish_id.
  - by rewrite finish_epoch.
Qed.

Lemma commit_payload_event limits io event detail store :
  st_read_only store = false -> event_wf limits event = true ->
  commit_payload io (event_type event) (event_payload event) detail store = commit io event store.
Proof.
  intros Hro Hwf. unfold commit_payload. rewrite Hro.
  by rewrite (is_empty_nonempty _ (event_payload_nonempty limits event Hwf)).
Qed.

Lemma finish_ok p bs :
  writes p bs -> blen bs <= kMaxCanonicalBytes ->
  w_ok (p writer_empty) = true /\ w_buffer (p writer_empty) = finish (p writer_empty).
Proof. intros Hw Hl. unfold finish. by rewrite (writes_fresh _ _ Hw Hl). Qed.

(** Every mutation of a writable store commits exactly its event; the epoch only ever
    advances. *)
Definition mutation (io : WriteIo) (event : StoreEvent) : DurableStore -> Status * DurableStore :=
  match event with
  | Ev_Policy policy => Store_PutPolicy io policy
  | Ev_Intent document => Store_CommitIntent io document
  | Ev_Observation document => Store_CommitObservation io document
  | Ev_AttemptIssued attempt => Store_IssueAttempt io attempt
  | Ev_AttemptTransition attempt => Store_TransitionAttempt io attempt
  | Ev_Outcome outcome => Store_CommitOutcome io outcome
  | Ev_Fence fence => Store_PutFence io fence
  | Ev_FenceClear id => Store_ClearFence io id
  | Ev_Epoch epoch => Store_AdvanceEpoch io epoch
  end.

Lemma mutation_commits limits io event store :
  st_read_only store = false -> event_wf limits event = true ->
  (forall epoch, event = Ev_Epoch epoch -> ds_last_epoch (st_state store) < epoch) ->
  mutation io event store = commit io event store.
Proof.
  intros Hro Hwf Hep. destruct event as [p|d|d|a|a|o|f|id|e]; cbn [mutation].
  - exact (commit_payload_event limits io (Ev_Policy p) _ store Hro Hwf).
  - exact (commit_payload_event limits io (Ev_Intent d) _ store Hro Hwf).
  - exact (commit_payload_event limits io (Ev_Observation d) _ store Hro Hwf).
  - unfold Store_IssueAttempt. rewrite Hro. pose proof (nested_pc_wf limits a Hwf) as Ha.
    cbn [pc_wf attempt_codec] in Ha. unfold attempt_wf in Ha. bool_hyps.
    rewrite (proj2 (Z.eqb_neq _ _)) by done. exact (commit_payload_event limits io (Ev_AttemptIssued a) _ store Hro Hwf).
  - exact (commit_payload_event limits io (Ev_AttemptTransition a) _ store Hro Hwf).
  - exact (commit_payload_event limits io (Ev_Outcome o) _ store Hro Hwf).
  - exact (commit_payload_event limits io (Ev_Fence f) _ store Hro Hwf).
  - unfold Store_ClearFence, commit. rewrite Hro. cbn [event_wf event_payload event_type] in *.
    destruct (finish_ok _ _ (writes_bytes id)) as [-> ->]; [|done].
    rewrite blen_lay_bytes. apply IsValidIdentityText_length in Hwf.
    unfold kMaxIdentityLength, kMaxCanonicalBytes in *. lia.
  - unfold Store_AdvanceEpoch, commit. rewrite Hro. cbn [event_wf event_payload event_type] in *.
    rewrite (proj2 (Z.leb_gt _ _)) by (by apply Hep).
    by destruct (finish_ok _ _ (writes_u64 e (u_nonneg _ _ Hwf))) as [-> ->].
Qed.

(** ** Properties *)

(** The limits the store's guarantees need: the payload bound fits the record's length
    field, the retention bounds are unsigned, and a snapshot is not larger than what a
    read of it accepts. *)
Definition store_limits_wf (limits : RuntimeLimits) : bool :=
  (0 <=? max_journal_payload_bytes limits) && (max_journal_payload_bytes limits <? 2 ^ 32) &&
  retention_wf limits && (kMaxCanonicalBytes <=? max_journal_bytes limits).

Lemma store_limits_split limits :
  store_limits_wf limits = true ->
  limits_wf limits /\ retention_wf limits = true /\ kMaxCanonicalBytes <= max_journal_bytes limits.
Proof. unfold store_limits_wf, limits_wf. intros. by bool_hyps. Qed.

(** What an open gives back: the store is there and holds [spec], and at most one event
    more, a well-formed one. *)
Definition recovers (limits : RuntimeLimits) (spec : DurableState) (o : StoreOpened) : Prop :=
  exists store report extra,
    sp_status o = Status_Ok /\ sp_store o = Some (store, report) /\
    blen extra <= 1 /\ forallb (event_wf limits) extra = true /\
    unsequenced (st_state store) = apply_events limits extra spec.

Lemma history_recovers limits store spec disk :
  store_limits_wf limits = true -> store_history limits store spec -> crashed limits store disk ->
  exists s, on_disk store spec s /\
    forall io create fresh now1 now2,
      let o := DurableStore_Open io limits create false fresh now1 now2 disk in
      (sp_store o = None \/ recovers limits s o) /\
      (io = store_io_good -> jn_open (st_journal store) = true -> recovers limits s o).
Proof.
  intros Hl Hh Hcr. destruct (store_limits_split limits Hl) as (H1 & H2 & H3).
  destruct (history_stands limits H1 H2 H3 store spec Hh) as [sid Hst].
  destruct (reopens limits H1 H3 sid store spec disk Hst Hcr) as (s & Hs & Hr).
  exists s. split; [done|]. intros io create fresh now1 now2 o. subst o.
  destruct (Hr io create fresh now1 now2) as [Hgood Hsome]. cbv zeta in Hgood, Hsome.
  assert (sp_store (DurableStore_Open io limits create false fresh now1 now2 disk) = None \/
    recovers limits s (DurableStore_Open io limits create false fresh now1 now2 disk)) as Hor.
  { destruct (sp_store _) as [[store' report]|] eqn:Eo; [right|by left].
    destruct (Hsome _ _ eq_refl) as (Hok & extra & Hex & Hwf & Hholds).
    exists store', report, extra. split_and!; try done. by eapply store_holds_state. }
  split; [done|]. intros Hio Hopen. destruct Hor as [Hn|]; [|done].
  destruct (Hgood Hio Hopen) as [? He]. congruence.
Qed.


(** A store with one acknowledged event and one whose write was torn. *)
Definition example_fresh : bytes := repeat Byte.x07 16.
Definition example_opened : StoreOpened :=
  DurableStore_Open store_io_good default_limits true false example_fresh 1700000000000
    1700000000000 empty_disk.
Definition example_dstore0 : DurableStore :=
  match sp_store example_opened with
  | Some (store, _) => store
  | None => mkStore default_limits empty_state example_journal0 (mkSnapshotDir None None) false
  end.
Definition example_dstore1 : DurableStore := (commit (io_good 64) (Ev_Epoch 1) example_dstore0).2.
Definition example_dstore2 : DurableStore :=
  (commit (mkWriteIo 40 true true) (Ev_Epoch 2) example_dstore1).2.
Definition example_spec0 : DurableState := with_store example_fresh empty_state.
Definition example_spec1 : DurableState := apply_event default_limits (Ev_Epoch 1) example_spec0.

Lemma empty_unborn : unborn empty_disk.
Proof. split; [done|by left]. Qed.

Lemma example_created : store_history default_limits example_dstore0 example_spec0.
Proof.
  apply (sh_created default_limits store_io_good true example_fresh 1700000000000 1700000000000 empty_disk example_dstore0
    (mkStoreReport true false false 0 0 0 0 0 0 []) empty_unborn eq_refl eq_refl).
  vm_compute. reflexivity.
Qed.

Lemma example_store_history : store_history default_limits example_dstore2 example_spec1.
Proof.
  apply (sh_commit default_limits example_dstore1 example_spec1 (mkWriteIo 40 true true) (Ev_Epoch 2));
    [|reflexivity|left; vm_compute; reflexivity].
  apply (sh_commit default_limits example_dstore0 example_spec0 (io_good 64) (Ev_Epoch 1));
    [|reflexivity|left; vm_compute; reflexivity].
  exact example_created.
Qed.

Definition example_crash : StoreDisk :=
  mkDisk true true (mkSnapshotDir None (Some (B "stale")))
    (Some (take 190 (jn_content (st_journal example_dstore2)))).

Lemma example_crashed : crashed default_limits example_dstore2 example_crash.
Proof.
  constructor; [reflexivity|reflexivity|vm_compute; reflexivity| |vm_compute; reflexivity].
  exists (take 190 (jn_content (st_journal example_dstore2))). split; [reflexivity|]. split; [|vm_compute; discriminate].
  exists (drop 190 (jn_content (st_journal example_dstore2))). split; [by rewrite take_drop|]. vm_compute. discriminate.
Qed.


(** What an append does to the sequence of the journal, whatever the host answers. *)
Lemma Append_sequence io type payload j :
  jn_last_sequence (Append io type payload j).2 =
    if Status_ok (Append io type payload j).1 then wrap 64 (jn_last_sequence j + 1) else jn_last_sequence j.
Proof.
  unfold Append. destruct (jn_read_only j); [done|]. destruct (jn_open j); cbn [negb]; [|done].
  destruct (_ <? blen payload); [done|]. unfold WriteAll.
  set (k := wrap 64 (jn_last_sequence j + 1)). generalize (BuildRecordImage k type payload). intros image.
  destruct (jn_open j), (jn_write_failed j); cbn [negb]; try done.
  destruct (blen image =? 0); cbn [negb]; [|destruct (_ =? blen image); cbn [negb]; [|done]];
    change (Status_ok Status_Ok) with true; cbn [negb]; unfold FlushToDisk;
    repeat (destruct (negb _); [done|]); done.
Qed.



(** ** Where the durability contract does not hold *)

(** A reset that cannot write the header leaves a journal shorter than one. *)
Lemma reset_cut io sid now j :
  jn_read_only j = false -> length sid = 16%nat -> 0 <= jn_last_sequence j -> oi_open_ok io = true ->
  jn_write_failed j = true \/ 0 <= wi_written (oi_write io) < kJournalHeaderBytes ->
  Status_ok (Journal_Reset io sid now j).1 = false /\
  blen (jn_content (Journal_Reset io sid now j).2) < kJournalHeaderBytes.
Proof.
  intros Hro Hsid Hseq Hopen Hcut. unfold Journal_Reset, WriteHeader, WriteAll. rewrite Hro, Hopen.
  cbn [negb Journal_Close jn_last_sequence jn_bytes_written jn_limits jn_read_only jn_write_failed jn_open].
  destruct (jn_write_failed j); [done|]. destruct Hcut as [|Hk]; [done|].
  rewrite BuildJournalHeaderImage_lay by done.
  assert (blen (lay_header sid now (jn_last_sequence j)) = 96) as Hb
    by (unfold blen; by rewrite length_lay_header).
  unfold kJournalHeaderBytes in *. rewrite Hb. cbn [Z.eqb]. rewrite (proj2 (Z.eqb_neq _ 96)) by lia.
  cbn [negb]. change (Status_ok (mkStatus SC_IntegrityFailure RC_DurableWriteFailed
    (B "short write on journal"))) with false. cbn [negb fst snd].
  split; [done|]. cbn [set_content Journal_Close jn_content app]. unfold blen. rewrite length_take. lia.
Qed.

(** The journal is reset in place, so compaction has a window in which the store cannot be
    opened again: when the new journal header is not written, because the write is cut short by
    an error or a crash, or because a write of the journal had failed before (which the reset
    only notices after it has truncated the file), the snapshot that holds the whole state has
    been published, yet every later open of the store is refused because the journal is shorter
    than its header. *)
Theorem torn_reset_locks_store store io :
  let s := compacted (st_state store) in
  st_read_only store || jn_read_only (st_journal store) = false ->
  length (ds_store s) = 16%nat -> 0 <= jn_last_sequence (st_journal store) ->
  publishes io store = true -> oi_open_ok (ci_reset io) = true ->
  jn_write_failed (st_journal store) = true \/ 0 <= wi_written (oi_write (ci_reset io)) < kJournalHeaderBytes ->
  let store' := (Store_Compact io store).2 in
  sd_published (st_snapshot store') = Some (BuildSnapshotImage
    (snapshot_header_of s (ci_now_snapshot io) (EncodeSnapshotPayload s)) (EncodeSnapshotPayload s)) /\
  forall io' limits create ro fresh now1 now2,
    sp_store (DurableStore_Open io' limits create ro fresh now1 now2
      (mkDisk true true (st_snapshot store') (Some (jn_content (st_journal store'))))) = None.
Proof.
  intros s. unfold s. clear s. intros Hok Hst Hseq Hpub Hopen Hcut. bool_hyps.
  pose proof (compact_published io store ltac:(done) Hpub) as Hc. cbv zeta in Hc.
  pose proof (reset_cut (ci_reset io) (ds_store (compacted (st_state store))) (ci_now_journal io)
    (st_journal store)) as [Hs Hb]; try done.
  destruct (Journal_Reset _ _ _ _) as [status' j]. cbn [fst snd] in Hs, Hb. rewrite Hs in Hc.
  cbn [negb] in Hc. cbv zeta. rewrite Hc. split; [done|]. intros.
  by apply short_journal_locks.
Qed.

(** Compactions of the example store: one whose header is cut short, and one with every answer
    good after a write has failed. *)
Definition example_compact_io (store : DurableStore) (written : Z) : CompactIo :=
  let s := compacted (st_state store) in
  mkCompactIo (publish_io_good (blen (BuildSnapshotImage
      (snapshot_header_of s 1700000000000 (EncodeSnapshotPayload s)) (EncodeSnapshotPayload s))))
    (mkOpenIo true true true true true true true (mkWriteIo written true true)) 1700000000000 1700000000001.

Definition after_compaction (store : DurableStore) (written : Z) : StoreDisk :=
  let store' := (Store_Compact (example_compact_io store written) store).2 in
  mkDisk true true (st_snapshot store') (Some (jn_content (st_journal store'))).

Lemma torn_reset_locks_store_witness :
  sp_store (DurableStore_Open store_io_good default_limits true false example_fresh 0 0
    (after_compaction example_dstore1 17)) = None /\
  sp_store (DurableStore_Open store_io_good default_limits true false example_fresh 0 0
    (after_compaction example_dstore2 kJournalHeaderBytes)) = None.
Proof.
  split.
  - apply (torn_reset_locks_store example_dstore1 (example_compact_io example_dstore1 17));
      try (vm_compute; (reflexivity || discriminate)).
    right. split; vm_compute; [discriminate|reflexivity].
  - apply (torn_reset_locks_store example_dstore2 (example_compact_io example_dstore2 kJournalHeaderBytes));
      try (vm_compute; (reflexivity || discriminate)).
    left. vm_compute. reflexivity.
Defined.

(** A fence whose detail is longer than the 800 bytes the decoder accepts. *)
Definition long_fence : FenceEntry :=
  mkFence (B "fence-1") (B "scope") [] 3 0 (repeat Byte.x78 801) 1700000000000.

(** A mutation whose payload does not decode is not all or nothing: the record is appended and
    made durable before the decoder refuses it, so the journal has advanced although the operation
    reports a failure. *)
Theorem long_fence_journalled io store :
  st_read_only store = false ->
  Status_ok (Append io RT_FencePut (EncodeFence long_fence) (st_journal store)).1 = true ->
  let r := Store_PutFence io long_fence store in
  Status_ok r.1 = false /\
  jn_last_sequence (st_journal r.2) = wrap 64 (jn_last_sequence (st_journal store) + 1) /\
  ds_fences (st_state r.2) = ds_fences (st_state store).
Proof.
  intros Hro Hok. pose proof (Append_sequence io RT_FencePut (EncodeFence long_fence) (st_journal store)) as Hs.
  unfold Store_PutFence, commit_payload. rewrite Hro.
  assert (is_empty (EncodeFence long_fence) = false) as -> by (vm_compute; reflexivity).
  assert (read_exact DecodeFence (EncodeFence long_fence) = None) as Hd by (vm_compute; reflexivity).
  unfold AppendAndApply. destruct (Append _ _ _ _) as [status j]. cbn [fst snd] in *. rewrite Hok in Hs |- *.
  cbn [negb ApplyPayload]. unfold applied. rewrite Hd. by split_and!.
Qed.

(** The snapshot is published by a rename whose directory is not synchronised, and the journal is
    reset right after.  This is what a crash leaves that keeps the reset and loses the rename. *)
Definition after_lost_rename (store : DurableStore) : StoreDisk :=
  mkDisk true true (st_snapshot store)
    (Some (jn_content (st_journal (Store_Compact (example_compact_io store kJournalHeaderBytes) store).2))).

(** The durability of the store rests on renames that last: when a crash loses the rename of a
    compaction that reported success, the store opens without an error and without its state. *)
Theorem lost_rename_loses_state :
  Status_ok (Store_Compact (example_compact_io example_dstore1 kJournalHeaderBytes) example_dstore1).1 = true /\
  ds_last_epoch (st_state example_dstore1) = 1 /\
  exists store report,
    sp_store (DurableStore_Open store_io_good default_limits true false example_fresh 0 0
      (after_lost_rename example_dstore1)) = Some (store, report) /\
    ds_last_epoch (st_state store) = 0.
Proof.
  split_and!; [vm_compute; reflexivity|vm_compute; reflexivity|].
  do 2 eexists. split; [vm_compute; reflexivity|reflexivity].
Qed.
