(* ===== verification/Engine.v ===== *)
(** * The reconciliation engine (engine.hpp, engine.cpp): state, boot, documents, queries

    One engine is one incarnation of the process: the durable store, the epoch and boot
    identity it owns, its counters.  Operations run in a small state monad; the answers of
    the host (what the disk does with each write, the clock) are inputs.  Planning is in
    [Planner], the life of attempts and fences in [Lifecycle]. *)

From Stdlib Require Import ZArith Lia.
From stdpp Require Import prelude.
From S2P Require Import Prelude OrdMap Hash Status Identity Canonical Value Policy Document Drift.
From S2P Require Import Authority Plan Lineage Journal Snapshot StoreState Store.
Local Open Scope Z_scope.

(** ** The attempt state machine *)

(** Models [TransitionLegal], src/engine.cpp:15-44. *)
Definition TransitionLegal (from to : AttemptState) : bool :=
  match from with
  | AS_Issued =>
    match to with
    | AS_Dispatched | AS_Acknowledged | AS_Applied | AS_Failed | AS_Abandoned | AS_Superseded
    | AS_Fenced | AS_Interrupted => true
    | _ => false
    end
  | AS_Dispatched =>
    match to with
    | AS_Acknowledged | AS_Applied | AS_Failed | AS_Abandoned | AS_Superseded | AS_Fenced
    | AS_Interrupted => true
    | _ => false
    end
  | AS_Acknowledged =>
    match to with
    | AS_Applied | AS_Failed | AS_Abandoned | AS_Superseded | AS_Fenced | AS_Interrupted => true
    | _ => false
    end
  | AS_Applied =>
    match to with
    | AS_Verified | AS_Failed | AS_Fenced | AS_Interrupted => true
    | _ => false
    end
  | AS_Invalid | AS_Verified | AS_Failed | AS_Abandoned | AS_Superseded | AS_Fenced
  | AS_Interrupted => false
  end.

(** ** Options, reports, counters *)

(** Models [EngineOptions], include/summon/fabric_reconciliation/engine.hpp:34-46. *)
Record EngineOptions := mkEngineOptions {
  eo_store_dir : bytes;
  eo_limits : RuntimeLimits;
  eo_create_if_missing : bool;
  eo_read_only : bool;
  eo_initial_policy : ReconciliationPolicy;
  eo_install_initial_policy : bool;
  eo_auto_compact_after_records : Z
}.

(** Models [BootReport], include/summon/fabric_reconciliation/engine.hpp:49-71. *)
Record BootReport := mkBootReport {
  br_store : bytes;
  br_previous_epoch : Z;
  br_epoch : Z;
  br_boot : bytes;
  br_store_created : bool;
  br_snapshot_loaded : bool;
  br_recovered_torn_tail : bool;
  br_recovered_bytes : Z;
  br_records_replayed : Z;
  br_attempts_restored : Z;
  br_attempts_interrupted : Z;
  br_attempts_abandoned : Z;
  br_attempts_fenced : Z;
  br_observations_retained : Z;
  br_outcomes_retained : Z;
  br_fences_active : Z;
  br_freshness_restored : bool;
  br_mutation_authority_restored : bool;
  br_notes : list Z
}.

(** Models [EngineStats], include/summon/fabric_reconciliation/engine.hpp:107-124. *)
Record EngineStats := mkStats {
  sa_intents_committed : Z;
  sa_intent_duplicates : Z;
  sa_intent_conflicts : Z;
  sa_observations_recorded : Z;
  sa_observation_duplicates : Z;
  sa_plans_built : Z;
  sa_actions_dispatched : Z;
  sa_completions_accepted : Z;
  sa_completions_rejected_late : Z;
  sa_duplicate_completions : Z;
  sa_verifications_accepted : Z;
  sa_verifications_rejected : Z;
  sa_subject_visits : Z;
  sa_attribute_comparisons : Z;
  sa_fenced_decisions : Z;
  sa_compactions : Z
}.

Definition stats_zero : EngineStats := mkStats 0 0 0 0 0 0 0 0 0 0 0 0 0 0 0 0.

(** The counters by name, so that one function increments any of them. *)
Inductive StatField :=
| ST_intents_committed | ST_intent_duplicates | ST_intent_conflicts | ST_observations_recorded
| ST_observation_duplicates | ST_plans_built | ST_actions_dispatched | ST_completions_accepted
| ST_completions_rejected_late | ST_duplicate_completions | ST_verifications_accepted
| ST_verifications_rejected | ST_subject_visits | ST_attribute_comparisons | ST_fenced_decisions
| ST_compactions.

#[export] Instance StatField_eq : EqDecision StatField.
Proof. solve_decision. Defined.

(** [stats_.field += n] on unsigned 64-bit counters. *)
Definition stats_add (field : StatField) (n : Z) (s : EngineStats) : EngineStats :=
  let at_field f v := if bool_decide (f = field) then wrap 64 (v + n) else v in
  mkStats
    (at_field ST_intents_committed (sa_intents_committed s))
    (at_field ST_intent_duplicates (sa_intent_duplicates s))
    (at_field ST_intent_conflicts (sa_intent_conflicts s))
    (at_field ST_observations_recorded (sa_observations_recorded s))
    (at_field ST_observation_duplicates (sa_observation_duplicates s))
    (at_field ST_plans_built (sa_plans_built s))
    (at_field ST_actions_dispatched (sa_actions_dispatched s))
    (at_field ST_completions_accepted (sa_completions_accepted s))
    (at_field ST_completions_rejected_late (sa_completions_rejected_late s))
    (at_field ST_duplicate_completions (sa_duplicate_completions s))
    (at_field ST_verifications_accepted (sa_verifications_accepted s))
    (at_field ST_verifications_rejected (sa_verifications_rejected s))
    (at_field ST_subject_visits (sa_subject_visits s))
    (at_field ST_attribute_comparisons (sa_attribute_comparisons s))
    (at_field ST_fenced_decisions (sa_fenced_decisions s))
    (at_field ST_compactions (sa_compactions s)).

(** ** The engine and its operations *)

(** Models [ReconciliationEngine], include/summon/fabric_reconciliation/engine.hpp:133-225. The
    mutex serialises the operations, which are therefore functions of the whole state; the
    field [live_attempt_] is never read or written by the code. *)
Record Engine := mkEngine {
  en_store : DurableStore;
  en_options : EngineOptions;
  en_boot_report : BootReport;
  en_stats : EngineStats;
  en_live_epoch : Z;
  en_live_boot : bytes;
  en_compaction_watermark : Z
}.

Definition with_store_of (store : DurableStore) (e : Engine) : Engine :=
  mkEngine store (en_options e) (en_boot_report e) (en_stats e) (en_live_epoch e) (en_live_boot e)
    (en_compaction_watermark e).
Definition with_stats (stats : EngineStats) (e : Engine) : Engine :=
  mkEngine (en_store e) (en_options e) (en_boot_report e) stats (en_live_epoch e) (en_live_boot e)
    (en_compaction_watermark e).
Definition with_report (report : BootReport) (e : Engine) : Engine :=
  mkEngine (en_store e) (en_options e) report (en_stats e) (en_live_epoch e) (en_live_boot e)
    (en_compaction_watermark e).
Definition with_live_epoch (epoch : Z) (e : Engine) : Engine :=
  mkEngine (en_store e) (en_options e) (en_boot_report e) (en_stats e) epoch (en_live_boot e)
    (en_compaction_watermark e).
Definition with_watermark (sequence : Z) (e : Engine) : Engine :=
  mkEngine (en_store e) (en_options e) (en_boot_report e) (en_stats e) (en_live_epoch e)
    (en_live_boot e) sequence.

(** [store_->state()]. *)
Definition en_state (e : Engine) : DurableState := st_state (en_store e).
Definition en_limits (e : Engine) : RuntimeLimits := eo_limits (en_options e).

(** What the host answers while one operation runs: each durable write and compaction, and
    the readings of [WallClockMillis], the second one for [Verify], which reads it twice. *)
Record Host := mkHost {
  ho_write : StoreEvent -> DurableStore -> WriteIo;
  ho_compact : DurableStore -> CompactIo;
  ho_now : Z;
  ho_now_again : Z
}.

(** A fallible operation of the engine: the state it leaves is kept also when it fails. *)
Definition Op (A : Type) := Engine -> Result A * Engine.

#[export] Instance Op_ret : MRet Op := fun A a e => (Value a, e).
#[export] Instance Op_bind : MBind Op := fun A A' f m e =>
  match m e with
  | (Failed status, e') => (Failed status, e')
  | (Value a, e') => f a e'
  end.

Definition fail {A} (status : Status) : Op A := fun e => (Failed status, e).
Definition get : Op Engine := fun e => (Value e, e).
Definition modify (f : Engine -> Engine) : Op unit := fun e => (Value tt, f e).
Definition count_stat (field : StatField) (n : Z) : Op unit :=
  modify (fun e => with_stats (stats_add field n (en_stats e)) e).

(** [if (!status.ok()) return status;] *)
Definition check (status : Status) : Op unit :=
  if Status_ok status then mret tt else fail status.
(** [if (condition) return status;] *)
Definition refuse_if (condition : bool) (status : Status) : Op unit :=
  if condition then fail status else mret tt.

Definition update_report (f : BootReport -> BootReport) : Op unit :=
  modify (fun e => with_report (f (en_boot_report e)) e).

Definition engine_read_only : Status :=
  mkStatus SC_PreconditionFailed RC_DurableWriteFailed (B "engine is read-only").

(** The guard every mutating operation starts with. *)
Definition require_writable : Op unit :=
  e ← get; refuse_if (st_read_only (en_store e)) engine_read_only.

Section WithHost.
Variable host : Host.

(** A durable mutation of the store. *)
Definition mutate (event : StoreEvent) : Op unit := fun e =>
  let '(status, store) := mutation (ho_write host event (en_store e)) event (en_store e) in
  check status (with_store_of store e).

(** What a successful compaction of the store does to the engine's own counters. *)
Definition compact_store : Op unit := fun e =>
  let '(status, store) := Store_Compact (ho_compact host (en_store e)) (en_store e) in
  let e := with_store_of store e in
  (_ ← check status;
   _ ← count_stat ST_compactions 1;
   modify (fun e => with_watermark (ds_sequence (en_state e)) e)) e.

(** Models [ReconciliationEngine::MaybeCompactLocked], src/engine.cpp:1298-1311. A compaction that
    fails is not reported. *)
Definition MaybeCompactLocked : Op unit := fun e =>
  let bound := eo_auto_compact_after_records (en_options e) in
  if bound =? 0 then (Value tt, e)
  else
    let delta := wrap 64 (ds_sequence (en_state e) - en_compaction_watermark e) in
    if delta <? bound then (Value tt, e) else (Value tt, (compact_store e).2).

(** Models [ReconciliationEngine::Compact], src/engine.cpp:1279-1291. *)
Definition Engine_Compact : Op unit := _ ← require_writable; compact_store.

(** Models [ReconciliationEngine::Flush], src/engine.cpp:1293-1296. *)
Definition Engine_Flush (io : WriteIo) : Op unit := fun e =>
  let '(status, store) := Store_SyncJournal io (en_store e) in
  check status (with_store_of store e).

(** ** Outcomes and restart fencing *)

(** Models [ReconciliationEngine::MakeOutcome], src/engine.cpp:911-929. *)
Definition MakeOutcome (attempt : AttemptRecord) (state : AttemptState) (reason : Z)
    (ambiguous : bool) (now : Z) : ReconciliationOutcome :=
  mkOutcome (at_idempotency_key attempt) (at_scope attempt) (at_subject attempt)
    (at_action attempt) (at_id attempt) (at_epoch attempt) (at_boot attempt) state reason now
    (bool_decide (state = AS_Verified)) 0 ambiguous.

(** [std::sort] by identity. *)
Fixpoint insert_by_id (a : AttemptRecord) (l : list AttemptRecord) : list AttemptRecord :=
  match l with
  | [] => [a]
  | b :: l' => if at_id b <? at_id a then b :: insert_by_id a l' else a :: l
  end.
Definition sort_by_id (l : list AttemptRecord) : list AttemptRecord := foldr insert_by_id [] l.

(** An attempt moved to another state. *)
Definition moved (attempt : AttemptRecord) (state : AttemptState)
    (transitions : list AttemptTransition) : AttemptRecord :=
  mkAttempt (at_id attempt) (at_idempotency_key attempt) (at_scope attempt) (at_subject attempt)
    (at_action attempt) (at_epoch attempt) (at_boot attempt) (at_authority attempt) state
    (at_issued_unix_ms attempt) transitions.

(** Attempts still in flight, by identity. *)
Definition in_flight (s : DurableState) : list AttemptRecord :=
  List.filter (fun a => negb (IsTerminalAttemptState (at_state a))) (ds_attempts s).*2.

Definition count_fenced (may_have_effected : bool) (r : BootReport) : BootReport :=
  mkBootReport (br_store r) (br_previous_epoch r) (br_epoch r) (br_boot r) (br_store_created r)
    (br_snapshot_loaded r) (br_recovered_torn_tail r) (br_recovered_bytes r)
    (br_records_replayed r) (br_attempts_restored r)
    (br_attempts_interrupted r + (if may_have_effected then 1 else 0))
    (br_attempts_abandoned r + (if may_have_effected then 0 else 1))
    (br_attempts_fenced r + 1) (br_observations_retained r) (br_outcomes_retained r)
    (br_fences_active r) (br_freshness_restored r) (br_mutation_authority_restored r) (br_notes r).

(** Models [ReconciliationEngine::CommitRestartFencing], src/engine.cpp:174-209: one attempt. *)
Definition fence_at_restart (now : Z) (attempt : AttemptRecord) : Op unit :=
  e ← get;
  let may_have_effected := negb (bool_decide (at_state attempt = AS_Issued)) in
  let target := if may_have_effected then AS_Interrupted else AS_Abandoned in
  let reason := if may_have_effected then RC_AttemptInterruptedByRestart
                else RC_AttemptAbandoned in
  let transition := mkTransition (at_state attempt) target (en_live_epoch e) (en_live_boot e) now
                      reason RC_None in
  let transitions :=
    if blen (at_transitions attempt) <? max_attempt_transitions (en_limits e)
    then at_transitions attempt ++ [transition] else at_transitions attempt in
  let attempt := moved attempt target transitions in
  _ ← mutate (Ev_AttemptTransition attempt);
  _ ← mutate (Ev_Outcome (MakeOutcome attempt target reason may_have_effected now));
  update_report (count_fenced may_have_effected).

(** [for (x : list) { ... }], stopping at the first failure. *)
Fixpoint for_each {A} (body : A -> Op unit) (l : list A) : Op unit :=
  match l with
  | [] => mret tt
  | a :: l' => _ ← body a; for_each body l'
  end.

(** Models [ReconciliationEngine::CommitRestartFencing], src/engine.cpp:163-211. *)
Definition CommitRestartFencing : Op unit :=
  e ← get;
  for_each (fence_at_restart (ho_now host)) (sort_by_id (in_flight (en_state e))).

(** ** Boot *)

Definition add_notes (notes : list Z) (r : BootReport) : BootReport :=
  mkBootReport (br_store r) (br_previous_epoch r) (br_epoch r) (br_boot r) (br_store_created r)
    (br_snapshot_loaded r) (br_recovered_torn_tail r) (br_recovered_bytes r)
    (br_records_replayed r) (br_attempts_restored r) (br_attempts_interrupted r)
    (br_attempts_abandoned r) (br_attempts_fenced r) (br_observations_retained r)
    (br_outcomes_retained r) (br_fences_active r) (br_freshness_restored r)
    (br_mutation_authority_restored r) (br_notes r ++ notes).

Definition set_incarnation (epoch : Z) (boot : bytes) (r : BootReport) : BootReport :=
  mkBootReport (br_store r) (br_previous_epoch r) epoch boot (br_store_created r)
    (br_snapshot_loaded r) (br_recovered_torn_tail r) (br_recovered_bytes r)
    (br_records_replayed r) (br_attempts_restored r) (br_attempts_interrupted r)
    (br_attempts_abandoned r) (br_attempts_fenced r) (br_observations_retained r)
    (br_outcomes_retained r) (br_fences_active r) (br_freshness_restored r)
    (br_mutation_authority_restored r) (br_notes r).

Definition set_retained (observations outcomes fences : Z) (r : BootReport) : BootReport :=
  mkBootReport (br_store r) (br_previous_epoch r) (br_epoch r) (br_boot r) (br_store_created r)
    (br_snapshot_loaded r) (br_recovered_torn_tail r) (br_recovered_bytes r)
    (br_records_replayed r) (br_attempts_restored r) (br_attempts_interrupted r)
    (br_attempts_abandoned r) (br_attempts_fenced r) observations outcomes fences
    (br_freshness_restored r) (br_mutation_authority_restored r) (br_notes r).

(** The report a boot starts from. *)
Definition initial_report (store : DurableStore) (r : StoreOpenReport) : BootReport :=
  mkBootReport (ds_store (st_state store)) (so_last_epoch r) 0 BootId_default (so_created r)
    (so_snapshot_loaded r) (so_recovered_torn_tail r) (so_recovered_bytes r)
    (so_records_replayed r) (so_attempts_restored r) 0 0 0 0 0 0 false false (so_notes r).

(** Models [ReconciliationEngine::Boot], src/engine.cpp:112-129: the initial policy. *)
Definition install_policy : Op unit :=
  e ← get;
  if ds_has_policy (en_state e) then mret tt
  else
    _ ← refuse_if (negb (eo_install_initial_policy (en_options e)))
          (mkStatus SC_PreconditionFailed RC_NoIntentForScope
             (B "store has no policy and no initial policy was supplied"));
    let policy := eo_initial_policy (en_options e) in
    let policy := if is_empty (po_id policy) then DefaultPolicy else policy in
    let '(status, policy) := CanonicalisePolicy policy (en_limits e) in
    _ ← check status;
    mutate (Ev_Policy policy).

Definition observations_held (s : DurableState) : Z :=
  foldr Z.add 0 (map (fun entry => blen entry.2) (ds_observations s)).

(** Models [ReconciliationEngine::Boot], src/engine.cpp:99-110: a read-only engine adopts the
    epoch it finds. *)
Definition boot_read_only : Op unit :=
  modify (fun e =>
    let s := en_state e in
    let e := with_watermark (ds_sequence s) (with_live_epoch (ds_last_epoch s) e) in
    with_report (add_notes [RC_RestartFreshnessNotRestored; RC_RestartLeasesNotRestored]
      (set_retained 0 (blen (ds_outcomes s)) (blen (ds_fences s))
         (set_incarnation (ds_last_epoch s) (en_live_boot e) (en_boot_report e)))) e).

(** Models [ReconciliationEngine::Boot], src/engine.cpp:112-160: the boot of a writable engine. *)
Definition boot_writable : Op unit :=
  _ ← install_policy;
  e ← get;
  let next := wrap 64 (ds_last_epoch (en_state e) + 1) in
  _ ← mutate (Ev_Epoch next);
  _ ← modify (with_live_epoch next);
  _ ← update_report (fun r =>
        add_notes [RC_RestartEpochAdvanced; RC_RestartFreshnessNotRestored;
                   RC_RestartLeasesNotRestored]
          (set_incarnation next (en_live_boot e) r));
  _ ← CommitRestartFencing;
  _ ← update_report (fun r =>
        if br_attempts_fenced r =? 0 then r else add_notes [RC_RestartAttemptsFenced] r);
  modify (fun e =>
    let s := en_state e in
    with_watermark (ds_sequence s)
      (with_report (set_retained (observations_held s) (blen (ds_outcomes s))
         (blen (ds_fences s)) (en_boot_report e)) e)).

(** What the host supplies to open the store: its answers, the identity a new journal draws,
    two clock readings, and the boot identity ([BootId::Generate]). *)
Record BootHost := mkBootHost {
  bh_store : StoreIo;
  bh_fresh_store : bytes;
  bh_now_header : Z;
  bh_now_report : Z;
  bh_boot : bytes
}.

(** The engine before the boot sequence has run. *)
Definition opened_engine (options : EngineOptions) (boot : bytes) (store : DurableStore)
    (report : StoreOpenReport) : Engine :=
  mkEngine store options (initial_report store report) stats_zero 0 boot 0.

(** Models [ReconciliationEngine::Boot], src/engine.cpp:72-161. *)
Definition Engine_Boot (bh : BootHost) (options : EngineOptions) (disk : StoreDisk)
  : Result Engine :=
  let opened := DurableStore_Open (bh_store bh) (eo_limits options) (eo_create_if_missing options)
                  (eo_read_only options) (bh_fresh_store bh) (bh_now_header bh) (bh_now_report bh)
                  disk in
  match sp_store opened with
  | None => Failed (sp_status opened)
  | Some (store, report) =>
    match (if eo_read_only options then boot_read_only else boot_writable)
            (opened_engine options (bh_boot bh) store report) with
    | (Failed status, _) => Failed status
    | (Value _, e) => Value e
    end
  end.

(** Models [ReconciliationEngine::Open], src/engine.cpp:57-70. *)
Definition Engine_Open (bh : BootHost) (options : EngineOptions) (disk : StoreDisk)
  : Result Engine :=
  if is_empty (eo_store_dir options) then
    Failed (mkStatus SC_Rejected RC_DurableWriteFailed (B "engine requires a store directory"))
  else Engine_Boot bh options disk.

(** ** Policy *)

(** Models [ReconciliationEngine::PutPolicy], src/engine.cpp:255-282. The value is the status of
    the success. *)
Definition Engine_PutPolicy (policy : ReconciliationPolicy) (allow_same_version : bool)
  : Op Status :=
  _ ← require_writable;
  e ← get;
  let '(status, canonical) := CanonicalisePolicy policy (en_limits e) in
  _ ← check status;
  let current := ds_policy (en_state e) in
  if ds_has_policy (en_state e) && (po_version canonical <? po_version current) then
    fail (mkStatus SC_ConflictState RC_IntentGenerationRegressed
            (B "policy version must not regress"))
  else if ds_has_policy (en_state e) && (po_version canonical =? po_version current) then
    if allow_same_version &&
       bool_decide (ComputePolicyDigest canonical = ComputePolicyDigest current) then
      mret (Status_OkReason RC_DuplicateIntentIdentical)
    else fail (mkStatus SC_ConflictState RC_ConflictingRepublishers
                 (B "policy version already exists with different content"))
  else
    _ ← mutate (Ev_Policy canonical);
    mret Status_Ok.

(** Models [ReconciliationEngine::ActivePolicy], src/engine.cpp:284-291. *)
Definition ActivePolicy (e : Engine) : Result ReconciliationPolicy :=
  if negb (ds_has_policy (en_state e)) then
    Failed (mkStatus SC_NotFound RC_NoIntentForScope (B "store holds no policy yet"))
  else Value (ds_policy (en_state e)).

(** ** Intents and observations *)

(** Models [IntentCommitResult], include/summon/fabric_reconciliation/engine.hpp:74-78. *)
Record IntentCommitResult := mkIntentCommit {
  ic_duplicate : bool; ic_generation : Z; ic_digest : bytes }.

(** Models [ObservationCommitResult], include/summon/fabric_reconciliation/engine.hpp:81-84. *)
Record ObservationCommitResult := mkObservationCommit {
  oc_duplicate : bool; oc_stamped : ObservationDocument }.

Definition with_intent_digest (digest : bytes) (d : IntentDocument) : IntentDocument :=
  mkIntent (in_intent d) (in_scope d) (in_definition d) (in_generation d) (in_policy_version d)
    (in_evidence d) (in_complete d) (in_subjects d) digest.

(** Models [ReconciliationEngine::CommitIntent], src/engine.cpp:293-334. What the result parameter
    holds after a failure is left out. *)
Definition Engine_CommitIntent (document : IntentDocument) : Op (Status * IntentCommitResult) :=
  _ ← require_writable;
  e ← get;
  _ ← check (ValidateIntent document (en_limits e));
  let candidate := with_intent_digest (ComputeIntentDigest document) document in
  let result duplicate := mkIntentCommit duplicate (in_generation candidate) (in_digest candidate) in
  let commit :=
    _ ← mutate (Ev_Intent candidate);
    _ ← count_stat ST_intents_committed 1;
    _ ← MaybeCompactLocked;
    mret (Status_Ok, result false) in
  match om_find (in_scope candidate) (ds_intents (en_state e)) with
  | None => commit
  | Some existing =>
    if in_generation candidate <? in_generation existing then
      fail (mkStatus SC_Rejected RC_IntentGenerationRegressed
              (B "intent generation is older than the committed intent"))
    else if in_generation candidate =? in_generation existing then
      if bool_decide (in_digest candidate = in_digest existing) then
        _ ← count_stat ST_intent_duplicates 1;
        mret (Status_OkReason RC_DuplicateIntentIdentical, result true)
      else
        _ ← count_stat ST_intent_conflicts 1;
        fail (mkStatus SC_ConflictState RC_ConflictingRepublishers
                (B "intent generation already committed with different content"))
    else commit
  end.

(** What the scan of a reporter's retained observations finds. *)
Inductive StreamScan :=
| SS_Duplicate (retained : ObservationDocument)
| SS_Conflict
| SS_Highest (highest : option Z).

(** Models [ReconciliationEngine::RecordObservationAt], src/engine.cpp:374-393: the scan of the
    retained stream. *)
Fixpoint scan_stream (document : ObservationDocument) (highest : option Z)
    (stream : list ObservationDocument) : StreamScan :=
  match stream with
  | [] => SS_Highest highest
  | retained :: rest =>
    if negb (bool_decide (ob_reporter retained = ob_reporter document)) then
      scan_stream document highest rest
    else
      let highest :=
        match highest with
        | None => ob_generation retained
        | Some h => if h <? ob_generation retained then ob_generation retained else h
        end in
      if bool_decide (ob_observation retained = ob_observation document) &&
         (ob_generation retained =? ob_generation document) then
        if bool_decide (ob_digest retained = ob_digest document) then SS_Duplicate retained
        else SS_Conflict
      else scan_stream document (Some highest) rest
  end.

Definition with_observation_digest (digest : bytes) (d : ObservationDocument)
  : ObservationDocument :=
  mkObservation (ob_observation d) (ob_scope d) (ob_reporter d) (ob_generation d) (ob_evidence d)
    (ob_complete d) (ob_authoritative_absence d) (ob_received_epoch d) (ob_received_unix_ms d)
    (ob_subjects d) digest.

(** The document a submission is stamped into. *)
Definition stamp (submission : ObservationSubmission) (epoch received : Z)
  : ObservationDocument :=
  let document := mkObservation (su_observation submission) (su_scope submission)
    (su_reporter submission) (su_generation submission) (su_evidence submission)
    (su_complete submission) (su_authoritative_absence submission) epoch received
    (su_subjects submission) zero_digest in
  with_observation_digest (ComputeObservationDigest document) document.

(** Models [ReconciliationEngine::RecordObservationAt], src/engine.cpp:341-407. *)
Definition RecordObservationAt (submission : ObservationSubmission) (stamp_unix_ms : Z)
  : Op (Status * ObservationCommitResult) :=
  _ ← require_writable;
  e ← get;
  _ ← check (ValidateSubmission submission (en_limits e));
  let received := if stamp_unix_ms =? 0 then ho_now host else stamp_unix_ms in
  let document := stamp submission (en_live_epoch e) received in
  let stream := default [] (om_find (su_scope submission) (ds_observations (en_state e))) in
  match scan_stream document None stream with
  | SS_Duplicate retained =>
    _ ← count_stat ST_observation_duplicates 1;
    mret (Status_OkReason RC_DuplicateObservationIdentical, mkObservationCommit true retained)
  | SS_Conflict =>
    fail (mkStatus SC_ConflictState RC_ConflictingRepublishers
            (B "observation identity and generation already recorded with other content"))
  | SS_Highest highest =>
    if match highest with Some h => su_generation submission <? h | None => false end then
      fail (mkStatus SC_Rejected RC_ObservationGenerationRegressed
              (B "observation generation is older than the recorded stream"))
    else
      _ ← mutate (Ev_Observation document);
      _ ← count_stat ST_observations_recorded 1;
      _ ← MaybeCompactLocked;
      mret (Status_Ok, mkObservationCommit false document)
  end.

(** Models [ReconciliationEngine::RecordObservation], src/engine.cpp:336-339. *)
Definition RecordObservation (submission : ObservationSubmission)
  : Op (Status * ObservationCommitResult) := RecordObservationAt submission 0.
End WithHost.

(** ** Fences and authority *)

(** Models [ReconciliationEngine::FenceHoldsFor], src/engine.cpp:217-232. *)
Definition FenceHoldsFor (fences : list (bytes * FenceEntry)) (scope subject : bytes) (epoch : Z)
  : bool :=
  existsb (fun entry =>
    let fence := entry.2 in
    bool_decide (fe_scope fence = scope) &&
    (is_empty (fe_subject fence) || bool_decide (fe_subject fence = subject)) &&
    (epoch <? fe_fenced_below fence)) fences.

(** Models [ReconciliationEngine::BuildAuthority], src/engine.cpp:234-253. *)
Definition BuildAuthority (e : Engine) (evidence : ScopeEvidenceRef) : AuthorityVector :=
  let policy := ds_policy (en_state e) in
  mkAuthority (en_live_epoch e) (en_live_boot e) (po_id policy) (po_version policy)
    (ComputePolicyDigest policy) (ev_definition evidence) (ev_intent_generation evidence)
    (ev_intent evidence) (ev_intent_digest evidence) (ev_observation evidence)
    (ev_observation_generation evidence) (ev_reporter evidence) (ev_observation_digest evidence)
    (ev_received_epoch evidence) (ev_received_unix_ms evidence).

(** ** Queries *)

Definition selects (scope entry_scope : bytes) : bool :=
  is_empty scope || bool_decide (entry_scope = scope).

(** Models [ReconciliationEngine::ActiveFences], src/engine.cpp:1205-1214. *)
Definition ActiveFences (e : Engine) (scope : bytes) : list FenceEntry :=
  List.filter (fun f => selects scope (fe_scope f)) (ds_fences (en_state e)).*2.

(** Models [ReconciliationEngine::KnownScopes], src/engine.cpp:1216-1229. *)
Definition KnownScopes (e : Engine) : list bytes :=
  sort (foldl (fun scopes scope =>
                 if existsb (fun s => bool_decide (s = scope)) scopes then scopes
                 else scopes ++ [scope])
          (ds_intents (en_state e)).*1 (ds_observations (en_state e)).*1).

(** Models [ReconciliationEngine::Attempts], src/engine.cpp:1231-1242. *)
Definition Engine_Attempts (e : Engine) (scope : bytes) : list AttemptRecord :=
  sort_by_id (List.filter (fun a => selects scope (at_scope a)) (ds_attempts (en_state e)).*2).

(** Models [ReconciliationEngine::Outcomes], src/engine.cpp:1244-1254. *)
Definition Engine_Outcomes (e : Engine) (scope : bytes) : list ReconciliationOutcome :=
  List.filter (fun o => selects scope (oc_scope o)) (ds_outcomes (en_state e)).

(** Models [ReconciliationEngine::ObservationEvidence], src/engine.cpp:1256-1267. *)
Definition ObservationEvidence (e : Engine) (scope : bytes) : list ObservationDocument :=
  default [] (om_find scope (ds_observations (en_state e))).

(** Models [ReconciliationEngine::CurrentIntent], src/engine.cpp:1269-1277. *)
Definition CurrentIntent (e : Engine) (scope : bytes) : Result IntentDocument :=
  match om_find scope (ds_intents (en_state e)) with
  | None => Failed (mkStatus SC_NotFound RC_NoIntentForScope
                      (B "no committed intent for this scope"))
  | Some document => Value document
  end.

(** Models [ReconciliationEngine::epoch], src/engine.cpp:1313-1316. *)
Definition Engine_epoch (e : Engine) : Z := en_live_epoch e.
(** Models [ReconciliationEngine::boot], src/engine.cpp:1318-1321. *)
Definition Engine_boot (e : Engine) : bytes := en_live_boot e.
(** Models [ReconciliationEngine::store_id], src/engine.cpp:1323-1326. *)
Definition Engine_store_id (e : Engine) : bytes := ds_store (en_state e).
(** Models [ReconciliationEngine::stats], src/engine.cpp:1328-1331. *)
Definition Engine_stats (e : Engine) : EngineStats := en_stats e.

(** ** Reasoning about operations *)

Lemma bind_Value {A C} (m : Op A) (f : A -> Op C) e c e' :
  (m ≫= f) e = (Value c, e') -> exists a e1, m e = (Value a, e1) /\ f a e1 = (Value c, e').
Proof.
  unfold mbind, Op_bind. destruct (m e) as [[a|status] e1]; [|done]. intros H. by exists a, e1.
Qed.

Lemma refuse_if_Value condition status e u e' :
  refuse_if condition status e = (Value u, e') -> condition = false /\ e' = e.
Proof. unfold refuse_if. destruct condition; intros [= <-]; done. Qed.

Lemma check_Value status e u e' : check status e = (Value u, e') -> Status_ok status = true /\ e' = e.
Proof. unfold check. destruct (Status_ok status); intros [= <-]; done. Qed.

(** Inverts the success of a sequence of operations, one step at a time. *)
Ltac op_step H :=
  lazymatch type of H with
  | (_ ≫= _) _ = (Value _, _) =>
    let a := fresh "a" in let e1 := fresh "e" in let H1 := fresh "Hop" in
    apply bind_Value in H as (a & e1 & H1 & H);
    lazymatch type of H1 with
    | get _ = _ => unfold get in H1; injection H1 as <- <-
    | refuse_if _ _ _ = _ => apply refuse_if_Value in H1 as [? ->]
    | check _ _ = _ => apply check_Value in H1 as [? ->]
    | count_stat _ _ _ = _ => unfold count_stat, modify in H1; injection H1 as _ <-
    | modify _ _ = _ => unfold modify in H1; injection H1 as _ <-
    | _ => idtac
    end
  | mret _ _ = (Value _, _) => unfold mret, Op_ret in H; injection H as <- <-
  | fail _ _ = (Value _, _) => discriminate H
  end.

(** ** A concrete engine *)

(** A host on which every write is complete. *)
Definition good_host (now : Z) : Host :=
  mkHost (fun event _ => io_good (kRecordHeaderBytes + blen (event_payload event)))
    (fun _ => mkCompactIo (publish_io_good 0) open_io_good now now) now now.

Definition example_boot : bytes := repeat Byte.x01 16.
Definition example_options : EngineOptions :=
  mkEngineOptions (B "store") default_limits true false empty_policy true 8192.
Definition example_boot_host : BootHost :=
  mkBootHost store_io_good example_fresh 1700000000000 1700000000000 example_boot.

Definition unbooted : Engine :=
  opened_engine example_options example_boot example_dstore0
    (mkStoreReport true false false 0 0 0 0 0 0 []).

(** A first boot on an empty disk. *)
Definition example_engine0 : Engine := Eval vm_compute in
  match Engine_Open (good_host 1700000000000) example_boot_host example_options empty_disk with
  | Value e => e
  | Failed _ => unbooted
  end.

(** The same engine with an intent of two ports committed, and with one port observed. *)
Definition example_engine1 : Engine := Eval vm_compute in
  (Engine_CommitIntent (good_host 1700000000010) example_intent example_engine0).2.

Definition example_submission : ObservationSubmission :=
  mkSubmission (B "obs-1") (B "fabric/rack-7") (B "agent/a") 9 EC_Real true true
    [(B "port/eth0", mkSubjectObservation (B "port/eth0") true example_state)].
Definition example_engine2 : Engine := Eval vm_compute in
  (RecordObservation (good_host 1700000000020) example_submission example_engine1).2.

(** Later both ports are observed. *)
Definition example_submission_both : ObservationSubmission :=
  mkSubmission (B "obs-2") (B "fabric/rack-7") (B "agent/b") 10 EC_Real true true
    [(B "port/eth0", mkSubjectObservation (B "port/eth0") true example_state);
     (B "port/eth1", mkSubjectObservation (B "port/eth1") true [])].
Definition example_engine_both : Engine := Eval vm_compute in
  (RecordObservation (good_host 1700000000030) example_submission_both example_engine2).2.
