(* ===== verification/Planner.v ===== *)
(** * Classification and planning in the engine (engine.cpp, Classify to BuildPlanLocked)

    How the engine assembles the evidence of a scope, classifies it, turns each drift record
    into a decision gated by authority, policy and fences, and gives the scope a verdict. *)

From Stdlib Require Import ZArith Lia.
From stdpp Require Import prelude.
From S2P Require Import Prelude OrdMap Hash Status Identity Canonical Value Policy Document Drift.
From S2P Require Import Authority Plan Lineage Journal Snapshot StoreState Store Engine.
Local Open Scope Z_scope.

(** ** Assembling the evidence *)

Definition scope_intents (e : Engine) (scope : bytes) : list (option IntentDocument) :=
  match om_find scope (ds_intents (en_state e)) with
  | Some document => [Some document]
  | None => []
  end.

Definition scope_observations (e : Engine) (scope : bytes) : list (option ObservationDocument) :=
  map Some (default [] (om_find scope (ds_observations (en_state e)))).

(** The input both [ClassifyLocked] and [BuildPlanLocked] assemble. *)
Definition classification_input (e : Engine) (scope : bytes) (policy : ReconciliationPolicy)
    (now : Z) : ClassificationInput :=
  let committed := om_find scope (ds_intents (en_state e)) in
  mkInput scope (Some (scope_intents e scope)) (Some (scope_observations e scope))
    (match committed with Some document => in_generation document | None => 0 end)
    (bool_decide (is_Some committed)) (Some policy) (Some (en_limits e)) (en_live_epoch e) now.

(** [ClassifyScope], whose work is added to the counters. *)
Definition classify_counted (input : ClassificationInput) : Op ClassificationReport :=
  match ClassifyScope input with
  | Failed status => fail status
  | Value report =>
    _ ← count_stat ST_subject_visits (cr_subject_visits report);
    _ ← count_stat ST_attribute_comparisons (cr_attribute_comparisons report);
    mret report
  end.

(** Models [ReconciliationEngine::ClassifyLocked], src/engine.cpp:424-461. *)
Definition ClassifyLocked (host : Host) (scope : bytes) (now_unix_ms : Z)
  : Op ClassificationReport :=
  e ← get;
  classify_counted (classification_input e scope (ds_policy (en_state e))
                      (if now_unix_ms =? 0 then ho_now host else now_unix_ms)).

Definition no_policy : Status :=
  mkStatus SC_PreconditionFailed RC_NoIntentForScope (B "store holds no policy").

(** Models [ReconciliationEngine::Classify], src/engine.cpp:409-422. *)
Definition Engine_Classify (host : Host) (scope : bytes) (now_unix_ms : Z)
  : Op ClassificationReport :=
  e ← get;
  _ ← refuse_if (negb (ds_has_policy (en_state e))) no_policy;
  ClassifyLocked host scope now_unix_ms.

(** ** One decision *)

(** What a drift class asks for, before authority is considered. *)
Record Proposal := mkProposal {
  pp_action : ActionKind;
  pp_disposition : DecisionDisposition;
  pp_reason : Z;
  pp_explanation : Explanation
}.

Definition explain (code : Z) (e : Explanation) : Explanation := Explanation_Add code [] e.

(** Models [ReconciliationEngine::BuildPlanLocked], src/engine.cpp:627-641: the loop over the
    deltas of a mismatch; returns [observe_only], [actionable] and the explanation. *)
Fixpoint explain_deltas (deltas : list AttributeDelta) (observe_only actionable : bool)
    (explanation : Explanation) : bool * bool * Explanation :=
  match deltas with
  | [] => (observe_only, actionable, explanation)
  | delta :: rest =>
    if bool_decide (ad_kind delta = DK_ObserveOnly) then
      explain_deltas rest true actionable
        (Explanation_Add RC_PolicyForbidsApplyMismatch
           (B "observe-only attribute " ++ ad_key delta) explanation)
    else if negb (bool_decide (ad_kind delta = DK_Unmanaged)) then
      explain_deltas rest observe_only true
        (Explanation_Add RC_ClassifiedAttributeMismatch
           (ad_key delta ++ B " intended=" ++ AttributeValue_Render (ad_intended delta) ++
            B " observed=" ++ AttributeValue_Render (ad_observed delta)) explanation)
    else explain_deltas rest observe_only actionable explanation
  end.

(** Models [ReconciliationEngine::BuildPlanLocked], src/engine.cpp:597-679: the switch over the
    drift class. *)
Definition propose (policy : ReconciliationPolicy) (record : DriftRecord)
    (explanation : Explanation) : Proposal :=
  match dr_drift record with
  | DC_AlreadyConverged =>
    mkProposal ACT_None DD_AlreadySatisfied (dr_reason record) explanation
  | DC_Missing =>
    if negb (permit_apply_missing policy) then
      mkProposal ACT_None DD_Blocked RC_PolicyForbidsApplyMissing
        (explain RC_PolicyForbidsApplyMissing explanation)
    else mkProposal ACT_ApplyDesired DD_Actionable (dr_reason record)
           (explain RC_ActionEligible explanation)
  | DC_Unexpected =>
    if negb (permit_withdraw_unexpected policy) then
      mkProposal ACT_None DD_Blocked RC_PolicyForbidsWithdrawUnexpected
        (explain RC_PolicyForbidsWithdrawUnexpected explanation)
    else mkProposal ACT_WithdrawSubject DD_Actionable (dr_reason record)
           (explain RC_ActionEligible explanation)
  | DC_Mismatched =>
    let '(observe_only, actionable, explanation) :=
      explain_deltas (dr_deltas record) false false explanation in
    if negb (permit_apply_mismatched policy) then
      mkProposal ACT_None DD_Blocked RC_PolicyForbidsApplyMismatch
        (explain RC_PolicyForbidsApplyMismatch explanation)
    else if actionable && negb observe_only then
      mkProposal ACT_ApplyDesired DD_Actionable (dr_reason record)
        (explain RC_ActionEligible explanation)
    else if observe_only then
      mkProposal ACT_None DD_Blocked RC_PolicyForbidsApplyMismatch explanation
    else mkProposal ACT_None DD_AlreadySatisfied RC_ClassifiedAlreadyConverged explanation
  | DC_StaleObservation | DC_StaleIntent | DC_Unknown | DC_Invalid =>
    mkProposal ACT_None DD_Indeterminate (dr_reason record)
      (explain RC_DriftIsIndeterminate explanation)
  | DC_Conflict =>
    mkProposal ACT_None DD_Conflicted (dr_reason record) (explain RC_DriftIsConflicted explanation)
  | DC_Unsupported =>
    mkProposal ACT_None DD_Unsupported (dr_reason record)
      (explain RC_SubjectKindUnsupported explanation)
  end.

(** What the decisions of one plan share. *)
Record PlanContext := mkContext {
  px_limits : RuntimeLimits;
  px_policy : ReconciliationPolicy;
  px_authority : AuthorityVector;
  px_live : LiveAuthority;
  px_freshness : FreshnessVerdict;
  px_fences : list (bytes * FenceEntry);
  px_epoch : Z;
  px_intent : option IntentDocument;
  px_observation : option ObservationDocument
}.

Section Decide.
Variable context : PlanContext.

Definition freshness_ok : bool := bool_decide (px_freshness context = FV_Fresh).

(** The state the committed intent desires for a subject. *)
Definition desired_state (subject : bytes) : SubjectState :=
  match px_intent context with
  | None => []
  | Some intent =>
    match om_find subject (in_subjects intent) with
    | Some declared => si_desired declared
    | None => []
    end
  end.

(** The state the current observation reports for a subject. *)
Definition observed_state (subject : bytes) : SubjectState :=
  match px_observation context with
  | None => []
  | Some observation =>
    match om_find subject (ob_subjects observation) with
    | Some seen => so_observed seen
    | None => []
    end
  end.

Definition fence_holds (record : DriftRecord) : bool :=
  FenceHoldsFor (px_fences context) (dr_scope record) (dr_subject record) (px_epoch context).

Definition assess (record : DriftRecord) : AuthorityAssessment :=
  AssessAuthority (px_authority context) (px_live context) (ReasonOf (px_freshness context))
    freshness_ok (fence_holds record).

(** Models [ReconciliationEngine::BuildPlanLocked], src/engine.cpp:564-693: the decision on one
    record; the flag says that authority took an action away. *)
Definition decide_record (record : DriftRecord) : Decision * bool :=
  let assessment := assess record in
  let explanation :=
    explain (dr_reason record)
      (Explanation_bounded (max_explanation_steps (px_limits context))) in
  let explanation :=
    if as_proven assessment then explain RC_AuthorityProven explanation
    else Explanation_Add (as_reason assessment)
           (RenderAuthorityMask (as_failed_components assessment)) explanation in
  let proposal := propose (px_policy context) record explanation in
  let revoked :=
    bool_decide (pp_disposition proposal = DD_Actionable) && negb (as_proven assessment) in
  let '(action, disposition, reason) :=
    if revoked then
      (ACT_None, if fence_holds record then DD_Fenced else DD_Blocked, as_reason assessment)
    else (pp_action proposal, pp_disposition proposal, pp_reason proposal) in
  (mkDecision (dr_scope record) (dr_subject record) (dr_drift record) reason action disposition
     (px_authority context)
     (ComputeIdempotencyKey (dr_scope record) (dr_subject record) action (px_authority context)
        (desired_state (dr_subject record)) (observed_state (dr_subject record)))
     (pp_explanation proposal) (dr_evidence record), revoked).

(** Models [ReconciliationEngine::BuildPlanLocked], src/engine.cpp:558-693: the loop over the
    records, bounded by [max_plan_actions]; returns the decisions, how many were revoked, and
    whether records were left out. *)
Fixpoint decide_records (records : list DriftRecord) (decisions : list Decision) (revoked : Z)
  : list Decision * Z * bool :=
  match records with
  | [] => (decisions, revoked, false)
  | record :: rest =>
    if max_plan_actions (px_limits context) <=? blen decisions then (decisions, revoked, true)
    else
      let '(decision, taken) := decide_record record in
      decide_records rest (decisions ++ [decision]) (revoked + if taken then 1 else 0)
  end.
End Decide.

(** ** The verdict *)

Definition has_disposition (accepts : DecisionDisposition -> bool) (decisions : list Decision)
  : bool := existsb (fun d => accepts (de_disposition d)) decisions.

(** Models [any_indeterminate], src/engine.cpp:696-709. *)
Definition any_indeterminate (decisions : list Decision) : bool :=
  has_disposition (fun d =>
    match d with
    | DD_Indeterminate | DD_Conflicted | DD_Unsupported | DD_Invalid => true
    | _ => false
    end) decisions.

(** Models [any_actionable], src/engine.cpp:710-717. *)
Definition any_actionable (decisions : list Decision) : bool :=
  has_disposition (fun d => bool_decide (d = DD_Actionable)) decisions.

(** Models [any_blocked], src/engine.cpp:718-726. *)
Definition any_blocked (decisions : list Decision) : bool :=
  has_disposition (fun d => bool_decide (d = DD_Blocked) || bool_decide (d = DD_Fenced)) decisions.

Definition count_of (value : DecisionDisposition) (decisions : list Decision) : Z :=
  blen (List.filter (fun d => bool_decide (de_disposition d = value)) decisions).

(** Models [ReconciliationEngine::BuildPlanLocked], src/engine.cpp:728-768: the verdict, its
    reason, and the step added to the scope's explanation. *)
Definition plan_verdict (limits : RuntimeLimits) (evidence : ScopeEvidenceRef)
    (decisions : list Decision) (truncated : bool)
  : ConvergenceVerdict * Z * ExplanationStep :=
  let freshness_reason := ReasonOf (ev_freshness evidence) in
  if truncated then
    (CV_SearchLimitReached, RC_PlanTruncated,
     mkStep RC_PlanActionLimitReached (B "decisions bounded at " ++
                                       to_string (max_plan_actions limits)))
  else if negb (ev_has_intent evidence) then
    (CV_Indeterminate, RC_NoIntentForScope, mkStep RC_NoIntentForScope [])
  else if negb (ev_has_observation evidence) then
    (CV_Indeterminate, RC_NoObservationForScope, mkStep RC_NoObservationForScope [])
  else if negb (bool_decide (ev_freshness evidence = FV_Fresh)) then
    (CV_Indeterminate, freshness_reason,
     mkStep freshness_reason (FreshnessVerdict_ToText (ev_freshness evidence)))
  else if any_indeterminate decisions then
    (CV_Indeterminate, RC_DriftIsIndeterminate,
     mkStep RC_DriftIsIndeterminate (to_string (count_of DD_Indeterminate decisions) ++
                                     B " indeterminate subjects"))
  else if any_actionable decisions then
    (CV_ConvergenceRequired, RC_ActionEligible,
     mkStep RC_ActionEligible (to_string (count_of DD_Actionable decisions) ++
                               B " actions required"))
  else if any_blocked decisions then
    (CV_ProvenBlocked, RC_DriftIsConflicted,
     mkStep RC_DriftIsConflicted (B "no legal plan reaches the intent under the active policy"))
  else
    (CV_ConvergedProven, RC_ClassifiedAlreadyConverged,
     mkStep RC_ClassifiedAlreadyConverged (to_string (blen decisions) ++
                                           B " subjects proven equal")).

(** ** The plan *)

Definition plan_context (e : Engine) (scope : bytes) (policy : ReconciliationPolicy)
    (evidence : ScopeEvidenceRef) : PlanContext :=
  mkContext (en_limits e) policy (BuildAuthority e evidence)
    (mkLive (en_live_epoch e) (en_live_boot e) (po_id policy) (po_version policy)
       (ComputePolicyDigest policy))
    (ev_freshness evidence) (ds_fences (en_state e)) (en_live_epoch e)
    (om_find scope (ds_intents (en_state e)))
    (sel_selected (SelectCurrentObservation (scope_observations e scope))).

(** Models [ReconciliationEngine::BuildPlanLocked], src/engine.cpp:517-772: the plan of a report,
    and how many of its decisions were revoked. *)
Definition make_plan (e : Engine) (scope : bytes) (policy : ReconciliationPolicy)
    (report : ClassificationReport) : ReconciliationPlan * Z :=
  let evidence := cr_evidence report in
  let '(decisions, revoked, truncated) :=
    decide_records (plan_context e scope policy evidence) (cr_records report) [] 0 in
  let '(verdict, reason, step) := plan_verdict (en_limits e) evidence decisions truncated in
  (Seal (mkPlan scope (ev_definition evidence) (en_live_epoch e) (en_live_boot e) (po_id policy)
           (po_version policy) (ComputePolicyDigest policy) (ev_intent_generation evidence)
           (ev_intent evidence) (ev_intent_digest evidence) (ev_observation evidence)
           (ev_observation_generation evidence) (ev_reporter evidence)
           (ev_observation_digest evidence) (ev_received_epoch evidence)
           (ev_received_unix_ms evidence) (ev_freshness evidence) verdict (ev_evidence evidence)
           truncated decisions
           (Explanation_Add (xs_code step) (xs_detail step)
              (Explanation_bounded (max_explanation_steps (en_limits e))))
           reason zero_digest []), revoked).

(** Models [ReconciliationEngine::BuildPlanLocked], src/engine.cpp:473-775. *)
Definition BuildPlanLocked (host : Host) (request : PlanRequest) : Op ReconciliationPlan :=
  _ ← refuse_if (is_empty (pr_scope request))
        (mkStatus SC_Rejected RC_UnsupportedInput (B "plan requires a scope"));
  e ← get;
  _ ← refuse_if (negb (ds_has_policy (en_state e))) no_policy;
  let policy := default (ds_policy (en_state e)) (pr_policy request) in
  let now := if pr_now_unix_ms request =? 0 then ho_now host else pr_now_unix_ms request in
  report ← classify_counted (classification_input e (pr_scope request) policy now);
  let '(plan, revoked) := make_plan e (pr_scope request) policy report in
  _ ← count_stat ST_fenced_decisions revoked;
  _ ← count_stat ST_plans_built 1;
  mret plan.

(** Models [ReconciliationEngine::Plan], src/engine.cpp:463-471. *)
Definition Engine_Plan (host : Host) (request : PlanRequest) : Op ReconciliationPlan :=
  BuildPlanLocked host request.

(** ** Facts on plans *)

Section DecideFacts.
Variable context : PlanContext.

Definition decision_of (record : DriftRecord) : Decision := (decide_record context record).1.

(** How many more decisions the bound leaves room for. *)
Definition plan_room (decisions : list Decision) : nat :=
  Z.to_nat (max_plan_actions (px_limits context) - blen decisions).

(** The loop decides the records in order until the bound is met. *)
Lemma decide_records_spec records : forall decisions revoked,
  let '(decided, _, truncated) := decide_records context records decisions revoked in
  decided = decisions ++ map decision_of (take (plan_room decisions) records) /\
  truncated = bool_decide (plan_room decisions < length records)%nat.
Proof.
  induction records as [|record records IH]; intros decisions revoked; cbn [decide_records].
  - rewrite take_nil, app_nil_r. split; [done|]. symmetry. apply bool_decide_eq_false. cbn. lia.
  - destruct (Z.leb_spec (max_plan_actions (px_limits context)) (blen decisions)) as [Hle|Hgt].
    + assert (plan_room decisions = 0%nat) as -> by (unfold plan_room; lia).
      cbn [take map]. rewrite app_nil_r. split; [done|].
      symmetry. apply bool_decide_eq_true. cbn. lia.
    + destruct (decide_record context record) as [decision taken] eqn:Ed.
      specialize (IH (decisions ++ [decision]) (revoked + if taken then 1 else 0)).
      destruct (decide_records _ _ _ _) as [[decided r'] truncated]. destruct IH as [-> ->].
      assert (plan_room decisions = S (plan_room (decisions ++ [decision]))) as Hroom
        by (unfold plan_room; rewrite blen_app, blen_cons, blen_nil; lia).
      rewrite Hroom. cbn [take map length]. rewrite <- app_assoc.
      unfold decision_of at 2. rewrite Ed. split; [done|].
      apply bool_decide_ext. lia.
Qed.

(** What the switch over the drift class lets through. *)
Definition licensed (policy : ReconciliationPolicy) (drift : DriftClass) (action : ActionKind)
  : Prop :=
  match drift with
  | DC_Missing => permit_apply_missing policy = true /\ action = ACT_ApplyDesired
  | DC_Unexpected => permit_withdraw_unexpected policy = true /\ action = ACT_WithdrawSubject
  | DC_Mismatched => permit_apply_mismatched policy = true /\ action = ACT_ApplyDesired
  | _ => False
  end.

Lemma propose_actionable policy record explanation :
  pp_disposition (propose policy record explanation) = DD_Actionable ->
  licensed policy (dr_drift record) (pp_action (propose policy record explanation)).
Proof.
  unfold propose, licensed. destruct (dr_drift record); cbn; try done.
  - destruct (permit_apply_missing policy); cbn; done.
  - destruct (permit_withdraw_unexpected policy); cbn; done.
  - destruct (explain_deltas _ _ _ _) as [[oo ac] ex].
    destruct (permit_apply_mismatched policy); cbn; [|done]. by destruct (ac && negb oo), oo.
Qed.

Lemma propose_satisfied policy record explanation :
  pp_disposition (propose policy record explanation) = DD_AlreadySatisfied ->
  dr_drift record = DC_AlreadyConverged \/
  dr_drift record = DC_Mismatched /\ HasActionableDelta (dr_deltas record) = false.
Proof.
  unfold propose. destruct (dr_drift record); cbn; try done; try (by destruct (negb _)); [by left|].
  destruct (explain_deltas _ _ _ _) as [[oo ac] ex] eqn:E. intros H. right. split; [done|].
  assert (forall deltas oo0 ac0 ex0 oo ac ex, explain_deltas deltas oo0 ac0 ex0 = (oo, ac, ex) ->
    (oo0 = true -> oo = true) /\ (ac0 = true -> ac = true) /\
    (oo = false -> ac = false -> HasActionableDelta deltas = false)) as Hd.
  { clear. induction deltas as [|d deltas IH]; intros oo0 ac0 ex0 oo ac ex; cbn [explain_deltas].
    - intros [= -> -> ->]. done.
    - unfold HasActionableDelta. cbn [existsb]. fold (HasActionableDelta deltas).
      destruct (bool_decide_reflect (ad_kind d = DK_ObserveOnly)) as [Ho|Ho].
      { intros Hx. apply IH in Hx as (H1 & H2 & _). rewrite H1 by done. naive_solver. }
      destruct (bool_decide_reflect (ad_kind d = DK_Unmanaged)) as [Hu|Hu]; cbn [negb orb].
      { intros Hx. apply IH in Hx. tauto. }
      { intros Hx. apply IH in Hx as (H1 & H2 & _). rewrite H2 by done. naive_solver. } }
  apply Hd in E as (_ & _ & E). destruct (negb (permit_apply_mismatched policy)); [done|].
  destruct oo; [|by destruct ac; cbn in H; [done|apply E]].
  by destruct ac.
Qed.

(** An actionable decision passed every gate. *)
Lemma decide_actionable record :
  de_disposition (decision_of record) = DD_Actionable ->
  as_proven (assess context record) = true /\
  licensed (px_policy context) (dr_drift record) (de_action (decision_of record)).
Proof.
  unfold decision_of, decide_record. cbv zeta. set (p := propose _ _ _).
  destruct (bool_decide_reflect (pp_disposition p = DD_Actionable)) as [Ha|Ha];
    destruct (as_proven (assess context record)); cbn [andb negb fst de_disposition de_action].
  - intros _. split; [done|]. by apply propose_actionable.
  - by destruct (fence_holds context record).
  - done.
  - done.
Qed.

Lemma decide_satisfied record :
  de_disposition (decision_of record) = DD_AlreadySatisfied ->
  dr_drift record = DC_AlreadyConverged \/
  dr_drift record = DC_Mismatched /\ HasActionableDelta (dr_deltas record) = false.
Proof.
  unfold decision_of, decide_record. cbv zeta. set (p := propose _ _ _).
  destruct (bool_decide_reflect (pp_disposition p = DD_Actionable)) as [Ha|Ha];
    destruct (as_proven (assess context record)); cbn [andb negb fst de_disposition].
  - by rewrite Ha.
  - by destruct (fence_holds context record).
  - apply propose_satisfied.
  - apply propose_satisfied.
Qed.

(** No action without the disposition that licenses it. *)
Lemma decide_action_iff record :
  de_action (decision_of record) <> ACT_None <->
  de_disposition (decision_of record) = DD_Actionable.
Proof.
  assert (forall policy explanation,
    pp_action (propose policy record explanation) <> ACT_None <->
    pp_disposition (propose policy record explanation) = DD_Actionable) as Hp.
  { intros policy explanation. unfold propose. destruct (dr_drift record); cbn; try done;
      try (by destruct (negb _)).
    destruct (explain_deltas _ _ _ _) as [[oo ac] ex].
    destruct (negb _); [done|]. by destruct ac, oo. }
  unfold decision_of, decide_record. cbv zeta.
  match goal with |- context [propose ?p record ?ex] => specialize (Hp p ex); set (q := propose p record ex) in * end.
  destruct (bool_decide_reflect (pp_disposition q = DD_Actionable)) as [Ha|Ha];
    destruct (as_proven (assess context record)); cbn [andb negb fst de_disposition de_action]; try done.
  by destruct (fence_holds context record).
Qed.
End DecideFacts.

Lemma take_min_length {A} n (l : list A) : take (n `min` length l) l = take n l.
Proof. revert n. induction l as [|a l IH]; intros [|n]; cbn; [done..|]. by rewrite IH. Qed.

(** *** A plan that was built *)

Definition request_policy (e : Engine) (request : PlanRequest) : ReconciliationPolicy :=
  default (ds_policy (en_state e)) (pr_policy request).
Definition request_now (host : Host) (request : PlanRequest) : Z :=
  if pr_now_unix_ms request =? 0 then ho_now host else pr_now_unix_ms request.

Lemma Engine_Plan_inv host request e plan e' :
  Engine_Plan host request e = (Value plan, e') ->
  exists report,
    ClassifyScope (classification_input e (pr_scope request) (request_policy e request)
                     (request_now host request)) = Value report /\
    plan = (make_plan e (pr_scope request) (request_policy e request) report).1 /\
    en_state e' = en_state e.
Proof.
  unfold Engine_Plan, BuildPlanLocked. intros H. do 3 op_step H. cbv zeta in H. op_step H.
  fold (request_policy e request) (request_now host request) in *.
  unfold classify_counted in Hop. destruct (ClassifyScope _) as [report|] eqn:Hc; [|done].
  repeat op_step Hop. exists report. split; [done|].
  destruct (make_plan _ _ _ _) as [plan0 revoked]. by repeat op_step H.
Qed.

Lemma make_plan_decisions e scope policy report :
  let plan := (make_plan e scope policy report).1 in
  let context := plan_context e scope policy (cr_evidence report) in
  pl_decisions plan =
    map (decision_of context) (take (Z.to_nat (max_plan_actions (en_limits e))) (cr_records report)) /\
  pl_truncated plan =
    bool_decide (Z.to_nat (max_plan_actions (en_limits e)) < length (cr_records report))%nat /\
  pl_freshness plan = ev_freshness (cr_evidence report) /\
  pl_verdict plan = (plan_verdict (en_limits e) (cr_evidence report) (pl_decisions plan)
                       (pl_truncated plan)).1.1.
Proof.
  cbv zeta. unfold make_plan.
  pose proof (decide_records_spec (plan_context e scope policy (cr_evidence report))
    (cr_records report) [] 0) as H.
  destruct (decide_records _ _ _ _) as [[decided revoked] truncated]. destruct H as [-> ->].
  destruct (plan_verdict _ _ _ _) as [[verdict reason] step] eqn:Ev.
  cbn [fst snd Seal pl_decisions pl_truncated pl_freshness pl_verdict].
  assert (plan_room (plan_context e scope policy (cr_evidence report)) [] =
          Z.to_nat (max_plan_actions (en_limits e))) as Hroom.
  { unfold plan_room. cbn [px_limits plan_context]. f_equal. change (blen []) with 0. lia. }
  rewrite Hroom in *. cbn [app] in *. by rewrite Ev.
Qed.

Lemma decision_record e scope policy report d :
  d ∈ pl_decisions (make_plan e scope policy report).1 ->
  exists r, r ∈ cr_records report /\
    d = decision_of (plan_context e scope policy (cr_evidence report)) r.
Proof.
  destruct (make_plan_decisions e scope policy report) as (-> & _). intros Hd.
  apply list_elem_of_In, in_map_iff in Hd as (r & <- & Hr). exists r. split; [|done].
  rewrite <- (take_drop (Z.to_nat (max_plan_actions (en_limits e))) (cr_records report)).
  apply elem_of_app. left. by apply list_elem_of_In.
Qed.

Lemma decision_fields context r :
  de_scope (decision_of context r) = dr_scope r /\
  de_subject (decision_of context r) = dr_subject r /\
  de_drift (decision_of context r) = dr_drift r /\
  de_authority (decision_of context r) = px_authority context.
Proof. unfold decision_of, decide_record. cbv zeta. by destruct (bool_decide _ && _). Qed.

Lemma scope_intents_elem e scope d :
  Some d ∈ scope_intents e scope -> om_find scope (ds_intents (en_state e)) = Some d.
Proof.
  unfold scope_intents. destruct (om_find _ _); [|by intros ?%elem_of_nil].
  intros H%list_elem_of_singleton. congruence.
Qed.

Lemma scope_observations_elem e scope d :
  Some d ∈ scope_observations e scope -> d ∈ ObservationEvidence e scope.
Proof.
  unfold scope_observations. rewrite list_elem_of_In, in_map_iff. intros (d' & [= ->] & H).
  by apply list_elem_of_In.
Qed.

(** The report of a plan rests on the selected documents of the engine's own state. *)
Lemma compared_documents e scope policy now report policy' intent observation :
  compared (classification_input e scope policy now) report policy' intent observation ->
  policy' = policy /\ om_find scope (ds_intents (en_state e)) = Some intent /\
  observation ∈ ObservationEvidence e scope /\
  EvaluateFreshness observation (freshness policy) (en_live_epoch e) now = FV_Fresh.
Proof.
  intros (Hp & Hi & Ho & _ & Hf & _). cbn [ci_policy classification_input] in Hp.
  injection Hp as <-. apply selected_intent_elem, scope_intents_elem in Hi.
  by apply selected_observation_elem, scope_observations_elem in Ho.
Qed.

(** A drift class an action answers comes from a report that compares. *)
Lemma actionable_compared input report r action policy0 :
  ClassifyScope input = Value report -> r ∈ cr_records report ->
  licensed policy0 (dr_drift r) action ->
  exists policy intent observation, compared input report policy intent observation.
Proof.
  intros Hc Hr Hl. apply ClassifyScope_inv in Hc as [_ [(drift & reason & over & Hd & Hrec & _)|Hcmp]];
    [|done].
  exfalso. rewrite Hrec in Hr. apply list_elem_of_In, in_map_iff in Hr as (s & <- & _).
  cbn in Hl. by repeat (apply elem_of_cons in Hd as [->|Hd]; [done|]); apply elem_of_nil in Hd.
Qed.

(** Evidence of both documents, the observation fresh, is evidence that they were compared. *)
Lemma report_documents e scope policy now report :
  ClassifyScope (classification_input e scope policy now) = Value report ->
  ev_has_intent (cr_evidence report) = true -> ev_has_observation (cr_evidence report) = true ->
  ev_freshness (cr_evidence report) = FV_Fresh ->
  exists intent observation,
    compared (classification_input e scope policy now) report policy intent observation.
Proof.
  set (input := classification_input e scope policy now). intros Hc.
  rewrite (ClassifyScope_evidence input policy report eq_refl Hc).
  destruct (selected_intent input) as [intent|] eqn:Hi, (selected_observation input) as [observation|] eqn:Ho;
    try done.
  intros _ _ Hf. exists intent, observation. eapply ClassifyScope_compares; try done.
  intros _. apply selected_intent_elem, scope_intents_elem in Hi.
  cbn [input classification_input ci_committed_intent_generation]. by rewrite Hi.
Qed.

(** When every decision of a comparing report is satisfied, the documents agree. *)
Lemma satisfied_subject context input report policy intent observation subject :
  input_ordered input = true -> compared input report policy intent observation ->
  Forall (fun r => de_disposition (decision_of context r) = DD_AlreadySatisfied)
    (cr_records report) ->
  match om_find subject (in_subjects intent), om_find subject (ob_subjects observation) with
  | Some declared, Some seen => forall key, IsAttributeUnmanaged policy key = false ->
      om_find key (si_desired declared) = om_find key (so_observed seen)
  | None, None => True
  | _, _ => False
  end.
Proof.
  intros Hord Hcmp Hall. destruct (compared_ordered _ _ _ _ _ Hord Hcmp) as (Hsi & Hso & Hai & Hao).
  pose proof (compared_record _ _ _ _ _ subject Hsi Hso Hcmp) as Hex.
  rewrite Forall_forall in Hall.
  assert (forall r, r ∈ cr_records report ->
    subject_record (ci_scope input) policy (ev_evidence (cr_evidence report)) intent observation
      subject = Some r -> dr_drift r = DC_AlreadyConverged) as Hconv.
  { intros r Hr Hsr. destruct (decide_satisfied context r (Hall r Hr)) as [H|[H Hd]]; [done|].
    exfalso. revert Hsr H Hd. unfold subject_record, classify_left, classify_right, classify_walk.
    destruct (om_find _ _), (om_find _ _); try done; intros [= <-]; repeat split_case;
      cbn [with_deltas MakeRecord dr_drift dr_deltas]; try done; intros _; bool_hyps; congruence. }
  destruct (om_find subject (in_subjects intent)) as [declared|] eqn:Ei,
    (om_find subject (ob_subjects observation)) as [seen|] eqn:Eo; try done;
    destruct Hex as (r & Hr & Hsr); try (by eauto);
    pose proof (Hconv r Hr Hsr) as Hd;
    pose proof (subject_record_subject _ _ _ _ _ _ _ Hsr) as (Hsub & _);
    pose proof (subject_record_decisive _ _ _ _ _ _ _ Hai Hao Hsr) as Hdec; unfold decisive in Hdec;
    rewrite Hd, Hsub in Hdec; destruct Hdec as (declared' & seen' & E1 & E2 & Heq & _); try congruence.
  assert (declared' = declared) as -> by congruence. by assert (seen' = seen) as -> by congruence.
Qed.

(** *** The verdict *)

Lemma verdict_converged limits evidence decisions truncated :
  (plan_verdict limits evidence decisions truncated).1.1 = CV_ConvergedProven <->
  truncated = false /\ ev_has_intent evidence = true /\ ev_has_observation evidence = true /\
  ev_freshness evidence = FV_Fresh /\
  Forall (fun d => de_disposition d = DD_AlreadySatisfied) decisions.
Proof.
  assert (any_indeterminate decisions = false /\ any_actionable decisions = false /\
          any_blocked decisions = false <->
          Forall (fun d => de_disposition d = DD_AlreadySatisfied) decisions) as Hall.
  { unfold any_indeterminate, any_actionable, any_blocked, has_disposition.
    induction decisions as [|d decisions IH]; cbn [existsb]; [split; auto|].
    rewrite Forall_cons, <- IH, !orb_false_iff. destruct (de_disposition d); cbn; naive_solver. }
  rewrite <- Hall. unfold plan_verdict.
  destruct truncated; cbn; [naive_solver|]. destruct (ev_has_intent evidence); cbn; [|naive_solver].
  destruct (ev_has_observation evidence); cbn; [|naive_solver].
  destruct (bool_decide_reflect (ev_freshness evidence = FV_Fresh)) as [->|]; cbn; [|naive_solver].
  destruct (any_indeterminate decisions), (any_actionable decisions), (any_blocked decisions);
    cbn; naive_solver.
Qed.

Lemma verdict_truncated limits evidence decisions truncated :
  truncated = true <->
  (plan_verdict limits evidence decisions truncated).1.1 = CV_SearchLimitReached.
Proof.
  unfold plan_verdict. destruct truncated; cbn; [done|]. by repeat split_case.
Qed.

(** The plan of the example scope: one port converged, one missing. *)
Definition example_request : PlanRequest := mkPlanRequest (B "fabric/rack-7") None 0 false.

Definition no_plan : ReconciliationPlan :=
  (make_plan unbooted [] empty_policy
     (mkReport [] (scope_evidence (classification_input unbooted [] empty_policy 0) empty_policy None
                     None) [] 0 0)).1.

Definition plan_of (r : Result ReconciliationPlan * Engine) : ReconciliationPlan :=
  match r.1 with Value plan => plan | Failed _ => no_plan end.

Definition example_plan : ReconciliationPlan := Eval vm_compute in
  plan_of (Engine_Plan (good_host 1700000000040) example_request example_engine2).
Definition example_engine3 : Engine := Eval vm_compute in
  (Engine_Plan (good_host 1700000000040) example_request example_engine2).2.
Definition example_decision : Decision := Eval vm_compute in
  default (decision_of (plan_context unbooted [] empty_policy
    (scope_evidence (classification_input unbooted [] empty_policy 0) empty_policy None None))
    example_missing) (last (pl_decisions example_plan)).

Lemma example_plan_built :
  Engine_Plan (good_host 1700000000040) example_request example_engine2 =
  (Value example_plan, example_engine3).
Proof. vm_compute. reflexivity. Qed.

(** ** Properties *)

(** C7. Mutation intent is minted only from proven authority: a decision of a plan is
    actionable only when the active policy is the one the plan was made under and permits
    that action for that drift class, no fence covers the subject, and the decision's
    authority names this incarnation and the committed intent and a fresh observation the
    engine holds for the scope; and planning leaves the durable state untouched. *)
Theorem actionable_is_proven host request e plan e' d :
  Engine_Plan host request e = (Value plan, e') -> d ∈ pl_decisions plan ->
  de_disposition d = DD_Actionable ->
  let policy := request_policy e request in
  let authority := de_authority d in
  en_state e' = en_state e /\ pl_freshness plan = FV_Fresh /\
  ComputePolicyDigest policy = ComputePolicyDigest (ds_policy (en_state e)) /\
  licensed policy (de_drift d) (de_action d) /\
  FenceHoldsFor (ds_fences (en_state e)) (de_scope d) (de_subject d) (en_live_epoch e) = false /\
  av_coordinator_epoch authority = en_live_epoch e /\ av_boot authority = en_live_boot e /\
  exists intent observation,
    om_find (pr_scope request) (ds_intents (en_state e)) = Some intent /\
    observation ∈ ObservationEvidence e (pr_scope request) /\
    EvaluateFreshness observation (freshness policy) (en_live_epoch e) (request_now host request)
      = FV_Fresh /\
    ob_received_epoch observation = en_live_epoch e /\
    av_intent_generation authority = in_generation intent /\
    av_intent_digest authority = in_digest intent /\
    av_observation authority = ob_observation observation /\
    av_observation_generation authority = ob_generation observation /\
    av_observation_digest authority = ob_digest observation.
Proof.
  intros Hp Hd Ha policy authority. apply Engine_Plan_inv in Hp as (report & Hc & -> & Hst).
  destruct (make_plan_decisions e (pr_scope request) policy report) as (_ & _ & Hfr & _).
  apply decision_record in Hd as (r & Hr & Hdr). fold policy in Hc, Hdr.
  destruct (decision_fields (plan_context e (pr_scope request) policy (cr_evidence report)) r)
    as (Hf1 & Hf2 & Hf3 & Hf4). rewrite <- Hdr in Hf1, Hf2, Hf3, Hf4.
  rewrite Hdr in Ha. apply decide_actionable in Ha as [Hproven Hlic]. rewrite <- Hdr in Hlic.
  apply AssessAuthority_proven in Hproven
    as (P1 & P2 & _ & _ & _ & P6 & _ & _ & _ & _ & _ & _ & P13 & P14 & P15).
  unfold freshness_ok in P14. bool_hyps. subst authority. rewrite Hf4, Hf3, Hf2, Hf1.
  cbn [px_authority plan_context BuildAuthority av_coordinator_epoch av_boot av_intent_generation
       av_intent_digest av_observation av_observation_generation av_observation_digest
       px_freshness px_policy lv_policy_digest px_live av_policy_digest av_observation_epoch
       lv_coordinator_epoch] in *.
  destruct (actionable_compared _ _ _ _ _ Hc Hr Hlic) as (policy' & intent & observation & Hcmp).
  pose proof (compared_documents _ _ _ _ _ _ _ _ Hcmp) as (-> & Hi & Ho & Hfresh).
  destruct Hcmp as (_ & Hsi & Hso & _).
  pose proof (ClassifyScope_evidence (classification_input e (pr_scope request) policy
    (request_now host request)) policy report eq_refl Hc) as Hev.
  rewrite Hsi, Hso in Hev. rewrite Hev in P13. cbn in P13.
  repeat split; try done; [by fold policy; rewrite Hfr|].
  exists intent, observation. rewrite Hev. cbn. repeat split; done.
Qed.

Lemma actionable_is_proven_witness :
  de_disposition example_decision = DD_Actionable /\
  licensed DefaultPolicy (de_drift example_decision) (de_action example_decision) /\
  FenceHoldsFor [] (de_scope example_decision) (de_subject example_decision) 1 = false.
Proof.
  assert (de_disposition example_decision = DD_Actionable) as Hd by (vm_compute; reflexivity).
  destruct (actionable_is_proven (good_host 1700000000040) example_request example_engine2
    example_plan example_engine3 example_decision example_plan_built) as (_ & _ & _ & Hl & Hf & _).
  - apply list_elem_of_lookup. exists 1%nat. vm_compute. reflexivity.
  - exact Hd.
  - split; [exact Hd|]. split; [exact Hl|exact Hf].
Defined.


Definition example_plan_both : ReconciliationPlan := Eval vm_compute in
  plan_of (Engine_Plan (good_host 1700000000040) example_request example_engine_both).


(** The verdict does not rest on complete documents: here the only observation says of itself that
    it is incomplete, and the verdict is given although the policy asks for complete coverage. *)
Definition example_submission_partial : ObservationSubmission :=
  mkSubmission (B "obs-2") (B "fabric/rack-7") (B "agent/b") 10 EC_Real false false (su_subjects example_submission_both).
Definition example_engine_partial : Engine := Eval vm_compute in
  (RecordObservation (good_host 1700000000030) example_submission_partial example_engine1).2.

Theorem converged_without_coverage :
  pl_verdict (plan_of (Engine_Plan (good_host 1700000000040) example_request example_engine_partial)) = CV_ConvergedProven /\
  map ob_complete (ObservationEvidence example_engine_partial (B "fabric/rack-7")) = [false] /\
  require_complete_coverage_for_convergence_proof (request_policy example_engine_partial example_request) = true.
Proof. split_and!; vm_compute; reflexivity. Qed.

(** C28. A plan is bounded and says so: it holds one decision per drift record, in the
    classifier's subject order, up to [max_plan_actions]; it is marked truncated exactly when
    records were left out, and then its verdict is [SEARCH_LIMIT_REACHED] and nothing else. *)
Theorem plan_is_bounded host request e plan e' :
  0 <= max_plan_actions (en_limits e) -> Engine_Plan host request e = (Value plan, e') ->
  exists report,
    ClassifyScope (classification_input e (pr_scope request) (request_policy e request)
                     (request_now host request)) = Value report /\
    blen (pl_decisions plan) <= max_plan_actions (en_limits e) /\
    map de_subject (pl_decisions plan) =
      take (length (pl_decisions plan)) (map dr_subject (cr_records report)) /\
    (pl_truncated plan = true <-> max_plan_actions (en_limits e) < blen (cr_records report)) /\
    (pl_truncated plan = true <-> pl_verdict plan = CV_SearchLimitReached) /\
    (pl_truncated plan = false -> length (pl_decisions plan) = length (cr_records report)).
Proof.
  intros Hb Hp. apply Engine_Plan_inv in Hp as (report & Hc & -> & _). exists report.
  destruct (make_plan_decisions e (pr_scope request) (request_policy e request) report)
    as (-> & Ht & _ & ->).
  rewrite Ht. split; [done|]. split; [|split; [|split; [|split]]].
  - unfold blen. rewrite length_map, length_take. lia.
  - rewrite length_map, length_take, map_map, <- firstn_map.
    rewrite (map_ext _ dr_subject) by (intros r; apply decision_fields).
    rewrite <- (length_map dr_subject). by rewrite take_min_length.
  - rewrite bool_decide_eq_true. unfold blen. lia.
  - apply verdict_truncated.
  - intros H. bool_hyps. rewrite length_map, length_take. lia.
Qed.

Lemma plan_is_bounded_witness :
  blen (pl_decisions example_plan) <= max_plan_actions (en_limits example_engine2) /\
  pl_truncated example_plan = false.
Proof.
  destruct (plan_is_bounded (good_host 1700000000040) example_request example_engine2 example_plan
    example_engine3) as (report & _ & Hb & _).
  - vm_compute. discriminate.
  - exact example_plan_built.
  - split; [exact Hb|]. vm_compute. reflexivity.
Defined.
