(* ===== verification/Lifecycle.v ===== *)
(** * Dispatch, completion, verification and fences (engine.cpp, Dispatch to ClearFence) *)

From Stdlib Require Import ZArith Lia.
From stdpp Require Import prelude.
From S2P Require Import Prelude OrdMap Hash Status Identity Canonical Value Policy Document Drift.
From S2P Require Import Authority Plan Lineage Journal Snapshot StoreState Store Engine Planner.
Local Open Scope Z_scope.

(** ** Dispatch *)

(** Models [DispatchResult], include/summon/fabric_reconciliation/engine.hpp:100-105. *)
Record DispatchResult := mkDispatch {
  di_intents : list ActionIntent;
  di_fenced : Z;
  di_superseded : Z;
  di_already_issued : Z
}.

Definition dispatch_empty : DispatchResult := mkDispatch [] 0 0 0.
Definition count_refused (r : DispatchResult) : DispatchResult :=
  mkDispatch (di_intents r) (di_fenced r + 1) (di_superseded r) (di_already_issued r).
Definition push_reused (i : ActionIntent) (r : DispatchResult) : DispatchResult :=
  mkDispatch (di_intents r ++ [i]) (di_fenced r) (di_superseded r) (di_already_issued r + 1).
Definition push_issued (i : ActionIntent) (r : DispatchResult) : DispatchResult :=
  mkDispatch (di_intents r ++ [i]) (di_fenced r) (di_superseded r) (di_already_issued r).

(** What the committed intent desires for a subject; empty when it does not name it. *)
Definition declared_state (intent : IntentDocument) (subject : bytes) : SubjectState :=
  match om_find subject (in_subjects intent) with
  | Some declared => si_desired declared
  | None => []
  end.

(** Models [ReconciliationEngine::Dispatch], src/engine.cpp:840-853: the mutation intent handed
    out for an attempt, reused or new (lines 890-903). *)
Definition action_intent (intent : IntentDocument) (attempt : AttemptRecord) : ActionIntent :=
  mkActionIntent (at_scope attempt) (at_subject attempt) (at_action attempt)
    (declared_state intent (at_subject attempt)) [] (at_authority attempt)
    (at_idempotency_key attempt) (at_id attempt) (at_epoch attempt) (at_boot attempt)
    (at_issued_unix_ms attempt).

(** Models [ReconciliationEngine::Dispatch], src/engine.cpp:838-839: an attempt of this
    incarnation, still in flight, under the same idempotency key. *)
Definition reusable (key : bytes) (epoch : Z) (existing : AttemptRecord) : bool :=
  bool_decide (at_idempotency_key existing = key) && (at_epoch existing =? epoch) &&
  negb (IsTerminalAttemptState (at_state existing)).

(** Models [ReconciliationEngine::Dispatch], src/engine.cpp:835-863: the search for an attempt
    to reuse. *)
Definition find_reusable (s : DurableState) (key : bytes) (epoch : Z) : option AttemptRecord :=
  List.find (reusable key epoch) (ds_attempts s).*2.

(** Models [ReconciliationEngine::Dispatch], src/engine.cpp:864-884: the attempt minted for a
    decision. *)
Definition new_attempt (e : Engine) (decision : Decision) (now : Z) : AttemptRecord :=
  let next := ds_next_attempt (en_state e) in
  mkAttempt (if next =? 0 then 1 else next) (de_idempotency_key decision) (de_scope decision)
    (de_subject decision) (de_action decision) (en_live_epoch e) (en_live_boot e)
    (de_authority decision) AS_Dispatched now
    [mkTransition AS_Issued AS_Dispatched (en_live_epoch e) (en_live_boot e) now RC_AttemptIssued
       RC_None].

Section WithHost.
Variable host : Host.

(** Models [ReconciliationEngine::Dispatch], src/engine.cpp:827-906: the loop over the decisions. *)
Fixpoint dispatch_decisions (intent : IntentDocument) (now : Z) (decisions : list Decision)
    (result : DispatchResult) : Op DispatchResult :=
  match decisions with
  | [] => mret result
  | decision :: rest =>
    if negb (bool_decide (de_disposition decision = DD_Actionable)) then
      dispatch_decisions intent now rest result
    else
      e ← get;
      if FenceHoldsFor (ds_fences (en_state e)) (de_scope decision) (de_subject decision)
           (en_live_epoch e) then
        dispatch_decisions intent now rest (count_refused result)
      else
        match find_reusable (en_state e) (de_idempotency_key decision) (en_live_epoch e) with
        | Some existing =>
          dispatch_decisions intent now rest (push_reused (action_intent intent existing) result)
        | None =>
          let attempt := new_attempt e decision now in
          _ ← mutate host (Ev_AttemptIssued attempt);
          _ ← count_stat ST_actions_dispatched 1;
          dispatch_decisions intent now rest (push_issued (action_intent intent attempt) result)
        end
  end.

(** Models [ReconciliationEngine::Dispatch], src/engine.cpp:796-802: the committed intent must be
    the one the plan was built against. *)
Definition bound_intent (e : Engine) (plan : ReconciliationPlan) : option IntentDocument :=
  match om_find (pl_scope plan) (ds_intents (en_state e)) with
  | None => None
  | Some intent =>
    if (in_generation intent =? pl_intent_generation plan) &&
       bool_decide (in_digest intent = pl_intent_digest plan)
    then Some intent else None
  end.

(** Models [ReconciliationEngine::Dispatch], src/engine.cpp:806-823: so must the current
    observation. *)
Definition bound_observation (e : Engine) (plan : ReconciliationPlan) : bool :=
  match sel_selected (SelectCurrentObservation (scope_observations e (pl_scope plan))) with
  | None => false
  | Some selected =>
    bool_decide (ob_observation selected = pl_observation plan) &&
    (ob_generation selected =? pl_observation_generation plan) &&
    bool_decide (ob_digest selected = pl_observation_digest plan)
  end.

(** Models [ReconciliationEngine::Dispatch], src/engine.cpp:777-909. *)
Definition Engine_Dispatch (plan : ReconciliationPlan) : Op DispatchResult :=
  _ ← require_writable;
  e ← get;
  _ ← refuse_if (negb (pl_epoch plan =? en_live_epoch e) ||
                 negb (bool_decide (pl_boot plan = en_live_boot e)))
        (mkStatus SC_StaleAuthority RC_AuthorityEpochMismatch
           (B "plan was built by a different incarnation or epoch"));
  _ ← refuse_if (negb (ds_has_policy (en_state e))) no_policy;
  _ ← refuse_if (negb (bool_decide (pl_policy_digest plan =
                                    ComputePolicyDigest (ds_policy (en_state e)))))
        (mkStatus SC_StaleAuthority RC_AuthorityPolicyMismatch
           (B "active policy changed since the plan was built"));
  match bound_intent e plan with
  | None =>
    fail (mkStatus SC_StaleAuthority RC_AuthorityIntentGenerationMismatch
            (B "committed intent changed since the plan was built"))
  | Some intent =>
    _ ← refuse_if (negb (bound_observation e plan))
          (mkStatus SC_StaleAuthority RC_AuthorityObservationGenerationMismatch
             (B "the observation the plan was built against is no longer the current evidence"));
    result ← dispatch_decisions intent (ho_now host) (pl_decisions plan) dispatch_empty;
    _ ← MaybeCompactLocked host;
    mret result
  end.

(** ** Completion *)

(** Models [CompletionRequest], include/summon/fabric_reconciliation/engine.hpp:87-98. *)
Record CompletionRequest := mkCompletion {
  cq_attempt : Z;
  cq_epoch : Z;
  cq_boot : bytes;
  cq_idempotency_key : bytes;
  cq_target : AttemptState;
  cq_at_unix_ms : Z;
  cq_reason : Z;
  cq_detail : bytes
}.

(** The transition is appended, dropping the oldest when the history is full; with a bound of
    zero the code erases from an empty vector, which is undefined and not modelled. *)
Definition push_transition (limits : RuntimeLimits) (transition : AttemptTransition)
    (transitions : list AttemptTransition) : list AttemptTransition :=
  (if max_attempt_transitions limits <=? blen transitions then tail transitions
   else transitions) ++ [transition].

Definition advance (e : Engine) (attempt : AttemptRecord) (target : AttemptState) (now reason
    verification_reason : Z) : AttemptRecord :=
  moved attempt target
    (push_transition (en_limits e)
       (mkTransition (at_state attempt) target (en_live_epoch e) (en_live_boot e) now reason
          verification_reason) (at_transitions attempt)).

Definition late_completion (detail : bytes) : Op ReconciliationOutcome :=
  _ ← count_stat ST_completions_rejected_late 1;
  fail (mkStatus SC_StaleAuthority RC_AttemptFencedByEpochAdvance detail).

(** Of this incarnation: its epoch and its boot identity. *)
Definition live (e : Engine) (epoch : Z) (boot : bytes) : bool :=
  (epoch =? en_live_epoch e) && bool_decide (boot = en_live_boot e).

(** Models [ReconciliationEngine::Complete], src/engine.cpp:931-1006. The value is the outcome
    parameter; what it holds after a failure is left out. *)
Definition Engine_Complete (request : CompletionRequest) : Op ReconciliationOutcome :=
  _ ← require_writable;
  e ← get;
  match om_find (cq_attempt request) (ds_attempts (en_state e)) with
  | None =>
    fail (mkStatus SC_NotFound RC_AttemptUnknown (B "no such attempt in the retained lineage"))
  | Some attempt =>
    if negb (bool_decide (at_idempotency_key attempt = cq_idempotency_key request)) then
      fail (mkStatus SC_Rejected RC_AttemptUnknown
              (B "completion carries an idempotency key that does not match the attempt"))
    else if negb (live e (cq_epoch request) (cq_boot request)) then
      late_completion
        (B "completion was reported under an epoch or boot identity that is not current")
    else if negb (live e (at_epoch attempt) (at_boot attempt)) then
      late_completion (B "attempt belongs to a previous incarnation and is fenced")
    else if IsTerminalAttemptState (at_state attempt) then
      _ ← count_stat ST_duplicate_completions 1;
      fail (mkStatus SC_ConflictState RC_AttemptTerminalAlready
              (B "attempt already reached a terminal state; the completion is ignored"))
    else if negb (TransitionLegal (at_state attempt) (cq_target request)) then
      fail (mkStatus SC_Rejected RC_AttemptTransitionIllegal
              (B "illegal transition from " ++ AttemptState_ToText (at_state attempt) ++
               B " to " ++ AttemptState_ToText (cq_target request)))
    else
      let now := if cq_at_unix_ms request =? 0 then ho_now host else cq_at_unix_ms request in
      let reason := if cq_reason request =? RC_None then AttemptState_ReasonOf (cq_target request)
                    else cq_reason request in
      let attempt := advance e attempt (cq_target request) now reason RC_None in
      _ ← mutate host (Ev_AttemptTransition attempt);
      _ ← count_stat ST_completions_accepted 1;
      outcome ←
        (if IsTerminalAttemptState (at_state attempt) then
           let outcome := MakeOutcome attempt (at_state attempt) reason
                            (IsInconclusiveTerminalState (at_state attempt)) now in
           _ ← mutate host (Ev_Outcome outcome);
           mret outcome
         else mret (MakeOutcome attempt (at_state attempt) reason false now));
      _ ← MaybeCompactLocked host;
      mret outcome
  end.

(** ** Verification *)

Definition rejected_verification {A} (status : Status) : Op A :=
  _ ← count_stat ST_verifications_rejected 1; fail status.

(** Models [ReconciliationEngine::Verify], src/engine.cpp:1061-1072: the cited evidence among the
    observations the runtime holds. *)
Definition cited_observation (s : DurableState) (evidence : VerificationEvidence)
  : option ObservationDocument :=
  List.find (fun document =>
    bool_decide (ob_observation document = vf_observation evidence) &&
    (ob_generation document =? vf_generation evidence) &&
    bool_decide (ob_reporter document = vf_verifier evidence))
    (default [] (om_find (vf_scope evidence) (ds_observations s))).

Definition with_verified_generation (generation : Z) (o : ReconciliationOutcome)
  : ReconciliationOutcome :=
  mkOutcome (oc_idempotency_key o) (oc_scope o) (oc_subject o) (oc_action o) (oc_attempt o)
    (oc_epoch o) (oc_boot o) (oc_terminal_state o) (oc_reason o) (oc_committed_unix_ms o)
    (oc_verified o) generation (oc_ambiguous o).

(** Models [ReconciliationEngine::Verify], src/engine.cpp:1086-1120: the verdict of the evidence is
    recorded. *)
Definition record_verification (e : Engine) (target : AttemptRecord)
    (evidence : VerificationEvidence) : Op ReconciliationOutcome :=
  let now := if vf_received_unix_ms evidence =? 0 then ho_now_again host
             else vf_received_unix_ms evidence in
  let confirms := vf_confirms_effect evidence in
  let next := if confirms then AS_Verified else AS_Failed in
  let reason := if confirms then RC_AttemptVerified else RC_AttemptFailed in
  let target := advance e target next now reason
                  (if confirms then RC_AttemptVerified else RC_VerificationNotNewer) in
  _ ← mutate host (Ev_AttemptTransition target);
  let outcome := with_verified_generation (vf_generation evidence)
                   (MakeOutcome target next reason (negb confirms) now) in
  _ ← mutate host (Ev_Outcome outcome);
  _ ← count_stat ST_verifications_accepted 1;
  _ ← MaybeCompactLocked host;
  mret outcome.

(** Models [ReconciliationEngine::Verify], src/engine.cpp:1008-1121. *)
Definition Engine_Verify (evidence : VerificationEvidence) : Op ReconciliationOutcome :=
  _ ← require_writable;
  e ← get;
  let policy := ds_policy (en_state e) in
  match List.find (fun a => bool_decide (at_idempotency_key a = vf_idempotency_key evidence))
          (ds_attempts (en_state e)).*2 with
  | None =>
    fail (mkStatus SC_NotFound RC_AttemptUnknown
            (B "no attempt matches the supplied idempotency key"))
  | Some target =>
    if negb (bool_decide (at_scope target = vf_scope evidence)) ||
       negb (bool_decide (at_subject target = vf_subject evidence)) then
      fail (mkStatus SC_Rejected RC_AttemptUnknown
              (B "verification evidence names a different subject"))
    else if negb (live e (at_epoch target) (at_boot target)) then
      fail (mkStatus SC_StaleAuthority RC_AttemptFencedByEpochAdvance
              (B "attempt belongs to a previous incarnation and cannot be verified"))
    else if negb (bool_decide (at_state target = AS_Applied)) then
      fail (mkStatus SC_PreconditionFailed RC_VerificationNotNewer
              (B "verification requires an applied attempt, found " ++
               AttemptState_ToText (at_state target)))
    else if require_independent_verification policy &&
            bool_decide (vf_verifier evidence = vf_applier evidence) then
      rejected_verification (mkStatus SC_Rejected RC_VerificationNotIndependent
        (B "verification must come from a reporter other than the applier"))
    else if negb (vf_received_epoch evidence =? en_live_epoch e) then
      rejected_verification (mkStatus SC_StaleAuthority RC_ObservationForeignEpoch
        (B "verification evidence was recorded by a previous incarnation"))
    else if negb (av_observation_generation (at_authority target) <? vf_generation evidence) then
      rejected_verification (mkStatus SC_StaleAuthority RC_VerificationNotNewer
        (B "verification evidence is not newer than the observation the action used"))
    else
      match cited_observation (en_state e) evidence with
      | None =>
        rejected_verification (mkStatus SC_NotFound RC_NoObservationForScope
          (B "verification cites observation evidence the runtime does not hold"))
      | Some recorded =>
        let verdict := EvaluateFreshness recorded (freshness policy) (en_live_epoch e)
                         (ho_now host) in
        if negb (bool_decide (verdict = FV_Fresh)) then
          rejected_verification (mkStatus SC_StaleAuthority (ReasonOf verdict)
            (B "verification evidence is not fresh"))
        else record_verification e target evidence
      end
  end.

(** ** Fences *)

Definition stamped_fence (fence : FenceEntry) (now : Z) : FenceEntry :=
  mkFence (fe_id fence) (fe_scope fence) (fe_subject fence) (fe_fenced_below fence)
    (fe_reason fence) (fe_detail fence) now.

(** Models [ReconciliationEngine::PutFence], src/engine.cpp:1146-1161: the attempts a fence
    revokes. *)
Definition victim_of (fence : FenceEntry) (attempt : AttemptRecord) : bool :=
  negb (IsTerminalAttemptState (at_state attempt)) &&
  bool_decide (at_scope attempt = fe_scope fence) &&
  (is_empty (fe_subject fence) || bool_decide (fe_subject fence = at_subject attempt)) &&
  (at_epoch attempt <? fe_fenced_below fence).

Definition count_revoked (r : BootReport) : BootReport :=
  mkBootReport (br_store r) (br_previous_epoch r) (br_epoch r) (br_boot r) (br_store_created r)
    (br_snapshot_loaded r) (br_recovered_torn_tail r) (br_recovered_bytes r)
    (br_records_replayed r) (br_attempts_restored r) (br_attempts_interrupted r)
    (br_attempts_abandoned r) (br_attempts_fenced r + 1) (br_observations_retained r)
    (br_outcomes_retained r) (br_fences_active r) (br_freshness_restored r)
    (br_mutation_authority_restored r) (br_notes r).

(** Models [ReconciliationEngine::PutFence], src/engine.cpp:1164-1188: one attempt is revoked. *)
Definition revoke (now : Z) (attempt : AttemptRecord) : Op unit :=
  e ← get;
  let attempt := advance e attempt AS_Fenced now RC_AttemptFencedByEpochAdvance RC_None in
  _ ← mutate host (Ev_AttemptTransition attempt);
  _ ← mutate host (Ev_Outcome (MakeOutcome attempt AS_Fenced RC_AttemptFencedByEpochAdvance false
                                 now));
  update_report count_revoked.

(** Models [ReconciliationEngine::PutFence], src/engine.cpp:1123-1191. *)
Definition Engine_PutFence (fence : FenceEntry) : Op unit :=
  _ ← require_writable;
  _ ← refuse_if (is_empty (fe_id fence) || is_empty (fe_scope fence))
        (mkStatus SC_Rejected RC_UnsupportedInput
           (B "fence requires a non-empty identity and scope"));
  _ ← refuse_if (fe_fenced_below fence =? 0)
        (mkStatus SC_Rejected RC_FenceEpochNotNewer
           (B "a fence below epoch zero would revoke nothing"));
  let now := if fe_created_unix_ms fence =? 0 then ho_now host else fe_created_unix_ms fence in
  let entry := stamped_fence fence now in
  _ ← mutate host (Ev_Fence entry);
  e ← get;
  _ ← for_each (revoke now)
        (sort_by_id (List.filter (victim_of entry) (ds_attempts (en_state e)).*2));
  MaybeCompactLocked host.

(** Models [ReconciliationEngine::ClearFence], src/engine.cpp:1193-1203. *)
Definition Engine_ClearFence (fence : bytes) : Op unit :=
  _ ← require_writable;
  e ← get;
  _ ← refuse_if (negb (bool_decide (is_Some (om_find fence (ds_fences (en_state e))))))
        (mkStatus SC_NotFound RC_None (B "no such fence"));
  mutate host (Ev_FenceClear fence).
End WithHost.
