(* ===== verification/EngineRuns.v ===== *)
(** * The engine refines a life-cycle of legal steps

    Every request the engine serves, whatever the host answers, moves the durable state by a
    sequence of the steps of [lifecycle_step]: a policy or an intent only forward, an attempt
    only to be issued afresh or moved along a legal transition, an outcome only with the
    terminal transition it reports. *)

From Stdlib Require Import ZArith Lia.
From stdpp Require Import prelude.
From S2P Require Import Prelude OrdMap Hash Status Identity Canonical Value Policy Document Drift.
From S2P Require Import Authority Plan Lineage Journal Snapshot StoreState Store Engine Planner.
From S2P Require Import Lifecycle.
Local Open Scope Z_scope.

(** The encoders are used through their lemmas only. *)
Local Opaque EncodePolicy EncodeIntent EncodeObservation EncodeAttemptRecord EncodeOutcome EncodeFence.

(** ** Steps of the durable state *)

(** [a'] is [a] moved to another state. *)
Definition moves (a a' : AttemptRecord) : Prop := a' = moved a (at_state a') (at_transitions a').

(** The outcome reports the terminal state of the attempt, and claims verification only for
    a verified one. *)
Definition outcome_of (a : AttemptRecord) (o : ReconciliationOutcome) : Prop :=
  oc_idempotency_key o = at_idempotency_key a /\ oc_scope o = at_scope a /\
  oc_subject o = at_subject a /\ oc_action o = at_action a /\ oc_attempt o = at_id a /\
  oc_epoch o = at_epoch a /\ oc_boot o = at_boot a /\ oc_terminal_state o = at_state a /\
  oc_verified o = bool_decide (at_state a = AS_Verified).

(** An observation the stream of its reporter allows. *)
Definition extends_stream (d : ObservationDocument) (stream : list ObservationDocument) : Prop :=
  Forall (fun retained => ob_reporter retained = ob_reporter d ->
    ob_generation retained <= ob_generation d /\
    (ob_generation retained = ob_generation d -> ob_observation retained <> ob_observation d))
    stream.

Section Steps.
Variables (limits : RuntimeLimits) (epoch : Z) (boot : bytes).

Inductive lifecycle_step : DurableState -> DurableState -> Prop :=
| ls_sequence s n : lifecycle_step s (with_sequence n s)
| ls_compacted s n : u64 n = true -> lifecycle_step s (with_compactions n s)
| ls_policy s policy :
    event_wf limits (Ev_Policy policy) = true ->
    (ds_has_policy s = true -> po_version (ds_policy s) < po_version policy) ->
    lifecycle_step s (with_policy policy s)
| ls_intent s d :
    event_wf limits (Ev_Intent d) = true ->
    (forall d0, om_find (in_scope d) (ds_intents s) = Some d0 -> in_generation d0 < in_generation d) ->
    lifecycle_step s (apply_intent limits d s)
| ls_observation s d :
    event_wf limits (Ev_Observation d) = true -> ob_received_epoch d = epoch ->
    extends_stream d (entry_or_empty (ob_scope d) (ds_observations s)) ->
    lifecycle_step s (apply_observation limits d s)
| ls_issued s a :
    event_wf limits (Ev_AttemptIssued a) = true -> at_id a = ds_next_attempt s ->
    at_id a < 2 ^ 64 - 1 ->
    at_state a = AS_Dispatched -> at_epoch a = epoch -> at_boot a = boot ->
    find_reusable s (at_idempotency_key a) epoch = None ->
    FenceHoldsFor (ds_fences s) (at_scope a) (at_subject a) epoch = false ->
    lifecycle_step s (apply_attempt limits a s)
| ls_moved s a a' :
    event_wf limits (Ev_AttemptTransition a') = true ->
    om_find (at_id a) (ds_attempts s) = Some a -> moves a a' ->
    TransitionLegal (at_state a) (at_state a') = true ->
    lifecycle_step s (apply_attempt limits a' s)
| ls_concluded s a a' o :
    event_wf limits (Ev_AttemptTransition a') = true -> event_wf limits (Ev_Outcome o) = true ->
    om_find (at_id a) (ds_attempts s) = Some a -> moves a a' ->
    TransitionLegal (at_state a) (at_state a') = true ->
    IsTerminalAttemptState (at_state a') = true -> outcome_of a' o ->
    lifecycle_step s (apply_outcome limits o (apply_attempt limits a' s))
| ls_fenced s f :
    event_wf limits (Ev_Fence f) = true -> lifecycle_step s (apply_fence f s)
| ls_cleared s id :
    event_wf limits (Ev_FenceClear id) = true -> lifecycle_step s (apply_fence_clear id s).

Hypothesis Hlimits : retention_wf limits = true.

Lemma step_wf s s' :
  durable_wf limits s = true -> lifecycle_step s s' -> durable_wf limits s' = true.
Proof.
  intros Hs Hstep. destruct Hstep as [s n|s n Hn|s p Hp|s d Hd|s d Hd|s a Ha|s a a' Ha|s a a' o Ha Ho|s f Hf|s id Hid].
  - exact Hs.
  - unfold durable_wf in *. bool_hyps. cbn. bool_goal; try done. by apply Z.eqb_neq.
  - by apply (apply_event_wf limits Hlimits (Ev_Policy p)).
  - by apply (apply_event_wf limits Hlimits (Ev_Intent d)).
  - by apply (apply_event_wf limits Hlimits (Ev_Observation d)).
  - by apply (apply_event_wf limits Hlimits (Ev_AttemptIssued a)).
  - by apply (apply_event_wf limits Hlimits (Ev_AttemptTransition a')).
  - apply (apply_event_wf limits Hlimits (Ev_Outcome o)); [|done].
    by apply (apply_event_wf limits Hlimits (Ev_AttemptTransition a')).
  - by apply (apply_event_wf limits Hlimits (Ev_Fence f)).
  - by apply (apply_event_wf limits Hlimits (Ev_FenceClear id)).
Qed.

Lemma steps_wf s s' :
  durable_wf limits s = true -> rtc lifecycle_step s s' -> durable_wf limits s' = true.
Proof. intros Hs H. induction H; [done|]. eauto using step_wf. Qed.
End Steps.

(** ** Mutations of the store *)

(** An event whose value the runtime's types can hold. *)
Definition event_typed (limits : RuntimeLimits) (event : StoreEvent) : bool :=
  match event with
  | Ev_Policy policy => pc_wf limits policy
  | Ev_Intent document => pc_wf limits document
  | Ev_Observation document => pc_wf limits document
  | Ev_AttemptIssued attempt | Ev_AttemptTransition attempt => pc_wf limits attempt
  | Ev_Outcome outcome => pc_wf limits outcome
  | Ev_Fence fence => pc_wf limits fence
  | Ev_FenceClear id => IsValidIdentityText id
  | Ev_Epoch epoch => u64 epoch
  end.

(** What a mutation of a typed event leaves: the event applied when it succeeds, the state as
    it was when it fails; the store is touched by the commit of a well-formed event only. *)
Definition mutated (limits : RuntimeLimits) (io : WriteIo) (event : StoreEvent) (store : DurableStore)
    (r : Status * DurableStore) : Prop :=
  st_limits r.2 = limits /\ st_read_only r.2 = st_read_only store /\
  (r.2 = store \/ event_wf limits event = true /\ r.2 = (commit io event store).2) /\
  if Status_ok r.1 then
    event_wf limits event = true /\
    exists n, st_state r.2 = with_sequence n (apply_event limits event (st_state store))
  else st_state r.2 = st_state store.

Lemma refused_mutated limits io event store status :
  st_limits store = limits -> Status_ok status = false ->
  mutated limits io event store (status, store).
Proof. intros H1 H2. unfold mutated. cbn [fst snd]. rewrite H2. split_and!; [done|done|by left|done]. Qed.

Lemma commit_result limits io event store :
  st_limits store = limits -> event_wf limits event = true ->
  let r := commit io event store in
  st_limits r.2 = limits /\ st_read_only r.2 = st_read_only store /\
  if Status_ok r.1 then exists n, st_state r.2 = with_sequence n (apply_event limits event (st_state store))
  else st_state r.2 = st_state store.
Proof.
  intros Hl Hwf. unfold commit, AppendAndApply.
  destruct (Append _ _ _ _) as [status j]. destruct (Status_ok status) eqn:E; cbn [negb fst snd].
  - cbn [st_limits set_journal st_state]. rewrite Hl, ApplyPayload_event by done.
    change (Status_ok Status_Ok) with true.
    cbn [fst snd set_state set_journal st_limits st_read_only st_state]. repeat split; try done.
    eexists. by rewrite apply_event_sequence.
  - by rewrite E.
Qed.

Lemma commit_mutated limits io event store :
  st_limits store = limits -> event_wf limits event = true ->
  mutated limits io event store (commit io event store).
Proof.
  intros Hl Hwf. destruct (commit_result limits io event store Hl Hwf) as (H1 & H2 & H3).
  unfold mutated. split_and!; [done|done|by right|]. by destruct (Status_ok _).
Qed.

Lemma commit_payload_mutated limits io event detail store :
  st_limits store = limits ->
  (is_empty (event_payload event) = false -> event_wf limits event = true) ->
  mutated limits io event store
    (commit_payload io (event_type event) (event_payload event) detail store).
Proof.
  intros Hl Hwf. unfold commit_payload. destruct (st_read_only store); [by apply refused_mutated|].
  destruct (is_empty (event_payload event)) eqn:E; [by apply refused_mutated|].
  apply (commit_mutated limits io event store Hl). by apply Hwf.
Qed.

Lemma nested_intro {A} `{PayloadCodec A} limits (a : A) bs :
  pc_wf limits a = true -> bs = encode_payload a -> is_empty bs = false ->
  nested_wf limits a = true.
Proof. intros Hwf -> He. unfold nested_wf. by rewrite Hwf, He. Qed.

Lemma mutation_mutated limits io event store :
  st_limits store = limits -> event_typed limits event = true ->
  mutated limits io event store (mutation io event store).
Proof.
  intros Hl Ht. destruct event as [p|d|d|a|a|o|f|id|e]; cbn [mutation event_typed] in *.
  - apply (commit_payload_mutated limits io (Ev_Policy p)); [done|].
    by apply nested_intro, EncodePolicy_payload.
  - apply (commit_payload_mutated limits io (Ev_Intent d)); [done|].
    by apply nested_intro, EncodeIntent_payload.
  - apply (commit_payload_mutated limits io (Ev_Observation d)); [done|].
    by apply nested_intro, EncodeObservation_payload.
  - unfold Store_IssueAttempt. destruct (st_read_only store); [by apply refused_mutated|].
    destruct (at_id a =? 0); [by apply refused_mutated|].
    apply (commit_payload_mutated limits io (Ev_AttemptIssued a)); [done|].
    by apply nested_intro, EncodeAttempt_payload.
  - apply (commit_payload_mutated limits io (Ev_AttemptTransition a)); [done|].
    by apply nested_intro, EncodeAttempt_payload.
  - apply (commit_payload_mutated limits io (Ev_Outcome o)); [done|].
    by apply nested_intro, EncodeOutcome_payload.
  - apply (commit_payload_mutated limits io (Ev_Fence f)); [done|].
    by apply nested_intro, EncodeFence_payload.
  - unfold Store_ClearFence. destruct (st_read_only store); [by apply refused_mutated|].
    destruct (finish_ok _ _ (writes_bytes id)) as [-> ->].
    { rewrite blen_lay_bytes. apply IsValidIdentityText_length in Ht.
      unfold kMaxIdentityLength, kMaxCanonicalBytes in *. lia. }
    by apply (commit_mutated limits io (Ev_FenceClear id)).
  - unfold Store_AdvanceEpoch. destruct (st_read_only store); [by apply refused_mutated|].
    destruct (e <=? _); [by apply refused_mutated|].
    destruct (finish_ok _ _ (writes_u64 e (u_nonneg _ _ Ht))) as [-> ->]; [done|].
    by apply (commit_mutated limits io (Ev_Epoch e)).
Qed.

Lemma compact_mutated limits io store :
  st_limits store = limits ->
  let '(status, store') := Store_Compact io store in
  st_limits store' = limits /\ st_read_only store' = st_read_only store /\
  (st_state store' = st_state store \/
   exists n, st_state store' = with_sequence n (with_compactions
     (wrap 64 (ds_compactions (st_state store) + 1)) (st_state store))).
Proof.
  intros Hl. unfold Store_Compact. destruct (st_read_only store) eqn:Hro; [by auto|].
  destruct (is_empty _); [by auto|]. destruct (WriteSnapshotAtomic _ _ _ _) as [[status dir] trace].
  destruct (Status_ok status); cbn [negb]; [|by auto].
  destruct (Journal_Reset _ _ _ _) as [status' j].
  destruct (Status_ok status'); cbn [negb set_state set_journal set_snapshot st_limits st_read_only
    st_state]; [|by auto].
  split; [done|]. split; [done|]. right. by eexists.
Qed.

(** ** What the engine does to its store *)

(** A discipline restricts what the host answers to durable writes and to compactions. *)
Class Discipline := {
  write_allowed : WriteIo -> DurableStore -> Prop;
  compact_allowed : CompactIo -> DurableStore -> Prop
}.

(** No restriction: the discipline of every statement that names none. *)
#[export] Instance any_answer : Discipline | 100 :=
  { write_allowed _ _ := True; compact_allowed _ _ := True }.

Definition follows `{Discipline} (host : Host) : Prop :=
  (forall event store, write_allowed (ho_write host event store) store) /\
  (forall store, compact_allowed (ho_compact host store) store).

Lemma follows_any host : follows host.
Proof. done. Qed.
#[export] Hint Resolve follows_any : core.

(** One call on the store: the commit of a well-formed event, a compaction, or a barrier. *)
Inductive store_step `{Discipline} (limits : RuntimeLimits) : DurableStore -> DurableStore -> Prop :=
| ss_commit io event store :
    write_allowed io store -> event_wf limits event = true ->
    store_step limits store (commit io event store).2
| ss_compact io store :
    compact_allowed io store -> store_step limits store (Store_Compact io store).2
| ss_sync io store : store_step limits store (Store_SyncJournal io store).2.

(** ** Operations of the engine *)

(** Limits under which the engine runs: retention bounds unsigned, and room for a transition. *)
Definition engine_limits_wf (limits : RuntimeLimits) : bool :=
  retention_wf limits && (1 <=? max_attempt_transitions limits) &&
  (max_attempt_transitions limits <? 2 ^ 32).

(** The invariant of a running engine. *)
Definition engine_ok (e : Engine) : Prop :=
  st_limits (en_store e) = en_limits e /\ engine_limits_wf (en_limits e) = true /\
  durable_wf (en_limits e) (en_state e) = true /\ u64 (en_live_epoch e) = true /\
  BootId_valid (en_live_boot e) = true.

(** What no request changes: the options, the incarnation, the mode of the store. *)
Definition same_frame (e e' : Engine) : Prop :=
  en_options e' = en_options e /\ en_live_epoch e' = en_live_epoch e /\
  en_live_boot e' = en_live_boot e /\ st_limits (en_store e') = st_limits (en_store e) /\
  st_read_only (en_store e') = st_read_only (en_store e).

Definition en_step (e : Engine) : DurableState -> DurableState -> Prop :=
  lifecycle_step (en_limits e) (en_live_epoch e) (en_live_boot e).

Section Disciplined.
Context {D : Discipline}.

Definition store_moves (e e' : Engine) : Prop :=
  rtc (store_step (en_limits e)) (en_store e) (en_store e').

(** The engine moved along legal steps, by calls on its store. *)
Definition evolves (e e' : Engine) : Prop :=
  same_frame e e' /\ rtc (en_step e) (en_state e) (en_state e') /\ store_moves e e'.

Lemma same_frame_refl e : same_frame e e.
Proof. done. Qed.

Lemma evolves_state e e' : same_frame e e' -> en_store e' = en_store e -> evolves e e'.
Proof. intros Hf Hs. unfold evolves, store_moves, en_state. rewrite Hs. by split_and!. Qed.

Lemma evolves_refl e : evolves e e.
Proof. by apply evolves_state. Qed.

Lemma en_step_frame e e' : same_frame e e' -> en_step e' = en_step e.
Proof. intros (Ho & He & Hb & _). unfold en_step, en_limits. by rewrite Ho, He, Hb. Qed.

Lemma same_frame_limits e e' : same_frame e e' -> en_limits e' = en_limits e.
Proof. intros (Ho & _). unfold en_limits. by rewrite Ho. Qed.

Lemma same_frame_trans e1 e2 e3 : same_frame e1 e2 -> same_frame e2 e3 -> same_frame e1 e3.
Proof. intros (?&?&?&?&?) (?&?&?&?&?). unfold same_frame. repeat split; congruence. Qed.

Lemma evolves_trans e1 e2 e3 : evolves e1 e2 -> evolves e2 e3 -> evolves e1 e3.
Proof.
  intros (F1 & S1 & M1) (F2 & S2 & M2). unfold store_moves in M2.
  rewrite (en_step_frame _ _ F1) in S2. rewrite (same_frame_limits _ _ F1) in M2.
  split_and!; [by eapply same_frame_trans|by etransitivity|unfold store_moves; by etransitivity].
Qed.

Lemma engine_limits_split limits :
  engine_limits_wf limits = true ->
  retention_wf limits = true /\ 1 <= max_attempt_transitions limits < 2 ^ 32.
Proof. unfold engine_limits_wf. intros. by bool_hyps. Qed.

Lemma engine_ok_frame e e' :
  engine_ok e -> same_frame e e' -> durable_wf (en_limits e) (en_state e') = true -> engine_ok e'.
Proof.
  intros (H1 & H2 & H3 & H4 & H5) (Ho & He & Hb & Hl & _) Hwf. unfold engine_ok, en_limits in *.
  rewrite Ho, He, Hb, Hl. done.
Qed.

Lemma engine_ok_evolves e e' : engine_ok e -> evolves e e' -> engine_ok e'.
Proof.
  intros Hok (Hf & Hs & _). apply (engine_ok_frame e); [done..|].
  destruct Hok as (_ & Hl & Hwf & _). eapply steps_wf; [|exact Hwf|exact Hs].
  by apply engine_limits_split.
Qed.

(** A sequence of operations evolves the engine when each does, from wherever the previous
    one left it. *)
Lemma evolves_bind {A C} (m : Op A) (f : A -> Op C) e :
  engine_ok e -> evolves e (m e).2 ->
  (forall a e1, m e = (Value a, e1) -> engine_ok e1 -> evolves e1 (f a e1).2) ->
  evolves e ((m ≫= f) e).2.
Proof.
  intros Hok Hm Hf. unfold mbind, Op_bind. destruct (m e) as [[a|status] e1] eqn:E; cbn [snd] in *.
  - apply (evolves_trans _ e1); [done|]. apply Hf; [done|]. by eapply engine_ok_evolves.
  - done.
Qed.

Lemma get_bind {A} (f : Engine -> Op A) e : (get ≫= f) e = f e e.
Proof. reflexivity. Qed.

Lemma count_bind {A} field n (f : unit -> Op A) e :
  (count_stat field n ≫= f) e = f tt (with_stats (stats_add field n (en_stats e)) e).
Proof. reflexivity. Qed.

(** Operations that leave the durable state alone. *)
Lemma evolves_fail {A} status e : evolves e ((fail status : Op A) e).2.
Proof. apply evolves_refl. Qed.
Lemma evolves_ret {A} (a : A) e : evolves e ((mret a : Op A) e).2.
Proof. apply evolves_refl. Qed.
Lemma evolves_get e : evolves e (get e).2.
Proof. apply evolves_refl. Qed.
Lemma evolves_count_stat field n e : evolves e (count_stat field n e).2.
Proof. by apply evolves_state. Qed.
Lemma evolves_update_report f e : evolves e (update_report f e).2.
Proof. by apply evolves_state. Qed.
Lemma evolves_check status e : evolves e (check status e).2.
Proof. unfold check. destruct (Status_ok status); apply evolves_refl. Qed.
Lemma evolves_refuse_if condition status e : evolves e (refuse_if condition status e).2.
Proof. unfold refuse_if. destruct condition; apply evolves_refl. Qed.
Lemma evolves_require_writable e : evolves e (require_writable e).2.
Proof. unfold require_writable, mbind, Op_bind, get. apply evolves_refuse_if. Qed.

#[local] Hint Resolve evolves_refl evolves_fail evolves_ret evolves_get evolves_count_stat
  evolves_update_report evolves_check evolves_refuse_if evolves_require_writable : evolves.

Section WithHost.
Variable host : Host.

(** What one mutation does to the engine. *)
Lemma mutate_spec event e :
  engine_ok e -> event_typed (en_limits e) event = true ->
  let '(r, e') := mutate host event e in
  same_frame e e' /\
  match r with
  | Value _ => event_wf (en_limits e) event = true /\
      exists n, en_state e' = with_sequence n (apply_event (en_limits e) event (en_state e))
  | Failed _ => en_state e' = en_state e
  end.
Proof.
  intros (Hl & _) Ht. unfold mutate.
  pose proof (mutation_mutated (en_limits e) (ho_write host event (en_store e)) event (en_store e)
    Hl Ht) as Hm.
  destruct (mutation _ _ _) as [status store]. destruct Hm as (H1 & H2 & _ & H3). cbn [fst snd] in *.
  assert (same_frame e (with_store_of store e)) as Hf.
  { unfold same_frame. cbn. by rewrite H1, H2, Hl. }
  unfold check. by destruct (Status_ok status).
Qed.

Hypothesis Hfollows : follows host.

Lemma mutate_moves event e :
  engine_ok e -> event_typed (en_limits e) event = true -> store_moves e (mutate host event e).2.
Proof.
  intros (Hl & _) Ht. unfold mutate, store_moves.
  pose proof (mutation_mutated (en_limits e) (ho_write host event (en_store e)) event (en_store e)
    Hl Ht) as (_ & _ & Hm & _).
  destruct (mutation _ _ _) as [status store]. cbn [fst snd] in Hm.
  assert ((check status (with_store_of store e)).2 = with_store_of store e) as ->
    by (unfold check; by destruct (Status_ok status)).
  destruct Hm as [->|[Hwf ->]]; [apply rtc_refl|]. apply rtc_once, ss_commit; [apply Hfollows|done].
Qed.

Lemma evolves_mutate event e :
  engine_ok e -> event_typed (en_limits e) event = true ->
  (event_wf (en_limits e) event = true ->
     en_step e (en_state e) (apply_event (en_limits e) event (en_state e))) ->
  evolves e (mutate host event e).2.
Proof.
  intros Hok Ht Hstep. pose proof (mutate_spec event e Hok Ht) as Hm.
  pose proof (mutate_moves event e Hok Ht) as Hv. split_and!; [| |exact Hv]; clear Hv;
    destruct (mutate host event e) as [[u|status] e']; destruct Hm as [Hf Hs]; cbn [snd]; try done.
  - destruct Hs as [Hwf [n Hs]]. rewrite Hs.
    eapply rtc_l; [by apply Hstep|]. apply rtc_once, ls_sequence.
  - by rewrite Hs.
Qed.

Lemma wrap_u64 n : u64 (wrap 64 n) = true.
Proof. apply in_unsigned_intro. unfold wrap. by apply Z.mod_pos_bound. Qed.

Lemma evolves_compact_store e : engine_ok e -> evolves e (compact_store host e).2.
Proof.
  intros (Hl & _). unfold compact_store.
  pose proof (compact_mutated (en_limits e) (ho_compact host (en_store e)) (en_store e) Hl) as Hc.
  pose proof (ss_compact (en_limits e) (ho_compact host (en_store e)) (en_store e)
    (proj2 Hfollows (en_store e))) as Hv.
  destruct (Store_Compact _ _) as [status store]. destruct Hc as (H1 & H2 & H3).
  assert (evolves e (with_store_of store e)) as Hev.
  { split_and!; [unfold same_frame; cbn; by rewrite H1, H2, Hl| |by apply rtc_once].
    unfold en_state at 2. cbn. destruct H3 as [->|[n ->]]; [apply rtc_refl|].
    eapply rtc_l; [apply ls_compacted, wrap_u64|]. apply rtc_once, ls_sequence. }
  unfold mbind, Op_bind, check. by destruct (Status_ok status).
Qed.

Lemma evolves_MaybeCompactLocked e : engine_ok e -> evolves e (MaybeCompactLocked host e).2.
Proof.
  intros Hok. unfold MaybeCompactLocked. destruct (_ =? 0); [apply evolves_refl|].
  destruct (_ <? _); [apply evolves_refl|]. by apply evolves_compact_store.
Qed.
End WithHost.

#[local] Hint Resolve evolves_MaybeCompactLocked evolves_compact_store : evolves.

(** One operation of a sequence. *)
Ltac ev_bind :=
  apply evolves_bind; [done|by eauto with evolves|
    let a := fresh "a" in let e1 := fresh "e" in
    let Hop := fresh "Hop" in let Hok1 := fresh "Hok" in
    intros a e1 Hop Hok1].

(** ** Requests the runtime's types can hold *)

(** A policy before it is canonicalised. *)
Definition policy_typed (p : ReconciliationPolicy) : bool :=
  id_or_empty (po_id p) && u64 (po_version p) && i64 (max_observation_age_ms (freshness p)) &&
  forallb id_or_empty (unmanaged_attributes p) && (blen (unmanaged_attributes p) <? 2 ^ 32) &&
  forallb id_or_empty (observe_only_attributes p) && (blen (observe_only_attributes p) <? 2 ^ 32).

Lemma canonical_keys limits l :
  forallb id_or_empty l = true -> blen l < 2 ^ 32 -> blen l <= policy_bound limits ->
  existsb is_empty (sort_unique l) = false -> keys_wf limits (sort_unique l) = true.
Proof.
  intros Ht Hlen Hb He. unfold keys_wf. rewrite sort_unique_sorted.
  pose proof (sort_unique_length l). rewrite (proj2 (Z.leb_le _ _)) by lia.
  rewrite (proj2 (Z.ltb_lt _ _)) by lia. rewrite !andb_true_r.
  apply forallb_Forall, Forall_forall. intros k Hk.
  pose proof (existsb_false_elem _ _ _ He Hk) as Hne. apply (proj1 (elem_sort_unique _ _)) in Hk.
  rewrite forallb_Forall, Forall_forall in Ht. specialize (Ht k Hk). unfold id_or_empty in Ht.
  by rewrite Hne in Ht.
Qed.

Lemma CanonicalisePolicy_typed limits p :
  policy_typed p = true -> Status_ok (CanonicalisePolicy p limits).1 = true ->
  policy_wf limits (CanonicalisePolicy p limits).2 = true.
Proof.
  unfold policy_typed, CanonicalisePolicy. intros Ht. bool_hyps.
  destruct (is_empty (po_id p)) eqn:Hid; [done|].
  destruct (max_observation_age_ms (freshness p) <? 0) eqn:Hage; [done|].
  destruct (_ || _) eqn:Hb; [done|]. cbv zeta.
  cbn [with_attributes unmanaged_attributes observe_only_attributes].
  destruct (existsb is_empty (sort_unique (unmanaged_attributes p))) eqn:E1; [done|].
  destruct (existsb is_empty (sort_unique (observe_only_attributes p))) eqn:E2; [done|].
  intros _. unfold policy_wf. cbn. bool_hyps.
  rewrite !canonical_keys by done. unfold id_or_empty in H. rewrite Hid in H. bool_goal; done.
Qed.

(** An intent, whose digest the engine computes. *)
Definition intent_typed (limits : RuntimeLimits) (d : IntentDocument) : bool :=
  intent_wf limits (with_intent_digest (ComputeIntentDigest d) d).

(** The decisions a plan would dispatch. *)
Definition decision_typed (d : Decision) : bool :=
  negb (bool_decide (de_disposition d = DD_Actionable)) ||
  digest_wf (de_idempotency_key d) && IsValidIdentityText (de_scope d) &&
  IsValidIdentityText (de_subject d) && authority_wf (de_authority d).

Definition host_typed (host : Host) : bool := i64 (ho_now host) && i64 (ho_now_again host).

Section Documents.
Variable host : Host.
Hypothesis Hhost : host_typed host = true.
Hypothesis Hfollows : follows host.

Lemma evolves_PutPolicy policy allow e :
  engine_ok e -> policy_typed policy = true -> evolves e (Engine_PutPolicy host policy allow e).2.
Proof.
  intros Hok Ht. unfold Engine_PutPolicy. ev_bind. ev_bind. injection Hop0 as <- <-.
  destruct (CanonicalisePolicy policy (en_limits e0)) as [status canonical] eqn:Ec.
  ev_bind. apply check_Value in Hop0 as [Hs ->].
  assert (policy_wf (en_limits e0) canonical = true) as Hwf.
  { pose proof (CanonicalisePolicy_typed (en_limits e0) policy Ht) as H. rewrite Ec in H. by apply H. }
  destruct (ds_has_policy (en_state e0) && (po_version canonical <? _)) eqn:E1; [auto with evolves|].
  destruct (ds_has_policy (en_state e0) && (po_version canonical =? _)) eqn:E2.
  { destruct (allow && _); auto with evolves. }
  apply evolves_bind; [done| |auto with evolves].
  apply evolves_mutate; [done..|]. intros Hev. apply ls_policy; [done|]. intros Hp.
  rewrite Hp in *. cbn [andb] in *. bool_hyps. lia.
Qed.

Lemma evolves_CommitIntent document e :
  engine_ok e -> intent_typed (en_limits e) document = true ->
  evolves e (Engine_CommitIntent host document e).2.
Proof.
  intros Hok Ht. unfold Engine_CommitIntent. ev_bind.
  assert (en_limits e0 = en_limits e) as Hl.
  { unfold require_writable, mbind, Op_bind, get in Hop. by apply refuse_if_Value in Hop as [_ ->]. }
  rewrite <- Hl in Ht. clear Hl Hop. ev_bind. injection Hop as <- <-.
  ev_bind. apply check_Value in Hop as [Hs ->]. cbv zeta.
  set (candidate := with_intent_digest (ComputeIntentDigest document) document) in *.
  destruct (om_find (in_scope candidate) (ds_intents (en_state e0))) as [existing|] eqn:Ef.
  - destruct (in_generation candidate <? in_generation existing) eqn:E1; [auto with evolves|].
    destruct (in_generation candidate =? in_generation existing) eqn:E2.
    { destruct (bool_decide _); ev_bind; auto with evolves. }
    apply evolves_bind; [done| |]; [|intros; repeat ev_bind; auto with evolves].
    apply evolves_mutate; [done..|]. intros Hev. apply ls_intent; [done|].
    intros d0 Hd0. rewrite Ef in Hd0. injection Hd0 as <-. bool_hyps. lia.
  - apply evolves_bind; [done| |]; [|intros; repeat ev_bind; auto with evolves].
    apply evolves_mutate; [done..|]. intros Hev. apply ls_intent; [done|]. congruence.
Qed.

(** The scan either finds the document's own identity and generation, or the highest
    generation of its reporter. *)
Lemma scan_stream_extends d stream : forall highest h',
  scan_stream d highest stream = SS_Highest h' ->
  (forall h, highest = Some h -> exists x, h' = Some x /\ h <= x) /\
  ((forall x, h' = Some x -> x <= ob_generation d) -> extends_stream d stream).
Proof.
  unfold extends_stream.
  induction stream as [|r stream IH]; intros highest h'; cbn [scan_stream].
  - intros [= ->]. split; [|constructor]. intros h ->. exists h. split; [done|lia].
  - destruct (bool_decide_reflect (ob_reporter r = ob_reporter d)) as [Hr|Hr]; cbn [negb].
    2: { intros H. apply IH in H as [H1 H2]. split; [done|]. intros Hh. constructor; [done|]. by apply H2. }
    destruct (bool_decide (ob_observation r = ob_observation d) && (ob_generation r =? ob_generation d)) eqn:Esame.
    { by destruct (bool_decide (ob_digest r = _)). }
    intros H. apply IH in H as [H1 H2]. destruct (H1 _ eq_refl) as (x & -> & Hx).
    split.
    + intros h ->. exists x. split; [done|]. destruct (Z.ltb_spec h (ob_generation r)); lia.
    + intros Hh. constructor; [|by apply H2]. intros _. specialize (Hh x eq_refl).
      assert (ob_generation r <= x).
      { destruct highest as [h|]; [|done]. destruct (Z.ltb_spec h (ob_generation r)); lia. }
      split; [lia|]. intros Hg Ho. rewrite Ho, bool_decide_eq_true_2, Hg, Z.eqb_refl in Esame by done.
      done.
Qed.

Lemma stamp_wf limits submission epoch received :
  submission_wf limits submission = true -> u64 epoch = true -> i64 received = true ->
  observation_wf limits (stamp submission epoch received) = true.
Proof.
  unfold submission_wf, observation_wf. intros Hs He Hr. bool_hyps. cbn. bool_goal; done.
Qed.

Lemma evolves_RecordObservationAt submission at_ms e :
  engine_ok e -> submission_wf (en_limits e) submission = true -> i64 at_ms = true ->
  evolves e (RecordObservationAt host submission at_ms e).2.
Proof.
  intros Hok Ht Hat. unfold RecordObservationAt. ev_bind.
  assert (en_limits e0 = en_limits e) as Hl.
  { unfold require_writable, mbind, Op_bind, get in Hop. by apply refuse_if_Value in Hop as [_ ->]. }
  rewrite <- Hl in Ht. clear Hl Hop. ev_bind. injection Hop as <- <-.
  ev_bind. apply check_Value in Hop as [Hs ->]. cbv zeta.
  set (received := if at_ms =? 0 then ho_now host else at_ms).
  assert (i64 received = true) as Hrec.
  { unfold received, host_typed in *. bool_hyps. by destruct (at_ms =? 0). }
  set (document := stamp submission (en_live_epoch e0) received).
  destruct (scan_stream document None _) as [retained| |highest] eqn:Escan;
    [ev_bind; auto with evolves|auto with evolves|].
  destruct (match highest with Some _ => _ | None => _ end) eqn:Ereg; [auto with evolves|].
  apply evolves_bind; [done| |]; [|intros; repeat ev_bind; auto with evolves].
  apply evolves_mutate; [done|done| |].
  - cbn [event_typed]. apply stamp_wf; try done. by destruct Hok0 as (_ & _ & _ & ? & _).
  - intros Hev. apply ls_observation; [done|done|].
    apply scan_stream_extends in Escan as [_ Hext]. apply Hext. intros x ->.
    cbn [document stamp with_observation_digest ob_generation]. by bool_hyps.
Qed.
End Documents.

(** ** Attempts of a well-formed state *)

Lemma attempt_found limits s id a :
  durable_wf limits s = true -> om_find id (ds_attempts s) = Some a ->
  at_id a = id /\ attempt_wf limits a = true.
Proof.
  unfold durable_wf. intros Hwf Hf. bool_hyps.
  match goal with H : forallb (keyed at_id _) _ = true |- _ => pose proof (om_find_wf _ _ _ _ H Hf) as Hk end.
  unfold keyed in Hk. bool_hyps. cbn [fst snd] in *. split; [done|].
  match goal with H : nested_wf limits a = true |- _ => exact (nested_pc_wf limits a H) end.
Qed.

Lemma attempts_sorted limits s : durable_wf limits s = true -> om_sorted (ds_attempts s) = true.
Proof. unfold durable_wf. intros Hwf. by bool_hyps. Qed.

Lemma attempt_listed limits s a :
  durable_wf limits s = true -> a ∈ (ds_attempts s).*2 -> om_find (at_id a) (ds_attempts s) = Some a.
Proof.
  intros Hwf Ha. apply list_elem_of_fmap in Ha as ([id a'] & -> & Hin). cbn [snd].
  apply om_find_in in Hin; [|by eapply attempts_sorted].
  by destruct (attempt_found _ _ _ _ Hwf Hin) as [-> _].
Qed.

Lemma attempt_wf_fields limits a :
  attempt_wf limits a = true ->
  u64 (at_id a) = true /\ at_id a <> 0 /\ digest_wf (at_idempotency_key a) = true /\
  IsValidIdentityText (at_scope a) = true /\ IsValidIdentityText (at_subject a) = true /\
  u64 (at_epoch a) = true /\ BootId_valid (at_boot a) = true /\ authority_wf (at_authority a) = true /\
  i64 (at_issued_unix_ms a) = true /\ blen (at_transitions a) <= max_attempt_transitions limits /\
  blen (at_transitions a) < 2 ^ 32 /\ forallb transition_wf (at_transitions a) = true.
Proof. unfold attempt_wf. intros. bool_hyps. repeat split; done. Qed.

Lemma moved_wf limits a state transitions :
  attempt_wf limits a = true -> state <> AS_Invalid ->
  blen transitions <= max_attempt_transitions limits -> blen transitions < 2 ^ 32 ->
  forallb transition_wf transitions = true ->
  attempt_wf limits (moved a state transitions) = true.
Proof.
  intros Ha Hs H1 H2 H3. apply attempt_wf_fields in Ha as (?&?&?&?&?&?&?&?&?&?&?&?).
  unfold attempt_wf. cbn [moved at_id at_idempotency_key at_scope at_subject at_epoch at_boot
    at_authority at_state at_issued_unix_ms at_transitions].
  bool_goal; try done; [by apply Z.eqb_neq|]. apply Z.eqb_neq. by destruct state.
Qed.

Lemma new_transition_wf e from to now reason verification :
  engine_ok e -> i64 now = true -> reason_wf reason = true -> reason_wf verification = true ->
  transition_wf (mkTransition from to (en_live_epoch e) (en_live_boot e) now reason verification) = true.
Proof.
  intros (_ & _ & _ & He & Hb) Hn Hr Hv. unfold transition_wf. cbn. by rewrite He, Hb, Hn, Hr, Hv.
Qed.

Lemma push_transition_wf limits t l :
  1 <= max_attempt_transitions limits < 2 ^ 32 -> blen l <= max_attempt_transitions limits ->
  transition_wf t = true -> forallb transition_wf l = true ->
  blen (push_transition limits t l) <= max_attempt_transitions limits /\
  blen (push_transition limits t l) < 2 ^ 32 /\
  forallb transition_wf (push_transition limits t l) = true.
Proof.
  intros Hm Hl Ht Hf. unfold push_transition. rewrite blen_app, blen_cons, blen_nil.
  destruct (Z.leb_spec (max_attempt_transitions limits) (blen l)) as [H|H].
  - destruct l as [|t0 l]; [rewrite blen_nil in H; lia|]. cbn [tail]. rewrite blen_cons in *.
    cbn [forallb] in Hf. bool_hyps. repeat split; [lia|lia|]. by apply forallb_snoc.
  - repeat split; [lia|lia|]. by apply forallb_snoc.
Qed.

Lemma advance_wf e a target now reason verification :
  engine_ok e -> attempt_wf (en_limits e) a = true -> target <> AS_Invalid -> i64 now = true ->
  reason_wf reason = true -> reason_wf verification = true ->
  attempt_wf (en_limits e) (advance e a target now reason verification) = true.
Proof.
  intros Hok Ha Ht Hn Hr Hv. pose proof Hok as (_ & Hl & _). apply engine_limits_split in Hl as [_ Hm].
  pose proof (attempt_wf_fields _ _ Ha) as (_&_&_&_&_&_&_&_&_&H1&_&H3).
  destruct (push_transition_wf (en_limits e) (mkTransition (at_state a) target (en_live_epoch e)
    (en_live_boot e) now reason verification) (at_transitions a)) as (? & ? & ?); try done.
  { by apply new_transition_wf. }
  by apply moved_wf.
Qed.

Lemma MakeOutcome_wf limits a state reason ambiguous now :
  attempt_wf limits a = true -> reason_wf reason = true -> i64 now = true ->
  outcome_wf (MakeOutcome a state reason ambiguous now) = true.
Proof.
  intros Ha Hr Hn. apply attempt_wf_fields in Ha as (?&?&?&?&?&?&?&?&?&?&?&?).
  unfold outcome_wf, MakeOutcome. cbn. by bool_goal.
Qed.

Lemma TransitionLegal_target from to :
  TransitionLegal from to = true -> IsTerminalAttemptState from = false /\ to <> AS_Invalid.
Proof. by destruct from, to. Qed.

(** ** Concluding an attempt *)

Section Conclude.
Variable host : Host.
Hypothesis Hfollows : follows host.

(** The transition of an attempt, alone. *)
Lemma evolves_transition a a' e :
  engine_ok e -> om_find (at_id a) (ds_attempts (en_state e)) = Some a -> moves a a' ->
  TransitionLegal (at_state a) (at_state a') = true -> attempt_wf (en_limits e) a' = true ->
  evolves e (mutate host (Ev_AttemptTransition a') e).2.
Proof.
  intros Hok Hf Hm Hleg Hwf. apply evolves_mutate; [done|done|done|]. intros Hev. by eapply ls_moved.
Qed.

(** A terminal transition followed by its outcome is one step. *)
Lemma evolves_conclusion a a' o e e1 e2 u :
  engine_ok e -> om_find (at_id a) (ds_attempts (en_state e)) = Some a -> moves a a' ->
  TransitionLegal (at_state a) (at_state a') = true -> attempt_wf (en_limits e) a' = true ->
  IsTerminalAttemptState (at_state a') = true -> outcome_of a' o -> outcome_wf o = true ->
  mutate host (Ev_AttemptTransition a') e = (Value u, e1) ->
  same_frame e1 e2 -> en_store e2 = en_store e1 ->
  evolves e (mutate host (Ev_Outcome o) e2).2.
Proof.
  intros Hok Hf Hm Hleg Hwf Hterm Ho Howf Hmut Hfr Hst.
  pose proof (evolves_transition a a' e Hok Hf Hm Hleg Hwf) as Hev1.
  pose proof (mutate_spec host (Ev_AttemptTransition a') e Hok Hwf) as Hs1. rewrite Hmut in Hs1, Hev1.
  destruct Hs1 as (Hfr1 & Hwf1 & n1 & Hst1). cbn [snd] in Hev1.
  assert (evolves e e2) as Hev2.
  { eapply evolves_trans; [exact Hev1|]. by apply evolves_state. }
  pose proof (engine_ok_evolves _ _ Hok Hev2) as Hok2. destruct Hev2 as (Hfr2 & Hsteps2 & Hmoves2).
  pose proof (same_frame_limits _ _ Hfr2) as Hl.
  pose proof (mutate_spec host (Ev_Outcome o) e2 Hok2 Howf) as Hs2.
  pose proof (mutate_moves host Hfollows (Ev_Outcome o) e2 Hok2 Howf) as Hv. unfold store_moves in Hv. rewrite Hl in Hv.
  assert (en_state e2 = en_state e1) as Hst' by (unfold en_state; by rewrite Hst).
  split_and!; [| |unfold store_moves in *; by etransitivity]; clear Hv;
    destruct (mutate host (Ev_Outcome o) e2) as [[u'|status] e3]; destruct Hs2 as [Hfr3 Hst3]; cbn [snd];
    try (by eapply same_frame_trans).
  - destruct Hst3 as [Hwf3 [n3 Hst3]]. rewrite Hl in *.
    rewrite Hst3, Hst', Hst1. change (apply_event (en_limits e) (Ev_Outcome o)
      (with_sequence n1 (apply_event (en_limits e) (Ev_AttemptTransition a') (en_state e)))) with
      (with_sequence n1 (apply_outcome (en_limits e) o (apply_attempt (en_limits e) a' (en_state e)))).
    eapply rtc_l; [by eapply ls_concluded|]. eapply rtc_l; [apply ls_sequence|].
    apply rtc_once, ls_sequence.
  - by rewrite Hst3.
Qed.
End Conclude.

(** ** Concluding several attempts *)

Lemma sort_by_id_perm l : sort_by_id l ≡ₚ l.
Proof.
  induction l as [|a l IH]; [done|]. cbn [sort_by_id foldr]. fold (sort_by_id l).
  transitivity (a :: sort_by_id l); [|by rewrite IH]. generalize (sort_by_id l). clear.
  induction l as [|b l IH]; [done|]. cbn [insert_by_id]. destruct (_ <? _); [|done].
  rewrite IH. apply Permutation_swap.
Qed.

(** The attempts picked from a state, in the order they are visited. *)
Definition picked (f : AttemptRecord -> bool) (s : DurableState) : list AttemptRecord :=
  sort_by_id (List.filter f (ds_attempts s).*2).

Lemma elem_picked limits f s a :
  durable_wf limits s = true ->
  a ∈ picked f s <-> om_find (at_id a) (ds_attempts s) = Some a /\ f a = true.
Proof.
  intros Hwf. unfold picked. rewrite sort_by_id_perm, list_elem_of_In, filter_In, <- list_elem_of_In.
  split; intros [H1 H2]; (split; [|done]).
  - by eapply attempt_listed.
  - apply om_find_Some_in in H1. apply list_elem_of_fmap. by exists (at_id a, a).
Qed.

Lemma picked_NoDup limits f s : durable_wf limits s = true -> NoDup (map at_id (picked f s)).
Proof.
  intros Hwf. unfold picked. rewrite sort_by_id_perm.
  assert (NoDup (map at_id (ds_attempts s).*2)) as Hnd.
  { assert (map at_id (ds_attempts s).*2 = (ds_attempts s).*1) as ->.
    { rewrite <- list_fmap_compose. apply list_fmap_ext. intros i [id a] Hi. cbn.
      apply list_elem_of_lookup_2, om_find_in in Hi; [|by eapply attempts_sorted].
      by destruct (attempt_found _ _ _ _ Hwf Hi). }
    apply (os_sorted_NoDup (K:=Z)). rewrite os_sorted_keys. by eapply attempts_sorted. }
  revert Hnd. generalize (ds_attempts s).*2. clear. induction l as [|a l IH]; cbn; [done|].
  rewrite NoDup_cons. intros [Ha Hl]. destruct (f a); cbn; [|by apply IH].
  apply NoDup_cons. split; [|by apply IH]. contradict Ha.
  apply list_elem_of_In, in_map_iff in Ha as (b & Hb & Hin). apply filter_In in Hin as [Hin _].
  apply list_elem_of_In, in_map_iff. by exists b.
Qed.

(** The parts of the state that attempts and outcomes leave alone. *)
Definition others_kept (s s' : DurableState) : Prop :=
  ds_store s' = ds_store s /\ ds_last_epoch s' = ds_last_epoch s /\
  ds_has_policy s' = ds_has_policy s /\ ds_policy s' = ds_policy s /\
  ds_intents s' = ds_intents s /\ ds_observations s' = ds_observations s /\
  ds_fences s' = ds_fences s.

Lemma others_kept_trans s1 s2 s3 : others_kept s1 s2 -> others_kept s2 s3 -> others_kept s1 s3.
Proof. intros (?&?&?&?&?&?&?) (?&?&?&?&?&?&?). unfold others_kept. repeat split; congruence. Qed.

Lemma keep_last_snoc {A} bound (l : list A) a :
  0 <= bound -> keep_last bound (keep_last bound l ++ [a]) = keep_last bound (l ++ [a]).
Proof.
  intros Hb. unfold keep_last. rewrite !blen_app. unfold blen. rewrite length_drop. cbn [length].
  destruct (Z.leb_spec (Z.of_nat (length l)) bound) as [H|H].
  - replace (Z.to_nat (Z.of_nat (length l) - bound)) with 0%nat by lia. rewrite drop_0.
    f_equal. lia.
  - rewrite <- (drop_app_le l [a]) by lia. rewrite drop_drop. f_equal. lia.
Qed.

Lemma keep_last_app {A} bound (l l' : list A) :
  0 <= bound -> keep_last bound (keep_last bound l ++ l') = keep_last bound (l ++ l').
Proof.
  intros Hb. revert l. induction l' as [|a l' IH] using rev_ind; intros l.
  - rewrite !app_nil_r. unfold keep_last, blen. rewrite length_drop, drop_drop. f_equal. lia.
  - rewrite !app_assoc. rewrite <- (keep_last_snoc bound (keep_last bound l ++ l')) by done.
    rewrite IH. by rewrite keep_last_snoc.
Qed.

Section ForEach.
Variables (host : Host) (body : AttemptRecord -> Op unit).
Variables (target : AttemptRecord -> AttemptState) (outcome : AttemptRecord -> ReconciliationOutcome).

(** What the loop body does to one attempt in flight. *)
Definition body_concludes : Prop := forall a e,
  engine_ok e -> om_find (at_id a) (ds_attempts (en_state e)) = Some a ->
  IsTerminalAttemptState (at_state a) = false ->
  evolves e (body a e).2 /\
  forall u e', body a e = (Value u, e') -> exists transitions n,
    en_state e' = with_sequence n (apply_outcome (en_limits e) (outcome a)
      (apply_attempt (en_limits e) (moved a (target a) transitions) (en_state e))).

(** What the loop leaves: the picked attempts concluded or already evicted, the others in
    flight as they were, the outcomes appended. *)
Definition concluded (limits : RuntimeLimits) (l : list AttemptRecord) (s s' : DurableState) : Prop :=
  others_kept s s' /\
  ds_outcomes s' = keep_last (max_retained_outcomes limits) (ds_outcomes s ++ map outcome l) /\
  (forall id x, om_find id (ds_attempts s') = Some x ->
     (id ∉ map at_id l /\ om_find id (ds_attempts s) = Some x) \/
     exists a transitions, a ∈ l /\ at_id a = id /\ x = moved a (target a) transitions) /\
  (forall id x, id ∉ map at_id l -> om_find id (ds_attempts s) = Some x ->
     IsTerminalAttemptState (at_state x) = false -> om_find id (ds_attempts s') = Some x).

Hypothesis Hbody : body_concludes.

Lemma concluded_one limits a transitions n s :
  durable_wf limits s = true ->
  concluded limits [a] s (with_sequence n (apply_outcome limits (outcome a)
    (apply_attempt limits (moved a (target a) transitions) s))).
Proof.
  intros Hwf. pose proof (attempts_sorted _ _ Hwf) as Hs. unfold concluded.
  cbn [map apply_outcome apply_attempt with_sequence with_outcomes with_attempts ds_outcomes ds_attempts].
  change (at_id (moved a (target a) transitions)) with (at_id a).
  assert (om_sorted (om_insert (at_id a) (moved a (target a) transitions) (ds_attempts s)) = true) as Hs'
    by (by apply om_sorted_insert).
  split; [by repeat split|]. split; [done|]. split.
  - intros id x Hx. apply TrimAttempts_find in Hx; [|done].
    destruct (decide (id = at_id a)) as [->|Hne].
    + rewrite om_find_insert_eq in Hx. injection Hx as <-. right. exists a, transitions.
      split; [by left|done].
    + rewrite om_find_insert_ne in Hx by done. left. split; [|done]. by intros ?%list_elem_of_singleton.
  - intros id x Hid Hx Hterm. apply TrimAttempts_keeps; [done| |done].
    rewrite om_find_insert_ne; [done|]. intros ->. by destruct Hid; left.
Qed.

Lemma for_each_concludes l : forall e,
  engine_ok e -> NoDup (map at_id l) ->
  Forall (fun a => om_find (at_id a) (ds_attempts (en_state e)) = Some a /\
                   IsTerminalAttemptState (at_state a) = false) l ->
  evolves e (for_each body l e).2 /\
  forall u e', for_each body l e = (Value u, e') ->
    concluded (en_limits e) l (en_state e) (en_state e').
Proof.
  induction l as [|a l IH]; intros e Hok Hnd Hall; cbn [for_each].
  - split; [apply evolves_refl|]. intros u e' [= <- <-]. cbn [map].
    split; [by repeat split|].
    split; [|split; [intros id x Hx; left; split; [apply not_elem_of_nil|done]|done]].
    cbn [map]. rewrite app_nil_r. unfold keep_last. destruct Hok as (_ & _ & Hwf & _).
    unfold durable_wf in Hwf. bool_hyps.
    match goal with H : blen (ds_outcomes _) <= _ |- _ => revert H end. intros Hb.
    by replace (Z.to_nat _) with 0%nat by lia.
  - apply Forall_cons in Hall as [[Ha Hterm] Hall]. cbn [map] in Hnd. apply NoDup_cons in Hnd as [Hnot Hnd].
    destruct (Hbody a e Hok Ha Hterm) as [Hev Hone].
    unfold mbind, Op_bind. destruct (body a e) as [[u|status] e1] eqn:Eb; cbn [snd] in *; [|done].
    destruct (Hone u e1 eq_refl) as (transitions & n & Hst).
    pose proof (engine_ok_evolves _ _ Hok Hev) as Hok1.
    assert (durable_wf (en_limits e) (en_state e) = true) as Hwf by (by destruct Hok as (_ & _ & ? & _)).
    pose proof (concluded_one (en_limits e) a transitions n (en_state e) Hwf) as Hc1. rewrite <- Hst in Hc1.
    destruct Hc1 as (K1 & O1 & F1 & G1).
    assert (en_limits e1 = en_limits e) as Hl by (destruct Hev as [(H & _) _]; unfold en_limits; by rewrite H).
    destruct (IH e1) as [Hev2 Hrest]; [done|done| |].
    { rewrite Forall_forall in Hall |- *. intros b Hb. destruct (Hall b Hb) as [Hbf Hbt].
      split; [|done]. apply G1; [|done|done]. cbn [map]. intros Heq%list_elem_of_singleton.
      apply Hnot. rewrite <- Heq. apply list_elem_of_In, in_map, list_elem_of_In. done. }
    split; [by eapply evolves_trans|]. intros u' e' He'.
    destruct (Hrest u' e' He') as (K2 & O2 & F2 & G2). rewrite Hl in O2.
    split; [by eapply others_kept_trans|]. split; [|split].
    + rewrite O2, O1, keep_last_app. 2: { destruct Hok as (_ & Hlim & _).
        apply engine_limits_split in Hlim as [Hr _]. by apply (bound_nonneg _ Hr). }
      cbn [map]. by rewrite <- app_assoc.
    + intros id x Hx. destruct (F2 id x Hx) as [[Hn Hx1]|(b & ts & Hb & ? & ?)].
      * destruct (F1 id x Hx1) as [[Hn1 Hx0]|(b & ts & Hb & Hid & Hxx)].
        -- left. split; [|done]. cbn [map]. intros [->|Hin]%elem_of_cons; [|done]. apply Hn1. by left.
        -- right. apply list_elem_of_singleton in Hb as ->. exists a, ts. split; [by left|done].
      * right. exists b, ts. split; [by right|done].
    + intros id x Hid Hx Hxt. cbn [map] in Hid. apply not_elem_of_cons in Hid as [Hid1 Hid2].
      apply G2; [done| |done]. apply G1; [|done|done]. cbn [map]. by intros ?%list_elem_of_singleton.
Qed.
End ForEach.

(** ** The loop bodies *)

Lemma attempt_wf_state limits a : attempt_wf limits a = true -> at_state a <> AS_Invalid.
Proof. unfold attempt_wf. intros H E. rewrite E in H. bool_hyps. done. Qed.

Lemma outcome_of_MakeOutcome a reason ambiguous now :
  outcome_of a (MakeOutcome a (at_state a) reason ambiguous now).
Proof. by repeat split. Qed.

Section Bodies.
Variable host : Host.
Hypothesis Hfollows : follows host.

Lemma conclude_body a a' o f e :
  engine_ok e -> om_find (at_id a) (ds_attempts (en_state e)) = Some a -> moves a a' ->
  TransitionLegal (at_state a) (at_state a') = true -> attempt_wf (en_limits e) a' = true ->
  IsTerminalAttemptState (at_state a') = true -> outcome_of a' o -> outcome_wf o = true ->
  let m := (_ ← mutate host (Ev_AttemptTransition a');
            _ ← mutate host (Ev_Outcome o); update_report f) : Op unit in
  evolves e (m e).2 /\
  forall u e', m e = (Value u, e') -> exists n,
    en_state e' = with_sequence n (apply_outcome (en_limits e) o
                    (apply_attempt (en_limits e) a' (en_state e))).
Proof.
  intros Hok Hf Hm Hleg Hwf Hterm Ho Howf m. unfold m, mbind, Op_bind.
  pose proof (evolves_transition host Hfollows a a' e Hok Hf Hm Hleg Hwf) as Hev1.
  pose proof (mutate_spec host (Ev_AttemptTransition a') e Hok Hwf) as Hs1.
  destruct (mutate host (Ev_AttemptTransition a') e) as [[u1|status] e1] eqn:E1; cbn [snd] in *; [|done].
  pose proof (evolves_conclusion host Hfollows a a' o e e1 e1 u1 Hok Hf Hm Hleg Hwf Hterm Ho Howf E1
    (same_frame_refl e1) eq_refl) as Hev2.
  pose proof (engine_ok_evolves _ _ Hok Hev1) as Hok1.
  pose proof (mutate_spec host (Ev_Outcome o) e1 Hok1 Howf) as Hs2.
  destruct (mutate host (Ev_Outcome o) e1) as [[u2|status] e2] eqn:E2; cbn [snd] in *; [|done].
  split; [eapply evolves_trans; [exact Hev2|apply evolves_update_report]|].
  intros u e' [= _ <-]. destruct Hs1 as (Hfr & _ & n1 & Hs1), Hs2 as (_ & _ & n2 & Hs2).
  exists n2. unfold en_state at 1. cbn. fold (en_state e2). rewrite Hs2, Hs1.
  assert (en_limits e1 = en_limits e) as -> by (destruct Hfr as (H & _); unfold en_limits; by rewrite H).
  reflexivity.
Qed.

Variable now : Z.
Hypothesis Hnow : i64 now = true.

Definition fenced_outcome (a : AttemptRecord) : ReconciliationOutcome :=
  MakeOutcome (moved a AS_Fenced []) AS_Fenced RC_AttemptFencedByEpochAdvance false now.

Lemma revoke_concludes : body_concludes (revoke host now) (fun _ => AS_Fenced) fenced_outcome.
Proof.
  intros a e Hok Hf Hterm. unfold revoke. rewrite !get_bind. cbv beta zeta.
  set (a' := advance e a AS_Fenced now RC_AttemptFencedByEpochAdvance RC_None).
  assert (durable_wf (en_limits e) (en_state e) = true) as Hwf by (by destruct Hok as (_ & _ & ? & _)).
  destruct (attempt_found _ _ _ _ Hwf Hf) as [_ Ha].
  assert (attempt_wf (en_limits e) a' = true) as Ha' by (by apply advance_wf).
  destruct (conclude_body a a' (fenced_outcome a) count_revoked e) as [Hev Hone]; try done.
  - pose proof (attempt_wf_state _ _ Ha) as Hv. revert Hterm Hv. change (at_state a') with AS_Fenced.
    by destruct (at_state a).
  - exact (MakeOutcome_wf (en_limits e) a' AS_Fenced RC_AttemptFencedByEpochAdvance false now Ha'
      eq_refl Hnow).
  - split; [exact Hev|]. intros u e' He'. destruct (Hone u e' He') as [n Hn].
    by exists (at_transitions a'), n.
Qed.

Definition restart_target (a : AttemptRecord) : AttemptState :=
  if bool_decide (at_state a = AS_Issued) then AS_Abandoned else AS_Interrupted.
Definition restart_outcome (a : AttemptRecord) : ReconciliationOutcome :=
  MakeOutcome (moved a (restart_target a) []) (restart_target a)
    (if bool_decide (at_state a = AS_Issued) then RC_AttemptAbandoned
     else RC_AttemptInterruptedByRestart)
    (negb (bool_decide (at_state a = AS_Issued))) now.

Lemma fence_at_restart_concludes :
  body_concludes (fence_at_restart host now) restart_target restart_outcome.
Proof.
  intros a e Hok Hf Hterm. unfold fence_at_restart. rewrite !get_bind. cbv beta zeta.
  set (issued := bool_decide (at_state a = AS_Issued)).
  set (target := if negb issued then AS_Interrupted else AS_Abandoned).
  assert (target = restart_target a) as Htgt by (unfold target, restart_target, issued; by destruct (bool_decide _)).
  set (reason := if negb issued then RC_AttemptInterruptedByRestart else RC_AttemptAbandoned).
  set (t := mkTransition _ _ _ _ _ _ _). set (ts := if _ <? _ then _ else _).
  set (a' := moved a target ts).
  assert (durable_wf (en_limits e) (en_state e) = true) as Hwf by (by destruct Hok as (_ & _ & ? & _)).
  destruct (attempt_found _ _ _ _ Hwf Hf) as [_ Ha].
  pose proof (attempt_wf_fields _ _ Ha) as (_&_&_&_&_&_&_&_&_&T1&T2&T3).
  assert (reason_wf reason = true) as Hr by (unfold reason; by destruct issued).
  assert (attempt_wf (en_limits e) a' = true) as Ha'.
  { assert (transition_wf t = true) as Ht by (by apply new_transition_wf).
    pose proof Hok as (_ & Hl & _). apply engine_limits_split in Hl as [_ Hm].
    apply moved_wf; [done|unfold target; by destruct issued|..]; unfold ts;
      destruct (Z.ltb_spec (blen (at_transitions a)) (max_attempt_transitions (en_limits e)));
      rewrite ?blen_app, ?blen_cons, ?blen_nil; try lia; try done.
    by apply forallb_snoc. }
  assert (MakeOutcome a' target reason (negb issued) now = restart_outcome a) as Hout.
  { unfold restart_outcome. rewrite <- Htgt. unfold reason. fold issued. by destruct issued. }
  rewrite Hout.
  destruct (conclude_body a a' (restart_outcome a) (count_fenced (negb issued)) e Hok Hf) as [Hev Hone].
  - reflexivity.
  - pose proof (attempt_wf_state _ _ Ha) as Hv. revert Hterm Hv. change (at_state a') with target.
    unfold target, issued. by destruct (at_state a).
  - exact Ha'.
  - change (at_state a') with target. unfold target. by destruct issued.
  - rewrite <- Hout. exact (outcome_of_MakeOutcome a' reason (negb issued) now).
  - rewrite <- Hout. exact (MakeOutcome_wf (en_limits e) a' target reason (negb issued) now Ha' Hr Hnow).
  - split; [exact Hev|]. intros u e' He'. destruct (Hone u e' He') as [n Hn].
    exists ts, n. by rewrite <- Htgt.
Qed.
End Bodies.

(** ** The life-cycle requests *)

Section LifecycleRequests.
Variable host : Host.
Hypothesis Hhost : host_typed host = true.
Hypothesis Hfollows : follows host.

Definition completion_typed (request : CompletionRequest) : bool :=
  i64 (cq_at_unix_ms request) && reason_wf (cq_reason request).

Lemma evolves_late detail e : evolves e (late_completion detail e).2.
Proof. by apply evolves_state. Qed.

Lemma require_writable_Value e u e' :
  require_writable e = (Value u, e') -> e' = e /\ st_read_only (en_store e) = false.
Proof.
  unfold require_writable. rewrite get_bind. intros H. by apply refuse_if_Value in H as [? ->].
Qed.

Lemma evolves_Complete request e :
  engine_ok e -> completion_typed request = true -> evolves e (Engine_Complete host request e).2.
Proof.
  intros Hok Ht. unfold Engine_Complete. ev_bind. apply require_writable_Value in Hop as [-> _].
  rewrite get_bind. clear Hok0.
  destruct (om_find (cq_attempt request) (ds_attempts (en_state e))) as [a0|] eqn:Ef; [|auto with evolves].
  destruct (negb (bool_decide _)); [auto with evolves|].
  destruct (negb (live e (cq_epoch request) _)); [apply evolves_late|].
  destruct (negb (live e (at_epoch a0) _)); [apply evolves_late|].
  destruct (IsTerminalAttemptState (at_state a0)) eqn:Eterm; [ev_bind; auto with evolves|].
  destruct (TransitionLegal (at_state a0) (cq_target request)) eqn:Eleg; cbn [negb]; [|auto with evolves].
  cbv zeta.
  set (now := if cq_at_unix_ms request =? 0 then ho_now host else cq_at_unix_ms request).
  set (reason := if cq_reason request =? RC_None then _ else cq_reason request).
  set (a' := advance e a0 (cq_target request) now reason RC_None).
  unfold completion_typed, host_typed in *. bool_hyps.
  assert (i64 now = true) as Hnow by (unfold now; by destruct (_ =? 0)).
  assert (reason_wf reason = true) as Hr
    by (unfold reason; destruct (_ =? RC_None); [by destruct (cq_target request)|done]).
  pose proof (TransitionLegal_target _ _ Eleg) as [_ Hvalid].
  assert (durable_wf (en_limits e) (en_state e) = true) as Hwf by (by destruct Hok as (_ & _ & ? & _)).
  destruct (attempt_found _ _ _ _ Hwf Ef) as [Hid Ha0]. rewrite <- Hid in Ef.
  assert (attempt_wf (en_limits e) a' = true) as Ha' by (by apply advance_wf).
  unfold mbind at 1, Op_bind at 1.
  pose proof (evolves_transition host Hfollows a0 a' e Hok Ef eq_refl Eleg Ha') as Hev1.
  destruct (mutate host (Ev_AttemptTransition a') e) as [[u1|status] e1] eqn:E1; cbn [snd] in Hev1; [|done].
  pose proof (engine_ok_evolves _ _ Hok Hev1) as Hok1.
  rewrite count_bind.
  set (e2 := with_stats _ e1). assert (engine_ok e2) as Hok2.
  { eapply engine_ok_evolves; [exact Hok1|]. by apply evolves_state. }
  assert (forall A (m : Op A) (f : A -> Op ReconciliationOutcome), evolves e (m e2).2 ->
    (forall a e3, engine_ok e3 -> evolves e3 (f a e3).2) -> evolves e ((m ≫= f) e2).2) as Hseq.
  { intros A m f Hm Hf. unfold mbind, Op_bind. destruct (m e2) as [[x|st] e3]; cbn [snd] in Hm |- *; [|done].
    eapply evolves_trans; [exact Hm|]. apply Hf. exact (engine_ok_evolves _ _ Hok Hm). }
  apply Hseq; [|intros x e3 Hok3; ev_bind; auto with evolves].
  destruct (IsTerminalAttemptState (at_state a')) eqn:Et'.
  - apply (Hseq _ (mutate host _)); [|auto with evolves].
    eapply (evolves_conclusion host Hfollows a0 a' _ e e1 e2 u1); try done.
    exact (MakeOutcome_wf (en_limits e) a' _ reason _ now Ha' Hr Hnow).
  - eapply evolves_trans; [exact Hev1|]. by apply evolves_state.
Qed.

Definition verification_typed (evidence : VerificationEvidence) : bool :=
  i64 (vf_received_unix_ms evidence) && u64 (vf_generation evidence).

Lemma evolves_rejected {A} status e : evolves e ((rejected_verification status : Op A) e).2.
Proof. by apply evolves_state. Qed.

(** The attempt a verification moves, and the outcome it commits. *)
Definition verified_attempt (e : Engine) (target : AttemptRecord) (evidence : VerificationEvidence)
  : AttemptRecord :=
  let confirms := vf_confirms_effect evidence in
  advance e target (if confirms then AS_Verified else AS_Failed)
    (if vf_received_unix_ms evidence =? 0 then ho_now_again host else vf_received_unix_ms evidence)
    (if confirms then RC_AttemptVerified else RC_AttemptFailed)
    (if confirms then RC_AttemptVerified else RC_VerificationNotNewer).
Definition verified_outcome (e : Engine) (target : AttemptRecord) (evidence : VerificationEvidence)
  : ReconciliationOutcome :=
  let confirms := vf_confirms_effect evidence in
  with_verified_generation (vf_generation evidence)
    (MakeOutcome (verified_attempt e target evidence) (if confirms then AS_Verified else AS_Failed)
       (if confirms then RC_AttemptVerified else RC_AttemptFailed) (negb confirms)
       (if vf_received_unix_ms evidence =? 0 then ho_now_again host else vf_received_unix_ms evidence)).

Lemma record_verification_unfold e target evidence :
  record_verification host e target evidence =
  (_ ← mutate host (Ev_AttemptTransition (verified_attempt e target evidence));
   _ ← mutate host (Ev_Outcome (verified_outcome e target evidence));
   _ ← count_stat ST_verifications_accepted 1;
   _ ← MaybeCompactLocked host;
   mret (verified_outcome e target evidence)).
Proof. reflexivity. Qed.

Lemma verification_typed_parts e target evidence :
  engine_ok e -> verification_typed evidence = true ->
  om_find (at_id target) (ds_attempts (en_state e)) = Some target ->
  attempt_wf (en_limits e) (verified_attempt e target evidence) = true /\
  outcome_wf (verified_outcome e target evidence) = true.
Proof.
  intros Hok Ht Hf. unfold verified_outcome, verified_attempt.
  set (now := if vf_received_unix_ms evidence =? 0 then _ else _).
  set (next := if vf_confirms_effect evidence then AS_Verified else AS_Failed).
  set (reason := if vf_confirms_effect evidence then RC_AttemptVerified else RC_AttemptFailed).
  set (vr := if vf_confirms_effect evidence then _ else RC_VerificationNotNewer).
  set (a' := advance e target next now reason vr).
  unfold verification_typed, host_typed in *. bool_hyps.
  assert (i64 now = true) as Hnow by (unfold now; by destruct (_ =? 0)).
  assert (reason_wf reason = true /\ reason_wf vr = true) as [Hr Hvr]
    by (unfold reason, vr; by destruct (vf_confirms_effect evidence)).
  assert (durable_wf (en_limits e) (en_state e) = true) as Hwf by (by destruct Hok as (_ & _ & ? & _)).
  destruct (attempt_found _ _ _ _ Hwf Hf) as [_ Ha].
  assert (attempt_wf (en_limits e) a' = true) as Ha'
    by (apply advance_wf; try done; unfold next; by destruct (vf_confirms_effect evidence)).
  split; [exact Ha'|]. pose proof (MakeOutcome_wf (en_limits e) a' next reason
    (negb (vf_confirms_effect evidence)) now Ha' Hr Hnow) as How.
  unfold outcome_wf in *. bool_hyps. by bool_goal.
Qed.

Lemma evolves_record_verification target evidence e :
  engine_ok e -> verification_typed evidence = true ->
  om_find (at_id target) (ds_attempts (en_state e)) = Some target -> at_state target = AS_Applied ->
  evolves e (record_verification host e target evidence e).2.
Proof.
  intros Hok Ht Hf Happ. rewrite record_verification_unfold.
  destruct (verification_typed_parts e target evidence Hok Ht Hf) as [Ha' How].
  set (o := verified_outcome _ _ _) in *. set (a' := verified_attempt _ _ _) in *.
  assert (at_state a' = if vf_confirms_effect evidence then AS_Verified else AS_Failed) as Hst by done.
  assert (TransitionLegal (at_state target) (at_state a') = true) as Hleg.
  { rewrite Happ, Hst. by destruct (vf_confirms_effect evidence). }
  unfold mbind at 1, Op_bind at 1.
  pose proof (evolves_transition host Hfollows target a' e Hok Hf eq_refl Hleg Ha') as Hev1.
  destruct (mutate host (Ev_AttemptTransition a') e) as [[u1|status] e1] eqn:E1; cbn [snd] in Hev1; [|done].
  assert (evolves e (mutate host (Ev_Outcome o) e1).2) as Hev2.
  { eapply (evolves_conclusion host Hfollows target a' o e e1 e1 u1 Hok Hf eq_refl Hleg Ha'); try done.
    rewrite Hst. by destruct (vf_confirms_effect evidence). }
  unfold mbind at 1, Op_bind at 1.
  destruct (mutate host (Ev_Outcome o) e1) as [[u2|status] e2]; cbn [snd] in Hev2; [|done].
  eapply evolves_trans; [exact Hev2|]. pose proof (engine_ok_evolves _ _ Hok Hev2) as Hok2.
  repeat ev_bind. auto with evolves.
Qed.

Lemma evolves_Verify evidence e :
  engine_ok e -> verification_typed evidence = true -> evolves e (Engine_Verify host evidence e).2.
Proof.
  intros Hok Ht. unfold Engine_Verify. ev_bind. apply require_writable_Value in Hop as [-> _].
  rewrite get_bind. cbv zeta. clear Hok0.
  destruct (List.find _ _) as [target|] eqn:Ef; [|auto with evolves].
  destruct (negb _ || negb _); [auto with evolves|].
  destruct (negb (live _ _ _)); [auto with evolves|].
  destruct (bool_decide_reflect (at_state target = AS_Applied)) as [Happ|]; cbn [negb]; [|auto with evolves].
  destruct (require_independent_verification _ && _); [apply evolves_rejected|].
  destruct (negb (vf_received_epoch evidence =? _)); [apply evolves_rejected|].
  destruct (negb (_ <? _)); [apply evolves_rejected|].
  destruct (cited_observation _ _); [|apply evolves_rejected].
  destruct (negb _); [apply evolves_rejected|].
  apply evolves_record_verification; [done..| |done].
  apply find_some in Ef as [Hin _]. apply list_elem_of_In in Hin.
  eapply attempt_listed; [|done]. by destruct Hok as (_ & _ & ? & _).
Qed.

Lemma evolves_PutFence fence e :
  engine_ok e -> fence_wf fence = true -> evolves e (Engine_PutFence host fence e).2.
Proof.
  intros Hok Ht. unfold Engine_PutFence. ev_bind. apply require_writable_Value in Hop as [-> _].
  clear Hok0. ev_bind. apply refuse_if_Value in Hop as [_ ->]. clear Hok0.
  ev_bind. apply refuse_if_Value in Hop as [_ ->]. clear Hok0. cbv zeta.
  set (now := if fe_created_unix_ms fence =? 0 then _ else _).
  unfold host_typed in Hhost. bool_hyps.
  assert (i64 now = true) as Hnow.
  { unfold now, fence_wf in *. bool_hyps. by destruct (_ =? 0). }
  assert (fence_wf (stamped_fence fence now) = true) as Hfw.
  { unfold fence_wf in *. bool_hyps. cbn. by bool_goal. }
  apply evolves_bind; [done| |].
  { apply evolves_mutate; [done|done|exact Hfw|]. intros Hev. by apply ls_fenced. }
  intros u e1 He1 Hok1. rewrite get_bind.
  assert (durable_wf (en_limits e1) (en_state e1) = true) as Hwf by (by destruct Hok1 as (_ & _ & ? & _)).
  apply evolves_bind; [done| |intros; by apply evolves_MaybeCompactLocked].
  eapply (for_each_concludes (revoke host now) _ _ (revoke_concludes host Hfollows now Hnow)); [done| |].
  - by eapply picked_NoDup.
  - apply Forall_forall. intros a2 Ha2. fold (picked (victim_of (stamped_fence fence now)) (en_state e1)) in Ha2.
    apply (elem_picked _ _ _ _ Hwf) in Ha2 as [Hfnd Hv]. split; [done|].
    unfold victim_of in Hv. by bool_hyps.
Qed.

Lemma evolves_ClearFence id e :
  engine_ok e -> IsValidIdentityText id = true -> evolves e (Engine_ClearFence host id e).2.
Proof.
  intros Hok Ht. unfold Engine_ClearFence. ev_bind. rewrite get_bind. ev_bind.
  apply evolves_mutate; [done|done|done|]. intros Hev. by apply ls_cleared.
Qed.
End LifecycleRequests.

(** ** Dispatch *)

Section DispatchRequests.
Variable host : Host.
Hypothesis Hhost : host_typed host = true.
Hypothesis Hfollows : follows host.

Lemma new_attempt_wf e decision now :
  engine_ok e -> decision_typed decision = true -> de_disposition decision = DD_Actionable ->
  i64 now = true ->
  attempt_wf (en_limits e) (new_attempt e decision now) = true /\
  at_id (new_attempt e decision now) = ds_next_attempt (en_state e).
Proof.
  intros Hok Ht Ha Hn. pose proof Hok as (_ & Hl & Hwf & He & Hb).
  apply engine_limits_split in Hl as [_ Hm]. unfold durable_wf in Hwf. bool_hyps.
  unfold decision_typed in Ht. rewrite Ha in Ht. cbn [negb orb] in Ht.
  rewrite bool_decide_eq_true_2 in Ht by done. cbn [negb orb] in Ht. bool_hyps.
  assert (at_id (new_attempt e decision now) = ds_next_attempt (en_state e)) as Hid.
  { cbn. by rewrite (proj2 (Z.eqb_neq _ _)). }
  split; [|done]. unfold attempt_wf. rewrite Hid.
  cbn [new_attempt at_idempotency_key at_scope at_subject at_epoch at_boot at_authority at_state
       at_issued_unix_ms at_transitions].
  rewrite blen_cons. change (blen (@nil AttemptTransition)) with 0. cbn [forallb].
  rewrite (new_transition_wf e AS_Issued AS_Dispatched now RC_AttemptIssued RC_None Hok Hn eq_refl eq_refl).
  bool_goal; try done; try (by apply Z.eqb_neq); lia.
Qed.

Lemma next_after_issue limits a s :
  at_id a = ds_next_attempt s -> 0 <= at_id a < 2 ^ 64 - 1 ->
  ds_next_attempt (apply_attempt limits a s) = ds_next_attempt s + 1.
Proof.
  intros Hid Hr. cbn [apply_attempt with_attempts ds_next_attempt]. rewrite Hid, Z.leb_refl.
  unfold wrap. rewrite Z.mod_small by lia. by rewrite (proj2 (Z.eqb_neq _ _)) by lia.
Qed.

Lemma evolves_dispatch_decisions intent now decisions : forall result e,
  engine_ok e -> i64 now = true -> forallb decision_typed decisions = true ->
  ds_next_attempt (en_state e) + blen decisions < 2 ^ 64 ->
  evolves e (dispatch_decisions host intent now decisions result e).2.
Proof.
  induction decisions as [|d decisions IH]; intros result e Hok Hn Ht Hroom; cbn [dispatch_decisions].
  - auto with evolves.
  - cbn [forallb] in Ht. bool_hyps. rewrite blen_cons in Hroom. pose proof (blen_nonneg decisions).
    destruct (bool_decide_reflect (de_disposition d = DD_Actionable)) as [Ha|Ha]; cbn [negb];
      [|apply IH; (done || lia)].
    rewrite get_bind. destruct (FenceHoldsFor _ _ _ _) eqn:Efence; [apply IH; (done || lia)|].
    destruct (find_reusable _ _ _) eqn:Ereuse; [apply IH; (done || lia)|]. cbv zeta.
    destruct (new_attempt_wf e d now Hok H Ha Hn) as [Hwf Hid].
    assert (0 <= ds_next_attempt (en_state e)) as Hpos.
    { destruct Hok as (_ & _ & Hdw & _). unfold durable_wf in Hdw. bool_hyps. by eapply u_nonneg. }
    assert (evolves e (mutate host (Ev_AttemptIssued (new_attempt e d now)) e).2) as Hev.
    { apply evolves_mutate; [done|done|exact Hwf|]. intros Hevwf. by apply ls_issued; try done; rewrite Hid; lia. }
    pose proof (mutate_spec host (Ev_AttemptIssued (new_attempt e d now)) e Hok Hwf) as Hs.
    unfold mbind at 1, Op_bind at 1.
    destruct (mutate host (Ev_AttemptIssued (new_attempt e d now)) e) as [[u|status] e1]; cbn [snd] in *; [|done].
    eapply evolves_trans; [exact Hev|]. rewrite count_bind.
    set (e2 := with_stats _ e1).
    assert (evolves e1 e2) as Hev2 by (by apply evolves_state).
    eapply evolves_trans; [exact Hev2|]. apply IH; [|done|done|].
    + exact (engine_ok_evolves _ _ (engine_ok_evolves _ _ Hok Hev) Hev2).
    + destruct Hs as (_ & _ & n & Hs). change (en_state e2) with (en_state e1). rewrite Hs.
      change (ds_next_attempt (apply_attempt (en_limits e) (new_attempt e d now) (en_state e)) +
        blen decisions < 2 ^ 64). rewrite next_after_issue by (rewrite ?Hid; lia). lia.
Qed.

Lemma evolves_Dispatch plan e :
  engine_ok e -> forallb decision_typed (pl_decisions plan) = true ->
  ds_next_attempt (en_state e) + blen (pl_decisions plan) < 2 ^ 64 ->
  evolves e (Engine_Dispatch host plan e).2.
Proof.
  intros Hok Ht Hroom. unfold Engine_Dispatch. ev_bind. apply require_writable_Value in Hop as [-> _].
  clear Hok0. rewrite get_bind.
  do 3 (ev_bind; match goal with H : refuse_if _ _ _ = _ |- _ => apply refuse_if_Value in H as [_ ->] end;
        match goal with H : engine_ok e, H' : engine_ok e |- _ => clear H' end).
  destruct (bound_intent e plan) as [intent|]; [|auto with evolves].
  ev_bind. apply refuse_if_Value in Hop as [_ ->]. clear Hok0.
  apply evolves_bind; [done| |intros; ev_bind; auto with evolves].
  unfold host_typed in Hhost. bool_hyps. by apply evolves_dispatch_decisions.
Qed.
End DispatchRequests.

(** ** Serving requests *)

(** Every operation of the engine's interface that can change it, and its planning queries. *)
Inductive Request :=
| RQ_PutPolicy (policy : ReconciliationPolicy) (allow_same_version : bool)
| RQ_CommitIntent (document : IntentDocument)
| RQ_RecordObservation (submission : ObservationSubmission) (stamp_unix_ms : Z)
| RQ_Classify (scope : bytes) (now_unix_ms : Z)
| RQ_Plan (request : PlanRequest)
| RQ_Dispatch (plan : ReconciliationPlan)
| RQ_Complete (request : CompletionRequest)
| RQ_Verify (evidence : VerificationEvidence)
| RQ_PutFence (fence : FenceEntry)
| RQ_ClearFence (fence : bytes)
| RQ_Compact
| RQ_Flush (io : WriteIo).

Definition forget {A} (m : Op A) : Op unit := _ ← m; mret tt.

Definition serve (host : Host) (request : Request) : Op unit :=
  match request with
  | RQ_PutPolicy policy allow => forget (Engine_PutPolicy host policy allow)
  | RQ_CommitIntent document => forget (Engine_CommitIntent host document)
  | RQ_RecordObservation submission stamp => forget (RecordObservationAt host submission stamp)
  | RQ_Classify scope now => forget (Engine_Classify host scope now)
  | RQ_Plan request => forget (Engine_Plan host request)
  | RQ_Dispatch plan => forget (Engine_Dispatch host plan)
  | RQ_Complete request => forget (Engine_Complete host request)
  | RQ_Verify evidence => forget (Engine_Verify host evidence)
  | RQ_PutFence fence => Engine_PutFence host fence
  | RQ_ClearFence fence => Engine_ClearFence host fence
  | RQ_Compact => Engine_Compact host
  | RQ_Flush io => Engine_Flush io
  end.

(** The request can be built from the runtime's types, and the attempt counter has room. *)
Definition request_ok (e : Engine) (request : Request) : bool :=
  match request with
  | RQ_PutPolicy policy _ => policy_typed policy
  | RQ_CommitIntent document => intent_typed (en_limits e) document
  | RQ_RecordObservation submission stamp =>
    submission_wf (en_limits e) submission && i64 stamp
  | RQ_Dispatch plan =>
    forallb decision_typed (pl_decisions plan) &&
    (ds_next_attempt (en_state e) + blen (pl_decisions plan) <? 2 ^ 64)
  | RQ_Complete request => completion_typed request
  | RQ_Verify evidence => verification_typed evidence
  | RQ_PutFence fence => fence_wf fence
  | RQ_ClearFence fence => IsValidIdentityText fence
  | RQ_Classify _ _ | RQ_Plan _ | RQ_Compact | RQ_Flush _ => true
  end.

Lemma evolves_forget {A} (m : Op A) e : evolves e (m e).2 -> evolves e (forget m e).2.
Proof. unfold forget, mbind, Op_bind. by destruct (m e) as [[a|status] e']. Qed.

Lemma evolves_classify_counted input e : evolves e (classify_counted input e).2.
Proof. unfold classify_counted. destruct (ClassifyScope input); by apply evolves_state. Qed.

Lemma evolves_Plan host request e : engine_ok e -> evolves e (Engine_Plan host request e).2.
Proof.
  intros Hok. unfold Engine_Plan, BuildPlanLocked. ev_bind. rewrite get_bind. ev_bind. cbv zeta.
  apply evolves_bind; [done|apply evolves_classify_counted|]. intros report e3 _ Hok3.
  destruct (make_plan _ _ _ _) as [plan revoked]. repeat ev_bind. auto with evolves.
Qed.

Lemma evolves_Classify host scope now e : engine_ok e -> evolves e (Engine_Classify host scope now e).2.
Proof.
  intros Hok. unfold Engine_Classify. rewrite get_bind. ev_bind. unfold ClassifyLocked. rewrite get_bind.
  apply evolves_classify_counted.
Qed.

Lemma evolves_Flush io e : engine_ok e -> evolves e (Engine_Flush io e).2.
Proof.
  intros Hok. unfold Engine_Flush. pose proof (ss_sync (en_limits e) io (en_store e)) as Hv.
  unfold Store_SyncJournal in *. destruct (Sync _ _) as [status j].
  eapply evolves_trans; [|apply evolves_check]. split_and!; [done|apply rtc_refl|by apply rtc_once].
Qed.

(** Every request moves the engine along legal steps only. *)
Lemma serve_evolves host request e :
  engine_ok e -> host_typed host = true -> follows host -> request_ok e request = true ->
  evolves e (serve host request e).2.
Proof.
  intros Hok Hh Hfo Hr. destruct request; cbn [serve request_ok] in *; bool_hyps; try apply evolves_forget.
  - by apply evolves_PutPolicy.
  - by apply evolves_CommitIntent.
  - by apply evolves_RecordObservationAt.
  - by apply evolves_Classify.
  - by apply evolves_Plan.
  - by apply evolves_Dispatch.
  - by apply evolves_Complete.
  - by apply evolves_Verify.
  - by apply evolves_PutFence.
  - by apply evolves_ClearFence.
  - unfold Engine_Compact. ev_bind. by apply evolves_compact_store.
  - by apply evolves_Flush.
Qed.
End Disciplined.
