(* ===== verification/EngineSafety.v ===== *)
(** * What the engine guarantees over its whole life

    Consequences of the refinement of [EngineRuns]: the history of every attempt, the
    monotonicity of policies and intents, the termination of the life-cycle, what a restart and
    a fence revoke, and which requests are refused. *)

From Stdlib Require Import ZArith Lia.
From stdpp Require Import prelude.
From S2P Require Import Prelude OrdMap Hash Status Identity Canonical Value Policy Document Drift.
From S2P Require Import Authority Plan Lineage Journal Snapshot StoreState Store Engine Planner.
From S2P Require Import Lifecycle EngineRuns.
Local Open Scope Z_scope.

Local Opaque EncodePolicy EncodeIntent EncodeObservation EncodeAttemptRecord EncodeOutcome EncodeFence.

(** ** Runs of requests *)

(** One request, served or refused, with whatever the host answered. *)
Definition request_step `{Discipline} (e e' : Engine) : Prop :=
  exists host request, host_typed host = true /\ follows host /\ request_ok e request = true /\
    (serve host request e).2 = e'.

Definition served `{Discipline} : Engine -> Engine -> Prop := rtc request_step.

Lemma served_evolves `{Discipline} e e' : engine_ok e -> served e e' -> evolves e e'.
Proof.
  intros Hok Hs. induction Hs as [e|e1 e2 e3 (host & request & Hh & Hfo & Hr & <-) Hs IH].
  - apply evolves_refl.
  - pose proof (serve_evolves host request e1 Hok Hh Hfo Hr) as Hev.
    eapply evolves_trans; [exact Hev|]. apply IH. exact (engine_ok_evolves _ _ Hok Hev).
Qed.

(** ** Operations that leave a component of the engine alone *)

Definition keeps {A X} (f : Engine -> X) (m : Op A) : Prop := forall e, f (m e).2 = f e.

Section Keeps.
Context {X : Type} (f : Engine -> X).

Lemma keeps_bind {A C} (m : Op A) (g : A -> Op C) : keeps f m -> (forall a, keeps f (g a)) -> keeps f (m ≫= g).
Proof.
  intros Hm Hg e. unfold mbind, Op_bind. specialize (Hm e). destruct (m e) as [[a|status] e1]; [|done].
  cbn [snd] in Hm. by rewrite (Hg a e1).
Qed.
Lemma keeps_fail {A} status : keeps f (Engine.fail status : Op A).
Proof. done. Qed.
Lemma keeps_check status : keeps f (check status).
Proof. intros e. unfold check. by destruct (Status_ok status). Qed.
Lemma keeps_refuse c status : keeps f (refuse_if c status).
Proof. intros e. by destruct c. Qed.
Lemma keeps_modify g : (forall e, f (g e) = f e) -> keeps f (modify g).
Proof. intros H e. exact (H e). Qed.
Lemma keeps_get : keeps f get.
Proof. done. Qed.
Lemma keeps_ret {A} (a : A) : keeps f (mret a).
Proof. done. Qed.
Lemma keeps_for_each {A} (body : A -> Op unit) l : (forall a, keeps f (body a)) -> keeps f (for_each body l).
Proof. intros H. induction l as [|a l IH]; [apply keeps_ret|]. apply keeps_bind; [apply H|done]. Qed.
End Keeps.

Lemma keeps_mutate host event : keeps en_options (mutate host event).
Proof. intros e. unfold mutate. destruct (mutation _ _ _) as [status store]. by rewrite keeps_check. Qed.
Lemma keeps_report f : keeps en_options (update_report f).
Proof. by apply keeps_modify. Qed.
Lemma keeps_stat field n : keeps en_state (count_stat field n).
Proof. by apply keeps_modify. Qed.

Create HintDb keeps.
#[local] Hint Resolve keeps_bind keeps_fail keeps_check keeps_refuse keeps_modify keeps_get keeps_ret keeps_for_each
  keeps_mutate keeps_report keeps_stat : keeps.

Ltac keeps_solve :=
  repeat (first [apply keeps_bind; [|intros ?] | apply keeps_for_each; intros ? | progress cbv zeta
    | match goal with |- keeps _ (if ?c then _ else _) => destruct c end
    | match goal with |- keeps _ (let '(_, _) := ?x in _) => destruct x end
    | match goal with |- keeps _ (match ?x with _ => _ end) => destruct x end | solve [auto with keeps]]).

Lemma keeps_boot host : keeps en_options (boot_writable host).
Proof. unfold boot_writable, install_policy, CommitRestartFencing, fence_at_restart. keeps_solve. Qed.

Lemma keeps_Plan host request : keeps en_state (Engine_Plan host request).
Proof. unfold Engine_Plan, BuildPlanLocked, classify_counted. keeps_solve. Qed.

(** ** The history of attempts *)

(** [a'] is a later version of the attempt [a]. *)
Definition progressed (a a' : AttemptRecord) : Prop :=
  moves a a' /\ rtc (fun x y => TransitionLegal x y = true) (at_state a) (at_state a') /\
  (terminal a = true -> a' = a).

(** What a run may do to the table of attempts: identities are never reused, and an attempt
    still there has progressed. *)
Definition lineage_kept (s s' : DurableState) : Prop :=
  ds_next_attempt s <= ds_next_attempt s' /\ ids_below_next s' = true /\
  (forall id, id < ds_next_attempt s -> om_find id (ds_attempts s) = None ->
     om_find id (ds_attempts s') = None) /\
  (forall id a a', om_find id (ds_attempts s) = Some a -> om_find id (ds_attempts s') = Some a' ->
     progressed a a').

Lemma progressed_refl a : progressed a a.
Proof. split; [by destruct a|]. split; [apply rtc_refl|done]. Qed.

Lemma progressed_trans a b c : progressed a b -> progressed b c -> progressed a c.
Proof.
  intros (M1 & R1 & T1) (M2 & R2 & T2). split; [|split].
  - unfold moves in *. rewrite M2, M1. reflexivity.
  - by etransitivity.
  - intros Ht. rewrite (T1 Ht) in *. by apply T2.
Qed.

Lemma ids_below s id a :
  ids_below_next s = true -> om_find id (ds_attempts s) = Some a -> id < ds_next_attempt s.
Proof.
  unfold ids_below_next. intros Hb Hf. apply (om_find_wf _ _ _ _ Hb) in Hf. cbn in Hf. by bool_hyps.
Qed.

Lemma lineage_kept_trans s1 s2 s3 :
  ids_below_next s1 = true -> lineage_kept s1 s2 -> lineage_kept s2 s3 -> lineage_kept s1 s3.
Proof.
  intros Hb (N1 & B1 & A1 & P1) (N2 & B2 & A2 & P2). split; [lia|]. split; [done|]. split.
  - intros id Hid Hnone. apply A2; [lia|]. by apply A1.
  - intros id a a3 H1 H3. pose proof (ids_below _ _ _ Hb H1) as Hid.
    destruct (om_find id (ds_attempts s2)) as [a2|] eqn:H2.
    + eapply progressed_trans; [by eapply P1|by eapply P2].
    + rewrite A2 in H3; [done|lia|done].
Qed.

(** A state with the same attempts. *)
Lemma lineage_kept_same s s' :
  ids_below_next s = true -> ds_next_attempt s' = ds_next_attempt s ->
  ds_attempts s' = ds_attempts s -> lineage_kept s s'.
Proof.
  intros Hb Hn Ha. unfold lineage_kept, ids_below_next in *. rewrite Hn, Ha. split; [lia|].
  split; [done|]. split; [done|]. intros id a a' H1 H2. rewrite H1 in H2. injection H2 as <-.
  apply progressed_refl.
Qed.

Lemma moves_id a a' : moves a a' -> at_id a' = at_id a.
Proof. intros H. rewrite H. reflexivity. Qed.

Section Lineage.
Variable limits : RuntimeLimits.

(** Recording an attempt, new or moved. *)
Lemma apply_attempt_lineage a s :
  durable_wf limits s = true -> ids_below_next s = true -> 0 <= at_id a < 2 ^ 64 - 1 ->
  at_id a <= ds_next_attempt s ->
  (at_id a < ds_next_attempt s -> exists a0, om_find (at_id a) (ds_attempts s) = Some a0 /\ progressed a0 a) ->
  lineage_kept s (apply_attempt limits a s).
Proof.
  intros Hwf Hb Hr Hle Hold. pose proof (attempts_sorted _ _ Hwf) as Hs.
  assert (om_sorted (om_insert (at_id a) a (ds_attempts s)) = true) as Hs' by (by apply om_sorted_insert).
  split; [|split; [by apply apply_attempt_fresh|split]].
  - cbn [apply_attempt with_attempts ds_next_attempt]. unfold wrap. rewrite Z.mod_small by lia.
    destruct (Z.leb_spec (ds_next_attempt s) (at_id a));
      match goal with |- context [?x =? 0] => destruct (Z.eqb_spec x 0) end; lia.
  - intros id Hid Hnone. cbn [apply_attempt with_attempts ds_attempts].
    destruct (om_find id (TrimAttempts _ _)) as [x|] eqn:Ex; [|done].
    apply TrimAttempts_find in Ex; [|done]. destruct (decide (id = at_id a)) as [->|Hne].
    + destruct (Hold Hid) as (a0 & H0 & _). congruence.
    + by rewrite om_find_insert_ne, Hnone in Ex.
  - intros id x y Hx Hy. cbn [apply_attempt with_attempts ds_attempts] in Hy.
    apply TrimAttempts_find in Hy; [|done]. destruct (decide (id = at_id a)) as [->|Hne].
    + rewrite om_find_insert_eq in Hy. injection Hy as <-. pose proof (ids_below _ _ _ Hb Hx).
      destruct (Hold ltac:(done)) as (a0 & H0 & Hp). rewrite Hx in H0. by injection H0 as ->.
    + rewrite om_find_insert_ne, Hx in Hy by done. injection Hy as ->. apply progressed_refl.
Qed.

Lemma legal_progressed a a' :
  moves a a' -> TransitionLegal (at_state a) (at_state a') = true -> progressed a a'.
Proof.
  intros Hm Hl. split; [done|]. split; [by apply rtc_once|].
  apply TransitionLegal_target in Hl as [Ht _]. unfold terminal. by rewrite Ht.
Qed.

(** Identities that were issued stay clear of the end of the counter. *)
Definition counter_open (s : DurableState) : Prop :=
  0 < ds_next_attempt s < 2 ^ 64 /\ ids_below_next s = true.

Lemma counter_open_id s id a :
  counter_open s -> durable_wf limits s = true -> om_find id (ds_attempts s) = Some a ->
  0 <= id < 2 ^ 64 - 1.
Proof.
  intros [Hn Hb] Hwf Hf. pose proof (ids_below _ _ _ Hb Hf).
  destruct (attempt_found _ _ _ _ Hwf Hf) as [<- Ha]. apply attempt_wf_fields in Ha as (Hu & _).
  apply u_range in Hu. lia.
Qed.

Variables (epoch : Z) (boot : bytes).

Lemma step_lineage s s' :
  durable_wf limits s = true -> counter_open s -> lifecycle_step limits epoch boot s s' ->
  lineage_kept s s' /\ counter_open s'.
Proof.
  intros Hwf Hc Hstep. pose proof Hc as [Hn Hb].
  assert (forall a a', om_find (at_id a) (ds_attempts s) = Some a -> moves a a' ->
    TransitionLegal (at_state a) (at_state a') = true ->
    lineage_kept s (apply_attempt limits a' s) /\ counter_open (apply_attempt limits a' s)) as Hmv.
  { intros a a' Hf Hm Hl. pose proof (moves_id _ _ Hm) as Hid.
    pose proof (counter_open_id _ _ _ Hc Hwf Hf) as Hr. pose proof (ids_below _ _ _ Hb Hf) as Hlt.
    assert (lineage_kept s (apply_attempt limits a' s)) as Hk.
    { apply apply_attempt_lineage; try done; rewrite Hid; [done|lia|]. intros _. exists a.
      split; [done|]. by apply legal_progressed. }
    split; [done|]. destruct Hk as (_ & Hb' & _). split; [|done].
    cbn [apply_attempt with_attempts ds_next_attempt]. rewrite Hid.
    rewrite (proj2 (Z.leb_gt _ _)) by lia. rewrite (proj2 (Z.eqb_neq _ _)) by lia. lia. }
  destruct Hstep as [s n|s n _|s p _ _|s d _ _|s d _ _ _|s a _ Hid Hlt _ _ _ _ _|s a a' _ Hf Hm Hl|
    s a a' o _ _ Hf Hm Hl _ _|s f _|s id _].
  1-5, 9-10: by split; [apply lineage_kept_same|].
  - assert (lineage_kept s (apply_attempt limits a s)) as Hk.
    { apply apply_attempt_lineage; try done; lia. }
    split; [done|]. destruct Hk as (_ & Hb' & _). split; [|done].
    rewrite next_after_issue by (done || lia). lia.
  - by apply (Hmv a a').
  - by apply (Hmv a a').
Qed.

Hypothesis Hlimits : retention_wf limits = true.

Lemma steps_lineage s s' :
  durable_wf limits s = true -> counter_open s -> rtc (lifecycle_step limits epoch boot) s s' ->
  lineage_kept s s' /\ counter_open s'.
Proof.
  intros Hwf Hc Hs. induction Hs as [s|s1 s2 s3 H12 H23 IH].
  - split; [|done]. apply lineage_kept_same; try done. by destruct Hc.
  - destruct (step_lineage _ _ Hwf Hc H12) as [Hk Hc2].
    destruct IH as [Hk3 Hc3]; [by eapply step_wf|done|]. split; [|done].
    eapply lineage_kept_trans; [by destruct Hc|done|done].
Qed.

(** *** Policies, intents and the epoch *)

(** Policies and intents only move forward. *)
Definition advanced (s s' : DurableState) : Prop :=
  ds_last_epoch s' = ds_last_epoch s /\
  (ds_has_policy s = true -> ds_has_policy s' = true /\
     (ds_policy s' = ds_policy s \/ po_version (ds_policy s) < po_version (ds_policy s'))) /\
  (forall scope d, om_find scope (ds_intents s) = Some d -> exists d',
     om_find scope (ds_intents s') = Some d' /\ (d' = d \/ in_generation d < in_generation d')).

Lemma advanced_same s s' :
  ds_last_epoch s' = ds_last_epoch s -> ds_has_policy s' = ds_has_policy s ->
  ds_policy s' = ds_policy s -> ds_intents s' = ds_intents s -> advanced s s'.
Proof. intros H1 H2 H3 H4. unfold advanced. rewrite H1, H2, H3, H4. naive_solver. Qed.

Lemma advanced_trans s1 s2 s3 : advanced s1 s2 -> advanced s2 s3 -> advanced s1 s3.
Proof.
  intros (E1 & P1 & I1) (E2 & P2 & I2). split; [congruence|]. split.
  - intros H. destruct (P1 H) as [H2 V1], (P2 H2) as [H3 V2]. split; [done|].
    destruct V1 as [V1|V1], V2 as [V2|V2]; rewrite ?V1, ?V2 in *; first [by left|right; lia|right; congruence].
  - intros scope d Hd. destruct (I1 _ _ Hd) as (d2 & H2 & V1), (I2 _ _ H2) as (d3 & H3 & V2).
    exists d3. split; [done|]. destruct V1 as [->|V1], V2 as [->|V2]; first [by left|right; lia].
Qed.

Lemma step_advanced s s' : lifecycle_step limits epoch boot s s' -> advanced s s'.
Proof.
  intros Hstep. destruct Hstep as [s n|s n _|s p _ Hv|s d _ Hg|s d _ _ _|s a _ _ _ _ _ _ _ _|s a a' _ _ _ _|
    s a a' o _ _ _ _ _ _ _|s f _|s id _].
  1-2, 5-10: by apply advanced_same.
  - split; [done|]. split; [|naive_solver]. intros H. split; [done|]. right. by apply Hv.
  - split; [done|]. split; [naive_solver|]. intros scope d0 H0.
    cbn [apply_intent with_intents ds_intents]. destruct (decide (scope = in_scope d)) as [->|Hne].
    + exists d. split; [apply om_find_insert_eq|]. right. by apply Hg.
    + exists d0. split; [by rewrite om_find_insert_ne|by left].
Qed.

Lemma steps_advanced s s' : rtc (lifecycle_step limits epoch boot) s s' -> advanced s s'.
Proof.
  intros H. induction H as [s|s1 s2 s3 H12 H23 IH]; [by apply advanced_same|].
  eapply advanced_trans; [by apply step_advanced|done].
Qed.
End Lineage.

(** ** The life-cycle ends *)

(** How far an attempt is along its life. *)
Definition attempt_rank (s : AttemptState) : nat :=
  match s with
  | AS_Issued => 4 | AS_Dispatched => 3 | AS_Acknowledged => 2 | AS_Applied => 1 | _ => 0
  end.

Lemma TransitionLegal_rank from to :
  TransitionLegal from to = true -> (attempt_rank to < attempt_rank from)%nat.
Proof. destruct from, to; cbn; (done || lia). Qed.

(** ** Restart *)

Section Restart.
Variable host : Host.
Hypothesis Hhost : host_typed host = true.

Lemma mutate_epoch_newer next e u e' :
  mutate host (Ev_Epoch next) e = (Value u, e') -> ds_last_epoch (en_state e) < next.
Proof.
  unfold mutate. cbn [mutation]. unfold Store_AdvanceEpoch.
  destruct (st_read_only (en_store e)); [done|]. fold (en_state e).
  destruct (Z.leb_spec next (ds_last_epoch (en_state e))); [done|lia].
Qed.

(** The parts of the state a boot carries over. *)
Definition carried (s s' : DurableState) : Prop :=
  ds_attempts s' = ds_attempts s /\ ds_outcomes s' = ds_outcomes s /\
  ds_intents s' = ds_intents s /\ ds_observations s' = ds_observations s /\
  ds_fences s' = ds_fences s.

Lemma DefaultPolicy_typed : policy_typed DefaultPolicy = true.
Proof. vm_compute. reflexivity. Qed.

Lemma install_policy_spec e u e' :
  engine_ok e -> policy_typed (eo_initial_policy (en_options e)) = true ->
  install_policy host e = (Value u, e') ->
  engine_ok e' /\ same_frame e e' /\ carried (en_state e) (en_state e') /\
  ds_last_epoch (en_state e') = ds_last_epoch (en_state e) /\ ds_has_policy (en_state e') = true.
Proof.
  intros Hok Ht. unfold install_policy. rewrite get_bind.
  destruct (ds_has_policy (en_state e)) eqn:Hp.
  { intros [= _ <-]. done. }
  intros H. apply bind_Value in H as (u1 & e1 & H1 & H). apply refuse_if_Value in H1 as [_ ->].
  cbv zeta in H.
  set (policy := if is_empty _ then DefaultPolicy else _) in H.
  assert (policy_typed policy = true) as Htp
    by (unfold policy; destruct (is_empty _); [apply DefaultPolicy_typed|done]).
  pose proof (CanonicalisePolicy_typed (en_limits e) policy Htp) as Hwf.
  destruct (CanonicalisePolicy policy (en_limits e)) as [status canonical].
  apply bind_Value in H as (u2 & e2 & H2 & H). apply check_Value in H2 as [Hs ->].
  pose proof (mutate_spec host (Ev_Policy canonical) e Hok (Hwf Hs)) as Hm. rewrite H in Hm.
  destruct Hm as (Hf & Hevwf & n & Hst). split.
  - apply (engine_ok_frame e); [done|done|]. rewrite Hst. pose proof Hok as (_ & Hl & Hd & _).
    apply engine_limits_split in Hl as [Hl _].
    exact (apply_event_wf (en_limits e) Hl (Ev_Policy canonical) (en_state e) Hd Hevwf).
  - split; [exact Hf|]. rewrite Hst. by repeat split.
Qed.

(** What a writable boot leaves of the state it finds. *)
Definition restarted (limits : RuntimeLimits) (now : Z) (s s' : DurableState) : Prop :=
  let victims := picked (fun a => negb (IsTerminalAttemptState (at_state a))) s in
  ds_last_epoch s' = ds_last_epoch s + 1 /\ ds_has_policy s' = true /\
  ds_intents s' = ds_intents s /\ ds_observations s' = ds_observations s /\
  ds_fences s' = ds_fences s /\
  ds_outcomes s' = keep_last (max_retained_outcomes limits)
                     (ds_outcomes s ++ map (restart_outcome now) victims) /\
  forall id x, om_find id (ds_attempts s') = Some x ->
    terminal x = true /\
    exists a, om_find id (ds_attempts s) = Some a /\
      (terminal a = true /\ x = a \/
       terminal a = false /\ exists transitions, x = moved a (restart_target a) transitions).

Lemma CommitRestartFencing_concludes `{Discipline} e :
  follows host -> engine_ok e ->
  evolves e (CommitRestartFencing host e).2 /\
  forall u e', CommitRestartFencing host e = (Value u, e') ->
    concluded restart_target (restart_outcome (ho_now host)) (en_limits e)
      (picked (fun a => negb (IsTerminalAttemptState (at_state a))) (en_state e))
      (en_state e) (en_state e').
Proof.
  intros Hfo Hok. unfold CommitRestartFencing. rewrite get_bind.
  assert (durable_wf (en_limits e) (en_state e) = true) as Hwf by (by destruct Hok as (_ & _ & ? & _)).
  unfold host_typed in Hhost. bool_hyps.
  apply (for_each_concludes (fence_at_restart host (ho_now host)) _ _
    (fence_at_restart_concludes host Hfo (ho_now host) ltac:(done))
    (picked (fun a => negb (IsTerminalAttemptState (at_state a))) (en_state e)) e Hok).
  - by eapply picked_NoDup.
  - apply Forall_forall. intros a Ha. apply (elem_picked _ _ _ _ Hwf) in Ha as [Hf Hn].
    split; [done|]. by bool_hyps.
Qed.

Lemma CommitRestartFencing_spec e u e' :
  engine_ok e -> CommitRestartFencing host e = (Value u, e') ->
  engine_ok e' /\ same_frame e e' /\
  concluded restart_target (restart_outcome (ho_now host)) (en_limits e)
    (picked (fun a => negb (IsTerminalAttemptState (at_state a))) (en_state e))
    (en_state e) (en_state e').
Proof.
  intros Hok He'. destruct (CommitRestartFencing_concludes e (follows_any host) Hok) as [Hev Hc].
  specialize (Hc u e' He'). rewrite He' in Hev. cbn [snd] in Hev.
  split; [exact (engine_ok_evolves _ _ Hok Hev)|]. split; [by destruct Hev|done].
Qed.

Lemma restart_target_terminal a : IsTerminalAttemptState (restart_target a) = true.
Proof. unfold restart_target. by destruct (bool_decide _). Qed.

Lemma concluded_all limits now s s' :
  durable_wf limits s = true ->
  concluded restart_target (restart_outcome now) limits
    (picked (fun a => negb (IsTerminalAttemptState (at_state a))) s) s s' ->
  forall id x, om_find id (ds_attempts s') = Some x ->
    terminal x = true /\
    exists a, om_find id (ds_attempts s) = Some a /\
      (terminal a = true /\ x = a \/
       terminal a = false /\ exists transitions, x = moved a (restart_target a) transitions).
Proof.
  intros Hwf (_ & _ & Hf & _) id x Hx. destruct (Hf id x Hx) as [[Hn H0]|(a & ts & Ha & Hid & ->)].
  - assert (terminal x = true) as Ht.
    { destruct (terminal x) eqn:E; [done|]. exfalso. apply Hn.
      destruct (attempt_found _ _ _ _ Hwf H0) as [<- _].
      apply list_elem_of_In, in_map, list_elem_of_In. apply (elem_picked _ _ _ _ Hwf).
      split; [done|]. unfold terminal in E. by rewrite E. }
    split; [done|]. exists x. split; [done|]. by left.
  - apply (elem_picked _ _ _ _ Hwf) in Ha as [Hfa Hn]. bool_hyps. split.
    + exact (restart_target_terminal a).
    + exists a. rewrite <- Hid. split; [done|]. right. split; [done|]. by exists ts.
Qed.

(** The incarnation that a committed epoch starts. *)
Lemma epoch_engine_ok e n u e' report :
  engine_ok e -> mutate host (Ev_Epoch (wrap 64 n)) e = (Value u, e') ->
  engine_ok (with_report report (with_live_epoch (wrap 64 n) e')).
Proof.
  intros Hok Hm. pose proof (mutate_spec host (Ev_Epoch (wrap 64 n)) e Hok (wrap_u64 _)) as Hs. rewrite Hm in Hs.
  destruct Hs as ((F1 & F2 & F3 & F4 & F5) & Hev & k & Hst), Hok as (A1 & A2 & A3 & A4 & A5).
  pose proof (apply_event_wf (en_limits e) (proj1 (engine_limits_split _ A2)) _ _ A3 Hev) as Hwf.
  unfold engine_ok, en_limits, en_state in *. cbn [with_report with_live_epoch en_store en_options en_live_epoch
    en_live_boot]. rewrite F1, F3, F4, Hst. split_and!; done || apply wrap_u64.
Qed.

(** What holds of a sequence of operations wherever it stops. *)
Lemma bind_ends {A C} (m : Op A) (f : A -> Op C) e (Q : Engine -> Prop) :
  Q (m e).2 -> (forall a e1, m e = (Value a, e1) -> Q (f a e1).2) -> Q ((m ≫= f) e).2.
Proof. unfold mbind, Op_bind. destruct (m e) as [[a|status] e1]; cbn [snd]; auto. Qed.

Lemma install_policy_moves `{Discipline} e :
  follows host -> engine_ok e -> policy_typed (eo_initial_policy (en_options e)) = true ->
  store_moves e (install_policy host e).2.
Proof.
  intros Hfo Hok Ht. unfold install_policy. rewrite get_bind. destruct (ds_has_policy _); [apply rtc_refl|].
  apply bind_ends; [unfold refuse_if; destruct (negb _); apply rtc_refl|].
  intros u0 e0 H0. apply refuse_if_Value in H0 as [_ ->]. cbv zeta.
  destruct (CanonicalisePolicy _ _) as [status canonical] eqn:Ec.
  apply bind_ends; [unfold check; destruct (Status_ok status); apply rtc_refl|].
  intros u1 e1 H1. apply check_Value in H1 as [Hs ->]. apply (mutate_moves host Hfo (Ev_Policy canonical) e Hok).
  cbn [event_typed]. change (pc_wf (en_limits e) canonical) with (policy_wf (en_limits e) canonical).
  replace canonical with (status, canonical).2 by done. rewrite <- Ec. apply CanonicalisePolicy_typed; [|by rewrite Ec].
  destruct (is_empty _); [apply DefaultPolicy_typed|done].
Qed.

(** A boot touches the store by commits of well-formed events, wherever it stops. *)
Lemma boot_writable_moves `{Discipline} e :
  follows host -> engine_ok e -> policy_typed (eo_initial_policy (en_options e)) = true ->
  store_moves e (boot_writable host e).2.
Proof.
  intros Hfo Hok Ht. unfold boot_writable. pose proof (install_policy_moves e Hfo Hok Ht) as M1.
  apply bind_ends; [exact M1|]. intros u1 e1 H1. rewrite H1 in M1. cbn [snd] in M1.
  destruct (install_policy_spec e u1 e1 Hok Ht H1) as (Hok1 & Hf1 & _). rewrite get_bind. cbv zeta.
  pose proof (mutate_moves host Hfo (Ev_Epoch (wrap 64 (ds_last_epoch (en_state e1) + 1))) e1 Hok1 (wrap_u64 _)) as M2.
  pose proof (same_frame_limits _ _ Hf1) as L1. unfold store_moves in *. rewrite L1 in M2.
  apply bind_ends; [by etransitivity|]. intros u2 e2 H2. rewrite H2 in M2. cbn [snd] in M2.
  pose proof (mutate_spec host (Ev_Epoch (wrap 64 (ds_last_epoch (en_state e1) + 1))) e1 Hok1 (wrap_u64 _)) as Hf2.
  rewrite H2 in Hf2. destruct Hf2 as [Hf2 _]. pose proof (same_frame_limits _ _ Hf2) as L2.
  assert (rtc (store_step (en_limits e)) (en_store e) (en_store e2)) as M12 by (by etransitivity).
  apply bind_ends; [exact M12|]. intros u3 e3 H3. unfold modify in H3. injection H3 as _ <-.
  apply bind_ends; [exact M12|]. intros u4 e4 H4. unfold update_report, modify in H4. injection H4 as _ <-.
  match goal with |- context [(CommitRestartFencing host ≫= _) ?e4] =>
    destruct (CommitRestartFencing_concludes e4 Hfo (epoch_engine_ok e1 _ u2 e2 _ Hok1 H2)) as [(_ & _ & M4) _] end.
  unfold store_moves in M4. change (en_limits (with_report _ (with_live_epoch _ e2))) with (en_limits e2) in M4.
  cbn [with_report with_live_epoch en_store] in M4. rewrite L2, L1 in M4.
  apply bind_ends; [by etransitivity|]. intros u5 e5 H5. rewrite H5 in M4. cbn [snd] in M4.
  apply bind_ends; [by etransitivity|]. intros u6 e6 H6. unfold update_report, modify in H6. injection H6 as _ <-.
  by etransitivity.
Qed.

(** What the epoch of a new incarnation leaves. *)
Lemma epoch_step e u e' :
  let next := wrap 64 (ds_last_epoch (en_state e) + 1) in
  engine_ok e -> mutate host (Ev_Epoch next) e = (Value u, e') ->
  next = ds_last_epoch (en_state e) + 1 /\ same_frame e e' /\
  exists n, en_state e' = with_sequence n (with_last_epoch next (en_state e)).
Proof.
  intros next Hok H. assert (durable_wf (en_limits e) (en_state e) = true) as Hwf by (by destruct Hok as (_ & _ & ? & _)).
  pose proof (mutate_epoch_newer next e u e' H) as Hnewer. split.
  { assert (u64 (ds_last_epoch (en_state e)) = true) as Hu by (unfold durable_wf in Hwf; by bool_hyps).
    apply u_range in Hu. unfold next, wrap in *.
    destruct (decide (ds_last_epoch (en_state e) + 1 = 2 ^ 64)) as [E|E].
    - rewrite E, Z.mod_same in Hnewer by done. lia.
    - apply Z.mod_small. lia. }
  pose proof (mutate_spec host (Ev_Epoch next) e Hok (wrap_u64 _)) as Hm. rewrite H in Hm.
  destruct Hm as (Hf & _ & n & Hst). split; [done|]. exists n. rewrite Hst. f_equal.
  cbn [apply_event]. unfold apply_epoch. by rewrite (proj2 (Z.ltb_lt _ _)).
Qed.

Lemma boot_writable_spec e u e' :
  engine_ok e -> policy_typed (eo_initial_policy (en_options e)) = true ->
  boot_writable host e = (Value u, e') ->
  engine_ok e' /\ en_live_epoch e' = ds_last_epoch (en_state e) + 1 /\
  en_live_boot e' = en_live_boot e /\
  restarted (en_limits e) (ho_now host) (en_state e) (en_state e').
Proof.
  intros Hok Ht H. unfold boot_writable in H.
  apply bind_Value in H as (u1 & e1 & H1 & H).
  destruct (install_policy_spec e u1 e1 Hok Ht H1) as (Hok1 & Hf1 & Hc1 & Hl1 & Hp1).
  rewrite get_bind in H. cbv zeta in H.
  set (next := wrap 64 (ds_last_epoch (en_state e1) + 1)) in H.
  apply bind_Value in H as (u2 & e2 & H2 & H).
  destruct (epoch_step e1 u2 e2 Hok1 H2) as (Hnext & Hf2 & n & Hst2). fold next in Hnext, Hst2.
  apply bind_Value in H as (u3 & e3 & H3 & H). unfold modify in H3. injection H3 as _ <-.
  apply bind_Value in H as (u4 & e4 & H4 & H). unfold update_report, modify in H4. injection H4 as _ <-.
  apply bind_Value in H as (u5 & e5 & H5 & H).
  set (e4 := with_report _ (with_live_epoch next e2)) in H5.
  pose proof (epoch_engine_ok e1 _ u2 e2 _ Hok1 H2 : engine_ok e4) as Hok4.
  destruct (CommitRestartFencing_spec e4 u5 e5 Hok4 H5) as (Hok5 & Hf5 & Hc5).
  apply bind_Value in H as (u6 & e6 & H6 & H). unfold update_report, modify in H6. injection H6 as _ <-.
  unfold modify in H. injection H as _ <-.
  destruct Hf1 as (G1 & G2 & G3 & G4 & G5), Hf2 as (F1 & F2 & F3 & F4 & F5), Hf5 as (K1 & K2 & K3 & K4 & K5).
  cbn [e4 with_report with_live_epoch en_options en_live_epoch en_live_boot] in K1, K2, K3.
  assert (en_limits e4 = en_limits e) as Hl4 by (unfold en_limits; cbn; congruence).
  assert (durable_wf (en_limits e4) (en_state e4) = true) as Hwf4 by (by destruct Hok4 as (_ & _ & ? & _)).
  split; [exact Hok5|]. split; [cbn; congruence|]. split; [cbn; congruence|].
  change (restarted (en_limits e) (ho_now host) (en_state e) (en_state e5)).
  pose proof (concluded_all _ _ _ _ Hwf4 Hc5) as Hall. destruct Hc5 as (O & Hout & _).
  change (en_state e4) with (en_state e2) in *. rewrite Hst2 in O, Hout, Hall.
  destruct O as (_ & O2 & O3 & _ & O5 & O6 & O7). destruct Hc1 as (C1 & C2 & C3 & C4 & C5).
  cbn [with_sequence with_last_epoch ds_last_epoch ds_has_policy ds_intents ds_observations ds_fences
       ds_outcomes ds_attempts] in *.
  rewrite Hl4, C2 in Hout. rewrite C1 in Hall.
  assert (picked (fun a => negb (IsTerminalAttemptState (at_state a)))
    (with_sequence n (with_last_epoch next (en_state e1))) =
    picked (fun a => negb (IsTerminalAttemptState (at_state a))) (en_state e)) as Hpick
    by (unfold picked; cbn; by rewrite C1).
  rewrite Hpick in Hout. unfold restarted. cbv zeta.
  do 6 (split; [congruence|]). exact Hall.
Qed.
End Restart.

(** ** Compaction keeps the state *)

Lemma MaybeCompactLocked_state host e :
  engine_ok e ->
  same_frame e (MaybeCompactLocked host e).2 /\
  (exists u, (MaybeCompactLocked host e).1 = Value u) /\
  (en_state (MaybeCompactLocked host e).2 = en_state e \/ exists n c,
     en_state (MaybeCompactLocked host e).2 = with_sequence n (with_compactions c (en_state e))).
Proof.
  intros Hok. pose proof (evolves_MaybeCompactLocked host (follows_any host) e Hok) as [Hf _]. split; [done|].
  pose proof Hok as (Hl & _). unfold MaybeCompactLocked in *.
  destruct (_ =? 0); [by eauto|]. destruct (_ <? _); [by eauto|]. split; [by eauto|]. cbn [snd].
  unfold compact_store.
  pose proof (compact_mutated (en_limits e) (ho_compact host (en_store e)) (en_store e) Hl) as Hc.
  destruct (Store_Compact _ _) as [status store]. destruct Hc as (_ & _ & H3).
  unfold mbind, Op_bind, check. fold (en_state e) in H3.
  assert (en_state (with_store_of store e) = en_state e \/ exists n c,
    en_state (with_store_of store e) = with_sequence n (with_compactions c (en_state e))) as Hst.
  { destruct H3 as [H3|[n H3]]; [by left|right; by eexists _, _]. }
  by destruct (Status_ok status).
Qed.

(** ** Dispatch, decision by decision *)

(** The bindings a plan must still have. *)
Definition plan_bound (e : Engine) (plan : ReconciliationPlan) : bool :=
  live e (pl_epoch plan) (pl_boot plan) && ds_has_policy (en_state e) &&
  bool_decide (pl_policy_digest plan = ComputePolicyDigest (ds_policy (en_state e))) &&
  bool_decide (is_Some (bound_intent e plan)) && bound_observation e plan.

(** An attempt the engine holds that answers for a decision. *)
Definition answers (e : Engine) (d : Decision) (a : AttemptRecord) : Prop :=
  om_find (at_id a) (ds_attempts (en_state e)) = Some a /\
  reusable (de_idempotency_key d) (en_live_epoch e) a = true.

(** A decision that dispatch acts on. *)
Definition dispatchable (e : Engine) (d : Decision) : bool :=
  bool_decide (de_disposition d = DD_Actionable) &&
  negb (FenceHoldsFor (ds_fences (en_state e)) (de_scope d) (de_subject d) (en_live_epoch e)).

Lemma find_reusable_None s key epoch id b :
  find_reusable s key epoch = None -> om_find id (ds_attempts s) = Some b ->
  reusable key epoch b = false.
Proof.
  intros E Hf. apply om_find_Some_in in Hf.
  eapply find_none in E; [exact E|]. apply list_elem_of_In, list_elem_of_fmap. by exists (id, b).
Qed.

Section DispatchFacts.
Variable host : Host.
Hypothesis Hhost : host_typed host = true.

Lemma find_reusable_answers e d a :
  engine_ok e -> find_reusable (en_state e) (de_idempotency_key d) (en_live_epoch e) = Some a ->
  answers e d a.
Proof.
  intros (_ & _ & Hwf & _) H. apply find_some in H as [Hin Hr]. split; [|done].
  apply list_elem_of_In in Hin. by eapply attempt_listed.
Qed.

(** The mutation intent handed out for a decision: that of an attempt that answers for it. *)
Definition intended (e : Engine) (intent : IntentDocument) (d : Decision) (i : ActionIntent) : Prop :=
  exists a, answers e d a /\ i = action_intent intent a.

(** What the loop over the decisions leaves behind. *)
Definition dispatched (intent : IntentDocument) (decisions : list Decision) (e e' : Engine)
    (before after : DispatchResult) : Prop :=
  same_frame e e' /\ others_kept (en_state e) (en_state e') /\
  (forall id a, om_find id (ds_attempts (en_state e)) = Some a -> terminal a = false ->
     om_find id (ds_attempts (en_state e')) = Some a) /\
  exists intents, di_intents after = di_intents before ++ intents /\
    Forall2 (intended e' intent) (List.filter (dispatchable e) decisions) intents.

Lemma dispatchable_frame e e' d :
  same_frame e e' -> others_kept (en_state e) (en_state e') -> dispatchable e' d = dispatchable e d.
Proof.
  intros (_ & He & _) (_ & _ & _ & _ & _ & _ & Hf). unfold dispatchable. by rewrite He, Hf.
Qed.

Lemma answers_kept e e' d a :
  same_frame e e' ->
  (forall id a, om_find id (ds_attempts (en_state e)) = Some a -> terminal a = false ->
     om_find id (ds_attempts (en_state e')) = Some a) ->
  answers e d a -> answers e' d a.
Proof.
  intros (_ & He & _) Hk [Hf Hr]. split; [|by rewrite He]. apply Hk; [done|].
  unfold reusable in Hr. unfold terminal. by bool_hyps.
Qed.

(** Issuing keeps the attempts in flight and everything else. *)
Lemma issue_keeps e a n e' :
  engine_ok e -> at_id a = ds_next_attempt (en_state e) -> ids_below_next (en_state e) = true ->
  en_state e' = with_sequence n (apply_attempt (en_limits e) a (en_state e)) ->
  others_kept (en_state e) (en_state e') /\
  (forall id x, om_find id (ds_attempts (en_state e)) = Some x -> terminal x = false ->
     om_find id (ds_attempts (en_state e')) = Some x) /\
  (terminal a = false -> om_find (at_id a) (ds_attempts (en_state e')) = Some a).
Proof.
  intros (_ & _ & Hwf & _) Hid Hb ->. pose proof (attempts_sorted _ _ Hwf) as Hs.
  assert (om_sorted (om_insert (at_id a) a (ds_attempts (en_state e))) = true) as Hs' by (by apply om_sorted_insert).
  split; [by repeat split|]. cbn [with_sequence apply_attempt with_attempts ds_attempts]. split.
  - intros id x Hx Ht. apply TrimAttempts_keeps; [done| |done].
    pose proof (ids_below _ _ _ Hb Hx). rewrite om_find_insert_ne; [done|lia].
  - intros Ht. apply TrimAttempts_keeps; [done|apply om_find_insert_eq|done].
Qed.

(** A decision that is passed over. *)
Lemma dispatched_skip intent d decisions e e' result res r :
  dispatchable e d = false -> di_intents res = di_intents result ->
  dispatched intent decisions e e' res r -> dispatched intent (d :: decisions) e e' result r.
Proof.
  intros Hd Hres (F & O & K & intents & Hi & Hall). split; [done|]. split; [done|]. split; [done|].
  exists intents. rewrite <- Hres. split; [done|]. cbn [List.filter]. by rewrite Hd.
Qed.

(** A decision whose step led from [e] to [e1], with the attempt [a] answering for it. *)
Lemma dispatched_act intent d decisions e e1 e' a result res r :
  dispatchable e d = true -> same_frame e e1 -> others_kept (en_state e) (en_state e1) ->
  (forall id x, om_find id (ds_attempts (en_state e)) = Some x -> terminal x = false ->
     om_find id (ds_attempts (en_state e1)) = Some x) ->
  answers e1 d a -> di_intents res = di_intents result ++ [action_intent intent a] ->
  dispatched intent decisions e1 e' res r -> dispatched intent (d :: decisions) e e' result r.
Proof.
  intros Hdis Hf1 Ho1 Hk1 Ha1 Hres (F & O & K & intents & Hi & Hall).
  assert (same_frame e e') as Hfr.
  { destruct Hf1 as (?&?&?&?&?), F as (?&?&?&?&?). unfold same_frame. repeat split; congruence. }
  assert (answers e' d a) as Ha2 by exact (answers_kept e1 e' d a F K Ha1).
  split; [done|]. split; [exact (others_kept_trans _ _ _ Ho1 O)|]. split; [by eauto|].
  exists (action_intent intent a :: intents). rewrite Hi, Hres, <- app_assoc. split; [done|].
  cbn [List.filter]. rewrite Hdis. constructor; [by exists a|].
  erewrite filter_ext; [exact Hall|]. intros d'. symmetry. by apply dispatchable_frame.
Qed.

(** What issuing the attempt of a decision leaves. *)
Lemma issue_step d now e u e1 :
  let a := new_attempt e d now in
  engine_ok e -> counter_open (en_state e) -> i64 now = true -> decision_typed d = true ->
  de_disposition d = DD_Actionable -> ds_next_attempt (en_state e) + 1 < 2 ^ 64 ->
  FenceHoldsFor (ds_fences (en_state e)) (de_scope d) (de_subject d) (en_live_epoch e) = false ->
  find_reusable (en_state e) (de_idempotency_key d) (en_live_epoch e) = None ->
  mutate host (Ev_AttemptIssued a) e = (Value u, e1) ->
  engine_ok e1 /\ counter_open (en_state e1) /\ same_frame e e1 /\ others_kept (en_state e) (en_state e1) /\
  (forall id x, om_find id (ds_attempts (en_state e)) = Some x -> terminal x = false ->
     om_find id (ds_attempts (en_state e1)) = Some x) /\
  answers e1 d a /\ ds_next_attempt (en_state e1) = ds_next_attempt (en_state e) + 1.
Proof.
  intros a Hok Hopen Hn Htd Ha Hroom Hfence Hreuse H1. pose proof Hopen as [Hpos Hb].
  destruct (new_attempt_wf e d now Hok Htd Ha Hn) as [Hwf Hid]. fold a in Hwf, Hid.
  assert (evolves e e1) as Hev.
  { assert (e1 = (mutate host (Ev_AttemptIssued a) e).2) as -> by by rewrite H1.
    apply evolves_mutate; [done|done|exact Hwf|]. intros Hevwf. apply ls_issued; try done. rewrite Hid. lia. }
  pose proof (mutate_spec host (Ev_AttemptIssued a) e Hok Hwf) as Hs. rewrite H1 in Hs.
  destruct Hs as (Hf1 & _ & n & Hst).
  destruct (issue_keeps e a n e1 Hok Hid Hb Hst) as (Ho1 & Hk1 & Ha1).
  pose proof Hok as (_ & Hlim & Hdwf & _). apply engine_limits_split in Hlim as [Hret _].
  split; [exact (engine_ok_evolves _ _ Hok Hev)|]. split.
  { destruct Hev as (_ & Hsteps & _). eapply (steps_lineage (en_limits e)); [exact Hret|exact Hdwf|done|exact Hsteps]. }
  split; [done|]. split; [done|]. split; [done|]. split.
  - split; [exact (Ha1 eq_refl)|]. unfold reusable. cbn.
    destruct Hf1 as (_ & -> & _). rewrite bool_decide_eq_true_2 by done. by rewrite Z.eqb_refl.
  - rewrite Hst. change (ds_next_attempt (apply_attempt (en_limits e) a (en_state e)) =
      ds_next_attempt (en_state e) + 1). apply next_after_issue; rewrite ?Hid; lia.
Qed.

Lemma dispatch_decisions_spec intent now decisions : forall result e r e',
  engine_ok e -> counter_open (en_state e) -> i64 now = true ->
  forallb decision_typed decisions = true ->
  ds_next_attempt (en_state e) + blen decisions < 2 ^ 64 ->
  dispatch_decisions host intent now decisions result e = (Value r, e') ->
  dispatched intent decisions e e' result r.
Proof.
  induction decisions as [|d decisions IH]; intros result e r e' Hok Hopen Hn Ht Hroom; cbn [dispatch_decisions].
  { intros [= <- <-]. split; [done|]. split; [done|]. split; [done|].
    exists []. rewrite app_nil_r. split; [done|constructor]. }
  cbn [forallb] in Ht. apply andb_true_iff in Ht as [Htd Ht]. rewrite blen_cons in Hroom.
  pose proof (blen_nonneg decisions).
  destruct (bool_decide_reflect (de_disposition d = DD_Actionable)) as [Ha|Ha]; cbn [negb].
  2: { intros H0. apply (dispatched_skip _ _ _ _ _ _ result); [|done|by apply IH; [..|lia|]].
       unfold dispatchable. by rewrite bool_decide_eq_false_2. }
  rewrite get_bind. destruct (FenceHoldsFor _ _ _ _) eqn:Efence.
  { intros H0. apply (dispatched_skip _ _ _ _ _ _ (count_refused result)); [|done|by apply IH; [..|lia|]].
    unfold dispatchable. by rewrite Efence, andb_false_r. }
  assert (dispatchable e d = true) as Hdis.
  { unfold dispatchable. by rewrite Efence, bool_decide_eq_true_2. }
  destruct (find_reusable _ _ _) as [existing|] eqn:Ereuse.
  { intros H0. apply (dispatched_act _ _ _ _ e _ existing _ (push_reused (action_intent intent existing) result));
      try done; [by apply find_reusable_answers|by apply IH; [..|lia|]]. }
  cbv zeta. set (a := new_attempt e d now). intros H0.
  apply bind_Value in H0 as (u & e1 & H1 & H0). rewrite count_bind in H0.
  destruct (issue_step d now e u e1 Hok Hopen Hn Htd Ha ltac:(lia) Efence Ereuse H1) as (Hok1 & Hop1 & Hf1 & Ho1 & Hk1 & Ha1 & Hnx).
  set (e2 := with_stats (stats_add ST_actions_dispatched 1 (en_stats e1)) e1) in *.
  apply (dispatched_act _ _ _ _ e2 _ a _ (push_issued (action_intent intent a) result)); try done.
  apply IH; try done. change (ds_next_attempt (en_state e1) + blen decisions < 2 ^ 64). lia.
Qed.

(** Every attempt in flight is one that has been handed out and not been heard of. *)
Definition only_dispatched (s : DurableState) : Prop :=
  forall id a, om_find id (ds_attempts s) = Some a -> terminal a = false -> at_state a = AS_Dispatched.

Lemma dispatch_decisions_only intent now decisions : forall result e r e',
  engine_ok e -> counter_open (en_state e) -> i64 now = true ->
  forallb decision_typed decisions = true ->
  ds_next_attempt (en_state e) + blen decisions < 2 ^ 64 -> only_dispatched (en_state e) ->
  dispatch_decisions host intent now decisions result e = (Value r, e') -> only_dispatched (en_state e').
Proof.
  induction decisions as [|d decisions IH]; intros result e r e' Hok Hopen Hn Ht Hroom Hall; cbn [dispatch_decisions].
  { by intros [= <- <-]. }
  cbn [forallb] in Ht. apply andb_true_iff in Ht as [Htd Ht]. rewrite blen_cons in Hroom. pose proof (blen_nonneg decisions).
  destruct (bool_decide_reflect (de_disposition d = DD_Actionable)) as [Ha|Ha]; cbn [negb];
    [|intros H0; eapply IH; [..|exact H0]; done || lia].
  rewrite get_bind. destruct (FenceHoldsFor _ _ _ _) eqn:Efence; [intros H0; eapply IH; [..|exact H0]; done || lia|].
  destruct (find_reusable _ _ _) as [existing|] eqn:Ereuse; [intros H0; eapply IH; [..|exact H0]; done || lia|].
  cbv zeta. intros H0. apply bind_Value in H0 as (u & e1 & H1 & H0). rewrite count_bind in H0.
  destruct (issue_step d now e u e1 Hok Hopen Hn Htd Ha ltac:(lia) Efence Ereuse H1) as (Hok1 & Hop1 & _ & _ & _ & _ & Hnx).
  eapply IH; [..|exact H0]; try done.
  - change (ds_next_attempt (en_state e1) + blen decisions < 2 ^ 64). lia.
  - change (only_dispatched (en_state e1)). pose proof Hok as (_ & _ & Hwf & _).
    destruct (new_attempt_wf e d now Hok Htd Ha Hn) as [Hawf _].
    pose proof (mutate_spec host (Ev_AttemptIssued (new_attempt e d now)) e Hok Hawf) as Hs. rewrite H1 in Hs.
    destruct Hs as (_ & _ & n & ->). intros id x Hx Hterm.
    cbn [with_sequence apply_event apply_attempt with_attempts ds_attempts] in Hx.
    apply TrimAttempts_find in Hx; [|apply om_sorted_insert; exact (attempts_sorted _ _ Hwf)].
    destruct (decide (id = at_id (new_attempt e d now))) as [->|Hne].
    + rewrite om_find_insert_eq in Hx. by injection Hx as <-.
    + rewrite om_find_insert_ne in Hx by done. by apply (Hall id).
Qed.
End DispatchFacts.

(** *** The guards of dispatch *)

Lemma refuse_if_bind {A} condition status (f : unit -> Op A) e :
  (refuse_if condition status ≫= f) e = if condition then (Failed status, e) else f tt e.
Proof. unfold mbind, Op_bind, refuse_if. by destruct condition. Qed.

Lemma require_writable_bind {A} (f : unit -> Op A) e :
  (require_writable ≫= f) e =
  if st_read_only (en_store e) then (Failed engine_read_only, e) else f tt e.
Proof. unfold require_writable, mbind, Op_bind, get, refuse_if. by destruct (st_read_only _). Qed.

(** Dispatch runs its loop exactly when the plan is still bound, and is otherwise refused
    with nothing changed. *)
Lemma Engine_Dispatch_cases host plan e :
  st_read_only (en_store e) = false ->
  if plan_bound e plan then
    exists intent, bound_intent e plan = Some intent /\
      Engine_Dispatch host plan e =
      (result ← dispatch_decisions host intent (ho_now host) (pl_decisions plan) dispatch_empty;
       _ ← MaybeCompactLocked host; mret result) e
  else exists status, Engine_Dispatch host plan e = (Failed status, e).
Proof.
  intros Hro. unfold Engine_Dispatch, plan_bound. rewrite require_writable_bind, Hro, get_bind.
  rewrite !refuse_if_bind. rewrite <- negb_andb. fold (live e (pl_epoch plan) (pl_boot plan)).
  destruct (live e _ _); cbn [negb andb]; [|by eexists].
  destruct (ds_has_policy (en_state e)); cbn [negb andb]; [|by eexists].
  destruct (bool_decide (pl_policy_digest plan = _)); cbn [negb andb]; [|by eexists].
  destruct (bound_intent e plan) as [intent|]; cbn [is_Some].
  - rewrite (bool_decide_eq_true_2 (is_Some (Some intent))) by eauto. cbn [andb].
    rewrite refuse_if_bind. destruct (bound_observation e plan); cbn [negb]; [|by eexists].
    exists intent. done.
  - rewrite (bool_decide_eq_false_2 (is_Some None)) by (intros [? [=]]). by eexists.
Qed.

Lemma Engine_Dispatch_inv host plan e r e' :
  Engine_Dispatch host plan e = (Value r, e') ->
  st_read_only (en_store e) = false /\ plan_bound e plan = true /\
  exists intent e1, bound_intent e plan = Some intent /\
    dispatch_decisions host intent (ho_now host) (pl_decisions plan) dispatch_empty e = (Value r, e1) /\
    e' = (MaybeCompactLocked host e1).2.
Proof.
  intros H. destruct (st_read_only (en_store e)) eqn:Hro.
  { unfold Engine_Dispatch in H. by rewrite require_writable_bind, Hro in H. }
  split; [done|]. pose proof (Engine_Dispatch_cases host plan e Hro) as Hc.
  destruct (plan_bound e plan); [|destruct Hc as [status Hc]; congruence].
  split; [done|]. destruct Hc as (intent & Hi & Hc). rewrite Hc in H.
  apply bind_Value in H as (r1 & e1 & H1 & H). apply bind_Value in H as (u & e2 & H2 & H).
  injection H as <- <-. exists intent, e1. rewrite H2. done.
Qed.

Lemma plan_bound_kept e e' plan :
  same_frame e e' -> others_kept (en_state e) (en_state e') -> plan_bound e' plan = plan_bound e plan.
Proof.
  intros (_ & He & Hb & _) (_ & _ & Hp & Hpol & Hi & Ho & _).
  unfold plan_bound, live, bound_intent, bound_observation, scope_observations.
  by rewrite He, Hb, Hp, Hpol, Hi, Ho.
Qed.

(** When every decision is already answered for, the loop issues nothing. *)
Lemma dispatch_reuses host intent now decisions : forall result e,
  engine_ok e ->
  (forall d, d ∈ decisions -> dispatchable e d = true -> exists a, answers e d a) ->
  exists r intents, dispatch_decisions host intent now decisions result e = (Value r, e) /\
    di_intents r = di_intents result ++ intents /\
    Forall2 (intended e intent) (List.filter (dispatchable e) decisions) intents /\
    di_already_issued r = di_already_issued result + blen intents.
Proof.
  induction decisions as [|d decisions IH]; intros result e Hok Hall; cbn [dispatch_decisions List.filter].
  { exists result, []. rewrite app_nil_r. change (blen (@nil ActionIntent)) with 0.
    rewrite Z.add_0_r. split; [done|]. split; [done|]. split; [constructor|done]. }
  specialize (Hall d ltac:(left)) as Hd.
  assert (forall res, exists r intents,
    dispatch_decisions host intent now decisions res e = (Value r, e) /\
    di_intents r = di_intents res ++ intents /\
    Forall2 (intended e intent) (List.filter (dispatchable e) decisions) intents /\
    di_already_issued r = di_already_issued res + blen intents) as IH'.
  { intros res. apply IH; [done|]. intros d' Hd'. apply Hall. by right. }
  unfold dispatchable in Hd |- *. fold (dispatchable e).
  destruct (bool_decide_reflect (de_disposition d = DD_Actionable)) as [Ha|Ha]; cbn [negb andb] in *;
    [|apply IH'].
  rewrite get_bind. destruct (FenceHoldsFor _ _ _ _); cbn [negb] in *; [apply (IH' (count_refused result))|].
  destruct (Hd eq_refl) as (a & Hf & Hr). destruct (find_reusable _ _ _) as [existing|] eqn:E.
  - destruct (IH' (push_reused (action_intent intent existing) result)) as (r & intents & Hrun & H1 & H2 & H3).
    exists r, (action_intent intent existing :: intents). split; [done|].
    cbn [push_reused di_intents di_already_issued] in *. rewrite H1, H3, blen_cons, <- app_assoc.
    split; [done|]. split; [|lia]. constructor; [|done]. exists existing. split; [|done].
    by apply find_reusable_answers.
  - rewrite (find_reusable_None _ _ _ _ _ E Hf) in Hr. done.
Qed.

(** *** A fence *)

Lemma fence_holds_insert fences (f : FenceEntry) subject epoch :
  om_sorted fences = true -> epoch < fe_fenced_below f ->
  is_empty (fe_subject f) || bool_decide (fe_subject f = subject) = true ->
  FenceHoldsFor (om_insert (fe_id f) f fences) (fe_scope f) subject epoch = true.
Proof.
  intros Hs He Hsub. unfold FenceHoldsFor. apply existsb_exists. exists (fe_id f, f). split.
  - apply list_elem_of_In, om_find_Some_in, om_find_insert_eq.
  - cbn. rewrite bool_decide_eq_true_2, Hsub by done. cbn. by apply Z.ltb_lt.
Qed.

Lemma compacted_fields e e' :
  (en_state e' = en_state e \/ exists n c, en_state e' = with_sequence n (with_compactions c (en_state e))) ->
  ds_attempts (en_state e') = ds_attempts (en_state e) /\
  ds_fences (en_state e') = ds_fences (en_state e) /\
  ds_next_attempt (en_state e') = ds_next_attempt (en_state e) /\
  others_kept (en_state e) (en_state e').
Proof. intros [->|(n & c & ->)]; by repeat split. Qed.

(** ** One attempt in flight per idempotency key *)

Definition single_flight (epoch : Z) (s : DurableState) : Prop :=
  forall key id1 id2 a b,
    om_find id1 (ds_attempts s) = Some a -> om_find id2 (ds_attempts s) = Some b ->
    reusable key epoch a = true -> reusable key epoch b = true -> id1 = id2.

Lemma single_flight_same epoch s s' :
  ds_attempts s' = ds_attempts s -> single_flight epoch s -> single_flight epoch s'.
Proof. unfold single_flight. by intros ->. Qed.

(** An attempt recorded under an identity that no other live attempt of its key holds. *)
Lemma single_flight_apply limits epoch a s :
  durable_wf limits s = true -> single_flight epoch s ->
  (forall key id b, reusable key epoch a = true -> om_find id (ds_attempts s) = Some b ->
     reusable key epoch b = true -> id = at_id a) ->
  single_flight epoch (apply_attempt limits a s).
Proof.
  intros Hwf Hsf Ha key id1 id2 x y Hx Hy Rx Ry. pose proof (attempts_sorted _ _ Hwf) as Hs.
  cbn [apply_attempt with_attempts ds_attempts] in Hx, Hy.
  assert (om_sorted (om_insert (at_id a) a (ds_attempts s)) = true) as Hs' by (by apply om_sorted_insert).
  apply TrimAttempts_find in Hx, Hy; [|done..].
  destruct (decide (id1 = at_id a)) as [->|H1], (decide (id2 = at_id a)) as [->|H2]; [done|..].
  - rewrite om_find_insert_eq in Hx. rewrite om_find_insert_ne in Hy by done. injection Hx as <-.
    symmetry. by eapply Ha.
  - rewrite om_find_insert_ne in Hx by done. rewrite om_find_insert_eq in Hy. injection Hy as <-.
    by eapply Ha.
  - rewrite om_find_insert_ne in Hx, Hy by done. by eapply Hsf.
Qed.

Lemma reusable_moved key epoch a a' :
  moves a a' -> TransitionLegal (at_state a) (at_state a') = true ->
  reusable key epoch a' = true -> reusable key epoch a = true.
Proof.
  intros Hm Hl. apply TransitionLegal_target in Hl as [Ht _]. rewrite Hm. unfold reusable. cbn.
  rewrite Ht. intros. bool_hyps. by bool_goal.
Qed.

Lemma step_single_flight limits epoch boot s s' :
  durable_wf limits s = true -> single_flight epoch s -> lifecycle_step limits epoch boot s s' ->
  single_flight epoch s'.
Proof.
  intros Hwf Hsf Hstep.
  assert (forall a a', om_find (at_id a) (ds_attempts s) = Some a -> moves a a' ->
    TransitionLegal (at_state a) (at_state a') = true ->
    single_flight epoch (apply_attempt limits a' s)) as Hmv.
  { intros a a' Hf Hm Hl. apply single_flight_apply; [done..|]. intros key id b Ra Hb Rb.
    rewrite (moves_id _ _ Hm). pose proof (reusable_moved _ _ _ _ Hm Hl Ra). by eapply Hsf. }
  destruct Hstep as [s n|s n _|s p _ _|s d _ _|s d _ _ _|s a _ _ _ _ _ _ Hr _|s a a' _ Hf Hm Hl|
    s a a' o _ _ Hf Hm Hl _ _|s f _|s id _].
  1-5, 9-10: by eapply single_flight_same.
  - apply single_flight_apply; [done..|]. intros key id b Ra Hb Rb. exfalso.
    assert (key = at_idempotency_key a) as -> by (unfold reusable in Ra; by bool_hyps).
    rewrite (find_reusable_None _ _ _ _ _ Hr Hb) in Rb. done.
  - by apply (Hmv a a').
  - eapply single_flight_same; [|by apply (Hmv a a')]. done.
Qed.

Lemma steps_single_flight limits epoch boot s s' :
  retention_wf limits = true -> durable_wf limits s = true -> single_flight epoch s ->
  rtc (lifecycle_step limits epoch boot) s s' -> single_flight epoch s'.
Proof.
  intros Hl Hwf Hsf Hs. induction Hs as [s|s1 s2 s3 H12 H23 IH]; [done|].
  apply IH; [by eapply step_wf|by eapply step_single_flight].
Qed.

(** ** Properties *)

(** C6. The engine refines its life-cycle: from a well-formed engine, any sequence of typed
    requests, each with arbitrary answers of the host (short writes, failed barriers, failed
    compactions), keeps the engine well-formed, never changes its epoch, boot identity or
    options, and moves the durable state by legal steps only: policies and intents forward,
    observations of the live epoch that extend their reporter's stream, attempts issued under
    the next identity when unfenced and not already in flight or moved along a legal
    transition, outcomes together with the terminal transition they report. *)
Theorem requests_refine_lifecycle e e' :
  engine_ok e -> served e e' ->
  engine_ok e' /\ same_frame e e' /\
  rtc (lifecycle_step (en_limits e) (en_live_epoch e) (en_live_boot e)) (en_state e) (en_state e').
Proof.
  intros Hok Hs. pose proof (served_evolves e e' Hok Hs) as Hev.
  split; [exact (engine_ok_evolves _ _ Hok Hev)|]. by destruct Hev as (? & ? & _).
Qed.

(** C20. The history of attempts is sound: over any run of requests, an attempt identity is
    never reused (not even after its record was evicted), and a record still held is the
    earlier one with only its state and transitions changed, its state reached by legal
    transitions; a terminal record never changes again. *)
Theorem attempt_history_sound e e' :
  engine_ok e -> counter_open (en_state e) -> served e e' ->
  lineage_kept (en_state e) (en_state e') /\ counter_open (en_state e').
Proof.
  intros Hok Hc Hs. destruct (served_evolves e e' Hok Hs) as (_ & Hsteps & _).
  destruct Hok as (_ & Hl & Hwf & _). apply engine_limits_split in Hl as [Hl _].
  by eapply steps_lineage.
Qed.

(** Policies and intents never regress: over any run of requests the policy is the same
    or of a higher version, every committed intent is still there or replaced by one of a
    higher generation, and the durable epoch is the one the incarnation booted with. *)
Theorem documents_only_advance e e' :
  engine_ok e -> served e e' -> advanced (en_state e) (en_state e').
Proof.
  intros Hok Hs. destruct (served_evolves e e' Hok Hs) as (_ & Hsteps & _). by eapply steps_advanced.
Qed.


(** Single flight: over any run of requests, at most one attempt in flight of the
    incarnation carries a given idempotency key. *)
Theorem one_attempt_in_flight_per_key e e' :
  engine_ok e -> single_flight (en_live_epoch e) (en_state e) -> served e e' ->
  single_flight (en_live_epoch e) (en_state e').
Proof.
  intros Hok Hsf Hs. destruct (served_evolves e e' Hok Hs) as (_ & Hsteps & _).
  destruct Hok as (_ & Hl & Hwf & _). apply engine_limits_split in Hl as [Hl _].
  by eapply steps_single_flight.
Qed.

(** ** A concrete run: the plan of the example is dispatched *)

Definition example_host : Host := good_host 1700000000050.
Definition example_engine4 : Engine := Eval vm_compute in (serve example_host (RQ_Dispatch example_plan) example_engine3).2.

Lemma example_engine3_ok : engine_ok example_engine3.
Proof.
  unfold engine_ok. do 4 (split; [vm_compute; reflexivity|]). vm_compute. reflexivity.
Qed.

Lemma example_engine3_open : counter_open (en_state example_engine3).
Proof. unfold counter_open. split; vm_compute; [split|]; reflexivity. Qed.

Lemma example_engine3_idle : ds_attempts (en_state example_engine3) = [].
Proof. vm_compute. reflexivity. Qed.

Lemma example_engine3_single : single_flight (en_live_epoch example_engine3) (en_state example_engine3).
Proof. intros key id1 id2 a b Ha. rewrite example_engine3_idle in Ha. discriminate Ha. Qed.

Lemma example_served : served example_engine3 example_engine4.
Proof.
  apply rtc_once. exists example_host, (RQ_Dispatch example_plan). split; [reflexivity|].
  split; [done|]. split; [vm_compute; reflexivity|]. vm_compute. reflexivity.
Qed.

Lemma requests_refine_lifecycle_witness :
  engine_ok example_engine4 /\
  rtc (lifecycle_step (en_limits example_engine3) (en_live_epoch example_engine3)
         (en_live_boot example_engine3)) (en_state example_engine3) (en_state example_engine4).
Proof.
  destruct (requests_refine_lifecycle example_engine3 example_engine4 example_engine3_ok example_served)
    as (H1 & _ & H3). split; [exact H1|exact H3].
Defined.

Lemma attempt_history_sound_witness :
  lineage_kept (en_state example_engine3) (en_state example_engine4) /\
  counter_open (en_state example_engine4).
Proof.
  exact (attempt_history_sound example_engine3 example_engine4 example_engine3_ok
           example_engine3_open example_served).
Defined.

Lemma documents_only_advance_witness : advanced (en_state example_engine3) (en_state example_engine4).
Proof.
  exact (documents_only_advance example_engine3 example_engine4 example_engine3_ok example_served).
Defined.

Lemma one_attempt_in_flight_per_key_witness :
  map at_state (ds_attempts (en_state example_engine4)).*2 = [AS_Dispatched] /\
  single_flight (en_live_epoch example_engine3) (en_state example_engine4).
Proof.
  split; [vm_compute; reflexivity|].
  exact (one_attempt_in_flight_per_key example_engine3 example_engine4 example_engine3_ok
           example_engine3_single example_served).
Defined.
