(* ===== verification/EngineGuards.v ===== *)
(** * The contracts of single requests

    What a request of the engine promises when it succeeds and what it refuses: dispatch is
    bound to the plan's evidence and idempotent, a fence revokes what it covers, verification
    needs evidence, and a boot fences everything a previous incarnation left in flight. *)

From Stdlib Require Import ZArith Lia.
From stdpp Require Import prelude.
From S2P Require Import Prelude OrdMap Hash Status Identity Canonical Value Policy Document Drift.
From S2P Require Import Authority Plan Lineage Journal Snapshot StoreState Store Engine Planner.
From S2P Require Import Lifecycle EngineRuns EngineSafety.
Local Open Scope Z_scope.

Local Opaque EncodePolicy EncodeIntent EncodeObservation EncodeAttemptRecord EncodeOutcome EncodeFence.

(** ** The life-cycle of one attempt *)

Definition legal_from (from to : AttemptState) : Prop := TransitionLegal from to = true.

Lemma legal_well_founded : well_founded (flip legal_from).
Proof.
  apply (wf_projected lt attempt_rank); [|apply lt_wf].
  intros to from H. by apply TransitionLegal_rank.
Qed.

Lemma legal_chain_rank n from to :
  nsteps legal_from n from to -> (attempt_rank to + n <= attempt_rank from)%nat.
Proof.
  induction 1 as [s|n a b c Hab _ IH]; [lia|]. apply TransitionLegal_rank in Hab. lia.
Qed.

(** C26. The life-cycle of an attempt ends: legal transitions are well founded, no attempt
    takes more than four of them, an attempt is stuck exactly when its state is terminal, and
    from every state in flight it can still fail, be interrupted or be fenced. *)
Theorem attempt_lifecycle_terminates :
  well_founded (flip legal_from) /\
  (forall n from to, nsteps legal_from n from to -> (n <= 4)%nat) /\
  (forall from, from <> AS_Invalid ->
     ((forall to, TransitionLegal from to = false) <-> IsTerminalAttemptState from = true)) /\
  (forall from, from <> AS_Invalid -> IsTerminalAttemptState from = false ->
     Forall (fun to => TransitionLegal from to = true) [AS_Failed; AS_Interrupted; AS_Fenced]).
Proof.
  split; [exact legal_well_founded|]. split; [|split].
  - intros n from to H. apply legal_chain_rank in H. destruct from; cbn in H; lia.
  - intros from Hf. split.
    + intros H. destruct from; try done; [specialize (H AS_Fenced)|specialize (H AS_Fenced)|
        specialize (H AS_Fenced)|specialize (H AS_Fenced)]; done.
    + intros H to. by destruct from, to.
  - intros from Hf Ht. destruct from; try done; repeat constructor.
Qed.

(** ** Dispatch *)

Lemma filter_dispatchable_elem e d decisions :
  d ∈ List.filter (dispatchable e) decisions <-> d ∈ decisions /\ dispatchable e d = true.
Proof. rewrite !list_elem_of_In. apply filter_In. Qed.

(** Every decision acted on has an attempt that answers for it. *)
Lemma intended_answers e e' intent decisions intents :
  Forall2 (intended e' intent) (List.filter (dispatchable e) decisions) intents ->
  forall d, d ∈ decisions -> dispatchable e d = true -> exists a, answers e' d a.
Proof.
  intros Hall d Hin Hd.
  assert (d ∈ List.filter (dispatchable e) decisions) as Hm by (by apply filter_dispatchable_elem).
  induction Hall as [|x i ds xs (a & Ha & _) Hall IH]; [by apply not_elem_of_nil in Hm|].
  apply elem_of_cons in Hm as [->|Hm]; [by exists a|by apply IH].
Qed.

(** Two answers for the same decision are the same attempt. *)
Lemma answers_unique e d a b :
  single_flight (en_live_epoch e) (en_state e) -> answers e d a -> answers e d b -> a = b.
Proof.
  intros Hsf [Fa Ra] [Fb Rb]. pose proof (Hsf _ _ _ _ _ Fa Fb Ra Rb) as Hid.
  rewrite Hid, Fb in Fa. by injection Fa as ->.
Qed.

Lemma intended_unique e intent ds is1 is2 :
  single_flight (en_live_epoch e) (en_state e) ->
  Forall2 (intended e intent) ds is1 -> Forall2 (intended e intent) ds is2 -> is1 = is2.
Proof.
  intros Hsf H1. revert is2. induction H1 as [|d i ds is1 (a & Ha & ->) _ IH]; intros is2 H2.
  - by apply Forall2_nil_inv_l in H2.
  - apply Forall2_cons_inv_l in H2 as (j & js & (b & Hb & ->) & H2 & ->).
    rewrite (answers_unique e d a b) by done. f_equal. by apply IH.
Qed.

Lemma request_dispatch e plan :
  request_ok e (RQ_Dispatch plan) = true ->
  forallb decision_typed (pl_decisions plan) = true /\
  ds_next_attempt (en_state e) + blen (pl_decisions plan) < 2 ^ 64.
Proof. cbn [request_ok]. intros. by bool_hyps. Qed.

(** Compaction changes nothing that dispatch looks at. *)
Lemma MaybeCompactLocked_answers host e d a :
  engine_ok e -> answers (MaybeCompactLocked host e).2 d a <-> answers e d a.
Proof.
  intros Hok. destruct (MaybeCompactLocked_state host e Hok) as ((_ & He & _) & _ & Hst).
  destruct (compacted_fields _ _ Hst) as (Ha & _). unfold answers. by rewrite He, Ha.
Qed.

Lemma intended_compacted host e intent :
  engine_ok e -> forall ds xs,
  Forall2 (intended e intent) ds xs -> Forall2 (intended (MaybeCompactLocked host e).2 intent) ds xs.
Proof.
  intros Hok ds xs Hall. eapply Forall2_impl; [exact Hall|]. intros d i (a & Ha & ->). exists a. split; [|done].
  by apply MaybeCompactLocked_answers.
Qed.

(** What a successful dispatch leaves, before and after its compaction. *)
Lemma Engine_Dispatch_spec host plan e r e' :
  host_typed host = true -> engine_ok e -> counter_open (en_state e) ->
  request_ok e (RQ_Dispatch plan) = true -> Engine_Dispatch host plan e = (Value r, e') ->
  st_read_only (en_store e) = false /\ plan_bound e plan = true /\
  same_frame e e' /\ others_kept (en_state e) (en_state e') /\
  (forall id a, om_find id (ds_attempts (en_state e)) = Some a -> terminal a = false ->
     om_find id (ds_attempts (en_state e')) = Some a) /\
  exists intent, bound_intent e plan = Some intent /\
    Forall2 (intended e' intent) (List.filter (dispatchable e) (pl_decisions plan)) (di_intents r).
Proof.
  intros Hh Hok Hc Hreq H. destruct (request_dispatch _ _ Hreq) as [Ht Hroom].
  destruct (Engine_Dispatch_inv _ _ _ _ _ H) as (Hro & Hb & intent & e1 & Hi & Hrun & ->).
  unfold host_typed in Hh. bool_hyps.
  destruct (dispatch_decisions_spec host intent (ho_now host) (pl_decisions plan) dispatch_empty e r e1
    Hok Hc H0 Ht Hroom Hrun) as (F & O & K & intents & Hr & Hall).
  cbn [dispatch_empty di_intents app] in Hr. subst intents.
  assert (engine_ok e1) as Hok1.
  { pose proof (evolves_dispatch_decisions host (follows_any host) intent (ho_now host) (pl_decisions plan)
      dispatch_empty e Hok H0 Ht Hroom) as Hev. rewrite Hrun in Hev. exact (engine_ok_evolves _ _ Hok Hev). }
  destruct (MaybeCompactLocked_state host e1 Hok1) as (F2 & _ & Hst).
  destruct (compacted_fields _ _ Hst) as (Ha & _ & _ & O2).
  split; [done|]. split; [done|]. split.
  { destruct F as (?&?&?&?&?), F2 as (?&?&?&?&?). unfold same_frame. repeat split; congruence. }
  split; [by eapply others_kept_trans|]. split; [rewrite Ha; exact K|].
  exists intent. split; [done|]. by apply intended_compacted.
Qed.

Lemma Engine_Dispatch_only host plan e r e' :
  host_typed host = true -> engine_ok e -> counter_open (en_state e) ->
  request_ok e (RQ_Dispatch plan) = true -> Engine_Dispatch host plan e = (Value r, e') ->
  only_dispatched (en_state e) -> only_dispatched (en_state e').
Proof.
  intros Hh Hok Hc Hreq H Hall. destruct (request_dispatch _ _ Hreq) as [Ht Hroom].
  destruct (Engine_Dispatch_inv _ _ _ _ _ H) as (Hro & Hb & intent & e1 & Hi & Hrun & ->).
  unfold host_typed in Hh. bool_hyps.
  pose proof (dispatch_decisions_only host intent (ho_now host) (pl_decisions plan) dispatch_empty e r e1
    Hok Hc H0 Ht Hroom Hall Hrun) as Hall1.
  pose proof (evolves_dispatch_decisions host (follows_any host) intent (ho_now host) (pl_decisions plan)
    dispatch_empty e Hok H0 Ht Hroom) as Hev. rewrite Hrun in Hev.
  destruct (MaybeCompactLocked_state host e1 (engine_ok_evolves _ _ Hok Hev)) as (_ & _ & Hst).
  destruct (compacted_fields _ _ Hst) as (Ha & _). unfold only_dispatched. by rewrite Ha.
Qed.

(** The decisions of a plan that ask for an action. *)
Definition actionable (d : Decision) : bool := bool_decide (de_disposition d = DD_Actionable).

Lemma filter_unfenced e decisions :
  (forall d, d ∈ decisions -> actionable d = true -> dispatchable e d = true) ->
  List.filter (dispatchable e) decisions = List.filter actionable decisions.
Proof.
  intros Hall. apply filter_ext_in. intros d Hd%list_elem_of_In. destruct (actionable d) eqn:E; [by apply Hall|].
  unfold dispatchable, actionable in *. by rewrite E.
Qed.

Lemma Forall2_right {A C} (P : A -> C -> Prop) l k c : Forall2 P l k -> c ∈ k -> exists a, a ∈ l /\ P a c.
Proof.
  intros H. induction H as [|a b l k Hab _ IH]; [by intros ?%not_elem_of_nil|].
  intros [->|Hc]%elem_of_cons; [exists a; split; [left|done]|]. destruct (IH Hc) as (a' & ? & ?). exists a'. split; [by right|done].
Qed.


(** C22. Dispatch is idempotent: dispatching the same plan again in the incarnation, whatever
    the host answers, succeeds, issues nothing, reports every intent as already issued and
    hands out the very same mutation intents. *)
Theorem dispatch_idempotent host host' plan e r e' :
  host_typed host = true -> engine_ok e -> counter_open (en_state e) ->
  single_flight (en_live_epoch e) (en_state e) ->
  request_ok e (RQ_Dispatch plan) = true -> Engine_Dispatch host plan e = (Value r, e') ->
  exists r' e'', Engine_Dispatch host' plan e' = (Value r', e'') /\
    ds_attempts (en_state e'') = ds_attempts (en_state e') /\
    ds_next_attempt (en_state e'') = ds_next_attempt (en_state e') /\
    di_intents r' = di_intents r /\ di_already_issued r' = blen (di_intents r').
Proof.
  intros Hh Hok Hc Hsf Hreq H.
  destruct (Engine_Dispatch_spec host plan e r e' Hh Hok Hc Hreq H)
    as (Hro & Hb & F & O & _ & intent & Hi & Hall).
  assert (evolves e e') as Hev.
  { destruct (request_dispatch _ _ Hreq). replace e' with (Engine_Dispatch host plan e).2 by by rewrite H.
    by apply evolves_Dispatch. }
  pose proof (engine_ok_evolves _ _ Hok Hev) as Hok'.
  assert (single_flight (en_live_epoch e') (en_state e')) as Hsf'.
  { destruct F as (_ & -> & _). destruct Hok as (_ & Hl & Hwf & _), Hev as (_ & Hsteps & _).
    apply engine_limits_split in Hl as [Hl _]. by eapply steps_single_flight. }
  pose proof (Engine_Dispatch_cases host' plan e') as Hcase.
  assert (st_read_only (en_store e') = false) as Hro' by (destruct F as (_&_&_&_&->); done).
  specialize (Hcase Hro'). rewrite (plan_bound_kept e e' plan F O), Hb in Hcase.
  destruct Hcase as (intent' & Hi' & Hcase).
  assert (intent' = intent) as ->.
  { unfold bound_intent in *. destruct O as (_&_&_&_&Hin&_). rewrite Hin in Hi'. congruence. }
  assert (List.filter (dispatchable e') (pl_decisions plan) =
          List.filter (dispatchable e) (pl_decisions plan)) as Hfil
    by (apply filter_ext; intros d; by apply dispatchable_frame).
  rewrite <- Hfil in Hall.
  destruct (dispatch_reuses host' intent (ho_now host') (pl_decisions plan) dispatch_empty e' Hok')
    as (r' & intents & Hrun & H1 & H2 & H3); [by eapply intended_answers|].
  cbn [dispatch_empty di_intents di_already_issued app] in H1, H3. subst intents.
  destruct (MaybeCompactLocked_state host' e' Hok') as (_ & [u Hu] & Hst).
  destruct (compacted_fields _ _ Hst) as (Ha & _ & Hn & _).
  exists r', (MaybeCompactLocked host' e').2. split; [|split; [done|split; [done|split; [|lia]]]].
  - rewrite Hcase. unfold mbind, Op_bind, mret, Op_ret. rewrite Hrun.
    destruct (MaybeCompactLocked host' e') as [r2 e2]. cbn in Hu. by rewrite Hu.
  - exact (intended_unique e' intent _ _ _ Hsf' H2 Hall).
Qed.

(** ** Fences *)

Definition fence_time (host : Host) (fence : FenceEntry) : Z :=
  if fe_created_unix_ms fence =? 0 then ho_now host else fe_created_unix_ms fence.

Lemma Engine_PutFence_inv host fence e u e' :
  host_typed host = true -> engine_ok e -> fence_wf fence = true ->
  Engine_PutFence host fence e = (Value u, e') ->
  exists e1 e2, engine_ok e1 /\ same_frame e e1 /\ i64 (fence_time host fence) = true /\
    (exists n, en_state e1 = with_sequence n
       (apply_fence (stamped_fence fence (fence_time host fence)) (en_state e))) /\
    for_each (revoke host (fence_time host fence)) (picked (victim_of fence) (en_state e1)) e1 =
      (Value tt, e2) /\ e' = (MaybeCompactLocked host e2).2.
Proof.
  intros Hh Hok Hw H. unfold Engine_PutFence in H.
  op_step H. apply require_writable_Value in Hop as [-> _]. op_step H. op_step H.
  cbv zeta in H. fold (fence_time host fence) in H. set (now := fence_time host fence) in *.
  unfold host_typed in Hh. bool_hyps.
  assert (i64 now = true) as Hnow.
  { unfold now, fence_time, fence_wf in *. bool_hyps. by destruct (_ =? 0). }
  assert (fence_wf (stamped_fence fence now) = true) as Hfw.
  { unfold fence_wf in *. bool_hyps. cbn. by bool_goal. }
  apply bind_Value in H as (u1 & e1 & Hmut & H).
  pose proof (mutate_spec host (Ev_Fence (stamped_fence fence now)) e Hok Hfw) as Hm.
  assert (evolves e (mutate host (Ev_Fence (stamped_fence fence now)) e).2) as Hev.
  { apply evolves_mutate; [done|done|exact Hfw|]. intros Hev. by apply ls_fenced. }
  rewrite Hmut in Hm, Hev. destruct Hm as (Hf & _ & n & Hst).
  rewrite get_bind in H. apply bind_Value in H as ([] & e2 & Hrun & H).
  exists e1, e2. split; [exact (engine_ok_evolves _ _ Hok Hev)|]. split; [done|]. split; [done|].
  split; [by exists n|]. split; [exact Hrun|]. by rewrite H.
Qed.

Lemma victim_in_flight fence a : victim_of fence a = true -> terminal a = false.
Proof. unfold victim_of, terminal. intros. by bool_hyps. Qed.

(** The outcomes that putting a fence commits; none of them is marked as ambiguous. *)
Lemma fence_outcomes host fence e u e' :
  host_typed host = true -> engine_ok e -> fence_wf fence = true ->
  Engine_PutFence host fence e = (Value u, e') ->
  om_find (fe_id fence) (ds_fences (en_state e')) =
    Some (stamped_fence fence (fence_time host fence)) /\
  (forall subject epoch, epoch < fe_fenced_below fence ->
     is_empty (fe_subject fence) || bool_decide (fe_subject fence = subject) = true ->
     FenceHoldsFor (ds_fences (en_state e')) (fe_scope fence) subject epoch = true) /\
  (forall id a, om_find id (ds_attempts (en_state e')) = Some a -> victim_of fence a = false) /\
  (forall id a, om_find id (ds_attempts (en_state e)) = Some a -> terminal a = false ->
     victim_of fence a = false -> om_find id (ds_attempts (en_state e')) = Some a) /\
  ds_outcomes (en_state e') = keep_last (max_retained_outcomes (en_limits e))
    (ds_outcomes (en_state e) ++
     map (fenced_outcome (fence_time host fence)) (picked (victim_of fence) (en_state e))).
Proof.
  intros Hh Hok Hw H.
  destruct (Engine_PutFence_inv host fence e u e' Hh Hok Hw H)
    as (e1 & e2 & Hok1 & Hf1 & Hnow & (n & Hst) & Hrun & ->).
  set (now := fence_time host fence) in *.
  assert (durable_wf (en_limits e1) (en_state e1) = true) as Hwf by (by destruct Hok1 as (_ & _ & ? & _)).
  assert (durable_wf (en_limits e) (en_state e) = true) as Hwf0 by (by destruct Hok as (_ & _ & ? & _)).
  destruct (for_each_concludes (revoke host now) _ _ (revoke_concludes host (follows_any host) now Hnow)
    (picked (victim_of fence) (en_state e1)) e1 Hok1) as [Hev Hc].
  { by eapply picked_NoDup. }
  { apply Forall_forall. intros a Ha. apply (elem_picked _ _ _ _ Hwf) in Ha as [Hfa Hv].
    split; [done|]. by apply victim_in_flight in Hv. }
  rewrite Hrun in Hev. specialize (Hc tt e2 Hrun). pose proof (engine_ok_evolves _ _ Hok1 Hev) as Hok2.
  destruct (MaybeCompactLocked_state host e2 Hok2) as (_ & _ & Hst2).
  destruct (compacted_fields _ _ Hst2) as (Ha2 & Hfe2 & _ & O2).
  assert (en_limits e1 = en_limits e) as Hl by (unfold en_limits; destruct Hf1 as (-> & _); done).
  assert (ds_outcomes (en_state (MaybeCompactLocked host e2).2) = ds_outcomes (en_state e2)) as Ho2
    by (destruct Hst2 as [->|(? & ? & ->)]; done).
  destruct Hc as ((_ & _ & _ & _ & _ & _ & Hfe) & Hout & Hfind & Hkeep).
  rewrite Ha2, Hfe2, Ho2, Hfe, Hout, Hl. rewrite Hst in Hkeep, Hfind |- *.
  assert (om_sorted (ds_fences (en_state e)) = true) as Hsf by (unfold durable_wf in Hwf0; by bool_hyps).
  assert (forall m a id, om_find id (ds_attempts (en_state e)) = Some a ->
    id ∈ map at_id (picked (victim_of fence) (with_sequence n (apply_fence m (en_state e)))) <->
    victim_of fence a = true) as Hpicked.
  { intros m a id Hfa. split.
    - intros (b & <- & Hb)%list_elem_of_In%in_map_iff. apply list_elem_of_In in Hb.
      apply (elem_picked (en_limits e) _ (en_state e) _ Hwf0) in Hb as [Hb Hv]. congruence.
    - intros Hv. destruct (attempt_found _ _ _ _ Hwf0 Hfa) as [<- _].
      apply list_elem_of_In, in_map, list_elem_of_In. by apply (elem_picked (en_limits e) _ (en_state e) _ Hwf0). }
  split; [|split; [|split; [|split; [|done]]]].
  - cbn. apply om_find_insert_eq.
  - intros subject epoch He Hs. by apply (fence_holds_insert _ (stamped_fence fence now)).
  - intros id a Ha. destruct (Hfind id a Ha) as [[Hn Ha0]|(b & ts & Hb & Hid & ->)].
    + destruct (victim_of fence a) eqn:Hv; [|done]. exfalso. apply Hn. by eapply Hpicked.
    + done.
  - intros id a Ha Ht Hv. apply Hkeep; [|done|done]. intros Hin. eapply Hpicked in Hin; [|done]. congruence.
Qed.

(** The outcome that ends an attempt by a fence.  Whether it counts as ambiguous is left open. *)
Definition ended_by_fence (now : Z) (a : AttemptRecord) (o : ReconciliationOutcome) : Prop :=
  exists ambiguous, o = MakeOutcome (moved a AS_Fenced []) AS_Fenced RC_AttemptFencedByEpochAdvance ambiguous now.

(** C23. A fence revokes what it covers: once it is put, it is held under its identity and
    covers its scope (and subject) below its epoch; no attempt it covers is left in flight;
    for each attempt revoked, in order of identity, one outcome is committed, which names the
    attempt, its key, epoch and boot, ends it as Fenced and does not count it as verified; and
    every other attempt in flight is untouched. *)
Theorem fence_revokes_in_flight host fence e u e' :
  host_typed host = true -> engine_ok e -> fence_wf fence = true ->
  Engine_PutFence host fence e = (Value u, e') ->
  om_find (fe_id fence) (ds_fences (en_state e')) =
    Some (stamped_fence fence (fence_time host fence)) /\
  (forall subject epoch, epoch < fe_fenced_below fence ->
     is_empty (fe_subject fence) || bool_decide (fe_subject fence = subject) = true ->
     FenceHoldsFor (ds_fences (en_state e')) (fe_scope fence) subject epoch = true) /\
  (forall id a, om_find id (ds_attempts (en_state e')) = Some a -> victim_of fence a = false) /\
  (forall id a, om_find id (ds_attempts (en_state e)) = Some a -> terminal a = false ->
     victim_of fence a = false -> om_find id (ds_attempts (en_state e')) = Some a) /\
  exists outcomes, Forall2 (ended_by_fence (fence_time host fence)) (picked (victim_of fence) (en_state e)) outcomes /\
    ds_outcomes (en_state e') = keep_last (max_retained_outcomes (en_limits e)) (ds_outcomes (en_state e) ++ outcomes).
Proof.
  intros Hh Hok Hw H. destruct (fence_outcomes host fence e u e' Hh Hok Hw H) as (H1 & H2 & H3 & H4 & H5).
  split_and!; try done. eexists. split; [|exact H5].
  clear H5. induction (picked (victim_of fence) (en_state e)) as [|a l IH]; [by constructor|].
  cbn [map]. constructor; [by exists false|exact IH].
Qed.

(** ** Verification *)

(** A mutation that succeeds. *)
Lemma mutate_commits host event e u e' :
  engine_ok e -> event_typed (en_limits e) event = true -> mutate host event e = (Value u, e') ->
  engine_ok e' /\ en_limits e' = en_limits e /\
  exists n, en_state e' = with_sequence n (apply_event (en_limits e) event (en_state e)).
Proof.
  intros Hok Ht H. pose proof (mutate_spec host event e Hok Ht) as Hm. rewrite H in Hm.
  destruct Hm as (F & Hw & n & S). split; [|split; [|by exists n]].
  - apply (engine_ok_frame e); [done..|]. rewrite S. destruct Hok as (_ & Hl & Hd & _).
    apply engine_limits_split in Hl as [Hl _]. exact (apply_event_wf _ Hl _ _ Hd Hw).
  - unfold en_limits. by destruct F as (-> & _).
Qed.

(** What the code requires of verification evidence before it records it against [a]. *)
Record accepted_evidence (host : Host) (e : Engine) (evidence : VerificationEvidence)
    (a : AttemptRecord) (d : ObservationDocument) : Prop := {
  ae_held : om_find (at_id a) (ds_attempts (en_state e)) = Some a;
  ae_key : at_idempotency_key a = vf_idempotency_key evidence;
  ae_subject : at_scope a = vf_scope evidence /\ at_subject a = vf_subject evidence;
  ae_live : live e (at_epoch a) (at_boot a) = true;
  ae_applied : at_state a = AS_Applied;
  ae_independent : require_independent_verification (ds_policy (en_state e)) = true ->
    vf_verifier evidence <> vf_applier evidence;
  ae_epoch : vf_received_epoch evidence = en_live_epoch e;
  ae_newer : av_observation_generation (at_authority a) < vf_generation evidence;
  ae_recorded : d ∈ ObservationEvidence e (vf_scope evidence);
  ae_cited : ob_observation d = vf_observation evidence /\
    ob_generation d = vf_generation evidence /\ ob_reporter d = vf_verifier evidence;
  ae_fresh : EvaluateFreshness d (freshness (ds_policy (en_state e))) (en_live_epoch e) (ho_now host)
    = FV_Fresh
}.

Lemma Engine_Verify_inv host evidence e o e' :
  engine_ok e -> Engine_Verify host evidence e = (Value o, e') ->
  exists a d, accepted_evidence host e evidence a d /\
    record_verification host e a evidence e = (Value o, e').
Proof.
  intros Hok H. unfold Engine_Verify in H.
  op_step H. apply require_writable_Value in Hop as [-> _]. rewrite get_bind in H. cbv zeta in H.
  destruct (List.find _ _) as [a1|] eqn:Ef; [|done].
  apply find_some in Ef as [Hin Hkey]. apply bool_decide_eq_true in Hkey.
  apply list_elem_of_In in Hin.
  destruct (bool_decide_reflect (at_scope a1 = vf_scope evidence)) as [Hs|]; cbn [negb orb] in H; [|done].
  destruct (bool_decide_reflect (at_subject a1 = vf_subject evidence)) as [Hj|]; cbn [negb] in H; [|done].
  destruct (live e _ _) eqn:Hl; cbn [negb] in H; [|done].
  destruct (bool_decide_reflect (at_state a1 = AS_Applied)) as [Happ|]; cbn [negb] in H; [|done].
  destruct (require_independent_verification _ && _) eqn:Hi; [done|].
  destruct (Z.eqb_spec (vf_received_epoch evidence) (en_live_epoch e)) as [He|]; cbn [negb] in H; [|done].
  destruct (Z.ltb_spec (av_observation_generation (at_authority a1)) (vf_generation evidence)) as [Hn|];
    cbn [negb] in H; [|done].
  destruct (cited_observation _ _) as [d|] eqn:Hc; [|done].
  unfold cited_observation in Hc. apply find_some in Hc as [Hd Hcite]. bool_hyps.
  destruct (bool_decide_reflect (EvaluateFreshness d (freshness (ds_policy (en_state e)))
    (en_live_epoch e) (ho_now host) = FV_Fresh)) as [Hf|]; cbn [negb] in H; [|done].
  exists a1, d. split; [|done]. constructor; try done.
  - eapply attempt_listed; [|done]. by destruct Hok as (_ & _ & ? & _).
  - intros Hreq Heq. rewrite Hreq in Hi. cbn in Hi. by apply bool_decide_eq_false in Hi.
  - by apply list_elem_of_In.
Qed.

(** C24. Verification needs evidence: a verification is accepted only for an applied attempt of
    this incarnation, from an independent reporter when the policy asks for one, citing an
    observation the engine holds that is of the live epoch, newer than the one the action
    relied on and still fresh; the outcome it commits claims the effect exactly when the
    evidence confirms it and is appended to the durable outcomes. *)
Theorem verified_needs_evidence host evidence e o e' :
  host_typed host = true -> engine_ok e -> verification_typed evidence = true ->
  Engine_Verify host evidence e = (Value o, e') ->
  exists a d, accepted_evidence host e evidence a d /\
    oc_attempt o = at_id a /\ oc_verified o = vf_confirms_effect evidence /\
    oc_terminal_state o = (if vf_confirms_effect evidence then AS_Verified else AS_Failed) /\
    ds_outcomes (en_state e') =
      keep_last (max_retained_outcomes (en_limits e)) (ds_outcomes (en_state e) ++ [o]).
Proof.
  intros Hh Hok Ht H. destruct (Engine_Verify_inv host evidence e o e' Hok H) as (a & d & Ha & Hrun).
  exists a, d. split; [done|]. rewrite record_verification_unfold in Hrun.
  destruct (verification_typed_parts host Hh e a evidence Hok Ht (ae_held _ _ _ _ _ Ha)) as [Hwa Hwo].
  apply bind_Value in Hrun as (u1 & e1 & H1 & Hrun). apply bind_Value in Hrun as (u2 & e2 & H2 & Hrun).
  rewrite count_bind in Hrun. set (e3 := with_stats _ _) in Hrun.
  apply bind_Value in Hrun as (u4 & e4 & H4 & Hrun). unfold mret, Op_ret in Hrun. injection Hrun as <- <-.
  destruct (mutate_commits host (Ev_AttemptTransition _) e u1 e1 Hok Hwa H1) as (Hok1 & Hl & n1 & S1).
  rewrite <- Hl.
  destruct (mutate_commits host (Ev_Outcome _) e1 u2 e2 Hok1 Hwo H2) as (Hok3 & _ & n2 & S2).
  destruct (MaybeCompactLocked_state host e3 Hok3) as (_ & _ & Hst). rewrite H4 in Hst. cbn [snd] in Hst.
  assert (ds_outcomes (en_state e4) = ds_outcomes (en_state e2)) as -> by (destruct Hst as [->|(? & ? & ->)]; done).
  rewrite S2, S1. repeat split; try reflexivity. cbn. by destruct (vf_confirms_effect evidence).
Qed.

(** ** Restart *)

Lemma apply_event_epoch limits event s : ds_last_epoch s <= ds_last_epoch (apply_event limits event s).
Proof.
  destruct event; cbn; try lia. unfold apply_epoch. destruct (Z.ltb_spec (ds_last_epoch s) epoch); cbn; lia.
Qed.

Lemma apply_events_epoch limits events : forall s,
  ds_last_epoch s <= ds_last_epoch (apply_events limits events s).
Proof.
  induction events as [|event events IH]; intros s; cbn; [lia|].
  etransitivity; [apply (apply_event_epoch limits event)|apply IH].
Qed.

(** No attempt is in flight: nothing of the previous incarnation can be completed. *)
Lemma terminal_single_flight epoch s :
  (forall id x, om_find id (ds_attempts s) = Some x -> terminal x = true) -> single_flight epoch s.
Proof.
  intros H key id1 id2 a b Ha _ Ra _. apply H in Ha. unfold terminal, reusable in *.
  rewrite Ha in Ra. bool_hyps. done.
Qed.

(** The options of a writable engine whose limits and initial policy are sound. *)
Definition boot_options_ok (options : EngineOptions) (bh : BootHost) : bool :=
  store_limits_wf (eo_limits options) && engine_limits_wf (eo_limits options) &&
  policy_typed (eo_initial_policy options) && negb (eo_read_only options) &&
  BootId_valid (bh_boot bh).

(** An engine is sound before it boots when its store holds a state. *)
Lemma unbooted_engine_ok options boot sid store spec report :
  store_limits_wf (eo_limits options) = true -> engine_limits_wf (eo_limits options) = true ->
  BootId_valid boot = true -> store_holds (eo_limits options) sid store spec ->
  engine_ok (opened_engine options boot store report).
Proof.
  intros H1 H2 H4 Hholds. pose proof (store_limits_split _ H1) as (L1 & L2 & L3).
  destruct (store_holds_wf _ L2 sid store _ Hholds) as (_ & Hwf & _).
  destruct Hholds as (cr & f & base & old & rs & events & R1 & _ & _ & _ & _ & _ & _ & R2).
  unfold engine_ok, en_limits, en_state. cbn. rewrite R2. by split_and!.
Qed.

(** What the boot of a writable engine leaves, on a store that holds a state. *)
Lemma boot_on_store host options boot sid store spec report u e :
  store_limits_wf (eo_limits options) = true -> engine_limits_wf (eo_limits options) = true ->
  policy_typed (eo_initial_policy options) = true -> BootId_valid boot = true -> host_typed host = true ->
  store_holds (eo_limits options) sid store spec ->
  boot_writable host (opened_engine options boot store report) = (Value u, e) ->
  engine_ok e /\ en_live_boot e = boot /\ en_live_epoch e = ds_last_epoch spec + 1 /\
  en_live_epoch e = ds_last_epoch (en_state e) /\ restarted (eo_limits options) (ho_now host) spec (en_state e).
Proof.
  intros H1 H2 H3 H4 H5 Hholds Hb.
  pose proof (unbooted_engine_ok options boot sid store spec report H1 H2 H4 Hholds) as Hok0.
  destruct Hholds as (cr & f & base & old & rs & events & R1 & _ & _ & _ & _ & _ & _ & R2).
  set (e0 := opened_engine _ _ _ _) in *.
  destruct (boot_writable_spec host H5 e0 u e Hok0 H3 Hb) as (Hok1 & Hep & Hbt & Hre).
  change (en_state e0) with (st_state store) in Hep, Hre. rewrite R2 in Hep, Hre.
  change (ds_last_epoch (with_sequence _ ?s)) with (ds_last_epoch s) in Hep.
  split; [exact Hok1|]. split; [done|]. split; [done|]. split; [|exact Hre].
  destruct Hre as (Hle & _). change (ds_last_epoch (with_sequence _ ?s)) with (ds_last_epoch s) in Hle. congruence.
Qed.

(** What an engine holds that created its store, whatever the host answered to its opening. *)
Lemma created_engine host bh options disk e :
  boot_options_ok options bh && host_typed host = true -> unborn disk ->
  length (bh_fresh_store bh) = 16%nat -> i64 (bh_now_header bh) = true ->
  Engine_Open host bh options disk = Value e ->
  engine_ok e /\ en_options e = options /\
  exists sid, restarted (eo_limits options) (ho_now host) (with_store sid empty_state) (en_state e).
Proof.
  intros Hopt Hu Hf Hc. unfold boot_options_ok in Hopt. bool_hyps.
  unfold Engine_Open. destruct (is_empty _); [done|]. unfold Engine_Boot.
  match goal with H : eo_read_only options = false |- _ => rewrite H end.
  destruct (sp_store _) as [[store report]|] eqn:Eo; [|done].
  pose proof (keeps_boot host (opened_engine options (bh_boot bh) store report)) as Hk.
  destruct (boot_writable host _) as [[u|status] e1] eqn:Eb; [|done]. intros [= <-].
  pose proof (store_limits_split (eo_limits options) ltac:(done)) as (L1 & L2 & L3).
  apply (born (eo_limits options) L3) in Eo as [sid Eo]; [|done..].
  destruct (boot_on_store host options _ _ store _ _ u e1 ltac:(done) ltac:(done) ltac:(done) ltac:(done) ltac:(done) Eo Eb)
    as (Hok & _ & _ & _ & Hre). split; [done|]. split; [done|]. by exists sid.
Qed.

(** What an engine opened on a crashed store holds, whatever the host answered to its opening. *)
Lemma restart_recovers host bh options store spec disk e :
  boot_options_ok options bh && host_typed host = true ->
  store_history (eo_limits options) store spec -> crashed (eo_limits options) store disk ->
  Engine_Open host bh options disk = Value e ->
  exists s extra, on_disk store spec s /\ blen extra <= 1 /\ forallb (event_wf (eo_limits options)) extra = true /\
    restarted (eo_limits options) (ho_now host) (apply_events (eo_limits options) extra s) (en_state e) /\
    ds_last_epoch spec < en_live_epoch e /\ en_live_epoch e = ds_last_epoch (en_state e) /\
    en_live_boot e = bh_boot bh /\ engine_ok e /\ single_flight (en_live_epoch e) (en_state e).
Proof.
  intros Hopt Hh Hcr. unfold boot_options_ok in Hopt. bool_hyps.
  set (limits := eo_limits options) in *. pose proof (store_limits_split limits H) as (L1 & L2 & L3).
  destruct (history_stands limits L1 L2 L3 store spec Hh) as [sid Hst].
  destruct (reopens limits L1 L3 sid store spec disk Hst Hcr) as (s & Hs & Hr).
  unfold Engine_Open. destruct (is_empty _); [done|]. unfold Engine_Boot. fold limits.
  match goal with H : eo_read_only options = false |- _ => rewrite H end.
  destruct (Hr (bh_store bh) (eo_create_if_missing options) (bh_fresh_store bh) (bh_now_header bh) (bh_now_report bh))
    as [_ Hsome]. destruct (sp_store _) as [[store' report]|]; [|done].
  destruct (Hsome _ _ eq_refl) as (_ & extra & Hlen & Hext & Hrec).
  destruct (boot_writable host _) as [[u|status] e1] eqn:Eb; [|done]. intros [= <-].
  destruct (boot_on_store host options _ sid store' _ _ u e1 ltac:(done) ltac:(done) ltac:(done) ltac:(done) ltac:(done) Hrec Eb)
    as (Hok1 & Hbt & Hep & Hle & Hre).
  exists s, extra. do 3 (split; [done|]). split; [exact Hre|].
  pose proof (apply_events_epoch limits extra s) as Hmono.
  assert (ds_last_epoch s = ds_last_epoch spec) as Hse by (by destruct Hs as [-> | [_ ->]]).
  split; [lia|]. split; [done|]. split; [done|]. split; [exact Hok1|].
  destruct Hre as (_ & _ & _ & _ & _ & _ & Hall).
  apply terminal_single_flight. intros id x Hx. by destruct (Hall id x Hx).
Qed.

(** ** Concrete requests *)

Definition value_or {A} (d : A) (r : Result A) : A := match r with Value a => a | Failed _ => d end.
Definition succeeded {A} (r : Result A) : bool := match r with Value _ => true | Failed _ => false end.

Definition example_dispatch : DispatchResult :=
  value_or dispatch_empty (Engine_Dispatch example_host example_plan example_engine3).1.

Lemma example_dispatched :
  Engine_Dispatch example_host example_plan example_engine3 = (Value example_dispatch, example_engine4).
Proof. vm_compute. reflexivity. Qed.

Lemma example_request_ok : request_ok example_engine3 (RQ_Dispatch example_plan) = true.
Proof. vm_compute. reflexivity. Qed.


Lemma dispatch_idempotent_witness :
  exists r' e'', Engine_Dispatch (good_host 1700000000060) example_plan example_engine4 = (Value r', e'') /\
    ds_attempts (en_state e'') = ds_attempts (en_state example_engine4) /\
    di_intents r' = di_intents example_dispatch.
Proof.
  destruct (dispatch_idempotent example_host (good_host 1700000000060) example_plan example_engine3
    example_dispatch example_engine4) as (r' & e'' & H1 & H2 & _ & H4 & _).
  - reflexivity.
  - exact example_engine3_ok.
  - exact example_engine3_open.
  - exact example_engine3_single.
  - exact example_request_ok.
  - exact example_dispatched.
  - exists r', e''. split; [exact H1|]. split; [exact H2|exact H4].
Defined.

Lemma example_engine4_ok : engine_ok example_engine4.
Proof. unfold engine_ok. do 4 (split; [vm_compute; reflexivity|]). vm_compute. reflexivity. Qed.

Definition example_fence : FenceEntry :=
  mkFence (B "fence-1") (B "fabric/rack-7") [] 2 RC_AttemptFencedByEpochAdvance [] 0.
Definition example_engine_fenced : Engine := Eval vm_compute in
  (Engine_PutFence (good_host 1700000000060) example_fence example_engine4).2.

Lemma fence_revokes_in_flight_witness :
  map at_state (ds_attempts (en_state example_engine_fenced)).*2 = [AS_Fenced] /\
  FenceHoldsFor (ds_fences (en_state example_engine_fenced)) (B "fabric/rack-7") (B "port/eth1") 1 = true /\
  forall id a, om_find id (ds_attempts (en_state example_engine_fenced)) = Some a ->
    victim_of example_fence a = false.
Proof.
  split; [vm_compute; reflexivity|].
  destruct (fence_revokes_in_flight (good_host 1700000000060) example_fence example_engine4 tt
    example_engine_fenced) as (_ & H2 & H3 & _).
  - reflexivity.
  - exact example_engine4_ok.
  - vm_compute. reflexivity.
  - vm_compute. reflexivity.
  - split; [apply (H2 (B "port/eth1") 1); [reflexivity|vm_compute; reflexivity]|exact H3].
Defined.

(** The dispatched action is applied, observed by another reporter, and verified. *)
Definition example_attempt : AttemptRecord := Eval vm_compute in
  match (ds_attempts (en_state example_engine4)).*2 with
  | a :: _ => a
  | [] => new_attempt example_engine4 example_decision 0
  end.
Definition example_engine5 : Engine := Eval vm_compute in
  (Engine_Complete (good_host 1700000000070)
     (mkCompletion (at_id example_attempt) 1 example_boot (at_idempotency_key example_attempt) AS_Applied 0
        RC_None []) example_engine4).2.
Definition example_engine6 : Engine := Eval vm_compute in
  (RecordObservation (good_host 1700000000080) example_submission_both example_engine5).2.
Definition example_evidence : VerificationEvidence :=
  mkVerification (at_scope example_attempt) (at_subject example_attempt)
    (at_idempotency_key example_attempt) (B "obs-2") 10 1 (B "agent/b") (B "agent/a") 0 true.
Lemma example_engine6_ok : engine_ok example_engine6.
Proof. unfold engine_ok. do 4 (split; [vm_compute; reflexivity|]). vm_compute. reflexivity. Qed.

Lemma example_verify_succeeds :
  succeeded (Engine_Verify (good_host 1700000000090) example_evidence example_engine6).1 = true.
Proof. vm_compute. reflexivity. Qed.

Lemma verified_needs_evidence_witness :
  exists o a d,
    (Engine_Verify (good_host 1700000000090) example_evidence example_engine6).1 = Value o /\
    accepted_evidence (good_host 1700000000090) example_engine6 example_evidence a d /\
    oc_terminal_state o = AS_Verified.
Proof.
  pose proof example_verify_succeeds as Hok.
  destruct (Engine_Verify (good_host 1700000000090) example_evidence example_engine6)
    as [[o|status] e'] eqn:E; [|discriminate Hok].
  destruct (verified_needs_evidence (good_host 1700000000090) example_evidence example_engine6 o e')
    as (a & d & H1 & _ & _ & H4 & _).
  - reflexivity.
  - exact example_engine6_ok.
  - reflexivity.
  - exact E.
  - exists o, a, d. split; [reflexivity|]. split; [exact H1|exact H4].
Defined.
