(* ===== verification/Durability.v ===== *)
(** * What the engine acknowledged survives

    The composition of the engine with its store.  Over its whole life, through any requests,
    failed opens, writes and barriers, compactions of any outcome, boots that were cut short,
    crashes and restarts, the store of the engine is one that the store's own contract covers
    ([store_history]) and holds exactly the state the engine works on; so a crash at any time is
    followed by an opening that gives that state back, or by none when the journal's reset in a
    compaction was cut. *)

From Stdlib Require Import ZArith Lia.
From stdpp Require Import prelude.
From S2P Require Import Prelude OrdMap Hash Status Identity Canonical Value Policy Document Drift.
From S2P Require Import Authority Plan Lineage Journal Snapshot StoreState Store Engine Planner.
From S2P Require Import Lifecycle EngineRuns EngineSafety EngineGuards.
Local Open Scope Z_scope.

Local Opaque EncodePolicy EncodeIntent EncodeObservation EncodeAttemptRecord EncodeOutcome EncodeFence.

(** ** Careful hosts *)

(** A compaction, of any outcome, that publishes no more than a snapshot can hold, under clocks of
    their type. *)
Definition compaction_clean (limits : RuntimeLimits) (io : CompactIo) (store : DurableStore) : bool :=
  i64 (ci_now_snapshot io) && i64 (ci_now_journal io) &&
  (negb (publishes io store) || snapshot_fits limits (compacted (st_state store))).

(** The hosts under which the store keeps its contract: writes, barriers and compactions may fail
    in any way, a journal that has used up its sequence numbers takes no more bytes, and a
    compaction finds tables that a snapshot can hold. *)
Definition careful (limits : RuntimeLimits) : Discipline := {|
  write_allowed := write_has_room;
  compact_allowed io store := compaction_clean limits io store = true
|}.

(** ** The store of an engine *)

Section Kept.
Variable limits : RuntimeLimits.
Hypothesis Hlimits : store_limits_wf limits = true.

Lemma store_history_stands store spec : store_history limits store spec -> exists sid, stands limits sid store spec.
Proof. destruct (store_limits_split limits Hlimits) as (H1 & H2 & H3). exact (history_stands limits H1 H2 H3 store spec). Qed.

Lemma history_state store spec : store_history limits store spec -> unsequenced (st_state store) = spec.
Proof. intros Hh. destruct (store_history_stands _ _ Hh) as [sid Hs]. 
  destruct (store_limits_split limits Hlimits) as (H1 & H2 & H3). by eapply stands_state. Qed.

(** The store holds, durably, what it has in memory. *)
Definition kept (store : DurableStore) : Prop := store_history limits store (unsequenced (st_state store)).

Lemma kept_intro store spec : store_history limits store spec -> kept store.
Proof. intros Hh. unfold kept. by rewrite (history_state _ _ Hh). Qed.

Lemma kept_holds store : kept store -> jn_open (st_journal store) = true ->
  exists sid, store_holds limits sid store (unsequenced (st_state store)).
Proof. intros Hk Ho. destruct (store_history_stands _ _ Hk) as [sid Hs]. exists sid. by eapply (stands_open limits). Qed.

Lemma step_kept store store' :
  kept store -> store_step (H := careful limits) limits store store' -> kept store'.
Proof.
  intros Hk Hs. destruct Hs as [io event store Hw Hev|io store Hc|io store].
  - eapply kept_intro, sh_commit; [exact Hk|exact Hev|exact Hw].
  - cbn in Hc. unfold compaction_clean in Hc. apply andb_true_iff in Hc as [Hclock Hc].
    eapply kept_intro, sh_compact; [exact Hk|exact Hclock|]. intros Hp. by rewrite Hp in Hc.
  - by eapply kept_intro, sh_synced.
Qed.

Lemma moves_kept (e e' : Engine) :
  en_limits e = limits -> kept (en_store e) -> store_moves (D := careful limits) e e' -> kept (en_store e').
Proof. unfold store_moves. intros -> Hk Hm. induction Hm; [done|]. eauto using step_kept. Qed.
End Kept.

(** ** Opening *)

(** A process that opens an engine: sound options, a careful host, values of their types.  What
    the host answers to the opening of the store is free. *)
Record prepared (options : EngineOptions) (host : Host) (bh : BootHost) : Prop := {
  op_options : boot_options_ok options bh && host_typed host = true;
  op_follows : follows (H := careful (eo_limits options)) host;
  op_fresh : length (bh_fresh_store bh) = 16%nat;
  op_clock : i64 (bh_now_header bh) = true
}.

Lemma prepared_limits options host bh : prepared options host bh -> store_limits_wf (eo_limits options) = true.
Proof. intros []. unfold boot_options_ok in *. by bool_hyps. Qed.

(** The store a process opens. *)
Definition store_opened (options : EngineOptions) (bh : BootHost) (disk : StoreDisk) : StoreOpened :=
  DurableStore_Open (bh_store bh) (eo_limits options) (eo_create_if_missing options) false
    (bh_fresh_store bh) (bh_now_header bh) (bh_now_report bh) disk.

(** The boot of an engine on what the store's opening gave, and where it stopped: with the engine
    serving, or at the first write that failed. *)
Definition boots (options : EngineOptions) (host : Host) (bh : BootHost) (disk : StoreDisk) (booted : bool)
    (e : Engine) : Prop :=
  exists store report r, sp_store (store_opened options bh disk) = Some (store, report) /\
    boot_writable host (opened_engine options (bh_boot bh) store report) = (r, e) /\
    booted = match r with Value _ => true | Failed _ => false end.

Lemma Engine_Open_boots options host bh disk e :
  prepared options host bh -> Engine_Open host bh options disk = Value e -> boots options host bh disk true e.
Proof.
  intros []. unfold boot_options_ok in *. bool_hyps. unfold Engine_Open, Engine_Boot.
  destruct (is_empty _); [done|]. match goal with H : eo_read_only options = false |- _ => rewrite H end.
  unfold boots, store_opened. destruct (sp_store _) as [[store report]|]; [|done].
  destruct (boot_writable host _) as [[u|status] e1] eqn:Eb; [|done]. intros [= <-].
  exists store, report, (Value u). by rewrite Eb.
Qed.

(** ** The life of an engine *)

(** The engines that a store directory sees, from its creation on, one process after another, and
    whether they were serving: a process may end at any moment, while it boots too.  A process that
    ends in the middle of a write, a barrier or a compaction leaves what the operation leaves when
    the host fails it from there on. *)
Inductive seen (options : EngineOptions) : bool -> Engine -> Prop :=
| seen_created host bh disk booted e :
    prepared options host bh -> unborn disk -> boots options host bh disk booted e -> seen options booted e
| seen_serves e e' :
    seen options true e -> request_step (H := careful (eo_limits options)) e e' -> seen options true e'
| seen_restarts before e disk host bh booted e' :
    seen options before e -> crashed (eo_limits options) (en_store e) disk ->
    prepared options host bh -> boots options host bh disk booted e' -> seen options booted e'.

(** The engines that served. *)
Definition lives (options : EngineOptions) : Engine -> Prop := seen options true.

(** What every one of them satisfies. *)
Record alive (options : EngineOptions) (e : Engine) : Prop := {
  al_ok : engine_ok e;
  al_options : en_options e = options;
  al_kept : kept (eo_limits options) (en_store e);
  al_epoch : en_live_epoch e = ds_last_epoch (en_state e);
  al_single : single_flight (en_live_epoch e) (en_state e)
}.

(** What those satisfy whose boot did not end. *)
Definition known (options : EngineOptions) (booted : bool) (e : Engine) : Prop :=
  en_options e = options /\ kept (eo_limits options) (en_store e) /\ (booted = true -> alive options e).

(** The store a process opens on an unborn directory, or on what another left, is kept. *)
Lemma created_opened options host bh disk store report :
  prepared options host bh -> unborn disk -> sp_store (store_opened options bh disk) = Some (store, report) ->
  kept (eo_limits options) store /\ exists sid, store_holds (eo_limits options) sid store (unsequenced (st_state store)).
Proof.
  intros Hp Hu Ho. pose proof (prepared_limits _ _ _ Hp) as Hl. destruct Hp.
  assert (kept (eo_limits options) store) as Hk by (eapply kept_intro; [done|]; by eapply sh_created).
  split; [done|]. destruct (store_limits_split _ Hl) as (L1 & L2 & L3).
  destruct (born (eo_limits options) L3 _ _ _ _ _ _ _ _ Hu op_fresh0 op_clock0 Ho) as [sid Hh].
  exists sid. by rewrite (store_holds_state _ L2 _ _ _ Hh).
Qed.

Lemma crashed_opened options bh store0 disk store report :
  store_limits_wf (eo_limits options) = true -> kept (eo_limits options) store0 ->
  crashed (eo_limits options) store0 disk -> sp_store (store_opened options bh disk) = Some (store, report) ->
  kept (eo_limits options) store /\ exists sid, store_holds (eo_limits options) sid store (unsequenced (st_state store)).
Proof.
  intros Hl Hk Hc Ho. split; [by eapply (sh_crash (eo_limits options) store0)|].
  destruct (store_limits_split _ Hl) as (L1 & L2 & L3). destruct (store_history_stands _ Hl _ _ Hk) as [sid Hst].
  destruct (reopens (eo_limits options) L1 L3 sid store0 _ disk Hst Hc) as (s & _ & Hr).
  destruct (Hr (bh_store bh) (eo_create_if_missing options) (bh_fresh_store bh) (bh_now_header bh) (bh_now_report bh))
    as [_ Hsome]. destruct (Hsome _ _ Ho) as (_ & extra & _ & _ & Hh). exists sid. by rewrite (store_holds_state _ L2 _ _ _ Hh).
Qed.

(** What the boot makes of the state the store was opened with. *)
Lemma boots_on options host bh disk e sid store report :
  prepared options host bh -> sp_store (store_opened options bh disk) = Some (store, report) ->
  store_holds (eo_limits options) sid store (unsequenced (st_state store)) ->
  boots options host bh disk true e ->
  engine_ok e /\ en_live_boot e = bh_boot bh /\ en_live_epoch e = ds_last_epoch (st_state store) + 1 /\
  en_live_epoch e = ds_last_epoch (en_state e) /\
  restarted (eo_limits options) (ho_now host) (unsequenced (st_state store)) (en_state e).
Proof.
  intros Hp Ho Hh (store' & report' & r & Ho' & Hb & Hr). rewrite Ho in Ho'. injection Ho' as <- <-.
  destruct r as [u|status]; [|done]. destruct Hp. unfold boot_options_ok in op_options0. bool_hyps.
  exact (boot_on_store host options _ sid store _ _ u e ltac:(done) ltac:(done) ltac:(done) ltac:(done) ltac:(done) Hh Hb).
Qed.

Lemma boots_known options host bh disk booted e :
  prepared options host bh ->
  (forall store report, sp_store (store_opened options bh disk) = Some (store, report) ->
     kept (eo_limits options) store /\ exists sid, store_holds (eo_limits options) sid store (unsequenced (st_state store))) ->
  boots options host bh disk booted e -> known options booted e.
Proof.
  intros Hp Hk Hboots. pose proof Hboots as (store & report & r & Ho & Hb & Hr). destruct (Hk _ _ Ho) as [Hkept [sid Hh]].
  pose proof (prepared_limits _ _ _ Hp) as Hl. pose proof (boots_on options host bh disk e sid store report Hp Ho Hh) as Hon. destruct Hp. unfold boot_options_ok in op_options0. bool_hyps.
  pose proof (unbooted_engine_ok options (bh_boot bh) sid store _ report ltac:(done) ltac:(done) ltac:(done) Hh) as Hok0.
  set (e0 := opened_engine _ _ _ _) in *. pose proof (keeps_boot host e0) as Hopt. rewrite Hb in Hopt. cbn [snd] in Hopt.
  assert (kept (eo_limits options) (en_store e)) as Hke.
  { apply (moves_kept _ ltac:(done) e0 e eq_refl Hkept). pose proof (boot_writable_moves host ltac:(done) (H := careful (eo_limits options)) e0 op_follows0 Hok0 ltac:(done)) as Hm. by rewrite Hb in Hm. }
  split; [exact Hopt|]. split; [exact Hke|]. intros ->.
  destruct (Hon Hboots) as (Hok & Hbt & Hep & Hle & Hre). split; try done.
  apply terminal_single_flight. intros id x Hx. destruct Hre as (_ & _ & _ & _ & _ & _ & Hall). by destruct (Hall id x Hx).
Qed.

Lemma request_alive options e e' :
  store_limits_wf (eo_limits options) = true -> alive options e ->
  request_step (H := careful (eo_limits options)) e e' -> alive options e'.
Proof.
  intros Hl [] Hs. assert (en_limits e = eo_limits options) as Hlim by (unfold en_limits; by rewrite al_options0).
  pose proof (served_evolves (H := careful (eo_limits options)) e e' al_ok0 (rtc_once _ _ Hs)) as Hev.
  pose proof (engine_ok_evolves _ _ al_ok0 Hev) as Hok'. destruct Hev as ((Ho & He & _) & Hsteps & Hm).
  pose proof (steps_advanced _ _ _ _ _ Hsteps) as (Hep & _).
  destruct al_ok0 as (_ & Hel & Hwf & _). apply engine_limits_split in Hel as [Hret _].
  split; [done|congruence|by eapply moves_kept|congruence|]. rewrite He. by eapply steps_single_flight.
Qed.

Lemma seen_known options booted e :
  seen options booted e -> store_limits_wf (eo_limits options) = true /\ known options booted e.
Proof.
  induction 1 as [host bh disk booted e Hp Hu Hb|e e' Hlife [Hl (_ & _ & IH)] Hs|
    before e disk host bh booted e' Hlife [Hl (_ & IH & _)] Hc Hp Hb].
  - split; [by eapply prepared_limits|]. eapply boots_known; [exact Hp| |exact Hb].
    intros store report. by eapply created_opened.
  - split; [done|]. pose proof (request_alive options e e' Hl (IH eq_refl) Hs) as Ha.
    split; [apply Ha|]. split; [apply Ha|]. by intros _.
  - split; [done|]. eapply boots_known; [exact Hp| |exact Hb]. intros store report. by eapply crashed_opened.
Qed.

Lemma life_alive options e : lives options e -> store_limits_wf (eo_limits options) = true /\ alive options e.
Proof. intros H. destruct (seen_known _ _ _ H) as [Hl (_ & _ & Ha)]. split; [done|by apply Ha]. Qed.

(** What the next processes make of what one left. *)
Lemma state_survives options booted e disk :
  seen options booted e -> crashed (eo_limits options) (en_store e) disk ->
  exists s, on_disk (en_store e) (unsequenced (en_state e)) s /\
    forall host bh, prepared options host bh ->
      let o := store_opened options bh disk in
      (sp_store o = None \/ recovers (eo_limits options) s o) /\
      (bh_store bh = store_io_good -> jn_open (st_journal (en_store e)) = true -> recovers (eo_limits options) s o) /\
      forall e', Engine_Open host bh options disk = Value e' ->
        exists extra, blen extra <= 1 /\ forallb (event_wf (eo_limits options)) extra = true /\
          restarted (eo_limits options) (ho_now host) (apply_events (eo_limits options) extra s) (en_state e') /\
          ds_last_epoch (en_state e) < en_live_epoch e' /\ en_live_boot e' = bh_boot bh /\ lives options e'.
Proof.
  intros Hseen Hc. destruct (seen_known _ _ _ Hseen) as [Hl (_ & Hk & _)].
  destruct (history_recovers (eo_limits options) (en_store e) _ disk Hl Hk Hc) as (s & Hs & Hr).
  exists s. split; [exact Hs|]. intros host bh Hp o. subst o.
  destruct (Hr (bh_store bh) (eo_create_if_missing options) (bh_fresh_store bh) (bh_now_header bh) (bh_now_report bh))
    as [Hor Hgood]. split; [exact Hor|]. split; [exact Hgood|]. intros e' He'.
  pose proof (Engine_Open_boots _ _ _ _ _ Hp He') as Hb.
  assert (lives options e') as Hlife by (by eapply seen_restarts).
  pose proof Hb as (store & report & r & Ho & _). destruct (crashed_opened _ bh _ _ _ _ Hl Hk Hc Ho) as [_ [sid Hh]].
  destruct (boots_on options host bh disk e' sid store report Hp Ho Hh Hb) as (_ & Hbt & Hep & _ & Hre).
  destruct Hor as [Hn|(store1 & report1 & extra & _ & Ho1 & Hlen & Hwf & Hun)]; [unfold store_opened in Ho; congruence|].
  unfold store_opened in Ho. rewrite Ho in Ho1. injection Ho1 as <- <-. exists extra. rewrite Hun in Hre. split_and!; try done.
  change (ds_last_epoch (st_state store)) with (ds_last_epoch (unsequenced (st_state store))) in Hep. rewrite Hep, Hun.
  pose proof (apply_events_epoch (eo_limits options) extra s) as Hmono.
  assert (ds_last_epoch s = ds_last_epoch (en_state e)) as Hse by (by destruct Hs as [-> | [_ ->]]). lia.
Qed.

(** ** A concrete life *)

(** A host that completes every write and compaction it may. *)
Definition stopping_io (now : Z) : CompactIo :=
  mkCompactIo (mkPublishIo true false 0 true true true true) open_io_good now now.
Definition complete_host (limits : RuntimeLimits) (now : Z) : Host :=
  mkHost
    (fun event store => if jn_last_sequence (st_journal store) + 3 <? 2 ^ 64
       then io_good (kRecordHeaderBytes + blen (event_payload event)) else mkWriteIo 0 true true)
    (fun store => let io := example_compact_io store kJournalHeaderBytes in
       if compaction_clean limits io store then io else stopping_io now) now now.
(** A host whose writes are cut short. *)
Definition torn_host (limits : RuntimeLimits) (now written : Z) : Host :=
  mkHost (fun _ store => if jn_last_sequence (st_journal store) + 3 <? 2 ^ 64
       then mkWriteIo written true true else mkWriteIo 0 true true)
    (fun _ => stopping_io now) now now.

Lemma stopping_clean limits now store : i64 now = true -> compaction_clean limits (stopping_io now) store = true.
Proof.
  intros Hn. unfold compaction_clean, publishes, stopping_io. cbn [ci_now_snapshot ci_now_journal ci_publish].
  rewrite Hn. unfold WriteSnapshotAtomic. cbn [pi_create_ok negb fst snd]. by rewrite andb_false_r.
Qed.

Lemma room_written io store :
  write_has_room (if jn_last_sequence (st_journal store) + 3 <? 2 ^ 64 then io else mkWriteIo 0 true true) store.
Proof. unfold write_has_room. destruct (Z.ltb_spec (jn_last_sequence (st_journal store) + 3) (2 ^ 64)); auto. Qed.

Lemma complete_host_follows limits now :
  i64 now = true -> follows (H := careful limits) (complete_host limits now).
Proof.
  intros Hn. split; [intros; apply room_written|]. intros store. cbn.
  destruct (compaction_clean limits (example_compact_io store kJournalHeaderBytes) store) eqn:E; [done|].
  by apply stopping_clean.
Qed.

Lemma torn_host_follows limits now written :
  i64 now = true -> follows (H := careful limits) (torn_host limits now written).
Proof. intros Hn. split; [intros; apply room_written|]. intros store. by apply stopping_clean. Qed.

Definition life_host : Host := complete_host default_limits 1700000000010.
Definition life0 : Engine := Eval vm_compute in
  match Engine_Open life_host example_boot_host example_options empty_disk with Value e => e | Failed _ => unbooted end.
Definition life1 : Engine := Eval vm_compute in (serve life_host (RQ_CommitIntent example_intent) life0).2.
Definition life2 : Engine := Eval vm_compute in (serve life_host RQ_Compact life1).2.
Definition life3 : Engine := Eval vm_compute in
  (serve (torn_host default_limits 1700000000020 77) (RQ_RecordObservation example_submission 0) life2).2.
Definition life3_disk : StoreDisk :=
  mkDisk true true (mkSnapshotDir (sd_published (st_snapshot (en_store life3))) None)
    (Some (jn_content (st_journal (en_store life3)))).
Definition next_boot_host : BootHost :=
  mkBootHost store_io_good example_fresh 1700000000030 1700000000030 (repeat Byte.x02 16).
Definition life4 : Engine := Eval vm_compute in
  match Engine_Open life_host next_boot_host example_options life3_disk with Value e => e | Failed _ => unbooted end.

Lemma life0_prepared : prepared example_options life_host example_boot_host.
Proof. split; [vm_compute; reflexivity|by apply complete_host_follows|reflexivity|reflexivity]. Qed.

Lemma life0_lives : lives example_options life0.
Proof.
  apply (seen_created _ life_host example_boot_host empty_disk); [exact life0_prepared|exact empty_unborn|].
  apply Engine_Open_boots; [exact life0_prepared|vm_compute; reflexivity].
Qed.

Lemma life3_lives : lives example_options life3.
Proof.
  apply (seen_serves _ life2).
  - apply (seen_serves _ life1).
    + apply (seen_serves _ life0); [exact life0_lives|].
      exists life_host, (RQ_CommitIntent example_intent).
      split; [done|]. split; [by apply complete_host_follows|]. split; vm_compute; reflexivity.
    + exists life_host, RQ_Compact.
      split; [done|]. split; [by apply complete_host_follows|]. split; vm_compute; reflexivity.
  - exists (torn_host default_limits 1700000000020 77), (RQ_RecordObservation example_submission 0).
    split; [done|]. split; [by apply torn_host_follows|]. split; vm_compute; reflexivity.
Qed.

Lemma life4_prepared : prepared example_options life_host next_boot_host.
Proof. split; [vm_compute; reflexivity|by apply complete_host_follows|reflexivity|reflexivity]. Qed.

Lemma life4_opens : Engine_Open life_host next_boot_host example_options life3_disk = Value life4.
Proof. vm_compute. reflexivity. Qed.

Lemma life3_crashed : crashed default_limits (en_store life3) life3_disk.
Proof.
  constructor; [reflexivity|reflexivity|reflexivity| |vm_compute; reflexivity].
  exists (jn_content (st_journal (en_store life3))). split; [reflexivity|]. split; [|vm_compute; discriminate].
  exists []. split; [by rewrite app_nil_r|]. vm_compute. discriminate.
Qed.

(** ** Properties *)



(** C19. Over the whole life of a store directory every engine is sound: its invariant holds, its
    epoch is the newest its store records, and at most one attempt in flight carries a given
    idempotency key. *)
Theorem every_incarnation_is_sound options e :
  lives options e ->
  engine_ok e /\ en_options e = options /\ en_live_epoch e = ds_last_epoch (en_state e) /\
  single_flight (en_live_epoch e) (en_state e).
Proof. intros H. by destruct (life_alive _ _ H) as [_ []]. Qed.

Lemma every_incarnation_is_sound_witness : engine_ok life3 /\ en_live_epoch life3 = 1.
Proof.
  destruct (every_incarnation_is_sound example_options life3 life3_lives) as (Hok & _).
  split; [exact Hok|reflexivity].
Defined.
