(* ===== verification/Wire.v ===== *)
(** * The framed protocol (wire.hpp, wire.cpp)

    Frame images, the checks of a received header and image, and the incremental reader that
    reassembles frames from a byte stream cut anywhere.  The reader's failures are sticky. *)

From Stdlib Require Import ZArith Lia.
From stdpp Require Import prelude.
From S2P Require Import Prelude OrdMap Hash Status Identity Canonical Value Policy Journal.
Local Open Scope Z_scope.

(** ** Constants and vocabulary *)

(** Models [kWireProtocolVersion], include/summon/fabric_reconciliation/version.hpp:28-28. *)
Definition kWireProtocolVersion : Z := 1.
(** Models [kWireHeaderBytes], include/summon/fabric_reconciliation/wire.hpp:46-46. *)
Definition kWireHeaderBytes : Z := 64.
(** Models [kWireDigestOffset], include/summon/fabric_reconciliation/wire.hpp:47-47. *)
Definition kWireDigestOffset : Z := 32.
(** Models [kWireMagic], include/summon/fabric_reconciliation/wire.hpp:48-48. *)
Definition kWireMagic : bytes := B "FRP1".

(** Models [WireMessageType], include/summon/fabric_reconciliation/wire.hpp:50-60. *)
Inductive WireMessageType :=
| WM_Invalid | WM_Hello | WM_Welcome | WM_Request | WM_Response | WM_Error | WM_Ping | WM_Pong
| WM_Goodbye.

#[export] Instance WireMessageType_eq : EqDecision WireMessageType.
Proof. solve_decision. Defined.

Definition WireMessageType_to_Z (t : WireMessageType) : Z :=
  match t with
  | WM_Invalid => 0 | WM_Hello => 1 | WM_Welcome => 2 | WM_Request => 3 | WM_Response => 4
  | WM_Error => 5 | WM_Ping => 6 | WM_Pong => 7 | WM_Goodbye => 8
  end.

(** The cast of an in-range raw value. *)
Definition WireMessageType_of_Z (raw : Z) : WireMessageType :=
  if raw =? 1 then WM_Hello else if raw =? 2 then WM_Welcome else if raw =? 3 then WM_Request
  else if raw =? 4 then WM_Response else if raw =? 5 then WM_Error else if raw =? 6 then WM_Ping
  else if raw =? 7 then WM_Pong else if raw =? 8 then WM_Goodbye else WM_Invalid.

(** Models [ToText], src/wire.cpp:53-66. *)
Definition WireMessageType_ToText (t : WireMessageType) : bytes :=
  match t with
  | WM_Invalid => B "INVALID" | WM_Hello => B "HELLO" | WM_Welcome => B "WELCOME"
  | WM_Request => B "REQUEST" | WM_Response => B "RESPONSE" | WM_Error => B "ERROR"
  | WM_Ping => B "PING" | WM_Pong => B "PONG" | WM_Goodbye => B "GOODBYE"
  end.

(** Models [TryParseWireMessageType], src/wire.cpp:68-75. *)
Definition TryParseWireMessageType (raw : Z) : option WireMessageType :=
  if (raw <? WireMessageType_to_Z WM_Hello) || (WireMessageType_to_Z WM_Goodbye <? raw) then None
  else Some (WireMessageType_of_Z raw).

(** Models [WireOperation], include/summon/fabric_reconciliation/wire.hpp:66-84. *)
Inductive WireOperation :=
| WO_Invalid | WO_ActivePolicy | WO_PutPolicy | WO_CommitIntent | WO_RecordObservation
| WO_Classify | WO_Plan | WO_Dispatch | WO_Complete | WO_Verify | WO_PutFence | WO_ClearFence
| WO_KnownScopes | WO_Attempts | WO_Outcomes | WO_BootReport | WO_Compact.

#[export] Instance WireOperation_eq : EqDecision WireOperation.
Proof. solve_decision. Defined.

Definition WireOperation_to_Z (o : WireOperation) : Z :=
  match o with
  | WO_Invalid => 0 | WO_ActivePolicy => 1 | WO_PutPolicy => 2 | WO_CommitIntent => 3
  | WO_RecordObservation => 4 | WO_Classify => 5 | WO_Plan => 6 | WO_Dispatch => 7
  | WO_Complete => 8 | WO_Verify => 9 | WO_PutFence => 10 | WO_ClearFence => 11
  | WO_KnownScopes => 12 | WO_Attempts => 13 | WO_Outcomes => 14 | WO_BootReport => 15
  | WO_Compact => 16
  end.

Definition WireOperation_of_Z (raw : Z) : WireOperation :=
  if raw =? 1 then WO_ActivePolicy else if raw =? 2 then WO_PutPolicy
  else if raw =? 3 then WO_CommitIntent else if raw =? 4 then WO_RecordObservation
  else if raw =? 5 then WO_Classify else if raw =? 6 then WO_Plan
  else if raw =? 7 then WO_Dispatch else if raw =? 8 then WO_Complete
  else if raw =? 9 then WO_Verify else if raw =? 10 then WO_PutFence
  else if raw =? 11 then WO_ClearFence else if raw =? 12 then WO_KnownScopes
  else if raw =? 13 then WO_Attempts else if raw =? 14 then WO_Outcomes
  else if raw =? 15 then WO_BootReport else if raw =? 16 then WO_Compact else WO_Invalid.

(** Models [ToText], src/wire.cpp:77-98. *)
Definition WireOperation_ToText (o : WireOperation) : bytes :=
  match o with
  | WO_Invalid => B "INVALID" | WO_ActivePolicy => B "ACTIVE_POLICY"
  | WO_PutPolicy => B "PUT_POLICY" | WO_CommitIntent => B "COMMIT_INTENT"
  | WO_RecordObservation => B "RECORD_OBSERVATION" | WO_Classify => B "CLASSIFY"
  | WO_Plan => B "PLAN" | WO_Dispatch => B "DISPATCH" | WO_Complete => B "COMPLETE"
  | WO_Verify => B "VERIFY" | WO_PutFence => B "PUT_FENCE" | WO_ClearFence => B "CLEAR_FENCE"
  | WO_KnownScopes => B "KNOWN_SCOPES" | WO_Attempts => B "ATTEMPTS"
  | WO_Outcomes => B "OUTCOMES" | WO_BootReport => B "BOOT_REPORT" | WO_Compact => B "COMPACT"
  end.

(** Models [TryParseWireOperation], src/wire.cpp:100-107. *)
Definition TryParseWireOperation (raw : Z) : option WireOperation :=
  if (raw <? WireOperation_to_Z WO_ActivePolicy) || (WireOperation_to_Z WO_Compact <? raw) then None
  else Some (WireOperation_of_Z raw).

(** Models [FrameHeader], include/summon/fabric_reconciliation/wire.hpp:89-96. *)
Record FrameHeader := mkFrameHeader {
  fh_protocol_version : Z;
  fh_type : WireMessageType;
  fh_flags : Z;
  fh_payload_len : Z;
  fh_session_id : Z;
  fh_sequence : Z
}.

(** ** Frame images *)

(** The header before its digest: the 64 bytes with the digest still zero. *)
Definition frame_prefix (header : FrameHeader) (payload : bytes) : bytes :=
  let image := repeat Byte.x00 (Z.to_nat kWireHeaderBytes) in
  let image := store_at 0 kWireMagic image in
  let image := StoreU16 4 (fh_protocol_version header) image in
  let image := StoreU16 6 (WireMessageType_to_Z (fh_type header)) image in
  let image := StoreU16 8 (fh_flags header) image in
  let image := StoreU16 10 0 image in
  let image := StoreU32 12 (Z.land (blen payload) 0xffffffff) image in
  let image := StoreU64 16 (fh_session_id header) image in
  StoreU64 24 (fh_sequence header) image.

(** Models [EncodeFrame], src/wire.cpp:109-127. *)
Definition EncodeFrame (header : FrameHeader) (payload : bytes) : bytes :=
  let image := frame_prefix header payload in
  let digest := Sha256OfParts [take (Z.to_nat kWireDigestOffset) image; payload] in
  store_at (Z.to_nat kWireDigestOffset) digest image ++ payload.

(** Models [DecodeFrameHeader], src/wire.cpp:129-164. *)
Definition DecodeFrameHeader (data : bytes) (available max_payload : Z) : Result FrameHeader :=
  if available <? kWireHeaderBytes then
    Failed (mkStatus SC_Indeterminate RC_FrameTruncated (B "frame header is incomplete"))
  else if negb (bool_decide (take 4 data = kWireMagic)) then
    Failed (mkStatus SC_Rejected RC_FrameMagicInvalid (B "frame magic mismatch"))
  else
    let version := LoadU16 4 data in
    if negb (version =? kWireProtocolVersion) then
      Failed (mkStatus SC_Unsupported RC_FrameVersionUnsupported (B "unsupported protocol version"))
    else
      match TryParseWireMessageType (LoadU16 6 data) with
      | None => Failed (mkStatus SC_Rejected RC_FrameTypeUnknown (B "unknown message type"))
      | Some type =>
        if negb (LoadU16 10 data =? 0) then
          Failed (mkStatus SC_Rejected RC_FrameTypeUnknown (B "reserved header bits must be zero"))
        else
          let payload_len := LoadU32 12 data in
          if max_payload <? payload_len then
            Failed (mkStatus SC_LimitExceeded RC_FramePayloadTooLarge
                      (B "declared payload exceeds the configured maximum"))
          else Value (mkFrameHeader version type (LoadU16 8 data) payload_len (LoadU64 16 data)
                        (LoadU64 24 data))
      end.

(** Models [VerifyFrameImage], src/wire.cpp:166-188. *)
Definition VerifyFrameImage (image : bytes) : Status :=
  if blen image <? kWireHeaderBytes then
    mkStatus SC_Indeterminate RC_FrameTruncated (B "frame is incomplete")
  else if negb (bool_decide (take 4 image = kWireMagic)) then
    mkStatus SC_Rejected RC_FrameMagicInvalid (B "frame magic mismatch")
  else
    let payload_len := LoadU32 12 image in
    if negb (blen image =? kWireHeaderBytes + payload_len) then
      mkStatus SC_Rejected RC_FrameTrailingBytes
        (B "frame length does not match its declared payload")
    else if negb (bool_decide (slice (Z.to_nat kWireDigestOffset) 32 image =
        Sha256OfParts [take (Z.to_nat kWireDigestOffset) image;
                       slice (Z.to_nat kWireHeaderBytes) (Z.to_nat payload_len) image])) then
      mkStatus SC_IntegrityFailure RC_FrameDigestMismatch (B "frame digest mismatch")
    else Status_Ok.

(** ** The reader *)

(** Models [FrameReader], include/summon/fabric_reconciliation/wire.hpp:110-132. *)
Record FrameReader := mkFrameReader {
  fr_buffer : bytes;
  fr_offset : nat;
  fr_max_payload : Z;
  fr_failed : bool;
  fr_failure : Status
}.

Definition reader_for (max_payload : Z) : FrameReader :=
  mkFrameReader [] 0 max_payload false Status_Ok.

(** Models [FrameReader::Feed], src/wire.cpp:190-195. *)
Definition Feed (bs : bytes) (r : FrameReader) : FrameReader :=
  if fr_failed r || is_empty bs then r
  else mkFrameReader (fr_buffer r ++ bs) (fr_offset r) (fr_max_payload r) (fr_failed r)
         (fr_failure r).

(** Models [FrameReader::Compact], src/wire.cpp:197-203. *)
Definition Reader_Compact (r : FrameReader) : FrameReader :=
  if Nat.eqb (fr_offset r) 0 then r
  else mkFrameReader (drop (fr_offset r) (fr_buffer r)) 0 (fr_max_payload r) (fr_failed r)
         (fr_failure r).

Definition fail_reader (status : Status) (r : FrameReader) : FrameReader :=
  mkFrameReader (fr_buffer r) (fr_offset r) (fr_max_payload r) true status.

(** Models [FrameReader::Next], src/wire.cpp:205-236. *)
Definition Next (r : FrameReader) : option (FrameHeader * bytes) * FrameReader :=
  let data := drop (fr_offset r) (fr_buffer r) in
  if fr_failed r then (None, r)
  else if blen data <? kWireHeaderBytes then (None, r)
  else
    match DecodeFrameHeader data (blen data) (fr_max_payload r) with
    | Failed status => (None, fail_reader status r)
    | Value parsed =>
      let total := kWireHeaderBytes + fh_payload_len parsed in
      if blen data <? total then (None, r)
      else
        let image := take (Z.to_nat total) data in
        let verified := VerifyFrameImage image in
        if negb (Status_ok verified) then (None, fail_reader verified r)
        else
          (Some (parsed, slice (Z.to_nat kWireHeaderBytes) (Z.to_nat (fh_payload_len parsed)) image),
           Reader_Compact (mkFrameReader (fr_buffer r) (fr_offset r + Z.to_nat total)
             (fr_max_payload r) (fr_failed r) (fr_failure r)))
    end.

(** *** Draining a stream *)

(** The loop of a receiver: every complete frame is taken before more bytes are awaited.  A
    frame has at least 64 bytes, so the length of the buffer is enough fuel. *)
Fixpoint drain (fuel : nat) (r : FrameReader) : list (FrameHeader * bytes) * FrameReader :=
  match fuel with
  | O => ([], r)
  | S fuel' =>
    match Next r with
    | (None, r) => ([], r)
    | (Some frame, r) => let '(frames, r) := drain fuel' r in (frame :: frames, r)
    end
  end.

Definition take_frames (r : FrameReader) : list (FrameHeader * bytes) * FrameReader :=
  drain (S (length (fr_buffer r))) r.

(** Bytes arrive in chunks. *)
Fixpoint pump (chunks : list bytes) (r : FrameReader) : list (FrameHeader * bytes) * FrameReader :=
  match chunks with
  | [] => ([], r)
  | chunk :: chunks' =>
    let '(frames, r) := take_frames (Feed chunk r) in
    let '(more, r) := pump chunks' r in (frames ++ more, r)
  end.

(** ** The reference: the frames of a whole stream *)

Inductive FrameStep :=
| FS_Wait
| FS_Bad (status : Status)
| FS_Frame (header : FrameHeader) (payload rest : bytes).

Definition first_frame (max_payload : Z) (data : bytes) : FrameStep :=
  if blen data <? kWireHeaderBytes then FS_Wait
  else
    match DecodeFrameHeader data (blen data) max_payload with
    | Failed status => FS_Bad status
    | Value header =>
      let total := kWireHeaderBytes + fh_payload_len header in
      if blen data <? total then FS_Wait
      else
        let image := take (Z.to_nat total) data in
        if negb (Status_ok (VerifyFrameImage image)) then FS_Bad (VerifyFrameImage image)
        else FS_Frame header
               (slice (Z.to_nat kWireHeaderBytes) (Z.to_nat (fh_payload_len header)) image)
               (drop (Z.to_nat total) data)
    end.

(** The frames of the stream, then the failure that ends it or the bytes of an incomplete
    frame. *)
Fixpoint frames_of (fuel : nat) (max_payload : Z) (data : bytes)
  : list (FrameHeader * bytes) * (Status + bytes) :=
  match fuel with
  | O => ([], inr data)
  | S fuel' =>
    match first_frame max_payload data with
    | FS_Wait => ([], inr data)
    | FS_Bad status => ([], inl status)
    | FS_Frame header payload rest =>
      let '(frames, ending) := frames_of fuel' max_payload rest in
      ((header, payload) :: frames, ending)
    end
  end.

Definition stream_frames (max_payload : Z) (data : bytes)
  : list (FrameHeader * bytes) * (Status + bytes) :=
  frames_of (S (length data)) max_payload data.

(** ** Facts on frames *)

Lemma payload_len_nonneg data available max header :
  DecodeFrameHeader data available max = Value header ->
  fh_payload_len header = LoadU32 12 data /\ fh_payload_len header <= max /\ kWireHeaderBytes <= available.
Proof.
  unfold DecodeFrameHeader. destruct (Z.ltb_spec available kWireHeaderBytes); [done|].
  destruct (negb _); [done|]. destruct (negb _); [done|]. destruct (TryParseWireMessageType _); [|done].
  destruct (negb _); [done|]. destruct (Z.ltb_spec max (LoadU32 12 data)); [done|].
  intros [= <-]. cbn [fh_payload_len]. done.
Qed.

Lemma load_nonneg n offset data : (offset + n <= length data)%nat -> 0 <= load n offset data.
Proof. intros H. rewrite load_spec by done. apply le_value_range. Qed.

(** A header is decided by its 64 bytes. *)
Lemma DecodeFrameHeader_app data more max :
  kWireHeaderBytes <= blen data ->
  DecodeFrameHeader (data ++ more) (blen (data ++ more)) max = DecodeFrameHeader data (blen data) max.
Proof.
  intros H. pose proof (blen_nonneg more).
  assert (64 <= length data)%nat as Hn by (unfold blen, kWireHeaderBytes in H; lia).
  unfold DecodeFrameHeader, LoadU16, LoadU32, LoadU64.
  rewrite !load_app_l by lia. rewrite take_app_le by lia. rewrite blen_app.
  by rewrite !(proj2 (Z.ltb_ge _ kWireHeaderBytes)) by lia.
Qed.

(** Bytes that arrive later never change a decision taken. *)
Lemma first_frame_app max data more :
  match first_frame max data with
  | FS_Wait => True
  | FS_Bad status => first_frame max (data ++ more) = FS_Bad status
  | FS_Frame header payload rest =>
    first_frame max (data ++ more) = FS_Frame header payload (rest ++ more) /\
    (length rest < length data)%nat
  end.
Proof.
  unfold first_frame. pose proof (blen_nonneg more).
  destruct (Z.ltb_spec (blen data) kWireHeaderBytes) as [|Hlen]; [done|].
  rewrite DecodeFrameHeader_app by done.
  assert (blen (data ++ more) <? kWireHeaderBytes = false) as ->
    by (apply Z.ltb_ge; rewrite blen_app; lia).
  destruct (DecodeFrameHeader data _ max) as [header|status] eqn:Ed; [|done].
  destruct (payload_len_nonneg _ _ _ _ Ed) as (Hp & _ & _).
  assert (0 <= fh_payload_len header) as Hnn.
  { rewrite Hp. apply load_nonneg. unfold blen, kWireHeaderBytes in *. lia. }
  destruct (Z.ltb_spec (blen data) (kWireHeaderBytes + fh_payload_len header)) as [|Htot]; [done|].
  assert (blen (data ++ more) <? kWireHeaderBytes + fh_payload_len header = false) as ->
    by (apply Z.ltb_ge; rewrite blen_app; lia).
  set (n := Z.to_nat (kWireHeaderBytes + fh_payload_len header)).
  assert (n <= length data)%nat as Hn by (unfold n, blen, kWireHeaderBytes in *; lia).
  rewrite take_app_le by done.
  destruct (negb _); [done|]. rewrite drop_app_le by done. split; [done|].
  rewrite length_drop. unfold n, kWireHeaderBytes in *. lia.
Qed.

(** Fuel beyond the length of the data does not matter. *)
Lemma frames_of_fuel max : forall fuel1 fuel2 data,
  (length data < fuel1)%nat -> (length data < fuel2)%nat ->
  frames_of fuel1 max data = frames_of fuel2 max data.
Proof.
  induction fuel1 as [|fuel1 IH]; intros fuel2 data H1 H2; [lia|]. destruct fuel2 as [|fuel2]; [lia|].
  cbn [frames_of]. pose proof (first_frame_app max data []) as Hs.
  destruct (first_frame max data) as [| |h p rest]; [done..|]. destruct Hs as [_ Hlt].
  by rewrite (IH fuel2) by lia.
Qed.

Lemma stream_frames_step max data :
  stream_frames max data =
  match first_frame max data with
  | FS_Wait => ([], inr data)
  | FS_Bad status => ([], inl status)
  | FS_Frame header payload rest =>
    let '(frames, ending) := stream_frames max rest in ((header, payload) :: frames, ending)
  end.
Proof.
  unfold stream_frames at 1. cbn [frames_of]. pose proof (first_frame_app max data []) as Hs.
  destruct (first_frame max data) as [| |h p rest]; [done..|]. destruct Hs as [_ Hlt].
  unfold stream_frames. by rewrite (frames_of_fuel max (length data) (S (length rest))) by lia.
Qed.

(** Induction on the frames of a stream. *)
Lemma stream_ind max (P : bytes -> Prop) :
  (forall data, (forall h p rest, first_frame max data = FS_Frame h p rest -> P rest) -> P data) ->
  forall data, P data.
Proof.
  intros HP data. induction data as [data IH] using (induction_ltof1 _ (@length byte)).
  apply HP. intros h p rest E. apply IH. pose proof (first_frame_app max data []) as Hs.
  rewrite E in Hs. by destruct Hs.
Qed.

(** The frames of a longer stream: those of the part already seen, then those of what is
    left of it followed by the new bytes. *)
Lemma stream_frames_app max data more :
  stream_frames max (data ++ more) =
  match stream_frames max data with
  | (frames, inl status) => (frames, inl status)
  | (frames, inr rest) =>
    let '(frames', ending) := stream_frames max (rest ++ more) in (frames ++ frames', ending)
  end.
Proof.
  induction data as [data IH] using (stream_ind max).
  rewrite (stream_frames_step max data). pose proof (first_frame_app max data more) as Hs.
  destruct (first_frame max data) as [|status|h p rest] eqn:E.
  - destruct (stream_frames max (data ++ more)). done.
  - rewrite stream_frames_step, Hs. done.
  - destruct Hs as [Hs _]. rewrite stream_frames_step, Hs, (IH h p rest eq_refl).
    destruct (stream_frames max rest) as [frames [status|left]]; [done|].
    by destruct (stream_frames max (left ++ more)).
Qed.

(** *** The reader computes the reference *)

Definition reader_at (max : Z) (buffer : bytes) : FrameReader :=
  mkFrameReader buffer 0 max false Status_Ok.

Lemma Next_first_frame max data :
  Next (reader_at max data) =
  match first_frame max data with
  | FS_Wait => (None, reader_at max data)
  | FS_Bad status => (None, fail_reader status (reader_at max data))
  | FS_Frame header payload rest => (Some (header, payload), reader_at max rest)
  end.
Proof.
  unfold Next, first_frame. cbn [reader_at fr_offset fr_buffer fr_failed fr_max_payload]. rewrite drop_0.
  destruct (Z.ltb_spec (blen data) kWireHeaderBytes) as [|Hlen]; [done|].
  destruct (DecodeFrameHeader data _ max) as [header|status] eqn:Ed; [|done].
  destruct (_ <? _); [done|]. destruct (negb _); [done|].
  unfold Reader_Compact. cbn [fr_offset fr_buffer fr_max_payload fr_failed fr_failure Nat.add].
  destruct (payload_len_nonneg _ _ _ _ Ed) as (Hp & _ & _).
  assert (0 <= fh_payload_len header) as Hnn.
  { rewrite Hp. apply load_nonneg. unfold blen, kWireHeaderBytes in *. lia. }
  rewrite (proj2 (Nat.eqb_neq _ _)) by (unfold kWireHeaderBytes; lia). done.
Qed.

(** How a reader stands after a stream: at its leftover bytes, or failed. *)
Definition standing (max : Z) (ending : Status + bytes) (r : FrameReader) : Prop :=
  match ending with
  | inr rest => r = reader_at max rest
  | inl status => fr_failed r = true /\ fr_failure r = status
  end.

Lemma drain_stream max : forall data fuel,
  (length data < fuel)%nat ->
  (drain fuel (reader_at max data)).1 = (stream_frames max data).1 /\
  standing max (stream_frames max data).2 (drain fuel (reader_at max data)).2.
Proof.
  intros data. induction data as [data IH] using (stream_ind max). intros [|fuel] Hf; [lia|].
  cbn [drain]. rewrite Next_first_frame, stream_frames_step. pose proof (first_frame_app max data []) as Hs.
  destruct (first_frame max data) as [|status|h p rest] eqn:E; [done..|].
  destruct (IH h p rest eq_refl fuel) as [H1 H2]; [destruct Hs; lia|].
  destruct (drain fuel (reader_at max rest)) as [frames r], (stream_frames max rest) as [frames' ending].
  cbn in *. by rewrite H1.
Qed.

(** *** Sticky failures *)

Lemma failed_sticky r :
  fr_failed r = true -> Next r = (None, r) /\ forall bs, Feed bs r = r.
Proof.
  intros H. split; [unfold Next; by rewrite H|]. intros bs. unfold Feed. by rewrite H.
Qed.

Lemma pump_failed chunks r : fr_failed r = true -> pump chunks r = ([], r).
Proof.
  intros H. destruct (failed_sticky r H) as [Hn Hf]. induction chunks as [|c chunks IH]; [done|].
  cbn [pump]. rewrite Hf. unfold take_frames. cbn [drain]. rewrite Hn, IH. done.
Qed.

(** *** Images *)

(** The 32 bytes before the digest. *)
Definition frame_head (h : FrameHeader) (payload : bytes) : bytes :=
  kWireMagic ++ le_bytes 2 (fh_protocol_version h) ++ le_bytes 2 (WireMessageType_to_Z (fh_type h)) ++
  le_bytes 2 (fh_flags h) ++ le_bytes 2 0 ++ le_bytes 4 (blen payload) ++ le_bytes 8 (fh_session_id h) ++
  le_bytes 8 (fh_sequence h).

Definition lay_frame (h : FrameHeader) (payload : bytes) : bytes :=
  frame_head h payload ++ Sha256Of (frame_head h payload ++ payload) ++ payload.

(** A header a peer can send with this payload. *)
Definition frame_ok (max : Z) (frame : FrameHeader * bytes) : bool :=
  let '(h, payload) := frame in
  (fh_protocol_version h =? kWireProtocolVersion) && negb (bool_decide (fh_type h = WM_Invalid)) &&
  u16 (fh_flags h) && u64 (fh_session_id h) && u64 (fh_sequence h) &&
  (fh_payload_len h =? blen payload) && (blen payload <=? max) && (blen payload <? 2 ^ 32).

Lemma frame_prefix_head h p :
  blen p < 2 ^ 32 -> 0 <= fh_session_id h -> 0 <= fh_sequence h ->
  frame_prefix h p = frame_head h p ++ repeat Byte.x00 32.
Proof.
  intros Hp Hs Hq. pose proof (blen_nonneg p). unfold frame_prefix.
  assert (Z.land (blen p) 0xffffffff = blen p) as ->.
  { change 0xffffffff with (Z.ones 32). rewrite Z.land_ones by lia. by apply Z.mod_small. }
  rewrite !StoreU16_le, !StoreU64_le by lia. rewrite !StoreU32_le by (done || lia).
  unfold frame_head. generalize (blen p) (fh_session_id h) (fh_sequence h) (fh_flags h)
    (fh_protocol_version h) (WireMessageType_to_Z (fh_type h)). intros. reflexivity.
Qed.

Lemma EncodeFrame_lay h p :
  blen p < 2 ^ 32 -> 0 <= fh_session_id h -> 0 <= fh_sequence h -> EncodeFrame h p = lay_frame h p.
Proof.
  intros Hp Hs Hq. unfold EncodeFrame. rewrite frame_prefix_head by done. rewrite Sha256OfParts_two.
  change (Z.to_nat kWireDigestOffset) with (length (frame_head h p)). rewrite take_app_length.
  rewrite <- (app_nil_r (repeat Byte.x00 32)), store_at_middle by (by rewrite length_Sha256Of).
  unfold lay_frame. rewrite app_nil_r. by rewrite <- app_assoc.
Qed.

Lemma frame_fields h p q :
  u16 (fh_protocol_version h) = true -> u16 (fh_flags h) = true -> u64 (fh_session_id h) = true ->
  u64 (fh_sequence h) = true -> blen p < 2 ^ 32 ->
  let data := frame_head h p ++ q in
  take 4 data = kWireMagic /\ LoadU16 4 data = fh_protocol_version h /\
  LoadU16 6 data = WireMessageType_to_Z (fh_type h) /\ LoadU16 8 data = fh_flags h /\
  LoadU16 10 data = 0 /\ LoadU32 12 data = blen p /\ LoadU64 16 data = fh_session_id h /\
  LoadU64 24 data = fh_sequence h.
Proof.
  intros H1 H2 H3 H4 H5 data. subst data. pose proof (blen_nonneg p).
  apply u_range in H1, H2, H3, H4. unfold frame_head. rewrite <- !app_assoc.
  split; [by rewrite (take_app_length' kWireMagic)|].
  split; [by apply load_field|]. rewrite app_assoc.
  split; [apply load_field; [done|by destruct (fh_type h)]|]. rewrite app_assoc.
  split; [by apply load_field|]. rewrite app_assoc.
  split; [by apply load_field|]. rewrite app_assoc.
  split; [by apply load_field|]. rewrite app_assoc.
  split; [by apply load_field|]. rewrite app_assoc.
  by apply load_field.
Qed.

Lemma length_frame_head h p : length (frame_head h p) = 32%nat.
Proof. done. Qed.

Lemma blen_lay_frame h p : blen (lay_frame h p) = kWireHeaderBytes + blen p.
Proof.
  unfold lay_frame. rewrite !blen_app. unfold blen at 1 2.
  rewrite length_frame_head, length_Sha256Of. unfold kWireHeaderBytes, kSha256Bytes. lia.
Qed.

Lemma TryParseWireMessageType_ok t :
  t <> WM_Invalid -> TryParseWireMessageType (WireMessageType_to_Z t) = Some t.
Proof. by destruct t. Qed.

Lemma lay_frame_payload h p :
  slice (Z.to_nat kWireHeaderBytes) (Z.to_nat (blen p)) (lay_frame h p) = p.
Proof.
  pose proof (slice_app (frame_head h p ++ Sha256Of (frame_head h p ++ p)) p []) as H.
  rewrite app_nil_r, length_app, length_Sha256Of in H. unfold blen. rewrite Nat2Z.id.
  unfold lay_frame. by rewrite app_assoc.
Qed.

(** An encoded frame at the head of the stream is found. *)
Lemma first_frame_encoded max h p rest :
  frame_ok max (h, p) = true -> first_frame max (EncodeFrame h p ++ rest) = FS_Frame h p rest.
Proof.
  intros Hok. unfold frame_ok in Hok. bool_hyps. pose proof (blen_nonneg p). pose proof (blen_nonneg rest).
  assert (0 <= fh_session_id h /\ 0 <= fh_sequence h) as [? ?]
    by (split; by eapply u_nonneg).
  rewrite EncodeFrame_lay by done.
  assert (u16 (fh_protocol_version h) = true) as Hv
    by (by match goal with H : fh_protocol_version h = _ |- _ => rewrite H end).
  pose proof (blen_lay_frame h p) as Hlen.
  pose proof (frame_fields h p (Sha256Of (frame_head h p ++ p) ++ p) Hv) as F0.
  pose proof (frame_fields h p ((Sha256Of (frame_head h p ++ p) ++ p) ++ rest) Hv) as F.
  cbv zeta in F, F0. rewrite (app_assoc (frame_head h p)) in F. fold (lay_frame h p) in F, F0.
  destruct F as (E1 & E2 & E3 & E4 & E5 & E6 & E7 & E8); [done..|].
  destruct F0 as (G1 & _ & _ & _ & _ & G6 & _); [done..|].
  unfold first_frame, DecodeFrameHeader. rewrite E1, E2, E3, E4, E5, E6, E7, E8.
  rewrite blen_app, Hlen, !(proj2 (Z.ltb_ge _ kWireHeaderBytes)) by lia.
  rewrite (bool_decide_eq_true_2 (kWireMagic = kWireMagic)) by done. cbn [negb].
  match goal with H : fh_protocol_version h = _ |- _ => rewrite H, Z.eqb_refl end. cbn [negb].
  rewrite TryParseWireMessageType_ok by done. cbn [negb Z.eqb].
  rewrite (proj2 (Z.ltb_ge max _)) by lia. cbn [fh_payload_len].
  rewrite (proj2 (Z.ltb_ge _ _)) by lia.
  assert (Z.to_nat (kWireHeaderBytes + blen p) = length (lay_frame h p)) as ->
    by (unfold blen in *; lia).
  rewrite take_app_length, drop_app_length, lay_frame_payload.
  assert (VerifyFrameImage (lay_frame h p) = Status_Ok) as ->.
  { unfold VerifyFrameImage. rewrite Hlen, (proj2 (Z.ltb_ge _ _)) by lia. rewrite G1, G6.
    rewrite (bool_decide_eq_true_2 (kWireMagic = kWireMagic)), Z.eqb_refl by done. cbn [negb].
    rewrite bool_decide_eq_true_2; [done|]. rewrite lay_frame_payload, Sha256OfParts_two.
    unfold lay_frame. change (Z.to_nat kWireDigestOffset) with (length (frame_head h p)).
    rewrite take_app_length.
    pose proof (slice_app (frame_head h p) (Sha256Of (frame_head h p ++ p)) p) as Hs.
    rewrite length_Sha256Of in Hs. exact Hs. }
  change (Status_ok Status_Ok) with true. cbn [negb]. f_equal. destruct h.
  cbn [fh_protocol_version fh_type fh_flags fh_payload_len fh_session_id fh_sequence] in *. congruence.
Qed.

(** *** A frame found is the image of what is delivered *)

Lemma load_bytes n offset data :
  (offset + n <= length data)%nat -> le_bytes n (load n offset data) = slice offset n data.
Proof.
  intros H. rewrite load_spec by done.
  assert (length (slice offset n data) = n) as <-.
  { unfold slice. rewrite length_take, length_drop. lia. }
  replace (slice offset (length (slice offset n data)) data) with (slice offset n data).
  - apply le_bytes_value.
  - unfold slice. rewrite length_take, length_drop. f_equal. lia.
Qed.

Lemma load_range n offset data :
  (offset + n <= length data)%nat -> in_unsigned (8 * Z.of_nat n) (load n offset data) = true.
Proof.
  intros H. rewrite load_spec by done. pose proof (le_value_range (slice offset n data)) as Hr.
  assert (blen (slice offset n data) = Z.of_nat n) as Hb
    by (unfold blen, slice; rewrite length_take, length_drop; lia).
  rewrite Hb in Hr. unfold in_unsigned. bool_goal; [apply Hr|]. apply Hr.
Qed.

Lemma slice_cat offset n m data :
  slice offset n data ++ slice (offset + n) m data = slice offset (n + m) data.
Proof. unfold slice. by rewrite <- drop_drop, take_take_drop. Qed.

(** The head of a stream, field by field. *)
Lemma head_fields data :
  (32 <= length data)%nat ->
  take 4 data ++ le_bytes 2 (LoadU16 4 data) ++ le_bytes 2 (LoadU16 6 data) ++
  le_bytes 2 (LoadU16 8 data) ++ le_bytes 2 (LoadU16 10 data) ++ le_bytes 4 (LoadU32 12 data) ++
  le_bytes 8 (LoadU64 16 data) ++ le_bytes 8 (LoadU64 24 data) = take 32 data.
Proof.
  intros H. unfold LoadU16, LoadU32, LoadU64. rewrite !load_bytes by lia.
  rewrite (slice_cat 16 8), (slice_cat 12 4), (slice_cat 10 2), (slice_cat 8 2), (slice_cat 6 2),
    (slice_cat 4 2). exact (slice_cat 0 4 28 data).
Qed.

Lemma TryParseWireMessageType_inv raw t :
  TryParseWireMessageType raw = Some t -> WireMessageType_to_Z t = raw /\ t <> WM_Invalid.
Proof.
  unfold TryParseWireMessageType. destruct (_ || _) eqn:E; [done|]. intros [= <-]. bool_hyps.
  cbn in *. unfold WireMessageType_of_Z.
  repeat match goal with |- context [raw =? ?n] => destruct (Z.eqb_spec raw n) as [->|]; [done|] end.
  lia.
Qed.

Lemma VerifyFrameImage_inv image :
  Status_ok (VerifyFrameImage image) = true ->
  take 4 image = kWireMagic /\ blen image = kWireHeaderBytes + LoadU32 12 image /\
  slice 32 32 image = Sha256Of (take 32 image ++ slice 64 (Z.to_nat (LoadU32 12 image)) image).
Proof.
  unfold VerifyFrameImage. destruct (_ <? _); [done|].
  destruct (bool_decide_reflect (take 4 image = kWireMagic)) as [Hm|]; cbn [negb]; [|done].
  destruct (Z.eqb_spec (blen image) (kWireHeaderBytes + LoadU32 12 image)) as [Hl|]; cbn [negb]; [|done].
  case_bool_decide as Hd; cbn [negb]; [|done]. intros _. split; [done|]. split; [done|].
  by rewrite Sha256OfParts_two in Hd.
Qed.

(** What a decoded header says of the bytes. *)
Lemma DecodeFrameHeader_inv data available max h :
  DecodeFrameHeader data available max = Value h ->
  take 4 data = kWireMagic /\ fh_protocol_version h = kWireProtocolVersion /\
  LoadU16 4 data = kWireProtocolVersion /\
  WireMessageType_to_Z (fh_type h) = LoadU16 6 data /\ fh_type h <> WM_Invalid /\
  fh_flags h = LoadU16 8 data /\ LoadU16 10 data = 0 /\ fh_session_id h = LoadU64 16 data /\
  fh_sequence h = LoadU64 24 data.
Proof.
  unfold DecodeFrameHeader. destruct (_ <? _); [done|].
  destruct (bool_decide_reflect (take 4 data = kWireMagic)) as [Hm|]; cbn [negb]; [|done].
  destruct (Z.eqb_spec (LoadU16 4 data) kWireProtocolVersion) as [Hv|]; cbn [negb]; [|done].
  destruct (TryParseWireMessageType (LoadU16 6 data)) as [t|] eqn:Et; [|done].
  apply TryParseWireMessageType_inv in Et as [Ht Hti].
  destruct (Z.eqb_spec (LoadU16 10 data) 0) as [H0|]; cbn [negb]; [|done].
  destruct (max <? LoadU32 12 data); [done|]. intros [= <-]. done.
Qed.

(** The bytes of a verified image, given its decoded header. *)
Lemma verified_image_lay h image payload :
  take 32 image = frame_head h payload -> slice 64 (length image - 64) image = payload ->
  (64 <= length image)%nat ->
  slice 32 32 image = Sha256Of (frame_head h payload ++ payload) -> image = lay_frame h payload.
Proof.
  intros Hh Hp Hlen Hd. unfold lay_frame. rewrite <- Hd, <- Hh.
  rewrite <- (take_drop 32 image) at 1. f_equal. rewrite <- (take_drop 32 (drop 32 image)) at 1. f_equal.
  rewrite drop_drop, <- Hp. unfold slice. symmetry. apply take_ge. rewrite length_drop. lia.
Qed.

Lemma first_frame_exact max data h p rest :
  first_frame max data = FS_Frame h p rest ->
  frame_ok max (h, p) = true /\ data = EncodeFrame h p ++ rest.
Proof.
  unfold first_frame. destruct (Z.ltb_spec (blen data) kWireHeaderBytes) as [|Hlen]; [done|].
  destruct (DecodeFrameHeader data _ max) as [header|status] eqn:Ed; [|done].
  destruct (Z.ltb_spec (blen data) (kWireHeaderBytes + fh_payload_len header)) as [|Htot]; [done|].
  set (n := Z.to_nat (kWireHeaderBytes + fh_payload_len header)).
  destruct (Status_ok (VerifyFrameImage (take n data))) eqn:Ev; cbn [negb]; [|done].
  intros [= -> <- <-]. destruct (payload_len_nonneg _ _ _ _ Ed) as (Hp & Hmax & _).
  assert (64 <= length data)%nat as H64 by (unfold blen, kWireHeaderBytes in Hlen; lia).
  assert (0 <= fh_payload_len h < 2 ^ 32) as Hpr
    by (rewrite Hp; pose proof (load_range 4 12 data ltac:(lia)) as Hr; by apply u_range in Hr).
  assert (n <= length data /\ n = 64 + Z.to_nat (fh_payload_len h))%nat as [Hn Hn64]
    by (unfold n, blen, kWireHeaderBytes in *; lia).
  set (image := take n data) in *.
  assert (length image = n) as Hli by (unfold image; rewrite length_take; lia).
  assert (LoadU32 12 image = fh_payload_len h) as Hlp.
  { rewrite Hp. unfold LoadU32. rewrite <- (take_drop n data) at 1. fold image.
    rewrite load_app_l; [done|lia]. }
  change (Z.to_nat kWireHeaderBytes) with 64%nat. set (p := slice 64 _ image).
  assert (blen p = fh_payload_len h) as Hbp
    by (unfold p, slice, blen; rewrite length_take, length_drop, Hli; lia).
  destruct (VerifyFrameImage_inv _ Ev) as (_ & _ & Hd). rewrite Hlp in Hd. fold p in Hd.
  destruct (DecodeFrameHeader_inv _ _ _ _ Ed) as (Hm & Hv & Hv' & Ht & Hti & D3 & H0 & D4 & D5).
  assert (frame_ok max (h, p) = true) as Hok.
  { unfold frame_ok. rewrite Hv, D3, D4, D5. bool_goal; try done; try lia.
    - apply bool_decide_eq_false. done.
    - apply (load_range 2 8 data). lia.
    - apply (load_range 8 16 data). lia.
    - apply (load_range 8 24 data). lia. }
  split; [exact Hok|]. unfold frame_ok in Hok. bool_hyps.
  rewrite EncodeFrame_lay by (done || by eapply u_nonneg).
  assert (take 32 image = frame_head h p) as Hh.
  { unfold image, frame_head. rewrite take_take, Nat.min_l by lia.
    rewrite Hv, D3, D4, D5, Hbp, Hp, Ht, <- Hm, <- head_fields, Hv', H0 by lia. done. }
  rewrite <- (verified_image_lay h image p); [unfold image; by rewrite take_drop|done| |lia|by rewrite <- Hh].
  unfold p. f_equal. lia.
Qed.

(** ** Properties *)

(** The frames delivered, each as the image it was received as. *)
Definition frame_images (frames : list (FrameHeader * bytes)) : bytes :=
  concat (map (fun frame => EncodeFrame frame.1 frame.2) frames).

Lemma stream_frames_exact max data frames ending :
  stream_frames max data = (frames, ending) ->
  forallb (frame_ok max) frames = true /\
  exists rest, data = frame_images frames ++ rest /\ (forall left, ending = inr left -> rest = left).
Proof.
  revert frames. induction data as [data IH] using (stream_ind max). intros frames.
  rewrite stream_frames_step. destruct (first_frame max data) as [|status|h p rest] eqn:E.
  - intros [= <- <-]. split; [done|]. exists data. split; [done|]. by intros left [= ->].
  - intros [= <- <-]. split; [done|]. by exists data.
  - destruct (stream_frames max rest) as [more e2] eqn:Em. intros [= <- <-].
    destruct (IH h p rest eq_refl more Em) as (Hf & left & -> & Hl).
    destruct (first_frame_exact _ _ _ _ _ E) as [Hok ->]. split; [by cbn [forallb]; rewrite Hok|].
    exists left. split; [|done]. unfold frame_images. cbn [map concat]. by rewrite <- app_assoc.
Qed.

Lemma stream_frames_encoded max frames tail :
  forallb (frame_ok max) frames = true ->
  stream_frames max (frame_images frames ++ tail) =
  ((frames ++ (stream_frames max tail).1), (stream_frames max tail).2).
Proof.
  induction frames as [|[h p] frames IH]; intros Hok.
  - change (frame_images [] ++ tail) with tail. destruct (stream_frames max tail). done.
  - cbn [forallb] in Hok. apply andb_true_iff in Hok as [Hh Hok].
    unfold frame_images. cbn [map concat fst snd]. rewrite <- app_assoc.
    rewrite stream_frames_step, first_frame_encoded by done. fold (frame_images frames).
    by rewrite (IH Hok).
Qed.

(** What is left of a stream holds no frame. *)
Lemma stream_left_waits max data : forall frames left,
  stream_frames max data = (frames, inr left) -> first_frame max left = FS_Wait.
Proof.
  induction data as [data IH] using (stream_ind max). intros frames left. rewrite stream_frames_step.
  destruct (first_frame max data) as [|status|h p rest] eqn:E; [by intros [= _ <-]|done|].
  destruct (stream_frames max rest) as [more e2] eqn:E2. intros [= _ ->]. by eapply IH.
Qed.

Lemma Feed_at max data chunk : Feed chunk (reader_at max data) = reader_at max (data ++ chunk).
Proof.
  unfold Feed, is_empty. cbn. destruct (bool_decide_reflect (chunk = [])) as [->|]; [|done].
  by rewrite app_nil_r.
Qed.

(** However the bytes are cut, the reader stands where the whole stream leaves it. *)
Lemma pump_stream max : forall chunks data,
  first_frame max data = FS_Wait ->
  (pump chunks (reader_at max data)).1 = (stream_frames max (data ++ concat chunks)).1 /\
  standing max (stream_frames max (data ++ concat chunks)).2 (pump chunks (reader_at max data)).2.
Proof.
  induction chunks as [|chunk chunks IH]; intros data Hw; cbn [pump concat].
  - rewrite app_nil_r, stream_frames_step, Hw. done.
  - rewrite Feed_at. unfold take_frames. cbn [fr_buffer reader_at].
    destruct (drain_stream max (data ++ chunk) (S (length (data ++ chunk)))) as [H1 H2]; [lia|].
    destruct (drain _ (reader_at max (data ++ chunk))) as [fs r1]. cbn [fst snd] in H1, H2.
    rewrite app_assoc, stream_frames_app.
    destruct (stream_frames max (data ++ chunk)) as [fs' [status|left]] eqn:Es; cbn [fst snd standing] in H1, H2.
    + rewrite (pump_failed chunks r1) by (by destruct H2). by rewrite app_nil_r.
    + subst r1 fs. destruct (IH left (stream_left_waits _ _ _ _ Es)) as [I1 I2].
      destruct (pump chunks (reader_at max left)) as [more r2], (stream_frames max (left ++ concat chunks)).
      cbn [fst snd] in *. by rewrite I1.
Qed.

(** C31. The reader does not depend on how the stream was cut: whatever bytes arrive, in
    whatever chunks, the frames it delivers, and the failure it stops at or the bytes it waits
    with, are those of the whole stream; every frame delivered is well formed, within the
    payload bound, and its image is exactly the bytes received for it; a failed reader
    delivers nothing more. *)
Theorem frame_stream_chunking max chunks :
  let '(frames, r) := pump chunks (reader_for max) in
  let '(whole, ending) := stream_frames max (concat chunks) in
  frames = whole /\ standing max ending r /\ forallb (frame_ok max) frames = true /\
  (exists rest, concat chunks = frame_images frames ++ rest) /\
  (fr_failed r = true -> forall more, pump more r = ([], r)).
Proof.
  destruct (pump_stream max chunks [] eq_refl) as [H1 H2]. cbn [app] in *.
  destruct (pump chunks _) as [frames r], (stream_frames max (concat chunks)) as [whole ending] eqn:E.
  cbn [fst snd] in H1, H2. subst frames. destruct (stream_frames_exact _ _ _ _ E) as (Hf & rest & Hr & _).
  split; [done|]. split; [done|]. split; [done|]. split; [by exists rest|].
  intros Hfail more. by apply pump_failed.
Qed.

(** C32. Frames survive the stream: frames within the bound, encoded one after the other and
    cut into any chunks, with possibly the beginning of a further frame behind them, are
    delivered exactly, in order, by a reader that has not failed. *)
Theorem frames_roundtrip max frames h p tail chunks :
  forallb (frame_ok max) frames && frame_ok max (h, p) = true ->
  tail `prefix_of` EncodeFrame h p -> tail <> EncodeFrame h p ->
  concat chunks = frame_images frames ++ tail ->
  pump chunks (reader_for max) = (frames, reader_at max tail).
Proof.
  intros Hok [q Hq] Hne Hc. bool_hyps. destruct (pump_stream max chunks [] eq_refl) as [H1 H2].
  cbn [app] in *. rewrite Hc, stream_frames_encoded in H1, H2 by done.
  assert (first_frame max tail = FS_Wait) as Hw.
  { pose proof (first_frame_app max tail q) as Ha. rewrite <- Hq in Ha.
    pose proof (first_frame_encoded max h p [] ltac:(done)) as He. rewrite app_nil_r in He.
    destruct (first_frame max tail) as [|status|h' p' rest'] eqn:Et; [done|congruence|].
    destruct Ha as [Ha _]. rewrite He in Ha. injection Ha as <- <- Ha. symmetry in Ha.
    apply app_eq_nil in Ha as [-> ->]. rewrite app_nil_r in Hq. by destruct Hne. }
  rewrite stream_frames_step, Hw in H1, H2. cbn [fst snd standing] in H1, H2.
  rewrite app_nil_r in H1. destruct (pump chunks _) as [fs r]. cbn [fst snd] in H1, H2. congruence.
Qed.

(** *** Examples *)

Definition example_frame : FrameHeader * bytes :=
  (mkFrameHeader 1 WM_Ping 0 3 7 2, B "abc").

Lemma frames_roundtrip_witness :
  let image := EncodeFrame example_frame.1 example_frame.2 in
  pump [take 40 image; drop 40 image ++ take 10 image] (reader_for 16) =
    ([example_frame], reader_at 16 (take 10 image)).
Proof.
  apply (frames_roundtrip 16 [example_frame] example_frame.1 example_frame.2
    (take 10 (EncodeFrame example_frame.1 example_frame.2))).
  - reflexivity.
  - apply prefix_take.
  - intros H. apply (f_equal length) in H. vm_compute in H. discriminate H.
  - vm_compute. reflexivity.
Defined.
