(* ===== verification/WireOps.v ===== *)
(** * The envelopes of the protocol (wire_ops.hpp)

    Hello, welcome, request and response payloads: how they are written and read back. *)

From Stdlib Require Import ZArith Lia.
From stdpp Require Import prelude.
From S2P Require Import Prelude OrdMap Hash Status Identity Canonical Value Policy Document Drift.
From S2P Require Import Authority Plan Lineage Wire.
Local Open Scope Z_scope.

(** ** Identities on the wire *)

(** Models [wireops::PutBoot], src/wire_ops.hpp:26-29. *)
Definition PutBoot (boot : bytes) : Put := PutBytes boot.

(** Models [wireops::GetBoot], src/wire_ops.hpp:31-42. *)
Definition GetBoot : Read bytes :=
  raw ← ReadBytes; _ ← require (blen raw =? 16); mret raw.

(** Models [wireops::PutStore], src/wire_ops.hpp:44-47. *)
Definition PutStore (store : bytes) : Put := PutBytes store.

(** Models [wireops::GetStore], src/wire_ops.hpp:49-60. *)
Definition GetStore : Read bytes :=
  raw ← ReadBytes; _ ← require (blen raw =? 16); mret raw.

(** ** Hello *)

Definition put_hello (client_boot nonce : bytes) : Put :=
  PutU16 kWireProtocolVersion ;+ PutBoot client_boot ;+ PutBytes nonce.

(** Models [wireops::EncodeHello], src/wire_ops.hpp:62-68. *)
Definition EncodeHello (client_boot nonce : bytes) : bytes :=
  finish (put_hello client_boot nonce writer_empty).

Definition read_hello : Read (bytes * bytes) :=
  version ← ReadU16;
  _ ← require (version =? kWireProtocolVersion);
  client_boot ← GetBoot;
  nonce ← ReadBytes;
  mret (client_boot, nonce).

(** Models [wireops::DecodeHello], src/wire_ops.hpp:70-80. *)
Definition DecodeHello (payload : bytes) : option (bytes * bytes) := read_exact read_hello payload.

(** ** Welcome *)

(** Models [wireops::Welcome], src/wire_ops.hpp:82-90. *)
Record Welcome := mkWelcome {
  we_protocol_version : Z;
  we_session_id : Z;
  we_epoch : Z;
  we_server_boot : bytes;
  we_store : bytes;
  we_nonce : bytes;
  we_max_payload : Z
}.

Definition put_welcome (w : Welcome) : Put :=
  PutU16 (we_protocol_version w) ;+ PutU64 (we_session_id w) ;+ PutU64 (we_epoch w) ;+
  PutBoot (we_server_boot w) ;+ PutStore (we_store w) ;+ PutBytes (we_nonce w) ;+
  PutU32 (we_max_payload w).

(** Models [wireops::EncodeWelcome], src/wire_ops.hpp:92-102. *)
Definition EncodeWelcome (w : Welcome) : bytes := finish (put_welcome w writer_empty).

Definition read_welcome : Read Welcome :=
  version ← ReadU16;
  _ ← require (version =? kWireProtocolVersion);
  session_id ← ReadU64;
  epoch ← ReadU64;
  server_boot ← GetBoot;
  store ← GetStore;
  nonce ← ReadBytes;
  max_payload ← ReadU32;
  mret (mkWelcome version session_id epoch server_boot store nonce max_payload).

(** Models [wireops::DecodeWelcome], src/wire_ops.hpp:104-123. *)
Definition DecodeWelcome (payload : bytes) : option Welcome := read_exact read_welcome payload.

(** ** Requests *)

(** Models [wireops::Request], src/wire_ops.hpp:125-130. *)
Record WireRequest := mkWireRequest {
  wq_operation : WireOperation;
  wq_client_boot : bytes;
  wq_epoch : Z;
  wq_body : bytes
}.

Definition put_request (r : WireRequest) : Put :=
  PutU16 (WireOperation_to_Z (wq_operation r)) ;+ PutBoot (wq_client_boot r) ;+
  PutU64 (wq_epoch r) ;+ PutBytes (wq_body r).

(** Models [wireops::EncodeRequest], src/wire_ops.hpp:132-139. *)
Definition EncodeRequest (r : WireRequest) : bytes := finish (put_request r writer_empty).

Definition read_operation (raw : Z) : Read WireOperation :=
  match TryParseWireOperation raw with Some operation => mret operation | None => refuse end.

Definition read_request : Read WireRequest :=
  raw ← ReadU16;
  operation ← read_operation raw;
  client_boot ← GetBoot;
  epoch ← ReadU64;
  body ← ReadBytes;
  mret (mkWireRequest operation client_boot epoch body).

(** Models [wireops::DecodeRequest], src/wire_ops.hpp:141-156. *)
Definition DecodeRequest (payload : bytes) : option WireRequest := read_exact read_request payload.

(** ** Responses *)

(** Models [wireops::Response], src/wire_ops.hpp:158-163. *)
Record Response := mkResponse {
  rs_code : StatusCode;
  rs_reason : Z;
  rs_detail : bytes;
  rs_body : bytes
}.

Definition put_response (r : Response) : Put :=
  PutU16 (StatusCode_to_Z (rs_code r)) ;+ PutU16 (rs_reason r) ;+ PutBytes (rs_detail r) ;+
  PutBytes (rs_body r).

(** Models [wireops::EncodeResponse], src/wire_ops.hpp:165-172. *)
Definition EncodeResponse (r : Response) : bytes := finish (put_response r writer_empty).

(** The cast of a raw value in range. *)
Definition StatusCode_of_Z (raw : Z) : StatusCode :=
  if raw =? 0 then SC_Ok else if raw =? 1 then SC_Rejected else if raw =? 2 then SC_ConflictState
  else if raw =? 3 then SC_NotFound else if raw =? 4 then SC_StaleAuthority
  else if raw =? 5 then SC_LimitExceeded else if raw =? 6 then SC_IntegrityFailure
  else if raw =? 7 then SC_Unsupported else if raw =? 8 then SC_Indeterminate
  else if raw =? 9 then SC_PreconditionFailed else SC_InternalError.

Definition read_response : Read Response :=
  code ← ReadU16;
  reason ← ReadU16;
  _ ← require ((code <=? StatusCode_to_Z SC_InternalError) && (reason <=? kMaxReason));
  detail ← ReadBytes;
  body ← ReadBytes;
  mret (mkResponse (StatusCode_of_Z code) reason detail body).

(** Models [wireops::DecodeResponse], src/wire_ops.hpp:174-191. *)
Definition DecodeResponse (payload : bytes) : option Response := read_exact read_response payload.

(** ** Layouts *)

Definition lay_hello (client_boot nonce : bytes) : bytes :=
  lay_u16 kWireProtocolVersion ++ lay_bytes client_boot ++ lay_bytes nonce.
Definition lay_welcome (w : Welcome) : bytes :=
  lay_u16 (we_protocol_version w) ++ lay_u64 (we_session_id w) ++ lay_u64 (we_epoch w) ++
  lay_bytes (we_server_boot w) ++ lay_bytes (we_store w) ++ lay_bytes (we_nonce w) ++
  lay_u32 (we_max_payload w).
Definition lay_request (r : WireRequest) : bytes :=
  lay_u16 (WireOperation_to_Z (wq_operation r)) ++ lay_bytes (wq_client_boot r) ++
  lay_u64 (wq_epoch r) ++ lay_bytes (wq_body r).
Definition lay_response (r : Response) : bytes :=
  lay_u16 (StatusCode_to_Z (rs_code r)) ++ lay_u16 (rs_reason r) ++ lay_bytes (rs_detail r) ++
  lay_bytes (rs_body r).

(** What can be sent: identities of 16 bytes, fields in their ranges. *)
Definition welcome_wf (w : Welcome) : bool :=
  (we_protocol_version w =? kWireProtocolVersion) && u64 (we_session_id w) && u64 (we_epoch w) &&
  (blen (we_server_boot w) =? 16) && (blen (we_store w) =? 16) && u32 (we_max_payload w) &&
  (blen (we_nonce w) <=? kMaxCanonicalBytes).
Definition request_wf (r : WireRequest) : bool :=
  negb (bool_decide (wq_operation r = WO_Invalid)) && (blen (wq_client_boot r) =? 16) &&
  u64 (wq_epoch r) && (blen (wq_body r) <=? kMaxCanonicalBytes).
Definition response_wf (r : Response) : bool :=
  reason_wf (rs_reason r) && (blen (rs_detail r) <=? kMaxCanonicalBytes) &&
  (blen (rs_body r) <=? kMaxCanonicalBytes).

(** ** Facts *)

Lemma decodes_boot boot : blen boot = 16 -> decodes GetBoot (lay_bytes boot) boot.
Proof.
  intros H. unfold GetBoot. rewrite <- (app_nil_r (lay_bytes boot)).
  assert (blen boot <= kMaxCanonicalBytes) by (unfold kMaxCanonicalBytes; lia).
  decode_step. decode_step; [by apply Z.eqb_eq|]. apply decodes_ret.
Qed.

Lemma decodes_store store : blen store = 16 -> decodes GetStore (lay_bytes store) store.
Proof. exact (decodes_boot store). Qed.

Lemma yields_boot : yields GetBoot (fun boot => blen boot = 16).
Proof. unfold GetBoot. repeat yield_step. by bool_hyps. Qed.

Lemma TryParseWireOperation_ok o :
  o <> WO_Invalid -> TryParseWireOperation (WireOperation_to_Z o) = Some o.
Proof. by destruct o. Qed.

Lemma decodes_operation o :
  o <> WO_Invalid -> decodes (read_operation (WireOperation_to_Z o)) [] o.
Proof. intros H. unfold read_operation. rewrite TryParseWireOperation_ok by done. apply decodes_ret. Qed.

Lemma yields_operation raw : yields (read_operation raw) (fun _ => True).
Proof.
  unfold read_operation. destruct (TryParseWireOperation raw); [by apply yields_ret|apply yields_refuse].
Qed.

#[export] Hint Resolve decodes_boot decodes_store decodes_operation : codec.
#[export] Hint Resolve yields_boot yields_operation : yields.

Lemma StatusCode_of_to_Z c : StatusCode_of_Z (StatusCode_to_Z c) = c.
Proof. by destruct c. Qed.

Lemma u16_operation o : u16 (WireOperation_to_Z o) = true.
Proof. by destruct o. Qed.
Lemma u16_code c : u16 (StatusCode_to_Z c) = true.
Proof. by destruct c. Qed.
Lemma u16_reason r : reason_wf r = true -> u16 r = true.
Proof.
  unfold reason_wf, in_unsigned, kMaxReason, RC_RestartLeasesNotRestored. intros. bool_hyps.
  bool_goal; lia.
Qed.
#[local] Hint Resolve u16_operation u16_code u16_reason : codec.

Lemma writes_hello boot nonce : writes (put_hello boot nonce) (lay_hello boot nonce).
Proof. unfold put_hello, lay_hello, PutBoot. write_steps. Qed.

Lemma decodes_hello boot nonce :
  blen boot = 16 -> blen nonce <= kMaxCanonicalBytes ->
  decodes read_hello (lay_hello boot nonce) (boot, nonce).
Proof. intros. unfold read_hello, lay_hello. decode_step. decode_step; [done|]. repeat decode_step. Qed.

Lemma writes_welcome w : welcome_wf w = true -> writes (put_welcome w) (lay_welcome w).
Proof.
  unfold welcome_wf. intros. bool_hyps. unfold put_welcome, lay_welcome, PutBoot, PutStore.
  assert (u16 (we_protocol_version w) = true)
    by (match goal with H : we_protocol_version w = _ |- _ => rewrite H end; done).
  write_steps.
Qed.

Lemma decodes_welcome w : welcome_wf w = true -> decodes read_welcome (lay_welcome w) w.
Proof.
  unfold welcome_wf. intros. bool_hyps. unfold read_welcome, lay_welcome.
  assert (u16 (we_protocol_version w) = true)
    by (match goal with H : we_protocol_version w = _ |- _ => rewrite H end; done).
  decode_step. decode_step; [by apply Z.eqb_eq|]. repeat decode_step. destruct w. apply decodes_ret.
Qed.

Lemma writes_request r : request_wf r = true -> writes (put_request r) (lay_request r).
Proof. unfold request_wf. intros. bool_hyps. unfold put_request, lay_request, PutBoot. write_steps. Qed.

Lemma decodes_request r : request_wf r = true -> decodes read_request (lay_request r) r.
Proof.
  unfold request_wf. intros. bool_hyps. unfold read_request, lay_request.
  decode_step. eapply decodes_silent; [by apply decodes_operation|]. repeat decode_step.
  destruct r. apply decodes_ret.
Qed.

Lemma writes_response r : response_wf r = true -> writes (put_response r) (lay_response r).
Proof. unfold response_wf. intros. bool_hyps. unfold put_response, lay_response. write_steps. Qed.

Lemma decodes_response r : response_wf r = true -> decodes read_response (lay_response r) r.
Proof.
  unfold response_wf. intros. bool_hyps. unfold read_response, lay_response.
  decode_step. decode_step. decode_step.
  { apply andb_true_iff. split; [by destruct (rs_code r)|by apply reason_wf_max]. }
  repeat decode_step. rewrite StatusCode_of_to_Z. destruct r. apply decodes_ret.
Qed.

(** A request that was received: its operation is a known one, its boot identity has 16
    bytes, its epoch 64 bits. *)
Lemma DecodeRequest_wf payload r :
  DecodeRequest payload = Some r -> blen (wq_client_boot r) = 16 /\ u64 (wq_epoch r) = true.
Proof.
  apply (yields_exact read_request (fun r => blen (wq_client_boot r) = 16 /\ u64 (wq_epoch r) = true)).
  unfold read_request. repeat yield_step. done.
Qed.

(** The envelopes of the protocol are read back as they were sent: hello, welcome, request and
    response, whenever the canonical bound lets them be encoded at all. *)
Theorem envelopes_roundtrip boot nonce w q r :
  (blen boot =? 16) && (blen nonce <=? kMaxCanonicalBytes) && welcome_wf w && request_wf q && response_wf r
    = true ->
  (EncodeHello boot nonce <> [] -> DecodeHello (EncodeHello boot nonce) = Some (boot, nonce)) /\
  (EncodeWelcome w <> [] -> DecodeWelcome (EncodeWelcome w) = Some w) /\
  (EncodeRequest q <> [] -> DecodeRequest (EncodeRequest q) = Some q) /\
  (EncodeResponse r <> [] -> DecodeResponse (EncodeResponse r) = Some r).
Proof.
  intros. bool_hyps. split; [|split; [|split]].
  - by apply (finish_roundtrip _ _ _ _ (writes_hello boot nonce)), decodes_hello.
  - by apply (finish_roundtrip _ _ _ _ (writes_welcome w ltac:(done))), decodes_welcome.
  - by apply (finish_roundtrip _ _ _ _ (writes_request q ltac:(done))), decodes_request.
  - by apply (finish_roundtrip _ _ _ _ (writes_response r ltac:(done))), decodes_response.
Qed.

Definition example_wire_request : WireRequest :=
  mkWireRequest WO_Plan (repeat Byte.x01 16) 4 (B "body").

Lemma envelopes_roundtrip_witness :
  DecodeRequest (EncodeRequest example_wire_request) = Some example_wire_request.
Proof.
  apply (envelopes_roundtrip (repeat Byte.x01 16) (B "nonce")
    (mkWelcome 1 3 4 (repeat Byte.x01 16) (repeat Byte.x07 16) (B "nonce") 1048576)
    example_wire_request (mkResponse SC_Ok RC_None [] (B "ok"))).
  - vm_compute. reflexivity.
  - vm_compute. discriminate.
Defined.
