(* ===== verification/Render.v ===== *)
(** * The operator texts of the engine (engine.cpp, RenderPlanText to RenderAttemptText) *)

From Stdlib Require Import ZArith Lia.
From stdpp Require Import prelude.
From S2P Require Import Prelude OrdMap Hash Status Identity Canonical Value Policy Document Drift.
From S2P Require Import Authority Plan Lineage Journal Snapshot StoreState Store Engine.
Local Open Scope Z_scope.

(** [std::ostringstream]: the text written so far is what was concatenated. *)
Definition newline : bytes := [Byte.x0a].
Definition yes_no (b : bool) : bytes := if b then B "yes" else B "no".

(** Models [HexOf], src/identity.cpp:60-69. *)
Definition HexOf (id : bytes) : bytes := ToHex id.
(** Models [RenderPlanText], src/engine.cpp:1336-1336: [ToHex().substr(0, 8)], also of the other
    texts. *)
Definition short_hex (id : bytes) : bytes := take 8 (HexOf id).

(** Models [RenderPlanText], src/engine.cpp:1348-1353: one step of an explanation. *)
Definition render_step (indent : bytes) (step : ExplanationStep) : bytes :=
  indent ++ ReasonCode_ToText (xs_code step) ++
  (if is_empty (xs_detail step) then [] else B ": " ++ xs_detail step) ++ newline.

Definition render_decision (d : Decision) : bytes :=
  B "  - " ++ de_subject d ++ B " drift=" ++ DriftClass_ToText (de_drift d) ++
  B " disposition=" ++ DecisionDisposition_ToText (de_disposition d) ++
  B " action=" ++ ActionKind_ToText (de_action d) ++
  B " key=" ++ take 16 (ToHex (de_idempotency_key d)) ++ newline ++
  concat (map (render_step (B "      ")) (ex_steps (de_explanation d))).

(** Models [RenderPlanText], src/engine.cpp:1333-1367. *)
Definition RenderPlanText (plan : ReconciliationPlan) : bytes :=
  B "plan scope=" ++ pl_scope plan ++ B " id=" ++ pl_plan_id plan ++ newline ++
  B "  epoch=" ++ to_string (pl_epoch plan) ++ B " boot=" ++ short_hex (pl_boot plan) ++
  B " verdict=" ++ ConvergenceVerdict_ToText (pl_verdict plan) ++
  B " evidence=" ++ EvidenceClass_ToText (pl_evidence plan) ++ newline ++
  B "  policy=" ++ pl_policy_id plan ++ B "/" ++ to_string (pl_policy_version plan) ++
  B " intent=" ++ pl_intent plan ++ B "/g" ++ to_string (pl_intent_generation plan) ++
  B " observation=" ++ pl_observation plan ++ B "/g" ++
  to_string (pl_observation_generation plan) ++
  B " freshness=" ++ FreshnessVerdict_ToText (pl_freshness plan) ++ newline ++
  B "  decisions=" ++ to_string (blen (pl_decisions plan)) ++
  B " actions=" ++ to_string (MutationCount plan) ++
  B " truncated=" ++ yes_no (pl_truncated plan) ++ newline ++
  match ex_steps (pl_scope_explanation plan) with
  | [] => []
  | steps => B "  scope explanation:" ++ newline ++ concat (map (render_step (B "    ")) steps)
  end ++
  concat (map render_decision (pl_decisions plan)).

Definition render_delta (delta : AttributeDelta) : bytes :=
  B "      " ++ ad_key delta ++ B " " ++ AttributeDeltaKind_ToText (ad_kind delta) ++
  B " intended=" ++ AttributeValue_Render (ad_intended delta) ++
  B " observed=" ++ AttributeValue_Render (ad_observed delta) ++ newline.

Definition render_record (record : DriftRecord) : bytes :=
  B "  - " ++ dr_subject record ++ B " " ++ DriftClass_ToText (dr_drift record) ++ B " (" ++
  ReasonCode_ToText (dr_reason record) ++ B ")" ++ newline ++
  concat (map render_delta (dr_deltas record)).

(** Models [RenderClassificationText], src/engine.cpp:1369-1388. *)
Definition RenderClassificationText (report : ClassificationReport) : bytes :=
  let evidence := cr_evidence report in
  B "classification scope=" ++ cr_scope report ++
  B " subjects=" ++ to_string (blen (cr_records report)) ++
  B " visits=" ++ to_string (cr_subject_visits report) ++
  B " attribute-comparisons=" ++ to_string (cr_attribute_comparisons report) ++ newline ++
  B "  intent=" ++ (if ev_has_intent evidence then ev_intent evidence else B "<none>") ++
  B " observation=" ++
  (if ev_has_observation evidence then ev_observation evidence else B "<none>") ++
  B " freshness=" ++ FreshnessVerdict_ToText (ev_freshness evidence) ++ newline ++
  concat (map render_record (cr_records report)).

(** Models [RenderBootReportText], src/engine.cpp:1390-1414. *)
Definition RenderBootReportText (report : BootReport) : bytes :=
  B "boot store=" ++ short_hex (br_store report) ++ B " boot=" ++ short_hex (br_boot report) ++
  B " epoch=" ++ to_string (br_epoch report) ++
  B " previous-epoch=" ++ to_string (br_previous_epoch report) ++ newline ++
  B "  created=" ++ yes_no (br_store_created report) ++
  B " snapshot=" ++ yes_no (br_snapshot_loaded report) ++
  B " torn-tail=" ++ yes_no (br_recovered_torn_tail report) ++
  B " recovered-bytes=" ++ to_string (br_recovered_bytes report) ++
  B " replayed=" ++ to_string (br_records_replayed report) ++ newline ++
  B "  attempts restored=" ++ to_string (br_attempts_restored report) ++
  B " interrupted=" ++ to_string (br_attempts_interrupted report) ++
  B " abandoned=" ++ to_string (br_attempts_abandoned report) ++
  B " fenced=" ++ to_string (br_attempts_fenced report) ++ newline ++
  B "  observations retained=" ++ to_string (br_observations_retained report) ++
  B " outcomes=" ++ to_string (br_outcomes_retained report) ++
  B " fences=" ++ to_string (br_fences_active report) ++ newline ++
  B "  freshness-restored=" ++ yes_no (br_freshness_restored report) ++
  B " mutation-authority-restored=" ++ yes_no (br_mutation_authority_restored report) ++ newline ++
  concat (map (fun note => B "  note " ++ ReasonCode_ToText note ++ newline) (br_notes report)).

Definition render_transition (t : AttemptTransition) : bytes :=
  B "  " ++ AttemptState_ToText (tr_from t) ++ B " -> " ++ AttemptState_ToText (tr_to t) ++
  B " epoch=" ++ to_string (tr_epoch t) ++ B " reason=" ++ ReasonCode_ToText (tr_reason t) ++
  newline.

(** Models [RenderAttemptText], src/engine.cpp:1416-1429. *)
Definition RenderAttemptText (attempt : AttemptRecord) : bytes :=
  B "attempt id=" ++ to_string (at_id attempt) ++ B " scope=" ++ at_scope attempt ++
  B " subject=" ++ at_subject attempt ++ B " action=" ++ ActionKind_ToText (at_action attempt) ++
  B " state=" ++ AttemptState_ToText (at_state attempt) ++
  B " epoch=" ++ to_string (at_epoch attempt) ++ B " boot=" ++ short_hex (at_boot attempt) ++
  newline ++
  B "  key=" ++ ToHex (at_idempotency_key attempt) ++ newline ++
  concat (map render_transition (at_transitions attempt)).
