(* ===== verification/Server.v ===== *)
(** * The service (server.hpp, server.cpp)

    The request handler, which decodes a request body, calls the engine and renders the
    answer, and the life of a session: handshake, the loop over frames, and its end.  Sockets
    are replaced by what they deliver: bytes, an end of stream, a release by shutdown, and
    whether a send succeeded.  Sessions share the engine, so that what other sessions did
    between two engine calls of one request is an argument. *)

From Stdlib Require Import ZArith Lia.
From stdpp Require Import prelude.
From S2P Require Import Prelude OrdMap Hash Status Identity Canonical Value Policy Document Drift.
From S2P Require Import Authority Plan Lineage Journal Snapshot StoreState Store Engine Planner.
From S2P Require Import Lifecycle Wire WireOps Render.
Local Open Scope Z_scope.

(** ** Answers *)

(** Models [MakeError], src/server.cpp:41-47. *)
Definition MakeError (status : Status) : Response :=
  mkResponse (st_code status) (st_reason status) (st_detail status) [].

(** Models [FromStatus], src/server.cpp:49-56. *)
Definition FromStatus (status : Status) (body : bytes) : Response :=
  mkResponse (st_code status) (st_reason status) (st_detail status) body.

Definition bad_request (detail : bytes) : Response :=
  MakeError (mkStatus SC_Rejected RC_UnsupportedInput detail).

Definition invalid_scope : Response := bad_request (B "invalid scope identity").

(** An engine call whose failure is answered with its status. *)
Definition answer {A} (m : Op A) (ok : A -> Response) (e : Engine) : Response * Engine :=
  match m e with
  | (Value a, e') => (ok a, e')
  | (Failed status, e') => (MakeError status, e')
  end.

(** A call that answers ["ok"] or nothing beside its status. *)
Definition answer_ok (m : Op unit) : Engine -> Response * Engine :=
  answer m (fun _ => FromStatus Status_Ok (B "ok")).

Section Handlers.
Variables (host : Host) (limits : RuntimeLimits).

(** ** Policies and documents *)

(** Models [ReconciliationServer::Impl::Handle], src/server.cpp:155-161. *)
Definition handle_active_policy (e : Engine) : Response * Engine :=
  (match ActivePolicy e with
   | Failed status => MakeError status
   | Value policy => FromStatus Status_Ok (EncodePolicy policy)
   end, e).

(** Models [ReconciliationServer::Impl::Handle], src/server.cpp:162-178. *)
Definition handle_put_policy (body : bytes) (e : Engine) : Response * Engine :=
  match read_exact (allow ← ReadBool; policy_bytes ← ReadBytes; mret (allow, policy_bytes)) body with
  | None => (bad_request (B "malformed PutPolicy request"), e)
  | Some (allow_same_version, policy_bytes) =>
    match DecodePolicyExact policy_bytes limits with
    | None => (bad_request (B "policy payload failed validation"), e)
    | Some policy =>
      answer (Engine_PutPolicy host policy allow_same_version)
        (fun status => FromStatus status (B "ok")) e
    end
  end.

(** The result parameter of [CommitIntent] after a failure: untouched until the intent has
    been validated. *)
Definition intent_left (e : Engine) (document : IntentDocument) : IntentCommitResult :=
  if st_read_only (en_store e) || negb (Status_ok (ValidateIntent document (en_limits e)))
  then mkIntentCommit false 0 zero_digest
  else mkIntentCommit false (in_generation document) (ComputeIntentDigest document).

Definition put_intent_result (r : IntentCommitResult) : bytes :=
  finish ((PutBool (ic_duplicate r) ;+ PutU64 (ic_generation r) ;+ PutDigest (ic_digest r)) writer_empty).

(** Models [ReconciliationServer::Impl::Handle], src/server.cpp:179-198. *)
Definition handle_commit_intent (body : bytes) (e : Engine) : Response * Engine :=
  match read_exact ReadBytes body with
  | None => (bad_request (B "malformed CommitIntent request"), e)
  | Some intent_bytes =>
    match DecodeIntentExact intent_bytes limits with
    | None => (bad_request (B "intent payload failed validation"), e)
    | Some document =>
      match Engine_CommitIntent host document e with
      | (Value (status, result), e') => (FromStatus status (put_intent_result result), e')
      | (Failed status, e') => (FromStatus status (put_intent_result (intent_left e document)), e')
      end
    end
  end.

Definition empty_observation : ObservationDocument :=
  mkObservation [] [] [] 0 EC_Unknown true false 0 0 [] zero_digest.

(** The result parameter of [RecordObservationAt] after a failure. *)
Definition observation_left (e : Engine) (submission : ObservationSubmission) (stamp_unix_ms : Z)
  : ObservationCommitResult :=
  mkObservationCommit false
    (if st_read_only (en_store e) ||
        negb (Status_ok (ValidateSubmission submission (en_limits e))) then empty_observation
     else stamp submission (en_live_epoch e)
            (if stamp_unix_ms =? 0 then ho_now host else stamp_unix_ms)).

Definition put_observation_result (r : ObservationCommitResult) : bytes :=
  finish ((PutBool (oc_duplicate r) ;+ PutBytes (EncodeObservation (oc_stamped r))) writer_empty).

(** Models [ReconciliationServer::Impl::Handle], src/server.cpp:199-218. *)
Definition handle_record_observation (body : bytes) (e : Engine) : Response * Engine :=
  match read_exact (submission_bytes ← ReadBytes; at_ms ← ReadI64; mret (submission_bytes, at_ms))
          body with
  | None => (bad_request (B "malformed RecordObservation request"), e)
  | Some (submission_bytes, at_ms) =>
    match DecodeSubmissionExact submission_bytes limits with
    | None => (bad_request (B "observation payload failed validation"), e)
    | Some submission =>
      match RecordObservationAt host submission at_ms e with
      | (Value (status, result), e') => (FromStatus status (put_observation_result result), e')
      | (Failed status, e') =>
        (FromStatus status (put_observation_result (observation_left e submission at_ms)), e')
      end
    end
  end.

(** ** Classification and plans *)

(** Models [ReconciliationServer::Impl::Handle], src/server.cpp:219-237. *)
Definition handle_classify (body : bytes) (e : Engine) : Response * Engine :=
  match read_exact (scope_text ← ReadBytes; now ← ReadI64; mret (scope_text, now)) body with
  | None => (bad_request (B "malformed Classify request"), e)
  | Some (scope_text, now) =>
    match StringId_TryParse scope_text with
    | None => (invalid_scope, e)
    | Some scope =>
      answer (Engine_Classify host scope now)
        (fun report => FromStatus Status_Ok (RenderClassificationText report)) e
    end
  end.

(** Models [ReconciliationServer::Impl::Handle], src/server.cpp:238-262. *)
Definition handle_plan (body : bytes) (e : Engine) : Response * Engine :=
  match read_exact (scope_text ← ReadBytes; now ← ReadI64; dry_run ← ReadBool;
                    mret (scope_text, now, dry_run)) body with
  | None => (bad_request (B "malformed Plan request"), e)
  | Some (scope_text, now, dry_run) =>
    match StringId_TryParse scope_text with
    | None => (invalid_scope, e)
    | Some scope =>
      answer (Engine_Plan host (mkPlanRequest scope None now dry_run))
        (fun plan => FromStatus Status_Ok (RenderPlanText plan)) e
    end
  end.

Definition render_dispatch (plan : ReconciliationPlan) (r : DispatchResult) : bytes :=
  B "plan=" ++ pl_plan_id plan ++ B " verdict=" ++ ConvergenceVerdict_ToText (pl_verdict plan) ++
  B " issued=" ++ to_string (blen (di_intents r)) ++
  B " already-issued=" ++ to_string (di_already_issued r) ++
  B " fenced=" ++ to_string (di_fenced r) ++ newline ++
  concat (map (fun action =>
    B "attempt=" ++ to_string (ai_attempt action) ++
    B " key=" ++ ToHex (ai_idempotency_key action) ++ B " subject=" ++ ai_subject action ++
    B " action=" ++ ActionKind_ToText (ai_action action) ++ newline) (di_intents r)).

(** Models [ReconciliationServer::Impl::Handle], src/server.cpp:263-304. [between] is what other
    sessions did to the engine after the plan was built and before it is dispatched. *)
Definition handle_dispatch (between : Engine -> Engine) (body : bytes) (e : Engine)
  : Response * Engine :=
  match read_exact (scope_text ← ReadBytes; now ← ReadI64; expected ← ReadBytes;
                    mret (scope_text, now, expected)) body with
  | None => (bad_request (B "malformed Dispatch request"), e)
  | Some (scope_text, now, expected_plan_id) =>
    match StringId_TryParse scope_text with
    | None => (invalid_scope, e)
    | Some scope =>
      match Engine_Plan host (mkPlanRequest scope None now false) e with
      | (Failed status, e') => (MakeError status, e')
      | (Value plan, e') =>
        if negb (is_empty expected_plan_id) &&
           negb (bool_decide (expected_plan_id = pl_plan_id plan)) then
          (MakeError (mkStatus SC_StaleAuthority RC_AuthorityIntentGenerationMismatch
                        (B "the plan changed since the caller observed it")), e')
        else
          answer (Engine_Dispatch host plan)
            (fun dispatched => FromStatus Status_Ok (render_dispatch plan dispatched)) (between e')
      end
    end
  end.

(** ** The life-cycle of attempts *)

Definition empty_outcome : ReconciliationOutcome :=
  mkOutcome zero_digest [] [] ACT_None 0 0 BootId_default AS_Invalid RC_None 0 false 0 false.

(** The outcome parameter is left as it was when the call fails. *)
Definition outcome_answer (m : Op ReconciliationOutcome) (render : ReconciliationOutcome -> bytes)
    (e : Engine) : Response * Engine :=
  match m e with
  | (Value outcome, e') => (FromStatus Status_Ok (render outcome), e')
  | (Failed status, e') => (FromStatus status (render empty_outcome), e')
  end.

Definition render_completion (o : ReconciliationOutcome) : bytes :=
  B "attempt=" ++ to_string (oc_attempt o) ++
  B " state=" ++ AttemptState_ToText (oc_terminal_state o) ++
  B " reason=" ++ ReasonCode_ToText (oc_reason o) ++
  B " verified=" ++ yes_no (oc_verified o) ++ B " ambiguous=" ++ yes_no (oc_ambiguous o) ++ newline.

Definition read_completion : Read (Z * Z * bytes * bytes * Z * Z * Z) :=
  attempt ← ReadU64; epoch ← ReadU64; boot ← GetBoot; key ← ReadDigest; target ← ReadU8;
  at_ms ← ReadI64; reason ← ReadU16;
  mret (attempt, epoch, boot, key, target, at_ms, reason).

(** Models [ReconciliationServer::Impl::Handle], src/server.cpp:305-342. *)
Definition handle_complete (body : bytes) (e : Engine) : Response * Engine :=
  match read_exact read_completion body with
  | None => (bad_request (B "malformed Complete request"), e)
  | Some (attempt, epoch, boot, key, target, at_ms, reason) =>
    match AttemptState_of_Z target with
    | Some state =>
      if kMaxReason <? reason then
        (bad_request (B "completion carries an out-of-domain enumeration"), e)
      else
        outcome_answer
          (Engine_Complete host (mkCompletion attempt epoch boot key state at_ms reason []))
          render_completion e
    | None => (bad_request (B "completion carries an out-of-domain enumeration"), e)
    end
  end.

Definition render_verification (o : ReconciliationOutcome) : bytes :=
  B "attempt=" ++ to_string (oc_attempt o) ++
  B " state=" ++ AttemptState_ToText (oc_terminal_state o) ++
  B " verified=" ++ yes_no (oc_verified o) ++ newline.

Definition read_verification : Read VerificationEvidence :=
  scope ← ReadBytes; subject ← ReadBytes; key ← ReadDigest; observation ← ReadBytes;
  generation ← ReadU64; epoch ← ReadU64; verifier ← ReadBytes; applier ← ReadBytes;
  at_ms ← ReadI64; confirms ← ReadBool;
  mret (mkVerification scope subject key observation generation epoch verifier applier at_ms confirms).

(** Models [ReconciliationServer::Impl::Handle], src/server.cpp:343-390. *)
Definition handle_verify (body : bytes) (e : Engine) : Response * Engine :=
  match read_exact read_verification body with
  | None => (bad_request (B "malformed Verify request"), e)
  | Some evidence =>
    if negb (all_ids_parse [vf_scope evidence; vf_subject evidence; vf_observation evidence;
                            vf_verifier evidence; vf_applier evidence]) then
      (bad_request (B "verification carries an invalid identity"), e)
    else outcome_answer (Engine_Verify host evidence) render_verification e
  end.

(** ** Fences *)

(** Models [ReconciliationServer::Impl::Handle], src/server.cpp:391-406. *)
Definition handle_put_fence (body : bytes) (e : Engine) : Response * Engine :=
  match read_exact ReadBytes body with
  | None => (bad_request (B "malformed PutFence request"), e)
  | Some fence_bytes =>
    match read_exact DecodeFence fence_bytes with
    | None => (bad_request (B "fence payload failed validation"), e)
    | Some fence => answer_ok (Engine_PutFence host fence) e
    end
  end.

(** Models [ReconciliationServer::Impl::Handle], src/server.cpp:407-421. *)
Definition handle_clear_fence (body : bytes) (e : Engine) : Response * Engine :=
  match read_exact ReadBytes body with
  | None => (bad_request (B "malformed ClearFence request"), e)
  | Some id_text =>
    match StringId_TryParse id_text with
    | None => (bad_request (B "invalid fence identity"), e)
    | Some id => answer_ok (Engine_ClearFence host id) e
    end
  end.

(** ** Queries *)

(** Models [ReconciliationServer::Impl::Handle], src/server.cpp:422-432. *)
Definition handle_known_scopes (e : Engine) : Response * Engine :=
  (FromStatus Status_Ok (concat (map (fun scope => scope ++ newline) (KnownScopes e))), e).

(** The optional scope of a listing: empty means every scope. *)
Definition listing_scope (scope_text : bytes) : option bytes :=
  if is_empty scope_text then Some [] else StringId_TryParse scope_text.

(** Models [ReconciliationServer::Impl::Handle], src/server.cpp:433-458. *)
Definition handle_attempts (body : bytes) (e : Engine) : Response * Engine :=
  (match read_exact ReadBytes body with
   | None => bad_request (B "malformed Attempts request")
   | Some scope_text =>
     match listing_scope scope_text with
     | None => invalid_scope
     | Some scope =>
       FromStatus Status_Ok (concat (map RenderAttemptText (Engine_Attempts e scope)))
     end
   end, e).

Definition render_outcome (o : ReconciliationOutcome) : bytes :=
  B "attempt=" ++ to_string (oc_attempt o) ++ B " subject=" ++ oc_subject o ++
  B " state=" ++ AttemptState_ToText (oc_terminal_state o) ++
  B " verified=" ++ yes_no (oc_verified o) ++ B " ambiguous=" ++ yes_no (oc_ambiguous o) ++
  B " key=" ++ ToHex (oc_idempotency_key o) ++ newline.

(** Models [ReconciliationServer::Impl::Handle], src/server.cpp:459-488. *)
Definition handle_outcomes (body : bytes) (e : Engine) : Response * Engine :=
  (match read_exact ReadBytes body with
   | None => bad_request (B "malformed Outcomes request")
   | Some scope_text =>
     match listing_scope scope_text with
     | None => invalid_scope
     | Some scope => FromStatus Status_Ok (concat (map render_outcome (Engine_Outcomes e scope)))
     end
   end, e).

(** ** The handler *)

(** Models [ReconciliationServer::Impl::Handle], src/server.cpp:154-500: the operation of a request
    that has passed the checks of its session. *)
Definition Operate (between : Engine -> Engine) (operation : WireOperation) (body : bytes) (e : Engine)
  : Response * Engine :=
  match operation with
  | WO_ActivePolicy => handle_active_policy e
  | WO_PutPolicy => handle_put_policy body e
  | WO_CommitIntent => handle_commit_intent body e
  | WO_RecordObservation => handle_record_observation body e
  | WO_Classify => handle_classify body e
  | WO_Plan => handle_plan body e
  | WO_Dispatch => handle_dispatch between body e
  | WO_Complete => handle_complete body e
  | WO_Verify => handle_verify body e
  | WO_PutFence => handle_put_fence body e
  | WO_ClearFence => handle_clear_fence body e
  | WO_KnownScopes => handle_known_scopes e
  | WO_Attempts => handle_attempts body e
  | WO_Outcomes => handle_outcomes body e
  | WO_BootReport => (FromStatus Status_Ok (RenderBootReportText (en_boot_report e)), e)
  | WO_Compact => answer_ok (Engine_Compact host) e
  | WO_Invalid =>
    (MakeError (mkStatus SC_Unsupported RC_FrameTypeUnknown (B "unsupported operation")), e)
  end.

(** Models [ReconciliationServer::Impl::Handle], src/server.cpp:142-500. *)
Definition Handle (between : Engine -> Engine) (session_boot : bytes) (request : WireRequest)
    (e : Engine) : Response * Engine :=
  if negb (bool_decide (wq_client_boot request = session_boot)) then
    (MakeError (mkStatus SC_StaleAuthority RC_SessionBootMismatch
       (B "request carries a boot identity this session did not establish")), e)
  else if negb (wq_epoch request =? Engine_epoch e) then
    (MakeError (mkStatus SC_StaleAuthority RC_SessionEpochMismatch
       (B "request carries an epoch that is no longer current")), e)
  else Operate between (wq_operation request) (wq_body request) e.
End Handlers.

(** ** Sessions *)

(** Models [MakeHeader], src/server.cpp:83-91. *)
Definition MakeHeader (type : WireMessageType) (session_id sequence : Z) : FrameHeader :=
  mkFrameHeader kWireProtocolVersion type 0 0 session_id sequence.

(** Models [ReceiveOutcome], src/server.cpp:101-106. *)
Inductive ReceiveOutcome :=
| RO_Frame (header : FrameHeader) (payload : bytes)
| RO_PeerClosed
| RO_Released
| RO_ProtocolError.

(** What the connection brings: bytes, a wake-up with nothing to read, a release by shutdown,
    or the end of the stream. *)
Inductive NetEvent :=
| NE_Data (received : bytes)
| NE_NotReady
| NE_Released
| NE_Closed.

(** Models [ReceiveFrame], src/server.cpp:108-138; [None] while the thread is still waiting. A
    read of no bytes is the end of the stream. *)
Fixpoint ReceiveFrame (r : FrameReader) (events : list NetEvent)
  : option ReceiveOutcome * FrameReader * list NetEvent :=
  if fr_failed r then (Some RO_ProtocolError, r, events)
  else
    match Next r with
    | (Some (header, payload), r) => (Some (RO_Frame header payload), r, events)
    | (None, r) =>
      if fr_failed r then (Some RO_ProtocolError, r, events)
      else
        match events with
        | [] => (None, r, [])
        | NE_NotReady :: events => ReceiveFrame r events
        | NE_Released :: events => (Some RO_Released, r, events)
        | NE_Closed :: events => (Some RO_PeerClosed, r, events)
        | NE_Data received :: events =>
          if is_empty received then (Some RO_PeerClosed, r, events)
          else ReceiveFrame (Feed received r) events
        end
    end.

Inductive SessionPhase := SP_Handshake | SP_Live | SP_Closed.

#[export] Instance SessionPhase_eq : EqDecision SessionPhase.
Proof. solve_decision. Defined.

(** Models [SessionState], src/server.cpp:24-37, and the counters [ServeSession] keeps
    (lines 512-515, 564). *)
Record SessionState := mkSession {
  ss_phase : SessionPhase;
  ss_session_id : Z;
  ss_client_boot : bytes;
  ss_handshake_epoch : Z;
  ss_requests : Z;
  ss_expected_incoming : Z;
  ss_outgoing_sequence : Z
}.

Definition session_new : SessionState := mkSession SP_Handshake 0 BootId_default 0 0 1 1.

(** Models [ReconciliationServer::Impl::CloseSession], src/server.cpp:502-509. *)
Definition CloseSession (s : SessionState) : SessionState :=
  mkSession SP_Closed (ss_session_id s) (ss_client_boot s) (ss_handshake_epoch s) (ss_requests s)
    (ss_expected_incoming s) (ss_outgoing_sequence s).

Definition next_outgoing (s : SessionState) : SessionState :=
  mkSession (ss_phase s) (ss_session_id s) (ss_client_boot s) (ss_handshake_epoch s)
    (ss_requests s) (ss_expected_incoming s) (wrap 64 (ss_outgoing_sequence s + 1)).
Definition next_incoming (s : SessionState) : SessionState :=
  mkSession (ss_phase s) (ss_session_id s) (ss_client_boot s) (ss_handshake_epoch s)
    (ss_requests s) (wrap 64 (ss_expected_incoming s + 1)) (ss_outgoing_sequence s).
Definition count_request (s : SessionState) : SessionState :=
  mkSession (ss_phase s) (ss_session_id s) (ss_client_boot s) (ss_handshake_epoch s)
    (wrap 64 (ss_requests s + 1)) (ss_expected_incoming s) (ss_outgoing_sequence s).

(** Models [ReconciliationServer::Impl], src/server.cpp:60-79: the engine and the counters the
    sessions share. *)
Record Server := mkServer {
  sv_engine : Engine;
  sv_limits : RuntimeLimits;
  sv_rejected : Z;
  sv_next_session : Z
}.

Definition with_engine (e : Engine) (server : Server) : Server :=
  mkServer e (sv_limits server) (sv_rejected server) (sv_next_session server).
Definition reject (server : Server) : Server :=
  mkServer (sv_engine server) (sv_limits server) (wrap 64 (sv_rejected server + 1))
    (sv_next_session server).
Definition take_session_id (server : Server) : Server :=
  mkServer (sv_engine server) (sv_limits server) (sv_rejected server)
    (wrap 64 (sv_next_session server + 1)).

(** The frame a turn sends, if any. *)
Definition Sent := option (FrameHeader * bytes).

Definition error_frame (session_id sequence : Z) (status : Status) : FrameHeader * bytes :=
  (MakeHeader WM_Error session_id sequence, EncodeResponse (MakeError status)).

(** Models [ReconciliationServer::Impl::ServeSession], src/server.cpp:517-564: the handshake. *)
Definition handshake_turn (send_ok : bool) (outcome : ReceiveOutcome) (server : Server)
    (s : SessionState) : Server * SessionState * Sent :=
  match outcome with
  | RO_ProtocolError =>
    (reject server, CloseSession s,
     Some (error_frame 0 (ss_outgoing_sequence s)
       (mkStatus SC_Rejected RC_FrameTypeUnknown
          (B "the opening frame is not a decodable handshake frame"))))
  | RO_PeerClosed | RO_Released => (server, CloseSession s, None)
  | RO_Frame header payload =>
    if negb (bool_decide (fh_type header = WM_Hello)) ||
       negb (fh_sequence header =? ss_expected_incoming s) || negb (fh_session_id header =? 0) then
      (reject server, CloseSession s, None)
    else
      match DecodeHello payload with
      | None => (reject server, CloseSession s, None)
      | Some (client_boot, nonce) =>
        let session_id := sv_next_session server in
        let e := sv_engine server in
        let server := take_session_id server in
        let s := mkSession SP_Live session_id client_boot (Engine_epoch e) (ss_requests s) 2
                   (ss_outgoing_sequence s) in
        let welcome := EncodeWelcome (mkWelcome kWireProtocolVersion session_id (Engine_epoch e)
          (Engine_boot e) (Engine_store_id e) nonce
          (wrap 32 (max_wire_payload_bytes (sv_limits server)))) in
        if is_empty welcome then (server, CloseSession s, None)
        else
          (server, if send_ok then s else CloseSession s,
           Some (MakeHeader WM_Welcome 0 1, welcome))
      end
  end.

(** Models [ReconciliationServer::Impl::ServeSession], src/server.cpp:566-643: one round of the
    loop over frames. *)
Definition live_turn (host : Host) (between : Engine -> Engine) (send_ok : bool)
    (outcome : ReceiveOutcome) (server : Server) (s : SessionState)
  : Server * SessionState * Sent :=
  let id := ss_session_id s in
  let refused status := Some (error_frame id (ss_outgoing_sequence s) status) in
  match outcome with
  | RO_ProtocolError =>
    (reject server, CloseSession (next_outgoing s),
     refused (mkStatus SC_Rejected RC_FrameTypeUnknown
       (B "the frame stream violated the protocol and cannot be trusted")))
  | RO_PeerClosed | RO_Released => (server, CloseSession s, None)
  | RO_Frame header payload =>
    if negb (fh_session_id header =? id) then
      (reject server, next_outgoing s,
       refused (mkStatus SC_StaleAuthority RC_SessionIdentityMismatch
         (B "frame carries a session identity that is not this session's")))
    else if bool_decide (fh_type header = WM_Goodbye) then (server, CloseSession s, None)
    else if negb (fh_sequence header =? ss_expected_incoming s) then
      (reject server, CloseSession (next_outgoing s),
       refused (mkStatus SC_ConflictState RC_SessionSequenceRegression
         (B "frame sequence is not contiguous")))
    else
      let s := next_incoming s in
      if bool_decide (fh_type header = WM_Ping) then
        (server, if send_ok then next_outgoing s else CloseSession (next_outgoing s),
         Some (MakeHeader WM_Pong id (ss_outgoing_sequence s), []))
      else if negb (bool_decide (fh_type header = WM_Request)) then
        (reject server, next_outgoing s,
         refused (mkStatus SC_Rejected RC_FrameTypeUnknown
           (B "only request frames are accepted after the handshake")))
      else
        match DecodeRequest payload with
        | None =>
          (reject server, next_outgoing s,
           refused (mkStatus SC_Rejected RC_FrameTypeUnknown (B "request payload failed decoding")))
        | Some request =>
          let s := count_request s in
          let '(response, e) :=
            Handle host (sv_limits server) between (ss_client_boot s) request (sv_engine server) in
          (with_engine e server,
           if send_ok then next_outgoing s else CloseSession (next_outgoing s),
           Some (MakeHeader WM_Response id (ss_outgoing_sequence s), EncodeResponse response))
        end
  end.

(** Models [ReconciliationServer::Impl::ServeSession], src/server.cpp:511-645. *)
Definition session_turn (host : Host) (between : Engine -> Engine) (send_ok : bool)
    (outcome : ReceiveOutcome) (server : Server) (s : SessionState)
  : Server * SessionState * Sent :=
  match ss_phase s with
  | SP_Handshake => handshake_turn send_ok outcome server s
  | SP_Live => live_turn host between send_ok outcome server s
  | SP_Closed => (server, s, None)
  end.

(** ** The service *)

(** Models [ServerOptions], include/summon/fabric_reconciliation/server.hpp:34-43, without the
    address the service listens on. *)
Record ServerOptions := mkServerOptions {
  so_limits : RuntimeLimits;
  so_max_sessions : Z;
  so_single_session : bool
}.

(** The service with the sessions it accepted, each with the reader of its thread. *)
Record Service := mkService {
  sc_server : Server;
  sc_sessions : list (SessionState * FrameReader);
  sc_accepted : Z;
  sc_accepting : bool;
  sc_max_sessions : Z;
  sc_single_session : bool
}.

(** Models [ReconciliationServer::Start], src/server.cpp:653-673: the state of a service whose
    listener is open. *)
Definition Start (options : ServerOptions) (e : Engine) : Service :=
  mkService (mkServer e (so_limits options) 0 1) [] 0 true (so_max_sessions options)
    (so_single_session options).

Definition with_server (server : Server) (w : Service) : Service :=
  mkService server (sc_sessions w) (sc_accepted w) (sc_accepting w) (sc_max_sessions w)
    (sc_single_session w).

(** Models [ReconciliationServer::Start], src/server.cpp:692-718: one accepted connection, where
    [wake_ok] tells whether its wake channel could be created. *)
Definition accept_connection (wake_ok : bool) (w : Service) : Service :=
  let active := blen (sc_sessions w) in
  if sc_max_sessions w <=? active then with_server (reject (sc_server w)) w
  else if negb wake_ok then with_server (reject (sc_server w)) w
  else
    mkService (sc_server w)
      (sc_sessions w ++
         [(session_new, reader_for (wrap 32 (max_wire_payload_bytes (sv_limits (sc_server w)))))])
      (wrap 64 (sc_accepted w + 1)) (negb (sc_single_session w)) (sc_max_sessions w)
      (sc_single_session w).

(** Models [ReconciliationServer::Impl::ServeSession], src/server.cpp:511-645: what one session
    does with the events its connection brings, up to its next frame; the events it did not
    read are handed back. *)
Definition serve_events (host : Host) (between : Engine -> Engine) (send_ok : bool)
    (events : list NetEvent) (server : Server) (s : SessionState) (r : FrameReader)
  : Server * SessionState * FrameReader * Sent * list NetEvent :=
  if bool_decide (ss_phase s = SP_Closed) then (server, s, r, None, events)
  else
    match ReceiveFrame r events with
    | (Some outcome, r, rest) =>
      let '(server, s, sent) := session_turn host between send_ok outcome server s in
      (server, s, r, sent, rest)
    | (None, r, rest) => (server, s, r, None, rest)
    end.

(** Models [ReconciliationServer::Impl::ServeSession], src/server.cpp:511-645: the service after
    session [i] took its turn, the frame it sent and the events left. *)
Definition serve_session (host : Host) (between : Engine -> Engine) (send_ok : bool)
    (events : list NetEvent) (i : nat) (w : Service) : Service * Sent * list NetEvent :=
  match sc_sessions w !! i with
  | None => (w, None, events)
  | Some (s, r) =>
    let '(server, s, r, sent, rest) :=
      serve_events host between send_ok events (sc_server w) s r in
    (mkService server (<[i := (s, r)]> (sc_sessions w)) (sc_accepted w) (sc_accepting w)
       (sc_max_sessions w) (sc_single_session w), sent, rest)
  end.

(** Models [ReconciliationServer::Stop], src/server.cpp:726-737: no further connection is
    accepted; each session is then released by an event of its own. *)
Definition stop_accepting (w : Service) : Service :=
  mkService (sc_server w) (sc_sessions w) (sc_accepted w) false (sc_max_sessions w)
    (sc_single_session w).

(** Models [SessionSnapshot], include/summon/fabric_reconciliation/server.hpp:45-53. *)
Record SessionSnapshot := mkSessionSnapshot {
  sn_session_id : Z;
  sn_client_boot : bytes;
  sn_handshake_epoch : Z;
  sn_requests_served : Z;
  sn_rejected_frames : Z
}.

(** Models [ReconciliationServer::sessions], src/server.cpp:779-797. No session counts the frames
    it rejected: the field keeps its initial value. *)
Definition sessions (w : Service) : list SessionSnapshot :=
  map (fun '(s, _) => mkSessionSnapshot (ss_session_id s) (ss_client_boot s)
    (ss_handshake_epoch s) (ss_requests s) 0) (sc_sessions w).
