(* ===== verification/ServerSafety.v ===== *)
(** * What the service guarantees for any bytes received

    Every request a session can make the engine serve is one the engine's own contracts
    cover, so its invariants hold for any stream of bytes on any number of sessions; and a
    session acts on the engine only under the identity it established. *)

From Stdlib Require Import ZArith Lia.
From stdpp Require Import prelude.
From S2P Require Import Prelude OrdMap Hash Status Identity Canonical Value Policy Document Drift.
From S2P Require Import Authority Plan Lineage Journal Snapshot StoreState Store Engine Planner.
From S2P Require Import Lifecycle EngineRuns EngineSafety Wire WireOps Render Server.
Local Open Scope Z_scope.

Local Opaque EncodePolicy EncodeIntent EncodeObservation EncodeAttemptRecord EncodeOutcome EncodeFence.

(** ** The plans the engine makes can be dispatched *)

Section PlanTyped.
Variable e : Engine.
Hypothesis Hok : engine_ok e.

Lemma held_intent scope d :
  om_find scope (ds_intents (en_state e)) = Some d -> intent_wf (en_limits e) d = true /\ in_scope d = scope.
Proof.
  intros H. destruct Hok as (_ & _ & Hwf & _). unfold durable_wf in Hwf. bool_hyps.
  match goal with Hf : forallb (keyed in_scope _) _ = true |- _ =>
    pose proof (om_find_wf _ _ _ _ Hf H) as Hk end.
  unfold keyed, nested_wf in Hk. cbn [fst snd] in Hk. by bool_hyps.
Qed.

Lemma held_observation scope d :
  d ∈ ObservationEvidence e scope -> observation_wf (en_limits e) d = true.
Proof.
  unfold ObservationEvidence. intros H. destruct Hok as (_ & _ & Hwf & _). unfold durable_wf in Hwf. bool_hyps.
  destruct (om_find scope (ds_observations (en_state e))) as [l|] eqn:E; [|by apply elem_of_nil in H].
  match goal with Hf : forallb (stream_wf _) _ = true |- _ =>
    pose proof (om_find_wf _ _ _ _ Hf E) as Hk end.
  unfold stream_wf in Hk. bool_hyps. cbn [snd] in *.
  match goal with Hf : forallb (nested_wf _) l = true |- _ =>
    rewrite forallb_Forall, Forall_forall in Hf; specialize (Hf d H); unfold nested_wf in Hf end.
  by bool_hyps.
Qed.

Lemma held_policy : id_or_empty (po_id (ds_policy (en_state e))) = true /\
  u64 (po_version (ds_policy (en_state e))) = true.
Proof.
  destruct Hok as (_ & _ & Hwf & _). unfold durable_wf in Hwf. bool_hyps.
  destruct (ds_has_policy (en_state e)).
  - match goal with Hp : nested_wf _ (ds_policy _) = true |- _ => unfold nested_wf in Hp; cbn in Hp end.
    unfold policy_wf in *. bool_hyps. split; [|done]. unfold id_or_empty. apply orb_true_iff. by right.
  - match goal with Hp : bool_decide (ds_policy _ = _) = true |- _ => apply bool_decide_eq_true in Hp; rewrite Hp end.
    done.
Qed.

Lemma digest_wf_sha bs : digest_wf (Sha256Of bs) = true.
Proof. unfold digest_wf, blen. by rewrite length_Sha256Of. Qed.

(** The subject of a record that compares is named by one of the two documents. *)
Lemma compared_subject limits input report policy intent observation r :
  intent_wf limits intent = true -> observation_wf limits observation = true ->
  compared input report policy intent observation -> r ∈ cr_records report ->
  IsValidIdentityText (dr_subject r) = true /\ dr_scope r = ci_scope input.
Proof.
  intros Hi Ho (_ & _ & _ & _ & _ & Hcs) Hr. unfold intent_wf, observation_wf, subjects_wf in *. bool_hyps.
  rewrite classify_subjects_reference in Hcs by done. injection Hcs as Hrec _ _. rewrite Hrec in Hr.
  apply list_elem_of_omap in Hr as (k & Hk & Hsr). apply subject_record_subject in Hsr as (-> & -> & _).
  split; [|done]. apply elem_merge_keys in Hk as [Hk|Hk];
    apply list_elem_of_fmap in Hk as ([k' v] & -> & Hk); cbn [fst];
    match goal with Hf : forallb (?f limits) ?l = true, Hin : _ ∈ ?l |- _ =>
      rewrite forallb_Forall, Forall_forall in Hf; specialize (Hf _ Hin) end;
    unfold subject_intent_wf, subject_observation_wf in *; bool_hyps; done.
Qed.

Lemma id_or_empty_valid text : IsValidIdentityText text = true -> id_or_empty text = true.
Proof. intros H. unfold id_or_empty. apply orb_true_iff. by right. Qed.

Lemma evidence_authority_wf input policy intent observation :
  intent_wf (en_limits e) intent = true -> observation_wf (en_limits e) observation = true ->
  authority_wf (BuildAuthority e (scope_evidence input policy (Some intent) (Some observation))) = true.
Proof.
  intros Hi Ho. destruct held_policy as [Hp Hv]. pose proof Hok as (_ & _ & _ & He & Hb).
  unfold intent_wf, observation_wf in *. bool_hyps.
  repeat match goal with H : in_digest _ = _ |- _ => revert H | H : ob_digest _ = _ |- _ => revert H end.
  intros Hd1 Hd2. unfold authority_wf, BuildAuthority, scope_evidence.
  cbn [av_coordinator_epoch av_boot av_policy_id av_policy_version av_policy_digest av_definition
    av_intent_generation av_intent av_intent_digest av_observation av_observation_generation
    av_observation_reporter av_observation_digest av_observation_epoch av_observation_received_unix_ms
    ev_definition ev_intent_generation ev_intent ev_intent_digest ev_observation
    ev_observation_generation ev_reporter ev_observation_digest ev_received_epoch ev_received_unix_ms].
  rewrite He, Hb, Hp, Hv, Hd1, Hd2. unfold ComputePolicyDigest, ComputeIntentDigest, ComputeObservationDigest, writer_Digest.
  rewrite !digest_wf_sha, !id_or_empty_valid by done. by bool_goal.
Qed.

Lemma plan_decisions_typed host request plan e' :
  IsValidIdentityText (pr_scope request) = true ->
  Engine_Plan host request e = (Value plan, e') ->
  forallb decision_typed (pl_decisions plan) = true.
Proof.
  intros Hscope Hp. apply Engine_Plan_inv in Hp as (report & Hc & -> & _).
  apply forallb_Forall, Forall_forall. intros d Hd. unfold decision_typed.
  destruct (bool_decide_reflect (de_disposition d = DD_Actionable)) as [Ha|]; cbn [negb orb]; [|done].
  apply decision_record in Hd as (r & Hr & ->).
  destruct (decision_fields (plan_context e (pr_scope request) (request_policy e request) (cr_evidence report)) r)
    as (-> & -> & _ & ->).
  apply decide_actionable in Ha as [_ Hlic].
  destruct (actionable_compared _ _ _ _ _ Hc Hr Hlic) as (policy & intent & observation & Hcmp).
  pose proof (compared_documents _ _ _ _ _ _ _ _ Hcmp) as (-> & Hi & Ho & _).
  destruct (held_intent _ _ Hi) as [Hiw _]. pose proof (held_observation _ _ Ho) as How.
  destruct (compared_subject _ _ _ _ _ _ r Hiw How Hcmp Hr) as [Hsub Hsc].
  rewrite Hsub, Hsc. cbn [ci_scope classification_input]. rewrite Hscope. cbn [px_authority plan_context].
  pose proof Hcmp as (_ & Hsi & Hso & _).
  rewrite (ClassifyScope_evidence (classification_input e (pr_scope request) (request_policy e request)
    (request_now host request)) (request_policy e request) report eq_refl Hc), Hsi, Hso.
  rewrite evidence_authority_wf by done. unfold decision_of, decide_record. cbv zeta.
  destruct (if _ : bool then _ else _) as [[action disposition] reason]. cbn [fst de_idempotency_key].
  unfold ComputeIdempotencyKey, writer_Digest. by rewrite digest_wf_sha.
Qed.

Lemma plan_decisions_bounded host request plan e' :
  Engine_Plan host request e = (Value plan, e') ->
  blen (pl_decisions plan) <= Z.max 0 (max_plan_actions (en_limits e)) /\ en_state e' = en_state e.
Proof.
  intros Hp. apply Engine_Plan_inv in Hp as (report & _ & -> & Hst). split; [|done].
  destruct (make_plan_decisions e (pr_scope request) (request_policy e request) report) as (-> & _).
  unfold blen. rewrite length_map, length_take. lia.
Qed.
End PlanTyped.

(** ** Every request of a session is one the engine's contracts cover *)

Section Disciplined.
Context {D : Discipline}.

(** One engine call serves one request. *)
Lemma served_one host request e :
  host_typed host = true -> follows host -> request_ok e request = true -> served e (serve host request e).2.
Proof. intros Hh Hfo Hr. apply rtc_once. by exists host, request. Qed.

Lemma forget_engine {A} (m : Op A) e : (forget m e).2 = (m e).2.
Proof. unfold forget, mbind, Op_bind. by destruct (m e) as [[a|status] e']. Qed.

Lemma served_call {A} host request (m : Op A) e :
  host_typed host = true -> follows host -> request_ok e request = true -> serve host request = forget m ->
  served e (m e).2.
Proof. intros Hh Hfo Hr Hm. rewrite <- forget_engine, <- Hm. by apply served_one. Qed.

Lemma answer_engine {A} (m : Op A) ok e : (answer m ok e).2 = (m e).2.
Proof. unfold answer. by destruct (m e) as [[a|status] e']. Qed.

Lemma outcome_answer_engine m render e : (outcome_answer m render e).2 = (m e).2.
Proof. unfold outcome_answer. by destruct (m e) as [[a|status] e']. Qed.

Lemma policy_wf_typed limits p : policy_wf limits p = true -> policy_typed p = true.
Proof.
  unfold policy_wf, keys_wf, policy_typed. intros. bool_hyps.
  assert (forall l, forallb IsValidIdentityText l = true -> forallb id_or_empty l = true) as Hl.
  { intros l. rewrite !forallb_Forall. intros Hl. eapply Forall_impl; [exact Hl|].
    intros x Hx. by apply id_or_empty_valid. }
  rewrite id_or_empty_valid, !Hl by done. by bool_goal.
Qed.

Lemma intent_wf_typed limits d : intent_wf limits d = true -> intent_typed limits d = true.
Proof.
  unfold intent_typed. intros H. assert (in_digest d = ComputeIntentDigest d) as <-
    by (unfold intent_wf in H; by bool_hyps).
  by destruct d.
Qed.

(** What other sessions may do to the engine between two calls of one request: serve
    requests, leaving the attempt counter room for a plan. *)
Definition attempts_room (e : Engine) : Prop :=
  ds_next_attempt (en_state e) + Z.max 0 (max_plan_actions (en_limits e)) < 2 ^ 64.
Definition interleaved (between : Engine -> Engine) (e : Engine) : Prop :=
  forall e1, same_frame e e1 -> en_state e1 = en_state e ->
    served e1 (between e1) /\ attempts_room (between e1).

Section Requests.
Variables (host : Host) (e : Engine).
Hypothesis Hhost : host_typed host = true.
Hypothesis Hfollows : follows host.
Hypothesis Hok : engine_ok e.

Lemma put_policy_served body : served e (handle_put_policy host (en_limits e) body e).2.
Proof.
  unfold handle_put_policy. destruct (read_exact _ _) as [[allow policy_bytes]|]; [|apply rtc_refl].
  destruct (DecodePolicyExact _ _) as [policy|] eqn:Ep; [|apply rtc_refl].
  rewrite answer_engine. apply (served_call host (RQ_PutPolicy policy allow)); [done|done| |reflexivity].
  apply (policy_wf_typed (en_limits e)). exact (yields_exact _ _ _ _ (yields_policy _) Ep).
Qed.

Lemma commit_intent_served body : served e (handle_commit_intent host (en_limits e) body e).2.
Proof.
  unfold handle_commit_intent. destruct (read_exact _ _) as [intent_bytes|]; [|apply rtc_refl].
  destruct (DecodeIntentExact _ _) as [document|] eqn:Ed; [|apply rtc_refl].
  assert (forall x : Response * Engine, x.2 = (Engine_CommitIntent host document e).2 -> served e x.2) as Hs.
  { intros x ->. apply (served_call host (RQ_CommitIntent document)); [done|done| |reflexivity].
    apply intent_wf_typed. exact (yields_exact _ _ _ _ (yields_intent _) Ed). }
  by destruct (Engine_CommitIntent host document e) as [[[status result]|status] e']; apply Hs.
Qed.

Lemma record_observation_served body :
  served e (handle_record_observation host (en_limits e) body e).2.
Proof.
  unfold handle_record_observation. destruct (read_exact _ _) as [[submission_bytes at_ms]|] eqn:Er;
    [|apply rtc_refl].
  destruct (DecodeSubmissionExact _ _) as [submission|] eqn:Ed; [|apply rtc_refl].
  assert (i64 at_ms = true) as Hat.
  { apply (yields_exact _ (fun x : bytes * Z => i64 x.2 = true)) in Er; [done|]. repeat yield_step. done. }
  assert (forall x : Response * Engine, x.2 = (RecordObservationAt host submission at_ms e).2 -> served e x.2) as Hs.
  { intros x ->. apply (served_call host (RQ_RecordObservation submission at_ms)); [done|done| |reflexivity].
    cbn [request_ok]. rewrite Hat, andb_true_r. exact (yields_exact _ _ _ _ (yields_submission _) Ed). }
  by destruct (RecordObservationAt host submission at_ms e) as [[[status result]|status] e']; apply Hs.
Qed.

Lemma classify_served body : served e (handle_classify host body e).2.
Proof.
  unfold handle_classify. destruct (read_exact _ _) as [[scope_text now]|]; [|apply rtc_refl].
  destruct (StringId_TryParse _) as [scope|]; [|apply rtc_refl].
  rewrite answer_engine. by apply (served_call host (RQ_Classify scope now)).
Qed.

Lemma plan_served body : served e (handle_plan host body e).2.
Proof.
  unfold handle_plan. destruct (read_exact _ _) as [[[scope_text now] dry_run]|]; [|apply rtc_refl].
  destruct (StringId_TryParse _) as [scope|]; [|apply rtc_refl].
  rewrite answer_engine. by apply (served_call host (RQ_Plan (mkPlanRequest scope None now dry_run))).
Qed.

Lemma dispatch_served between body :
  interleaved between e -> served e (handle_dispatch host between body e).2.
Proof.
  intros Hb. unfold handle_dispatch.
  destruct (read_exact _ _) as [[[scope_text now] expected]|]; [|apply rtc_refl].
  destruct (StringId_TryParse _) as [scope|] eqn:Es; [|apply rtc_refl]. apply TryParse_valid in Es.
  set (request := mkPlanRequest scope None now false).
  assert (served e (Engine_Plan host request e).2) as Hp
    by (by apply (served_call host (RQ_Plan request))).
  destruct (Engine_Plan host request e) as [[plan|status] e1] eqn:Ep; cbn [snd] in Hp; [|done].
  destruct (negb _ && negb _); [done|]. rewrite answer_engine.
  destruct (plan_decisions_bounded e host request plan e1 Ep) as [Hlen Hst].
  destruct (served_evolves _ _ Hok Hp) as [Hframe _].
  destruct (Hb e1 Hframe Hst) as [Hs Hroom].
  etransitivity; [exact Hp|]. etransitivity; [exact Hs|].
  apply (served_call host (RQ_Dispatch plan)); [done|done| |reflexivity]. cbn [request_ok].
  rewrite (plan_decisions_typed e Hok host request plan e1 Es Ep). apply Z.ltb_lt.
  assert (en_limits (between e1) = en_limits e) as Hl.
  { pose proof (served_evolves _ _ (engine_ok_evolves _ _ Hok (served_evolves _ _ Hok Hp)) Hs) as [(H1 & _) _].
    destruct Hframe as (H2 & _). unfold en_limits. by rewrite H1, H2. }
  unfold attempts_room in Hroom. rewrite Hl in Hroom. lia.
Qed.

Lemma complete_served body : served e (handle_complete host body e).2.
Proof.
  unfold handle_complete.
  destruct (read_exact _ _) as [[[[[[[attempt epoch] boot] key] target] at_ms] reason]|] eqn:Er; [|apply rtc_refl].
  destruct (AttemptState_of_Z target) as [state|]; [|apply rtc_refl].
  destruct (Z.ltb_spec kMaxReason reason) as [|Hr]; [apply rtc_refl|].
  rewrite outcome_answer_engine.
  apply (served_call host (RQ_Complete (mkCompletion attempt epoch boot key state at_ms reason []))); [done|done| |reflexivity]. cbn [request_ok].
  apply (yields_exact _ (fun x : Z * Z * bytes * bytes * Z * Z * Z => i64 x.1.2 = true /\ u16 x.2 = true)) in Er.
  - destruct Er as [H1 H2]. unfold completion_typed, reason_wf. cbn in *. apply u_range in H2.
    bool_goal; try done; lia.
  - unfold read_completion. repeat yield_step. done.
Qed.

Lemma verify_served body : served e (handle_verify host body e).2.
Proof.
  unfold handle_verify. destruct (read_exact _ _) as [evidence|] eqn:Er; [|apply rtc_refl].
  destruct (negb _); [apply rtc_refl|]. rewrite outcome_answer_engine.
  apply (served_call host (RQ_Verify evidence)); [done|done| |reflexivity]. cbn [request_ok].
  eapply (yields_exact _ (fun x => verification_typed x = true)); [|exact Er].
  unfold read_verification. repeat yield_step. unfold verification_typed. cbn. by bool_goal.
Qed.

Lemma put_fence_served body : served e (handle_put_fence host body e).2.
Proof.
  unfold handle_put_fence. destruct (read_exact ReadBytes _) as [fence_bytes|]; [|apply rtc_refl].
  destruct (read_exact DecodeFence _) as [fence|] eqn:Ef; [|apply rtc_refl]. unfold answer_ok.
  rewrite answer_engine. apply (served_one host (RQ_PutFence fence)); [done|done|].
  exact (yields_exact _ _ _ _ yields_fence Ef).
Qed.

Lemma clear_fence_served body : served e (handle_clear_fence host body e).2.
Proof.
  unfold handle_clear_fence. destruct (read_exact ReadBytes _) as [id_text|]; [|apply rtc_refl].
  destruct (StringId_TryParse _) as [id|] eqn:Es; [|apply rtc_refl]. unfold answer_ok.
  rewrite answer_engine. apply (served_one host (RQ_ClearFence id)); [done|done|]. by eapply TryParse_valid.
Qed.

Lemma Handle_served between session_boot request :
  interleaved between e ->
  served e (Handle host (en_limits e) between session_boot request e).2.
Proof.
  intros Hb. unfold Handle. destruct (negb _); [apply rtc_refl|]. destruct (negb _); [apply rtc_refl|].
  unfold Operate. destruct (wq_operation request); try apply rtc_refl.
  - apply put_policy_served.
  - apply commit_intent_served.
  - apply record_observation_served.
  - apply classify_served.
  - apply plan_served.
  - by apply dispatch_served.
  - apply complete_served.
  - apply verify_served.
  - apply put_fence_served.
  - apply clear_fence_served.
  - unfold answer_ok. rewrite answer_engine. by apply (served_one host RQ_Compact).
Qed.
End Requests.

(** ** Runs of the service *)

(** One step of the service: a connection is accepted, a session takes a turn on what its
    connection brought, the owner of the engine uses it, or the service stops accepting. *)
Inductive service_step : Service -> Service -> Prop :=
| SS_accept w wake_ok :
    sc_accepting w = true -> service_step w (accept_connection wake_ok w)
| SS_turn w w' host between send_ok events i sent :
    host_typed host = true -> follows host -> interleaved between (sv_engine (sc_server w)) ->
    serve_session host between send_ok events i w = (w', sent, []) -> service_step w w'
| SS_owner w e :
    served (sv_engine (sc_server w)) e ->
    service_step w (with_server (with_engine e (sc_server w)) w)
| SS_stop w : service_step w (stop_accepting w).

Definition service_run : Service -> Service -> Prop := rtc service_step.

(** The identities handed out so far, in the order of the sessions. *)
Definition session_ids (l : list (SessionState * FrameReader)) : list Z :=
  filter (fun id => id <> 0) ((fun x => ss_session_id x.1) <$> l).

(** A session without an identity is still to shake hands; one being served has one. *)
Definition session_ok (x : SessionState * FrameReader) : Prop :=
  match ss_phase x.1 with
  | SP_Handshake => ss_session_id x.1 = 0
  | SP_Live => ss_session_id x.1 <> 0
  | SP_Closed => True
  end.

(** The identities are exactly those below the counter, each held once. *)
Definition identities_ok (w : Service) : Prop :=
  1 <= sv_next_session (sc_server w) /\
  session_ids (sc_sessions w) ≡ₚ seqZ 1 (sv_next_session (sc_server w) - 1) /\
  Forall session_ok (sc_sessions w).

Definition service_ok (w : Service) : Prop :=
  engine_ok (sv_engine (sc_server w)) /\
  sv_limits (sc_server w) = en_limits (sv_engine (sc_server w)) /\
  blen (sc_sessions w) <= sc_max_sessions w /\ sc_max_sessions w + 1 < 2 ^ 64 /\
  identities_ok w.

Lemma session_ids_same l i x y :
  l !! i = Some x -> ss_session_id y.1 = ss_session_id x.1 -> session_ids (<[i := y]> l) = session_ids l.
Proof.
  intros Hi Hy. unfold session_ids. rewrite list_fmap_insert, list_insert_id; [done|].
  by rewrite list_lookup_fmap, Hi, Hy.
Qed.

Lemma length_session_ids l : (length (session_ids l) <= length l)%nat.
Proof. unfold session_ids. etransitivity; [apply length_filter|]. by rewrite length_fmap. Qed.

Lemma session_ids_new l i x y :
  l !! i = Some x -> ss_session_id x.1 = 0 -> ss_session_id y.1 <> 0 ->
  session_ids (<[i := y]> l) ≡ₚ ss_session_id y.1 :: session_ids l /\
  (length (session_ids l) < length l)%nat.
Proof.
  intros Hi Hx Hy. pose proof (lookup_lt_Some _ _ _ Hi) as Hlt.
  assert (session_ids l = session_ids (take i l) ++ session_ids (drop (S i) l)) as ->.
  { rewrite <- (take_drop_middle _ _ _ Hi) at 1. unfold session_ids.
    rewrite fmap_app, fmap_cons, filter_app, filter_cons_False by (intros ?; lia). done. }
  split.
  - rewrite insert_take_drop by done. unfold session_ids at 1.
    rewrite fmap_app, fmap_cons, filter_app, filter_cons_True by done. by rewrite Permutation_middle.
  - rewrite length_app. pose proof (length_session_ids (take i l)). pose proof (length_session_ids (drop (S i) l)).
    rewrite length_take, length_drop in *. lia.
Qed.

(** ** One turn *)

(** The effects of a turn on the identities. *)
Definition identity_kept (server : Server) (s : SessionState) (server' : Server) (s' : SessionState) : Prop :=
  sv_next_session server' = sv_next_session server /\ ss_session_id s' = ss_session_id s /\
  (ss_phase s' = ss_phase s \/ ss_phase s' = SP_Closed).
Definition identity_taken (server : Server) (s : SessionState) (server' : Server) (s' : SessionState) : Prop :=
  ss_phase s = SP_Handshake /\ ss_session_id s' = sv_next_session server /\
  sv_next_session server' = wrap 64 (sv_next_session server + 1) /\ ss_phase s' <> SP_Handshake.


Lemma handshake_turn_identity send_ok outcome server s server' s' sent :
  ss_phase s = SP_Handshake -> handshake_turn send_ok outcome server s = (server', s', sent) ->
  sv_engine server' = sv_engine server /\ sv_limits server' = sv_limits server /\
  (identity_kept server s server' s' \/ identity_taken server s server' s').
Proof.
  intros Hp. unfold handshake_turn, identity_kept, identity_taken. cbv zeta.
  destruct outcome as [header payload| | |]; try (intros [= <- <- <-]; cbn; by auto 10).
  destruct (_ || _); [intros [= <- <- <-]; cbn; by auto 10|].
  destruct (DecodeHello payload) as [[client_boot nonce]|]; [|intros [= <- <- <-]; cbn; by auto 10].
  destruct (is_empty _); [|destruct send_ok]; intros [= <- <- <-]; cbn; by auto 10.
Qed.

Lemma live_turn_identity host between send_ok outcome server s server' s' sent :
  live_turn host between send_ok outcome server s = (server', s', sent) ->
  sv_limits server' = sv_limits server /\ identity_kept server s server' s'.
Proof.
  unfold live_turn, identity_kept. cbv zeta.
  destruct outcome as [header payload| | |]; try (intros [= <- <- <-]; cbn; by auto 10).
  destruct (negb (fh_session_id _ =? _)); [intros [= <- <- <-]; cbn; by auto 10|].
  destruct (bool_decide _); [intros [= <- <- <-]; cbn; by auto 10|].
  destruct (negb (fh_sequence _ =? _)); [intros [= <- <- <-]; cbn; by auto 10|].
  destruct (bool_decide _); [destruct send_ok; intros [= <- <- <-]; cbn; by auto 10|].
  destruct (negb (bool_decide _)); [intros [= <- <- <-]; cbn; by auto 10|].
  destruct (DecodeRequest payload) as [request|]; [|intros [= <- <- <-]; cbn; by auto 10].
  destruct (Handle _ _ _ _ _ _) as [response e]. destruct send_ok; intros [= <- <- <-]; cbn; by auto 10.
Qed.

(** A turn touches the engine only through the handler, for a request of a live session whose
    frame carries the session's identity and the next sequence number. *)
Definition accepted_request (outcome : ReceiveOutcome) (s : SessionState) (request : WireRequest) : Prop :=
  ss_phase s = SP_Live /\
  exists header payload, outcome = RO_Frame header payload /\
    fh_session_id header = ss_session_id s /\ fh_sequence header = ss_expected_incoming s /\
    fh_type header = WM_Request /\ DecodeRequest payload = Some request.

Lemma session_turn_engine host between send_ok outcome server s server' s' sent :
  session_turn host between send_ok outcome server s = (server', s', sent) ->
  sv_engine server' = sv_engine server \/
  exists request, accepted_request outcome s request /\
    sv_engine server' = (Handle host (sv_limits server) between (ss_client_boot s) request (sv_engine server)).2 /\
    ss_expected_incoming s' = wrap 64 (ss_expected_incoming s + 1) /\
    ss_session_id s' = ss_session_id s /\
    exists response, sent = Some (MakeHeader WM_Response (ss_session_id s) (ss_outgoing_sequence s), EncodeResponse response).
Proof.
  unfold session_turn, accepted_request. destruct (ss_phase s) eqn:Ep.
  - intros H. left. by apply handshake_turn_identity in H as (H & _).
  - unfold live_turn. cbv zeta.
    destruct outcome as [header payload| | |]; try (intros [= <- <- <-]; by left).
    destruct (Z.eqb_spec (fh_session_id header) (ss_session_id s)) as [Hid|]; [|intros [= <- <- <-]; by left]. cbn [negb].
    destruct (bool_decide _); [intros [= <- <- <-]; by left|].
    destruct (Z.eqb_spec (fh_sequence header) (ss_expected_incoming s)) as [Hseq|]; [|intros [= <- <- <-]; by left]. cbn [negb].
    destruct (bool_decide _); [destruct send_ok; intros [= <- <- <-]; by left|].
    destruct (bool_decide_reflect (fh_type header = WM_Request)) as [Hty|]; [|intros [= <- <- <-]; by left]. cbn [negb].
    destruct (DecodeRequest payload) as [request|] eqn:Ed; [|intros [= <- <- <-]; by left].
    cbn [ss_client_boot count_request next_incoming].
    destruct (Handle _ _ _ _ _ _) as [response e] eqn:Eh. intros [= <- <- <-]. right. exists request.
    split; [split; [done|]; by exists header, payload|]. rewrite Eh.
    destruct send_ok; (split; [done|]; split; [done|]; split; [done|]; by exists response).
  - intros [= <- <- <-]. by left.
Qed.

Lemma session_turn_identity host between send_ok outcome server s server' s' sent :
  session_turn host between send_ok outcome server s = (server', s', sent) ->
  sv_limits server' = sv_limits server /\
  (identity_kept server s server' s' \/ identity_taken server s server' s').
Proof.
  unfold session_turn. destruct (ss_phase s) eqn:Ep; intros H.
  - by apply handshake_turn_identity in H as (_ & H).
  - apply live_turn_identity in H as [H1 H2]. by auto.
  - injection H as <- <- <-. split; [done|]. left. unfold identity_kept. auto.
Qed.

Lemma serve_events_inv host between send_ok events server s r server' s' r' sent rest :
  serve_events host between send_ok events server s r = (server', s', r', sent, rest) ->
  (server' = server /\ s' = s) \/
  exists outcome, session_turn host between send_ok outcome server s = (server', s', sent).
Proof.
  unfold serve_events. destruct (bool_decide _); [intros [= <- <- _ _ _]; by left|].
  destruct (ReceiveFrame r events) as [[[outcome|] r1] rest1]; [|intros [= <- <- _ _ _]; by left].
  destruct (session_turn _ _ _ outcome _ _) as [[server1 s1] sent1] eqn:E.
  intros [= -> -> _ -> _]. right. by exists outcome.
Qed.

(** ** Every run keeps the service's invariant *)

Lemma session_ok_kept server s server' s' r r' :
  identity_kept server s server' s' -> session_ok (s, r) -> session_ok (s', r').
Proof.
  unfold identity_kept, session_ok. cbn [fst]. intros (_ & Hid & Hp). rewrite Hid.
  destruct Hp as [->| ->]; by destruct (ss_phase s).
Qed.

Lemma identities_turn w i s r server' s' r' :
  identities_ok w -> blen (sc_sessions w) <= sc_max_sessions w -> sc_max_sessions w + 1 < 2 ^ 64 ->
  sc_sessions w !! i = Some (s, r) ->
  identity_kept (sc_server w) s server' s' \/ identity_taken (sc_server w) s server' s' ->
  1 <= sv_next_session server' /\
  session_ids (<[i := (s', r')]> (sc_sessions w)) ≡ₚ seqZ 1 (sv_next_session server' - 1) /\
  Forall session_ok (<[i := (s', r')]> (sc_sessions w)).
Proof.
  intros (H1 & Hperm & Hall) Hlen Hmax Hi Hk.
  pose proof (proj1 (Forall_lookup _ _) Hall _ _ Hi) as Hs.
  destruct Hk as [Hk|Hk].
  - rewrite (session_ids_same _ _ (s, r)) by (done || apply Hk). pose proof Hk as (-> & _).
    split; [done|]. split; [done|]. apply Forall_insert; [done|]. by eapply session_ok_kept.
  - destruct Hk as (Hp & Hid & Hnext & Hp'). unfold session_ok in Hs. cbn [fst] in Hs. rewrite Hp in Hs.
    destruct (session_ids_new (sc_sessions w) i (s, r) (s', r') Hi Hs) as [Hnew Hlt]; [cbn; lia|].
    rewrite Hperm, length_seqZ in Hlt. unfold blen in Hlen.
    assert (sv_next_session server' = sv_next_session (sc_server w) + 1) as ->.
    { rewrite Hnext. unfold wrap. rewrite Z.mod_small; [done|]. lia. }
    split; [lia|]. split.
    + rewrite Hnew, Hperm. cbn [fst]. rewrite Hid.
      replace (sv_next_session (sc_server w) + 1 - 1)
        with ((sv_next_session (sc_server w) - 1) + 1) by lia.
      rewrite (seqZ_app _ (sv_next_session (sc_server w) - 1) 1) by lia.
      replace (1 + (sv_next_session (sc_server w) - 1)) with (sv_next_session (sc_server w)) by lia.
      by rewrite Permutation_cons_append.
    + apply Forall_insert; [done|]. unfold session_ok. cbn [fst]. destruct (ss_phase s'); [done|lia|done].
Qed.

Lemma turn_served host between send_ok outcome server s server' s' sent :
  host_typed host = true -> follows host -> engine_ok (sv_engine server) ->
  sv_limits server = en_limits (sv_engine server) -> interleaved between (sv_engine server) ->
  session_turn host between send_ok outcome server s = (server', s', sent) ->
  served (sv_engine server) (sv_engine server').
Proof.
  intros Hh Hfo Hok Hl Hb Ht. apply session_turn_engine in Ht as [->|(request & _ & -> & _)]; [apply rtc_refl|].
  rewrite Hl. by apply Handle_served.
Qed.

Lemma served_keeps e e' :
  engine_ok e -> served e e' -> engine_ok e' /\ en_limits e' = en_limits e.
Proof.
  intros Hok Hs. pose proof (served_evolves _ _ Hok Hs) as Hev.
  split; [exact (engine_ok_evolves _ _ Hok Hev)|]. destruct Hev as [(H & _) _]. unfold en_limits. by rewrite H.
Qed.

Lemma service_step_sound w w' :
  service_step w w' -> service_ok w -> service_ok w' /\ served (sv_engine (sc_server w)) (sv_engine (sc_server w')).
Proof.
  intros Hst (Hok & Hl & Hlen & Hmax & Hids).
  destruct Hst as [w wake_ok _|w w' host between send_ok events i sent Hh Hfo Hb Hserve|w e Hs|w].
  - unfold accept_connection. destruct (Z.leb_spec (sc_max_sessions w) (blen (sc_sessions w))) as [|Hroom];
      [split; [done|apply rtc_refl]|].
    destruct wake_ok; [|split; [done|apply rtc_refl]]. split; [|apply rtc_refl].
    unfold service_ok, identities_ok. cbn [negb sc_server sc_sessions sc_max_sessions].
    destruct Hids as (H1 & Hperm & Hall). unfold blen in *. rewrite length_app. cbn [length].
    split_and!; [done|done|lia|done|done| |].
    + unfold session_ids. rewrite fmap_app, filter_app. cbn. by rewrite app_nil_r.
    + by apply Forall_app_2; [|apply Forall_singleton].
  - unfold serve_session in Hserve. destruct (sc_sessions w !! i) as [[s r]|] eqn:Ei;
      [|injection Hserve as <- _ _; split; [done|apply rtc_refl]].
    destruct (serve_events _ _ _ _ _ _ _) as [[[[server' s'] r'] sent'] rest] eqn:Ee.
    injection Hserve as <- _ _. cbn [sc_server].
    apply serve_events_inv in Ee as Hinv.
    assert (served (sv_engine (sc_server w)) (sv_engine server') /\ sv_limits server' = sv_limits (sc_server w) /\
      (identity_kept (sc_server w) s server' s' \/ identity_taken (sc_server w) s server' s')) as (Hs & Hlim & Hk).
    { destruct Hinv as [[-> ->]|[outcome Ht]].
      - split; [apply rtc_refl|]. split; [done|]. left. by split_and!; [..|left].
      - split; [by eapply turn_served|]. by eapply session_turn_identity. }
    split; [|done]. destruct (served_keeps _ _ Hok Hs) as [Hok' Hl'].
    pose proof (identities_turn w i s r server' s' r' Hids Hlen Hmax Ei Hk) as Hids'.
    unfold service_ok, identities_ok. cbn [sc_server sc_sessions sc_max_sessions]. unfold blen in *.
    rewrite length_insert. split_and!; [done|congruence|done|done|apply Hids'..].
  - destruct (served_keeps _ _ Hok Hs) as [Hok' Hl']. split; [|done].
    split_and!; [done|cbn; congruence|done|done|apply Hids..].
  - split; [|apply rtc_refl]. done.
Qed.

Lemma service_run_keeps w w' :
  service_run w w' -> service_ok w -> service_ok w' /\ served (sv_engine (sc_server w)) (sv_engine (sc_server w')).
Proof.
  induction 1 as [w|w1 w2 w3 Hstep _ IH]; intros Hok; [split; [done|apply rtc_refl]|].
  destruct (service_step_sound _ _ Hstep Hok) as [Hok2 Hs]. destruct (IH Hok2) as [Hok3 Hs3].
  split; [done|]. by etransitivity.
Qed.

Lemma service_ok_Start options e :
  engine_ok e -> so_limits options = en_limits e -> 0 <= so_max_sessions options ->
  so_max_sessions options + 1 < 2 ^ 64 -> service_ok (Start options e).
Proof. intros. split_and!; [done..|]. by split_and!; [|apply Permutation_refl|apply Forall_nil]. Qed.

Lemma NoDup_filter_inj {A} (f : A -> Z) l i j x y :
  NoDup (filter (fun id => id <> 0) (f <$> l)) -> l !! i = Some x -> l !! j = Some y ->
  f x = f y -> f x <> 0 -> i = j.
Proof.
  revert i j. induction l as [|z l IH]; intros i j Hnd Hi Hj Hxy Hx; [by rewrite lookup_nil in Hi|].
  rewrite fmap_cons in Hnd. destruct i as [|i], j as [|j]; cbn in Hi, Hj; [done| | |].
  3: { f_equal. apply IH; [|done..]. rewrite filter_cons in Hnd.
       by destruct (decide (f z <> 0)); [apply NoDup_cons in Hnd as []|]. }
  all: exfalso; simplify_eq; rewrite filter_cons_True in Hnd by congruence;
    apply NoDup_cons in Hnd as [Hnin _]; apply Hnin, list_elem_of_filter; split; [congruence|].
  - rewrite Hxy. by eapply list_elem_of_fmap_2, list_elem_of_lookup_2.
  - rewrite <- Hxy. by eapply list_elem_of_fmap_2, list_elem_of_lookup_2.
Qed.

Lemma wrap_succ_neq n : wrap 64 (n + 1) <> n.
Proof. unfold wrap. intros H. pose proof (Z.div_mod (n + 1) (2 ^ 64) ltac:(lia)). lia. Qed.

Lemma Handle_guards host limits between boot request e :
  (Handle host limits between boot request e).2 <> e ->
  wq_client_boot request = boot /\ wq_epoch request = Engine_epoch e.
Proof.
  unfold Handle. destruct (bool_decide_reflect (wq_client_boot request = boot)); cbn [negb]; [|done].
  by destruct (Z.eqb_spec (wq_epoch request) (Engine_epoch e)); cbn [negb].
Qed.

End Disciplined.

(** ** Theorems *)

(** C8. The service refines the engine's life-cycle for any bytes: from a started service,
    whatever connections are accepted, whatever bytes arrive on them in whatever chunks and
    order, whichever sends fail and however the sessions interleave, the engine stays
    well-formed, keeps its epoch, boot identity and options, its durable state moves by legal
    steps only, and no more sessions than the limit exist. *)
Theorem service_refines_lifecycle options e w :
  engine_ok e -> so_limits options = en_limits e -> 0 <= so_max_sessions options ->
  so_max_sessions options + 1 < 2 ^ 64 -> service_run (Start options e) w ->
  engine_ok (sv_engine (sc_server w)) /\ same_frame e (sv_engine (sc_server w)) /\
  rtc (lifecycle_step (en_limits e) (en_live_epoch e) (en_live_boot e))
    (en_state e) (en_state (sv_engine (sc_server w))) /\
  blen (sc_sessions w) <= sc_max_sessions w.
Proof.
  intros Hok Hl H0 Hmax Hrun.
  destruct (service_run_keeps _ _ Hrun (service_ok_Start options e Hok Hl H0 Hmax)) as [(Hok' & _ & Hlen & _) Hs].
  destruct (served_evolves _ _ Hok Hs) as (Hf & Hsteps & _). done.
Qed.

(** C29. Session identities are unique: in every reachable state of the service a session that is
    served holds an identity, every identity held (by a session served or closed) is above zero and
    below the counter, and two sessions that hold one hold different ones. *)
Theorem session_identities_unique options e w i j s1 r1 s2 r2 :
  engine_ok e -> so_limits options = en_limits e -> 0 <= so_max_sessions options ->
  so_max_sessions options + 1 < 2 ^ 64 -> service_run (Start options e) w ->
  sc_sessions w !! i = Some (s1, r1) -> sc_sessions w !! j = Some (s2, r2) ->
  (ss_phase s1 = SP_Live -> ss_session_id s1 <> 0) /\
  (ss_session_id s1 <> 0 ->
     0 < ss_session_id s1 < sv_next_session (sc_server w) /\
     (ss_session_id s2 = ss_session_id s1 -> i = j)).
Proof.
  intros Hok Hl H0 Hmax Hrun Hi Hj.
  destruct (service_run_keeps _ _ Hrun (service_ok_Start options e Hok Hl H0 Hmax))
    as [(_ & _ & _ & _ & H1 & Hperm & Hall) _].
  pose proof (proj1 (Forall_lookup _ _) Hall _ _ Hi) as Hs. unfold session_ok in Hs. cbn [fst] in Hs.
  split; [intros Hp; by rewrite Hp in Hs|]. intros Hid. split.
  - assert (ss_session_id s1 ∈ session_ids (sc_sessions w)) as Hin.
    { apply list_elem_of_filter. split; [done|].
      by eapply (list_elem_of_fmap_2 (fun x => ss_session_id x.1) _ (s1, r1)), list_elem_of_lookup_2. }
    rewrite Hperm in Hin. apply elem_of_seqZ in Hin. lia.
  - intros Heq. eapply (NoDup_filter_inj (fun x => ss_session_id x.1)); [|exact Hi|exact Hj|done|done].
    change (NoDup (session_ids (sc_sessions w))). rewrite Hperm. apply NoDup_seqZ.
Qed.

(** C9. A session acts only under its own identity: when the turn of a session changes the
    engine, the frame read from that session's connection is a request that carries the
    session's identity, the next sequence number, the boot identity of its handshake and the
    live epoch; it is answered by one response under the session's identity, and the same
    frame delivered again changes nothing. *)
Theorem session_acts_under_its_identity host between send_ok events i w w' sent rest :
  serve_session host between send_ok events i w = (w', sent, rest) ->
  sv_engine (sc_server w') <> sv_engine (sc_server w) ->
  exists s r outcome request s' r' response,
    sc_sessions w !! i = Some (s, r) /\ (ReceiveFrame r events).1.1 = Some outcome /\
    accepted_request outcome s request /\ wq_client_boot request = ss_client_boot s /\
    wq_epoch request = Engine_epoch (sv_engine (sc_server w)) /\
    sent = Some (MakeHeader WM_Response (ss_session_id s) (ss_outgoing_sequence s), EncodeResponse response) /\
    sc_sessions w' !! i = Some (s', r') /\
    forall host' between' send_ok' server,
      sv_engine (session_turn host' between' send_ok' outcome server s').1.1 = sv_engine server.
Proof.
  intros Hserve Hne. unfold serve_session in Hserve.
  destruct (sc_sessions w !! i) as [[s r]|] eqn:Ei; [|by injection Hserve as <- _ _].
  destruct (serve_events _ _ _ _ _ _ _) as [[[[server' s'] r'] sent'] rest'] eqn:Ee.
  injection Hserve as <- <- _. cbn [sc_server sc_sessions] in *. unfold serve_events in Ee.
  destruct (bool_decide _); [by injection Ee as <- _ _ _ _|].
  destruct (ReceiveFrame r events) as [[[outcome|] r1] rest1] eqn:Er; [|by injection Ee as <- _ _ _ _].
  destruct (session_turn _ _ _ outcome _ _) as [[server1 s1] sent1] eqn:Et. injection Ee as -> -> -> -> _.
  destruct (session_turn_engine _ _ _ _ _ _ _ _ _ Et) as [|(request & Hacc & He & Hinc & Hid & response & Hsent)];
    [done|].
  rewrite He in Hne. destruct (Handle_guards _ _ _ _ _ _ Hne) as [Hboot Hepoch].
  exists s, r, outcome, request, s', r', response. rewrite list_lookup_insert_eq, Er by (by eapply lookup_lt_Some).
  do 7 (split; [done|]). intros host' between' send_ok' server.
  destruct (session_turn host' between' send_ok' outcome server s') as [[server2 s2] sent2] eqn:Et2.
  destruct (session_turn_engine _ _ _ _ _ _ _ _ _ Et2) as [|(request2 & (_ & h2 & p2 & Ho2 & _ & Hs2 & _) & _)]; [done|].
  destruct Hacc as (_ & h1 & p1 & -> & _ & Hs1 & _). injection Ho2 as -> ->.
  rewrite Hs1, Hinc in Hs2. symmetry in Hs2. by apply wrap_succ_neq in Hs2.
Qed.

(** ** A concrete session: a client connects, shakes hands and dispatches the plan *)

Definition example_service_options : ServerOptions := mkServerOptions default_limits 64 false.
Definition example_client : bytes := repeat Byte.x07 16.
Definition example_hello : bytes := Eval vm_compute in
  EncodeFrame (MakeHeader WM_Hello 0 1) (EncodeHello example_client (B "nonce")).
Definition example_dispatch : WireRequest :=
  mkWireRequest WO_Dispatch example_client (Engine_epoch example_engine3)
    (finish ((PutBytes (pr_scope example_request) ;+ PutI64 1700000000040 ;+ PutBytes []) writer_empty)).
Definition example_dispatch_frame : bytes := Eval vm_compute in
  EncodeFrame (MakeHeader WM_Request 1 2) (EncodeRequest example_dispatch).

Definition service0 : Service := Eval vm_compute in accept_connection true (Start example_service_options example_engine3).
Definition service1 : Service := Eval vm_compute in (serve_session example_host id true [NE_Data example_hello] 0 service0).1.1.
Abbreviation turn2 :=
  (serve_session example_host id true [NE_NotReady; NE_Data example_dispatch_frame] 0 service1) (only parsing).
Definition service2 : Service := Eval vm_compute in turn2.1.1.

Lemma triple_eta {A1 A2 A3} (x : A1 * A2 * A3) : x = (x.1.1, x.1.2, x.2).
Proof. by destruct x as [[? ?] ?]. Qed.

Lemma example_room e1 :
  same_frame example_engine3 e1 -> en_state e1 = en_state example_engine3 ->
  served e1 (id e1) /\ attempts_room (id e1).
Proof.
  intros (H & _) Hs. split; [apply rtc_refl|]. unfold attempts_room, id, en_limits. rewrite Hs, H.
  vm_compute. reflexivity.
Qed.

Lemma service1_engine : sv_engine (sc_server service1) = example_engine3.
Proof. vm_compute. reflexivity. Qed.

Lemma service1_read : (serve_session example_host id true [NE_Data example_hello] 0 service0).2 = [].
Proof. vm_compute. reflexivity. Qed.

Lemma service2_read : turn2.2 = [].
Proof. vm_compute. reflexivity. Qed.

Lemma example_turn host send_ok events i w :
  sv_engine (sc_server w) = example_engine3 -> host_typed host = true ->
  (serve_session host id send_ok events i w).2 = [] ->
  service_step w (serve_session host id send_ok events i w).1.1.
Proof.
  intros He Hh Hr. destruct (serve_session host id send_ok events i w) as [[w' sent] rest] eqn:E.
  cbn in Hr. subst rest. cbn [fst]. eapply SS_turn; [exact Hh|done| |exact E]. rewrite He. exact example_room.
Qed.

Lemma service0_engine : sv_engine (sc_server service0) = example_engine3.
Proof. vm_compute. reflexivity. Qed.

Lemma example_step0 : service_step (Start example_service_options example_engine3) service0.
Proof. exact (SS_accept (Start example_service_options example_engine3) true eq_refl). Qed.

Lemma example_step1 : service_step service0 service1.
Proof. exact (example_turn example_host true [NE_Data example_hello] 0 service0 service0_engine eq_refl service1_read). Qed.

Lemma example_step2 : service_step service1 service2.
Proof. exact (example_turn example_host true
  [NE_NotReady; NE_Data example_dispatch_frame] 0 service1 service1_engine eq_refl service2_read). Qed.

Lemma example_service_run : service_run (Start example_service_options example_engine3) service2.
Proof.
  exact (rtc_l _ _ _ _ example_step0 (rtc_l _ _ _ _ example_step1 (rtc_once _ _ example_step2))).
Qed.

Lemma example_limits : so_limits example_service_options = en_limits example_engine3.
Proof. vm_compute. reflexivity. Qed.

Lemma service_refines_lifecycle_witness :
  engine_ok (sv_engine (sc_server service2)) /\
  map at_state (ds_attempts (en_state (sv_engine (sc_server service2)))).*2 = [AS_Dispatched].
Proof.
  split; [|vm_compute; reflexivity].
  refine (proj1 (service_refines_lifecycle example_service_options example_engine3 service2
    example_engine3_ok example_limits _ _ example_service_run)).
  - cbn. lia.
  - cbn. lia.
Defined.

Definition session2 : SessionState * FrameReader := Eval vm_compute in
  default (session_new, reader_for 0) (sc_sessions service2 !! 0%nat).

Lemma service2_session : sc_sessions service2 !! 0%nat = Some (session2.1, session2.2).
Proof. vm_compute. reflexivity. Qed.

Lemma session2_live : ss_phase session2.1 = SP_Live.
Proof. vm_compute. reflexivity. Qed.

Lemma session_identities_unique_witness :
  0 < ss_session_id session2.1 < sv_next_session (sc_server service2).
Proof.
  destruct (session_identities_unique example_service_options example_engine3 service2 0 0
    session2.1 session2.2 session2.1 session2.2 example_engine3_ok example_limits) as [H1 H2].
  - cbn. lia.
  - cbn. lia.
  - exact example_service_run.
  - exact service2_session.
  - exact service2_session.
  - exact (proj1 (H2 (H1 session2_live))).
Defined.

Lemma service2_acts : sv_engine (sc_server service2) <> sv_engine (sc_server service1).
Proof.
  intros H. apply (f_equal (fun e => length (ds_attempts (en_state e)))) in H.
  vm_compute in H. discriminate H.
Qed.

Lemma session_acts_under_its_identity_witness :
  exists s r outcome request,
    sc_sessions service1 !! 0%nat = Some (s, r) /\ accepted_request outcome s request /\
    wq_client_boot request = ss_client_boot s.
Proof.
  destruct (session_acts_under_its_identity example_host id true [NE_NotReady; NE_Data example_dispatch_frame]
    0 service1 service2 turn2.1.2 turn2.2) as (s & r & outcome & request & s' & r' & response & H1 & _ & H2 & H3 & _).
  - exact (triple_eta turn2).
  - exact service2_acts.
  - exists s, r, outcome, request. split; [exact H1|]. split; [exact H2|exact H3].
Defined.
