(* ===== verification/Client.v ===== *)
(** * The client (client.cpp, the client half of server.hpp)

    One request and one response at a time over a connection.  The socket calls are arguments:
    the status of a send, and the events that arrive after it.  A call is [None] while its
    thread is still waiting for the answer.  The theorems join the client to a session of the
    service: what a caller gets is what the request handler answered. *)

From Stdlib Require Import ZArith Lia.
From stdpp Require Import prelude.
From S2P Require Import Prelude OrdMap Hash Status Identity Canonical Value Policy Document Drift.
From S2P Require Import Authority Plan Lineage Journal Snapshot StoreState Store Engine Planner.
From S2P Require Import Lifecycle EngineRuns EngineSafety Wire WireOps Render Server.
Local Open Scope Z_scope.

(** Models [ReconciliationClient], include/summon/fabric_reconciliation/server.hpp:83-139, with
    whether a socket is held in place of the socket. *)
Record Client := mkClient {
  cl_connected : bool;
  cl_session_id : Z;
  cl_sequence : Z;
  cl_server_epoch : Z;
  cl_server_boot : bytes;
  cl_server_store : bytes;
  cl_client_boot : bytes;
  cl_rehandshakes : Z;
  cl_limits : RuntimeLimits
}.

Definition client_failure (code : StatusCode) (reason : Z) (detail : bytes) : Status :=
  mkStatus code reason detail.
Definition not_connected : Status :=
  client_failure SC_PreconditionFailed RC_SessionClosed (B "client is not connected").

(** Models [ReconciliationClient::Close], src/client.cpp:74-90. *)
Definition Client_Close (c : Client) : Client :=
  mkClient false 0 0 (cl_server_epoch c) (cl_server_boot c) (cl_server_store c) (cl_client_boot c)
    (cl_rehandshakes c) (cl_limits c).

Definition client_reader (c : Client) : FrameReader :=
  reader_for (wrap 32 (max_wire_payload_bytes (cl_limits c))).

(** Models [ReconciliationClient::ReceiveOne], src/client.cpp:92-125: the loop of the session,
    where every end but a frame is a failure. *)
Definition ReceiveOne (r : FrameReader) (events : list NetEvent)
  : option (option (FrameHeader * bytes) * list NetEvent) :=
  match ReceiveFrame r events with
  | (None, _, _) => None
  | (Some (RO_Frame header payload), _, rest) => Some (Some (header, payload), rest)
  | (Some _, _, rest) => Some (None, rest)
  end.

(** Models [ReconciliationClient::Handshake], src/client.cpp:155-193; [nonce] is what [MakeNonce]
    drew. *)
Definition Handshake (nonce : bytes) (sent : Status) (events : list NetEvent) (c : Client)
  : option (Status * Client * list NetEvent) :=
  if negb (cl_connected c) then Some (not_connected, c, events)
  else if is_empty (EncodeHello (cl_client_boot c) nonce) then
    Some (client_failure SC_InternalError RC_SessionClosed (B "hello payload could not be encoded"), c, events)
  else if negb (Status_ok sent) then Some (sent, c, events)
  else
    match ReceiveOne (client_reader c) events with
    | None => None
    | Some (None, rest) =>
      Some (client_failure SC_Indeterminate RC_SessionClosed (B "service did not answer the handshake"), c, rest)
    | Some (Some (header, payload), rest) =>
      if negb (bool_decide (fh_type header = WM_Welcome)) then
        Some (client_failure SC_Rejected RC_FrameTypeUnknown (B "service did not send a welcome frame"), c, rest)
      else
        match DecodeWelcome payload with
        | None => Some (client_failure SC_Rejected RC_FrameTypeUnknown (B "welcome payload failed decoding"), c, rest)
        | Some w =>
          Some (Status_Ok, mkClient true (we_session_id w) 1 (we_epoch w) (we_server_boot w) (we_store w)
                  (cl_client_boot c) (cl_rehandshakes c) (cl_limits c), rest)
        end
    end.

(** What one connection attempt met: the status of connecting, of creating the wake channel
    and of sending the hello, the nonce drawn, and what then arrived. *)
Record Dial := mkDial {
  dl_connected : Status;
  dl_wake : Status;
  dl_nonce : bytes;
  dl_sent : Status;
  dl_events : list NetEvent
}.

Definition client_new (boot : bytes) (limits : RuntimeLimits) : Client :=
  mkClient false 0 0 0 BootId_default (repeat Byte.x00 16) boot 0 limits.

Definition attach (c : Client) : Client :=
  mkClient true (cl_session_id c) (cl_sequence c) (cl_server_epoch c) (cl_server_boot c)
    (cl_server_store c) (cl_client_boot c) (cl_rehandshakes c) (cl_limits c).

(** Models [ReconciliationClient::Connect], src/client.cpp:127-153: a client only when connected. *)
Definition Client_Connect (boot : bytes) (limits : RuntimeLimits) (d : Dial)
  : option (Result Client * list NetEvent) :=
  if negb (Status_ok (dl_connected d)) then Some (Failed (dl_connected d), dl_events d)
  else if negb (Status_ok (dl_wake d)) then Some (Failed (dl_wake d), dl_events d)
  else
    match Handshake (dl_nonce d) (dl_sent d) (dl_events d) (attach (client_new boot limits)) with
    | None => None
    | Some (status, c, rest) => Some (if Status_ok status then Value c else Failed status, rest)
    end.

(** The frame [Exchange] sends. *)
Definition exchange_frame (type : WireMessageType) (c : Client) : FrameHeader :=
  MakeHeader type (cl_session_id c) (wrap 64 (cl_sequence c + 1)).

Definition next_sequence (c : Client) : Client :=
  mkClient (cl_connected c) (cl_session_id c) (wrap 64 (cl_sequence c + 1)) (cl_server_epoch c)
    (cl_server_boot c) (cl_server_store c) (cl_client_boot c) (cl_rehandshakes c) (cl_limits c).

(** Models [ReconciliationClient::Exchange], src/client.cpp:195-220, after the frame was handed to
    the socket. *)
Definition Exchange (sent : Status) (events : list NetEvent) (c : Client)
  : option (Result (FrameHeader * bytes) * Client * list NetEvent) :=
  if negb (cl_connected c) then Some (Failed not_connected, c, events)
  else if negb (Status_ok sent) then Some (Failed sent, c, events)
  else
    let c := next_sequence c in
    match ReceiveOne (client_reader c) events with
    | None => None
    | Some (None, rest) =>
      Some (Failed (client_failure SC_Indeterminate RC_SessionClosed (B "service did not answer the request")), c, rest)
    | Some (Some frame, rest) => Some (Value frame, c, rest)
    end.

(** The request [Call] makes. *)
Definition call_request (operation : WireOperation) (body : bytes) (c : Client) : WireRequest :=
  mkWireRequest operation (cl_client_boot c) (cl_server_epoch c) body.

(** How one round of [Call] ends: with a result, or with the epoch refused. *)
Inductive CallStep := CS_Done (result : Result bytes) | CS_Stale.

Definition rejected_frame (detail : bytes) : CallStep :=
  CS_Done (Failed (client_failure SC_Rejected RC_FrameTypeUnknown detail)).

(** Models [ReconciliationClient::Call], src/client.cpp:246-292: what is made of the frame that
    answered. *)
Definition call_answer (first : bool) (header : FrameHeader) (payload : bytes) : CallStep :=
  if bool_decide (fh_type header = WM_Error) then
    match DecodeResponse payload with
    | None => rejected_frame (B "error payload failed decoding")
    | Some error =>
      if (rs_reason error =? RC_SessionEpochMismatch) && first then CS_Stale
      else CS_Done (Failed (mkStatus (rs_code error) (rs_reason error) (rs_detail error)))
    end
  else if negb (bool_decide (fh_type header = WM_Response)) then
    rejected_frame (B "service sent an unexpected frame type")
  else
    match DecodeResponse payload with
    | None => rejected_frame (B "response payload failed decoding")
    | Some decoded =>
      if negb (bool_decide (rs_code decoded = SC_Ok)) then
        CS_Done (Failed (mkStatus (rs_code decoded) (rs_reason decoded) (rs_detail decoded)))
      else CS_Done (Value (rs_body decoded))
    end.

(** Models [ReconciliationClient::Call], src/client.cpp:222-292: one round. *)
Definition call_round (first : bool) (operation : WireOperation) (body : bytes) (sent : Status)
    (events : list NetEvent) (c : Client) : option (CallStep * Client * list NetEvent) :=
  if negb (cl_connected c) then Some (CS_Done (Failed not_connected), c, events)
  else if is_empty (EncodeRequest (call_request operation body c)) then
    Some (CS_Done (Failed (client_failure SC_Rejected RC_UnsupportedInput
            (B "request body exceeds the encodable bound"))), c, events)
  else
    match Exchange sent events c with
    | None => None
    | Some (Failed status, c, rest) => Some (CS_Done (Failed status), c, rest)
    | Some (Value (header, payload), c, rest) => Some (call_answer first header payload, c, rest)
    end.

Definition count_rehandshake (c : Client) : Client :=
  mkClient (cl_connected c) (cl_session_id c) (cl_sequence c) (cl_server_epoch c) (cl_server_boot c)
    (cl_server_store c) (cl_client_boot c) (wrap 64 (cl_rehandshakes c + 1)) (cl_limits c).

(** Models [ReconciliationClient::Call], src/client.cpp:255-277: the reconnection after a stale
    epoch. *)
Definition reconnect (d : Dial) (c : Client) : option (Status * Client * list NetEvent) :=
  let c := Client_Close c in
  if negb (Status_ok (dl_connected d)) then Some (dl_connected d, c, [])
  else if negb (Status_ok (dl_wake d)) then Some (dl_wake d, c, [])
  else
    match Handshake (dl_nonce d) (dl_sent d) (dl_events d) (attach c) with
    | None => None
    | Some (status, c, rest) => Some (status, if Status_ok status then count_rehandshake c else c, rest)
    end.

(** Models [ReconciliationClient::Call], src/client.cpp:222-295. The second round runs on the new
    connection. *)
Definition Call (operation : WireOperation) (body : bytes) (sent : Status) (events : list NetEvent)
    (d : Dial) (sent2 : Status) (c : Client) : option (Result bytes * Client * list NetEvent) :=
  match call_round true operation body sent events c with
  | None => None
  | Some (CS_Done result, c, rest) => Some (result, c, rest)
  | Some (CS_Stale, c, _) =>
    match reconnect d c with
    | None => None
    | Some (status, c, rest) =>
      if negb (Status_ok status) then Some (Failed status, c, rest)
      else
        match call_round false operation body sent2 rest c with
        | None => None
        | Some (CS_Done result, c, rest) => Some (result, c, rest)
        | Some (CS_Stale, c, rest) =>
          Some (Failed (client_failure SC_StaleAuthority RC_SessionEpochMismatch
            (B "service epoch changed twice while the request was in flight")), c, rest)
        end
    end
  end.

(** ** One frame over a connection *)

(** The header a reader reports: the one that was sent, with the length of its payload. *)
Definition received_header (h : FrameHeader) (payload : bytes) : FrameHeader :=
  mkFrameHeader (fh_protocol_version h) (fh_type h) (fh_flags h) (blen payload) (fh_session_id h)
    (fh_sequence h).

Lemma EncodeFrame_received h p : EncodeFrame (received_header h p) p = EncodeFrame h p.
Proof. done. Qed.

(** Bytes that arrive in reads of any size. *)
Definition arrives (chunks : list bytes) (image : bytes) : Prop :=
  concat chunks = image /\ Forall (fun chunk => chunk <> []) chunks.

Lemma ReceiveFrame_arrives max h p : forall chunks data,
  frame_ok max (h, p) = true -> data ++ concat chunks = EncodeFrame h p ->
  Forall (fun chunk => chunk <> []) chunks ->
  ReceiveFrame (reader_at max data) (map NE_Data chunks) = (Some (RO_Frame h p), reader_at max [], []).
Proof.
  induction chunks as [|chunk chunks IH]; intros data Hok Hdata Hne;
    pose proof (first_frame_encoded max h p [] Hok) as Hff; rewrite app_nil_r, <- Hdata in Hff.
  - cbn [concat] in Hff. rewrite app_nil_r in Hff. cbn [map ReceiveFrame fr_failed reader_at].
    by rewrite Next_first_frame, Hff.
  - apply Forall_cons in Hne as [Hc Hne]. cbn [concat] in *. rewrite app_assoc in Hff, Hdata.
    assert (first_frame max data = FS_Wait) as Hw.
    { pose proof (first_frame_app max data (chunk ++ concat chunks)) as Happ. rewrite app_assoc, Hff in Happ.
      destruct (first_frame max data) as [|status|h' p' rest]; [done..|].
      destruct Happ as [Happ _]. injection Happ as _ _ Hrest. by destruct rest, chunk. }
    cbn [map ReceiveFrame fr_failed reader_at]. rewrite Next_first_frame, Hw. cbn [fr_failed reader_at].
    unfold is_empty. rewrite bool_decide_eq_false_2 by done. rewrite Feed_at. by apply IH.
Qed.

(** A frame of the protocol, sent by one side and read by the other. *)
Lemma frame_arrives max chunks type id sequence payload :
  type <> WM_Invalid -> u64 id = true -> u64 sequence = true ->
  blen payload <= max -> blen payload < 2 ^ 32 ->
  arrives chunks (EncodeFrame (MakeHeader type id sequence) payload) ->
  ReceiveFrame (reader_at max []) (map NE_Data chunks) =
    (Some (RO_Frame (received_header (MakeHeader type id sequence) payload) payload), reader_at max [], []).
Proof.
  intros Ht Hi Hs Hm H32 [Hc Hne]. apply ReceiveFrame_arrives; [|by rewrite EncodeFrame_received|done].
  unfold frame_ok, received_header, MakeHeader. cbn [fh_protocol_version fh_type fh_flags fh_session_id fh_sequence fh_payload_len].
  rewrite Hi, Hs, bool_decide_eq_false_2, Z.eqb_refl, Z.eqb_refl by done. cbn [negb andb].
  change (u16 0) with true. cbn [andb]. apply andb_true_iff. split; [by apply Z.leb_le|by apply Z.ltb_lt].
Qed.

(** ** A client and its session *)

Definition session_max (server : Server) : Z := wrap 32 (max_wire_payload_bytes (sv_limits server)).
Definition client_max (c : Client) : Z := wrap 32 (max_wire_payload_bytes (cl_limits c)).

(** The client and the session agree on who they are and on what comes next, and nothing is
    left unread. *)
Definition paired (server : Server) (c : Client) (s : SessionState) (r : FrameReader) : Prop :=
  cl_connected c = true /\ ss_phase s = SP_Live /\ cl_session_id c = ss_session_id s /\
  u64 (ss_session_id s) = true /\ wrap 64 (cl_sequence c + 1) = ss_expected_incoming s /\
  u64 (ss_outgoing_sequence s) = true /\ cl_client_boot c = ss_client_boot s /\
  r = reader_at (session_max server) [].

(** What the caller makes of a response. *)
Definition call_result (response : Response) : Result bytes :=
  if bool_decide (rs_code response = SC_Ok) then Value (rs_body response)
  else Failed (mkStatus (rs_code response) (rs_reason response) (rs_detail response)).

(** The session after it answered a request. *)
Definition answered (s : SessionState) : SessionState := next_outgoing (count_request (next_incoming s)).

Lemma u64_wrap n : u64 (wrap 64 n) = true.
Proof.
  unfold wrap, in_unsigned. pose proof (Z.mod_pos_bound n (2 ^ 64) ltac:(lia)). bool_goal; lia.
Qed.

Lemma session_max_32 server : session_max server < 2 ^ 32.
Proof. unfold session_max, wrap. pose proof (Z.mod_pos_bound (max_wire_payload_bytes (sv_limits server)) (2 ^ 32) ltac:(lia)). lia. Qed.
Lemma client_max_32 c : client_max c < 2 ^ 32.
Proof. unfold client_max, wrap. pose proof (Z.mod_pos_bound (max_wire_payload_bytes (cl_limits c)) (2 ^ 32) ltac:(lia)). lia. Qed.

Lemma paired_answered server e c s r :
  paired server c s r -> paired (with_engine e server) (next_sequence c) (answered s) r.
Proof.
  intros (H1 & H2 & H3 & H4 & H5 & H6 & H7 & H8). unfold paired, answered. cbn.
  rewrite H5. split_and!; try done. apply u64_wrap.
Qed.

Lemma request_roundtrip q :
  request_wf q = true -> EncodeRequest q <> [] -> DecodeRequest (EncodeRequest q) = Some q.
Proof. intros H. by apply (finish_roundtrip _ _ _ _ (writes_request q ltac:(done))), decodes_request. Qed.
Lemma response_roundtrip r :
  response_wf r = true -> EncodeResponse r <> [] -> DecodeResponse (EncodeResponse r) = Some r.
Proof. intros H. by apply (finish_roundtrip _ _ _ _ (writes_response r ltac:(done))), decodes_response. Qed.

(** The session's side of a call. *)
Lemma serve_call host between server c s r op body up response e :
  paired server c s r -> request_wf (call_request op body c) = true ->
  EncodeRequest (call_request op body c) <> [] ->
  blen (EncodeRequest (call_request op body c)) <= session_max server ->
  arrives up (EncodeFrame (exchange_frame WM_Request c) (EncodeRequest (call_request op body c))) ->
  Handle host (sv_limits server) between (ss_client_boot s) (call_request op body c) (sv_engine server)
    = (response, e) ->
  serve_events host between true (map NE_Data up) server s r =
    (with_engine e server, answered s, r,
     Some (MakeHeader WM_Response (ss_session_id s) (ss_outgoing_sequence s), EncodeResponse response), []).
Proof.
  intros (H1 & H2 & H3 & H4 & H5 & H6 & H7 & ->) Hwf Hne Hmax Hup Hh.
  unfold serve_events. rewrite H2, bool_decide_eq_false_2 by done.
  pose proof (session_max_32 server). unfold exchange_frame in Hup.
  rewrite (frame_arrives (session_max server) up WM_Request (cl_session_id c) (wrap 64 (cl_sequence c + 1))
    (EncodeRequest (call_request op body c))); [|done|by rewrite H3|apply u64_wrap|done|lia|done].
  unfold session_turn. rewrite H2. unfold live_turn, received_header, MakeHeader. cbv zeta.
  cbn [fh_session_id fh_type fh_sequence]. rewrite H3, Z.eqb_refl, H5, Z.eqb_refl.
  rewrite !bool_decide_eq_false_2, bool_decide_eq_true_2 by done. cbn [negb].
  rewrite request_roundtrip by done. cbn [ss_client_boot count_request next_incoming]. by rewrite Hh.
Qed.

(** The caller's side. *)
Lemma Call_answered server c s r op body down response d sent2 :
  paired server c s r -> EncodeRequest (call_request op body c) <> [] ->
  response_wf response = true -> EncodeResponse response <> [] ->
  blen (EncodeResponse response) <= client_max c ->
  arrives down (EncodeFrame (MakeHeader WM_Response (ss_session_id s) (ss_outgoing_sequence s))
                 (EncodeResponse response)) ->
  Call op body Status_Ok (map NE_Data down) d sent2 c = Some (call_result response, next_sequence c, []).
Proof.
  intros (H1 & H2 & H3 & H4 & H5 & H6 & H7 & ->) Hreq Hwf Hne Hmax Hdown.
  unfold Call, call_round, Exchange. rewrite H1. unfold is_empty. rewrite bool_decide_eq_false_2 by done.
  cbn [negb Status_ok]. unfold ReceiveOne, client_reader. cbv zeta.
  pose proof (client_max_32 c).
  change (reader_for (wrap 32 (max_wire_payload_bytes (cl_limits (next_sequence c))))) with (reader_at (client_max c) []).
  change (Status_ok Status_Ok) with true. cbn [negb].
  rewrite (frame_arrives (client_max c) down WM_Response (ss_session_id s) (ss_outgoing_sequence s)
    (EncodeResponse response)); [|done..|lia|done].
  unfold call_answer, received_header, MakeHeader. cbn [fh_type].
  rewrite bool_decide_eq_false_2, bool_decide_eq_true_2 by done. cbn [negb].
  rewrite response_roundtrip by done. unfold call_result. by destruct (bool_decide _).
Qed.

(** What the service answers a handshake with. *)
Definition welcome_of (server : Server) (nonce : bytes) : Welcome :=
  mkWelcome kWireProtocolVersion (sv_next_session server) (Engine_epoch (sv_engine server))
    (Engine_boot (sv_engine server)) (Engine_store_id (sv_engine server)) nonce (session_max server).

Definition greeted (server : Server) (boot : bytes) : SessionState :=
  mkSession SP_Live (sv_next_session server) boot (Engine_epoch (sv_engine server)) 0 2 1.

Definition connected_client (server : Server) (boot : bytes) (limits : RuntimeLimits) : Client :=
  mkClient true (sv_next_session server) 1 (Engine_epoch (sv_engine server)) (Engine_boot (sv_engine server))
    (Engine_store_id (sv_engine server)) boot 0 limits.

Lemma hello_roundtrip boot nonce :
  blen boot = 16 -> blen nonce <= kMaxCanonicalBytes -> EncodeHello boot nonce <> [] ->
  DecodeHello (EncodeHello boot nonce) = Some (boot, nonce).
Proof. intros H1 H2. by apply (finish_roundtrip _ _ _ _ (writes_hello boot nonce)), decodes_hello. Qed.
Lemma welcome_roundtrip w :
  welcome_wf w = true -> EncodeWelcome w <> [] -> DecodeWelcome (EncodeWelcome w) = Some w.
Proof. intros H. by apply (finish_roundtrip _ _ _ _ (writes_welcome w ltac:(done))), decodes_welcome. Qed.

Lemma serve_hello host between server boot nonce up :
  blen boot = 16 -> blen nonce <= kMaxCanonicalBytes -> EncodeHello boot nonce <> [] ->
  EncodeWelcome (welcome_of server nonce) <> [] ->
  blen (EncodeHello boot nonce) <= session_max server ->
  arrives up (EncodeFrame (MakeHeader WM_Hello 0 1) (EncodeHello boot nonce)) ->
  serve_events host between true (map NE_Data up) server session_new (reader_for (session_max server)) =
    (take_session_id server, greeted server boot, reader_for (session_max server),
     Some (MakeHeader WM_Welcome 0 1, EncodeWelcome (welcome_of server nonce)), []).
Proof.
  intros Hb Hn Hne Hw Hmax Hup. pose proof (session_max_32 server). unfold serve_events.
  cbn [ss_phase session_new]. rewrite bool_decide_eq_false_2 by done.
  change (reader_for (session_max server)) with (reader_at (session_max server) []).
  rewrite (frame_arrives (session_max server) up WM_Hello 0 1 (EncodeHello boot nonce)); [|done..|lia|done].
  unfold session_turn, handshake_turn. cbn [ss_phase session_new ss_expected_incoming fh_type fh_sequence fh_session_id
    received_header MakeHeader]. rewrite bool_decide_eq_true_2 by done. cbn [negb orb Z.eqb Pos.eqb].
  rewrite hello_roundtrip by done. cbv zeta. cbn [sv_limits take_session_id].
  unfold is_empty. fold (session_max server). fold (welcome_of server nonce).
  by rewrite bool_decide_eq_false_2 by done.
Qed.

Lemma Connect_greeted server boot nonce limits down :
  EncodeHello boot nonce <> [] -> EncodeWelcome (welcome_of server nonce) <> [] ->
  welcome_wf (welcome_of server nonce) = true ->
  blen (EncodeWelcome (welcome_of server nonce)) <= wrap 32 (max_wire_payload_bytes limits) ->
  arrives down (EncodeFrame (MakeHeader WM_Welcome 0 1) (EncodeWelcome (welcome_of server nonce))) ->
  Client_Connect boot limits (mkDial Status_Ok Status_Ok nonce Status_Ok (map NE_Data down)) =
    Some (Value (connected_client server boot limits), []).
Proof.
  intros Hh Hw Hwf Hmax Hdown. unfold Client_Connect. cbn [dl_connected dl_wake dl_nonce dl_sent dl_events].
  change (Status_ok Status_Ok) with true. cbn [negb]. unfold Handshake, ReceiveOne, client_reader.
  cbn [attach client_new cl_connected cl_client_boot cl_limits negb].
  unfold is_empty. rewrite bool_decide_eq_false_2 by done.
  change (Status_ok Status_Ok) with true. cbn [negb].
  pose proof (client_max_32 (client_new boot limits)) as H32. unfold client_max in H32. cbn [cl_limits client_new] in H32.
  set (max := wrap 32 _) in *. change (reader_for max) with (reader_at max []).
  rewrite (frame_arrives max down WM_Welcome 0 1 (EncodeWelcome (welcome_of server nonce))); [|done..|lia|done].
  cbn [received_header MakeHeader fh_type]. rewrite bool_decide_eq_true_2 by done. cbn [negb].
  by rewrite welcome_roundtrip by done.
Qed.

(** ** Theorems *)

(** C30. A handshake pairs client and session: the hello of a connecting client, delivered to a
    freshly accepted session in reads of any size, is answered by one welcome; delivered back
    in reads of any size it makes [Connect] succeed, with the session's identity, the
    service's epoch, boot identity and store, and with both sides agreeing on the next frame. *)
Theorem connect_pairs host between server boot nonce limits up down :
  blen boot = 16 -> blen nonce <= kMaxCanonicalBytes -> welcome_wf (welcome_of server nonce) = true ->
  EncodeHello boot nonce <> [] -> EncodeWelcome (welcome_of server nonce) <> [] ->
  blen (EncodeHello boot nonce) <= session_max server ->
  blen (EncodeWelcome (welcome_of server nonce)) <= wrap 32 (max_wire_payload_bytes limits) ->
  arrives up (EncodeFrame (MakeHeader WM_Hello 0 1) (EncodeHello boot nonce)) ->
  arrives down (EncodeFrame (MakeHeader WM_Welcome 0 1) (EncodeWelcome (welcome_of server nonce))) ->
  exists c server' s r,
    serve_events host between true (map NE_Data up) server session_new (reader_for (session_max server)) =
      (server', s, r, Some (MakeHeader WM_Welcome 0 1, EncodeWelcome (welcome_of server nonce)), []) /\
    Client_Connect boot limits (mkDial Status_Ok Status_Ok nonce Status_Ok (map NE_Data down)) =
      Some (Value c, []) /\
    paired server' c s r /\ sv_engine server' = sv_engine server /\
    cl_session_id c = sv_next_session server /\ cl_server_epoch c = Engine_epoch (sv_engine server) /\
    cl_server_boot c = Engine_boot (sv_engine server) /\ cl_server_store c = Engine_store_id (sv_engine server).
Proof.
  intros Hb Hn Hwf Hh Hw Hm1 Hm2 Hup Hdown.
  exists (connected_client server boot limits), (take_session_id server), (greeted server boot),
    (reader_for (session_max server)).
  split; [by apply serve_hello|]. split; [by apply Connect_greeted|]. split; [|done].
  unfold welcome_wf in Hwf. bool_hyps. by split_and!.
Qed.

(** A request of the session's boot identity and of the live epoch is the operation it names. *)
Lemma Handle_current host limits between boot request e :
  wq_client_boot request = boot -> wq_epoch request = Engine_epoch e ->
  Handle host limits between boot request e = Operate host limits between (wq_operation request) (wq_body request) e.
Proof. intros Hb He. unfold Handle. by rewrite bool_decide_eq_true_2, He, Z.eqb_refl. Qed.

(** C10. A call is the operation's answer: for a client paired with a session, whose epoch is the
    service's, the request frame delivered in reads of any size makes the session run the operation
    of the call once on exactly its body, and the response frame delivered back makes [Call]
    return that answer: the body when the code is Ok, the status otherwise.  Client and session stay
    paired and no reconnection is attempted.  Request and response are of their types, can be
    encoded, and fit the bounds of the two readers. *)
Theorem call_is_handle host between server c s r op body up down response e d sent2 :
  cl_server_epoch c = Engine_epoch (sv_engine server) ->
  paired server c s r -> request_wf (call_request op body c) = true ->
  EncodeRequest (call_request op body c) <> [] ->
  blen (EncodeRequest (call_request op body c)) <= session_max server ->
  Operate host (sv_limits server) between op body (sv_engine server) = (response, e) ->
  response_wf response = true -> EncodeResponse response <> [] ->
  blen (EncodeResponse response) <= client_max c ->
  arrives up (EncodeFrame (exchange_frame WM_Request c) (EncodeRequest (call_request op body c))) ->
  arrives down (EncodeFrame (MakeHeader WM_Response (ss_session_id s) (ss_outgoing_sequence s))
                  (EncodeResponse response)) ->
  serve_events host between true (map NE_Data up) server s r =
    (with_engine e server, answered s, r,
     Some (MakeHeader WM_Response (ss_session_id s) (ss_outgoing_sequence s), EncodeResponse response), []) /\
  Call op body Status_Ok (map NE_Data down) d sent2 c = Some (call_result response, next_sequence c, []) /\
  paired (with_engine e server) (next_sequence c) (answered s) r /\
  cl_rehandshakes (next_sequence c) = cl_rehandshakes c.
Proof.
  intros Hep Hp Hwf Hne Hmax Hop Hrwf Hrne Hrmax Hup Hdown.
  assert (Handle host (sv_limits server) between (ss_client_boot s) (call_request op body c) (sv_engine server) = (response, e))
    as Hh by (rewrite <- Hop; apply Handle_current; [apply Hp|exact Hep]).
  split; [by eapply serve_call|]. split; [by eapply Call_answered|]. split; [by apply paired_answered|done].
Qed.

(** ** A concrete exchange *)

Definition example_server : Server := mkServer example_engine3 default_limits 0 1.
Definition caller_boot : bytes := repeat Byte.x07 16.
Definition caller : Client := connected_client example_server caller_boot default_limits.
Definition in_two (image : bytes) : list bytes := [take 10 image; drop 10 image].

Definition hello_image : bytes := Eval vm_compute in EncodeFrame (MakeHeader WM_Hello 0 1) (EncodeHello caller_boot (B "nonce")).
Definition welcome_image : bytes := Eval vm_compute in
  EncodeFrame (MakeHeader WM_Welcome 0 1) (EncodeWelcome (welcome_of example_server (B "nonce"))).

Definition example_reply : Response * Engine := Eval vm_compute in
  Handle (good_host 1700000000050) default_limits id caller_boot (call_request WO_KnownScopes [] caller) example_engine3.
Definition request_image : bytes := Eval vm_compute in
  EncodeFrame (exchange_frame WM_Request caller) (EncodeRequest (call_request WO_KnownScopes [] caller)).
Definition reply_image : bytes := Eval vm_compute in
  EncodeFrame (MakeHeader WM_Response 1 1) (EncodeResponse example_reply.1).

Lemma arrives_in_two image :
  (10 <? blen image) = true -> arrives (in_two image) image.
Proof.
  intros H. apply Z.ltb_lt in H. unfold blen in H. split.
  - unfold in_two. cbn [concat]. by rewrite app_nil_r, take_drop.
  - repeat constructor; intros E; apply (f_equal length) in E.
    + rewrite length_take in E. cbn [length] in E. lia.
    + rewrite length_drop in E. cbn [length] in E. lia.
Qed.

Lemma connect_pairs_witness :
  exists c server' s r,
    Client_Connect caller_boot default_limits
      (mkDial Status_Ok Status_Ok (B "nonce") Status_Ok (map NE_Data (in_two welcome_image))) = Some (Value c, []) /\
    paired server' c s r.
Proof.
  destruct (connect_pairs (good_host 1700000000050) id example_server caller_boot (B "nonce") default_limits
    (in_two hello_image) (in_two welcome_image)) as (c & server' & s & r & _ & H1 & H2 & _).
  - reflexivity.
  - vm_compute. discriminate.
  - vm_compute. reflexivity.
  - vm_compute. discriminate.
  - vm_compute. discriminate.
  - vm_compute. discriminate.
  - vm_compute. discriminate.
  - apply arrives_in_two. vm_compute. reflexivity.
  - apply arrives_in_two. vm_compute. reflexivity.
  - exists c, server', s, r. split; [exact H1|exact H2].
Defined.

Lemma caller_paired : paired example_server caller (greeted example_server caller_boot) (reader_for (session_max example_server)).
Proof. split_and!; vm_compute; reflexivity. Qed.

Lemma example_handled :
  Operate (good_host 1700000000050) (sv_limits example_server) id WO_KnownScopes []
    (sv_engine example_server) = (example_reply.1, example_reply.2).
Proof. vm_compute. reflexivity. Qed.

Lemma call_is_handle_witness :
  rs_body example_reply.1 = B "fabric/rack-7" ++ newline /\
  Call WO_KnownScopes [] Status_Ok (map NE_Data (in_two reply_image))
    (mkDial Status_Ok Status_Ok [] Status_Ok []) Status_Ok caller =
    Some (call_result example_reply.1, next_sequence caller, []).
Proof.
  split; [vm_compute; reflexivity|].
  apply (call_is_handle (good_host 1700000000050) id example_server caller (greeted example_server caller_boot)
    (reader_for (session_max example_server)) WO_KnownScopes [] (in_two request_image) (in_two reply_image)
    example_reply.1 example_reply.2).
  - vm_compute. reflexivity.
  - exact caller_paired.
  - vm_compute. reflexivity.
  - vm_compute. discriminate.
  - vm_compute. discriminate.
  - exact example_handled.
  - vm_compute. reflexivity.
  - vm_compute. discriminate.
  - vm_compute. discriminate.
  - apply arrives_in_two. vm_compute. reflexivity.
  - apply arrives_in_two. vm_compute. reflexivity.
Defined.
