(* ===== verification/Json.v ===== *)
(** * The json reader and printer (json.hpp, json.cpp)

    Values, the strict parser with its limits, and the two printers.  The text still to be read
    stands for the position of the parser; a double is Stdlib's binary64 [spec_float]. *)

From Stdlib Require Import ZArith Lia Floats.SpecFloat.
From stdpp Require Import prelude.
From S2P Require Import Prelude OrdMap Hash Status Identity Canonical Value Policy.
Local Open Scope Z_scope.

(** ** Values *)

(** Models [Value], include/summon/fabric_reconciliation/json.hpp:50-100. The fields a kind does
    not use are never read. *)
Inductive Json :=
| JNull
| JBoolean (input : bool)
| JInteger (input : Z)
| JUnsigned (input : Z)
| JReal (input : spec_float)
| JText (input : bytes)
| JArray (items : list Json)
| JObject (members : list (bytes * Json)).

(** Models [Kind], include/summon/fabric_reconciliation/json.hpp:39-48. *)
Inductive JsonKind := JK_Null | JK_Boolean | JK_Integer | JK_Unsigned | JK_Real | JK_Text | JK_Array | JK_Object.

#[export] Instance JsonKind_eq : EqDecision JsonKind.
Proof. solve_decision. Defined.

Definition json_kind (v : Json) : JsonKind :=
  match v with
  | JNull => JK_Null | JBoolean _ => JK_Boolean | JInteger _ => JK_Integer | JUnsigned _ => JK_Unsigned
  | JReal _ => JK_Real | JText _ => JK_Text | JArray _ => JK_Array | JObject _ => JK_Object
  end.

(** Models [Value::IsNull], include/summon/fabric_reconciliation/json.hpp:64-64. *)
Definition IsNull (v : Json) : bool := bool_decide (json_kind v = JK_Null).
(** Models [Value::IsObject], include/summon/fabric_reconciliation/json.hpp:65-65. *)
Definition IsObject (v : Json) : bool := bool_decide (json_kind v = JK_Object).
(** Models [Value::IsArray], include/summon/fabric_reconciliation/json.hpp:66-66. *)
Definition IsArray (v : Json) : bool := bool_decide (json_kind v = JK_Array).
(** Models [Value::IsText], include/summon/fabric_reconciliation/json.hpp:67-67. *)
Definition IsText (v : Json) : bool := bool_decide (json_kind v = JK_Text).
(** Models [Value::IsNumber], include/summon/fabric_reconciliation/json.hpp:68-70. *)
Definition IsNumber (v : Json) : bool :=
  bool_decide (json_kind v = JK_Integer) || bool_decide (json_kind v = JK_Unsigned) ||
  bool_decide (json_kind v = JK_Real).

(** ** Doubles *)

(** An integer as a double, rounded to nearest even. *)
Definition double_of_Z (n : Z) : spec_float := binary_normalize 53 1024 n 0 false.
(** The double nearest to a ratio of positive integers, with a sign. *)
Definition double_of_ratio (negative : bool) (n d : Z) : spec_float :=
  if n =? 0 then S754_zero negative
  else let '(m, e, l) := SFdiv_core_binary 53 1024 n 0 d 0 in binary_round_aux 53 1024 negative m e l.

Definition is_finite (f : spec_float) : bool :=
  match f with S754_zero _ | S754_finite _ _ _ => true | _ => false end.
(** The integer part of a double, towards zero. *)
Definition double_trunc (f : spec_float) : Z :=
  match f with
  | S754_finite s m e =>
    let n := if 0 <=? e then Z.pos m * 2 ^ e else Z.pos m / 2 ^ (- e) in if s then - n else n
  | _ => 0
  end.

(** ** Accessors *)

(** Models [Value::AsBool], src/json.cpp:605-610. *)
Definition AsBool (v : Json) (fallback : bool) : bool :=
  match v with JBoolean b => b | _ => fallback end.

(** Models [Value::AsInteger], src/json.cpp:612-632. The bound above, [9223372036854775807.0], is
    the double 2^63; [None] where the conversion of the double is undefined. *)
Definition AsInteger (v : Json) (fallback : Z) : option Z :=
  match v with
  | JInteger n => Some n
  | JUnsigned n => Some (if 2 ^ 63 - 1 <? n then fallback else n)
  | JReal f =>
    if negb (is_finite f) then Some fallback
    else if SFltb f (double_of_Z (- 2 ^ 63)) || SFltb (double_of_Z (2 ^ 63 - 1)) f then Some fallback
    else if i64 (double_trunc f) then Some (double_trunc f) else None
  | _ => Some fallback
  end.

(** Models [Value::AsUnsigned], src/json.cpp:634-651. *)
Definition AsUnsigned (v : Json) (fallback : Z) : option Z :=
  match v with
  | JUnsigned n => Some n
  | JInteger n => Some (if n <? 0 then fallback else n)
  | JReal f =>
    if negb (is_finite f) || SFltb f (S754_zero false) || SFltb (double_of_Z (2 ^ 64 - 1)) f then Some fallback
    else if u64 (double_trunc f) then Some (double_trunc f) else None
  | _ => Some fallback
  end.

(** Models [Value::AsReal], src/json.cpp:653-664. *)
Definition AsReal (v : Json) (fallback : spec_float) : spec_float :=
  match v with
  | JReal f => f
  | JInteger n | JUnsigned n => double_of_Z n
  | _ => fallback
  end.

(** Models [Value::AsText], src/json.cpp:666-671. *)
Definition AsText (v : Json) : bytes := match v with JText text => text | _ => [] end.

(** Models [Value::size], src/json.cpp:673-681. *)
Definition json_size (v : Json) : Z :=
  match v with JArray items => blen items | JObject members => blen members | _ => 0 end.

(** Models [Value::items], src/json.cpp:683-688. *)
Definition json_items (v : Json) : list Json := match v with JArray items => items | _ => [] end.

(** Models [Value::members], src/json.cpp:690-695. *)
Definition json_members (v : Json) : list (bytes * Json) :=
  match v with JObject members => members | _ => [] end.

Fixpoint find_member {A} (key : bytes) (members : list (bytes * A)) : option A :=
  match members with
  | [] => None
  | (name, value) :: members => if bool_decide (name = key) then Some value else find_member key members
  end.

(** Models [Value::Find], src/json.cpp:697-708. *)
Definition Find (v : Json) (key : bytes) : option Json := find_member key (json_members v).

(** Models [Value::Contains], src/json.cpp:710-710. *)
Definition Contains (v : Json) (key : bytes) : bool := bool_decide (is_Some (Find v key)).

Fixpoint set_member (key : bytes) (value : Json) (members : list (bytes * Json)) : list (bytes * Json) :=
  match members with
  | [] => [(key, value)]
  | (name, old) :: members =>
    if bool_decide (name = key) then (name, value) :: members else (name, old) :: set_member key value members
  end.

(** Models [Value::Set], src/json.cpp:712-724; a value that is not an object is left as it is. *)
Definition Set_ (v : Json) (key : bytes) (value : Json) : Json :=
  match v with JObject members => JObject (set_member key value members) | _ => v end.

(** Models [Value::Push], src/json.cpp:726-732. *)
Definition Push (v : Json) (value : Json) : Json :=
  match v with JArray items => JArray (items ++ [value]) | _ => v end.

(** ** The parser *)

(** Models [ParseLimits], include/summon/fabric_reconciliation/json.hpp:102-109. *)
Record ParseLimits := mkParseLimits {
  max_bytes : Z;
  max_depth : Z;
  max_items : Z;
  max_string_bytes : Z;
  max_object_members : Z;
  max_array_items : Z
}.

Definition default_parse_limits : ParseLimits :=
  mkParseLimits (16 * 1024 * 1024) 64 4000000 (1024 * 1024) 1000000 4000000.

(** Models [Reject], src/json.cpp:24-26. *)
Definition json_reject (reason : bytes) : Status := mkStatus SC_Rejected RC_None (B "json: " ++ reason).

(** Models [IsWhitespace], src/json.cpp:28-30. *)
Definition IsWhitespace (c : byte) : bool :=
  bool_decide (c = Byte.x20) || bool_decide (c = Byte.x09) || bool_decide (c = Byte.x0d) ||
  bool_decide (c = Byte.x0a).

(** Models [Parser::SkipWhitespace], src/json.cpp:55-59. *)
Fixpoint SkipWhitespace (text : bytes) : bytes :=
  match text with
  | c :: text' => if IsWhitespace c then SkipWhitespace text' else text
  | [] => []
  end.

Definition is_digit (c : byte) : bool := (48 <=? byte_to_Z c) && (byte_to_Z c <=? 57).
Definition digit_value (c : byte) : Z := byte_to_Z c - 48.

(** ** Strings *)

Definition byte_or (a b : Z) : byte := byte_of_Z (Z.lor a b).

(** Models [Parser::AppendCodePoint], src/json.cpp:208-232. *)
Definition AppendCodePoint (code_point : Z) : option bytes :=
  if code_point <=? 0x7f then Some [byte_of_Z code_point]
  else if code_point <=? 0x7ff then
    Some [byte_or 0xc0 (Z.shiftr code_point 6); byte_or 0x80 (Z.land code_point 0x3f)]
  else if code_point <=? 0xffff then
    Some [byte_or 0xe0 (Z.shiftr code_point 12); byte_or 0x80 (Z.land (Z.shiftr code_point 6) 0x3f);
          byte_or 0x80 (Z.land code_point 0x3f)]
  else if code_point <=? 0x10ffff then
    Some [byte_or 0xf0 (Z.shiftr code_point 18); byte_or 0x80 (Z.land (Z.shiftr code_point 12) 0x3f);
          byte_or 0x80 (Z.land (Z.shiftr code_point 6) 0x3f); byte_or 0x80 (Z.land code_point 0x3f)]
  else None.

Definition hex_nibble (c : byte) : option Z :=
  let z := byte_to_Z c in
  if (48 <=? z) && (z <=? 57) then Some (z - 48)
  else if (97 <=? z) && (z <=? 102) then Some (z - 97 + 10)
  else if (65 <=? z) && (z <=? 70) then Some (z - 65 + 10)
  else None.

Definition add_nibble (value : Z) (c : byte) : option Z :=
  match hex_nibble c with Some nibble => Some (Z.lor (Z.shiftl value 4) nibble) | None => None end.

(** Models [Parser::ParseHex4], src/json.cpp:234-256, on the four characters it reads. *)
Definition ParseHex4 (a b c d : byte) : option Z :=
  v ← add_nibble 0 a; v ← add_nibble v b; v ← add_nibble v c; add_nibble v d.

Definition simple_escape (c : byte) : option byte :=
  if bool_decide (c = Byte.x22) then Some Byte.x22
  else if bool_decide (c = Byte.x5c) then Some Byte.x5c
  else if bool_decide (c = Byte.x2f) then Some Byte.x2f
  else if bool_decide (c = Byte.x62) then Some Byte.x08
  else if bool_decide (c = Byte.x66) then Some Byte.x0c
  else if bool_decide (c = Byte.x6e) then Some Byte.x0a
  else if bool_decide (c = Byte.x72) then Some Byte.x0d
  else if bool_decide (c = Byte.x74) then Some Byte.x09
  else None.

Section Parser.
Variable limits : ParseLimits.

Definition too_long (result : bytes) : bool := max_string_bytes limits <? blen result.
Definition string_too_long : Status := json_reject (B "string exceeds max_string_bytes").

(** Models [Parser::ParseString], src/json.cpp:258-335, after the opening quote: the string and the
    text after its closing quote. *)
Fixpoint string_loop (text : bytes) (result : bytes) : Result (bytes * bytes) :=
  match text with
  | [] => Failed (json_reject (B "unterminated string"))
  | raw :: text =>
    if byte_to_Z raw <? 0x20 then Failed (json_reject (B "raw control character inside a string"))
    else if bool_decide (raw = Byte.x22) then Value (result, text)
    else if bool_decide (raw = Byte.x5c) then
      match text with
      | [] => Failed (json_reject (B "unterminated escape sequence"))
      | escape :: text =>
        match simple_escape escape with
        | Some c =>
          let result := result ++ [c] in
          if too_long result then Failed string_too_long else string_loop text result
        | None =>
          if negb (bool_decide (escape = Byte.x75)) then Failed (json_reject (B "invalid escape character"))
          else
            match text with
            | a :: b :: c :: d :: text =>
              match ParseHex4 a b c d with
              | None => Failed (json_reject (B "invalid hex digit in unicode escape"))
              | Some first =>
                if (0xd800 <=? first) && (first <=? 0xdbff) then
                  match text with
                  | s1 :: s2 :: text =>
                    if negb (bool_decide (s1 = Byte.x5c)) || negb (bool_decide (s2 = Byte.x75)) then
                      Failed (json_reject (B "high surrogate without a low surrogate"))
                    else
                      match text with
                      | a :: b :: c :: d :: text =>
                        match ParseHex4 a b c d with
                        | None => Failed (json_reject (B "invalid hex digit in unicode escape"))
                        | Some second =>
                          if (second <? 0xdc00) || (0xdfff <? second) then
                            Failed (json_reject (B "high surrogate followed by a non low surrogate"))
                          else
                            match AppendCodePoint (0x10000 + Z.shiftl (first - 0xd800) 10 + (second - 0xdc00)) with
                            | None => Failed (json_reject (B "code point out of range"))
                            | Some more =>
                              let result := result ++ more in
                              if too_long result then Failed string_too_long else string_loop text result
                            end
                        end
                      | _ => Failed (json_reject (B "truncated unicode escape"))
                      end
                  | _ => Failed (json_reject (B "high surrogate without a low surrogate"))
                  end
                else if (0xdc00 <=? first) && (first <=? 0xdfff) then
                  Failed (json_reject (B "lone low surrogate"))
                else
                  match AppendCodePoint first with
                  | None => Failed (json_reject (B "code point out of range"))
                  | Some more =>
                    let result := result ++ more in
                    if too_long result then Failed string_too_long else string_loop text result
                  end
              end
            | _ => Failed (json_reject (B "truncated unicode escape"))
            end
        end
      end
    else
      let result := result ++ [raw] in
      if too_long result then Failed string_too_long else string_loop text result
  end.

(** ** Numbers *)

(** The digits a text starts with, and the rest. *)
Fixpoint span_digits (text : bytes) : bytes * bytes :=
  match text with
  | c :: text' =>
    if is_digit c then let '(digits, rest) := span_digits text' in (c :: digits, rest) else ([], text)
  | [] => ([], [])
  end.

Fixpoint digits_value (acc : Z) (digits : bytes) : Z :=
  match digits with [] => acc | c :: digits => digits_value (10 * acc + digit_value c) digits end.

(** The integer part: [None] when there is none, an error on a leading zero. *)
Definition integer_part (text : bytes) : Result (bytes * bytes) :=
  match text with
  | c :: text' =>
    if bool_decide (c = Byte.x30) then
      match text' with
      | d :: _ => if is_digit d then Failed (json_reject (B "number has a leading zero"))
                  else Value ([c], text')
      | [] => Value ([c], text')
      end
    else if is_digit c then Value (span_digits text)
    else Failed (json_reject (B "number has no integer part"))
  | [] => Failed (json_reject (B "truncated number"))
  end.

(** A fraction, if one follows. *)
Definition fraction_part (text : bytes) : Result (option bytes * bytes) :=
  match text with
  | c :: text' =>
    if bool_decide (c = Byte.x2e) then
      let '(digits, rest) := span_digits text' in
      if is_empty digits then Failed (json_reject (B "fraction has no digits"))
      else Value (Some digits, rest)
    else Value (None, text)
  | [] => Value (None, [])
  end.

(** An exponent, if one follows, as a signed integer. *)
Definition exponent_part (text : bytes) : Result (option Z * bytes) :=
  match text with
  | c :: text' =>
    if bool_decide (c = Byte.x65) || bool_decide (c = Byte.x45) then
      let '(negative, text') :=
        match text' with
        | s :: text'' =>
          if bool_decide (s = Byte.x2d) then (true, text'')
          else if bool_decide (s = Byte.x2b) then (false, text'') else (false, text')
        | [] => (false, text')
        end in
      let '(digits, rest) := span_digits text' in
      if is_empty digits then Failed (json_reject (B "exponent has no digits"))
      else let n := digits_value 0 digits in Value (Some (if negative then - n else n), rest)
    else Value (None, text)
  | [] => Value (None, [])
  end.

(** [std::strtod] of the literal: the nearest double. *)
Definition strtod (negative : bool) (integer fraction : bytes) (exponent : Z) : spec_float :=
  let mantissa := digits_value 0 (integer ++ fraction) in
  let scale := exponent - blen fraction in
  if 0 <=? scale then double_of_ratio negative (mantissa * 10 ^ scale) 1
  else double_of_ratio negative mantissa (10 ^ (- scale)).

(** [errno] is ERANGE when a value that is not zero leaves the range of doubles or is rounded
    to zero (or to a subnormal, which is accepted). *)
Definition real_of (negative : bool) (integer fraction : bytes) (exponent : Z) : Result Json :=
  let value := strtod negative integer fraction exponent in
  let zero := match value with S754_zero _ => true | _ => false end in
  if negb (digits_value 0 (integer ++ fraction) =? 0) && (zero || negb (is_finite value)) then
    Failed (json_reject (B "real number is out of range"))
  else Value (JReal value).

(** An integer literal: signed when it fits, unsigned above. *)
Definition integer_of (negative : bool) (digits : bytes) : Result Json :=
  let n := digits_value 0 digits in
  if negative then
    if - n <? - 2 ^ 63 then Failed (json_reject (B "integer literal is out of range"))
    else Value (JInteger (- n))
  else if 2 ^ 64 - 1 <? n then Failed (json_reject (B "integer literal is out of range"))
  else if n <=? 2 ^ 63 - 1 then Value (JInteger n) else Value (JUnsigned n).

(** Models [Parser::ParseNumber], src/json.cpp:337-414. *)
Definition ParseNumber (text : bytes) : Result (Json * bytes) :=
  let '(negative, text) :=
    match text with
    | c :: text' => if bool_decide (c = Byte.x2d) then (true, text') else (false, text)
    | [] => (false, [])
    end in
  match integer_part text with
  | Failed status => Failed status
  | Value (digits, text) =>
    match fraction_part text with
    | Failed status => Failed status
    | Value (fraction, text) =>
      match exponent_part text with
      | Failed status => Failed status
      | Value (exponent, text) =>
        let value :=
          match fraction, exponent with
          | None, None => integer_of negative digits
          | _, _ => real_of negative digits (default [] fraction) (default 0 exponent)
          end in
        match value with Failed status => Failed status | Value v => Value (v, text) end
      end
    end
  end.

(** ** Values *)

(** The parser: the text still to be read, and the values counted so far. *)
Record Parser := mkParser { ps_text : bytes; ps_items : Z }.

(** [None] when the fuel does not cover the text. *)
Definition Parsed A := option (Result (A * Parser)).
Definition parse_fail {A} (reason : bytes) : Parsed A := Some (Failed (json_reject reason)).

(** Models [Parser::ParseLiteral], src/json.cpp:109-117. *)
Definition ParseLiteral (literal : bytes) (v : Json) (p : Parser) : Parsed Json :=
  if bool_decide (take (length literal) (ps_text p) = literal) then
    Some (Value (v, mkParser (drop (length literal) (ps_text p)) (ps_items p)))
  else parse_fail (B "invalid literal").

(** Models [Parser::ParseValue], src/json.cpp:69-206, with [Parser::ParseObject] and
    [Parser::ParseArray], which follow it: [parse_members] and [parse_items] are the loops of the
    last two, with the members and items read so far. *)
Fixpoint ParseValue (fuel : nat) (depth : Z) (p : Parser) {struct fuel} : Parsed Json :=
  match fuel with
  | O => None
  | S fuel =>
    if max_depth limits <? depth then parse_fail (B "depth exceeds max_depth")
    else if max_items limits <=? ps_items p then parse_fail (B "document exceeds max_items")
    else
      let items := ps_items p + 1 in
      match SkipWhitespace (ps_text p) with
      | [] => parse_fail (B "unexpected end of input")
      | c :: text =>
        if bool_decide (c = Byte.x7b) then
          let text := SkipWhitespace text in
          match text with
          | c' :: text' =>
            if bool_decide (c' = Byte.x7d) then Some (Value (JObject [], mkParser text' items))
            else parse_members fuel depth [] (mkParser text items)
          | [] => parse_members fuel depth [] (mkParser text items)
          end
        else if bool_decide (c = Byte.x5b) then
          let text := SkipWhitespace text in
          match text with
          | c' :: text' =>
            if bool_decide (c' = Byte.x5d) then Some (Value (JArray [], mkParser text' items))
            else parse_items fuel depth [] (mkParser text items)
          | [] => parse_items fuel depth [] (mkParser text items)
          end
        else if bool_decide (c = Byte.x22) then
          match string_loop text [] with
          | Failed status => Some (Failed status)
          | Value (s, rest) => Some (Value (JText s, mkParser rest items))
          end
        else if bool_decide (c = Byte.x74) then
          ParseLiteral (B "true") (JBoolean true) (mkParser (c :: text) items)
        else if bool_decide (c = Byte.x66) then
          ParseLiteral (B "false") (JBoolean false) (mkParser (c :: text) items)
        else if bool_decide (c = Byte.x6e) then
          ParseLiteral (B "null") JNull (mkParser (c :: text) items)
        else if bool_decide (c = Byte.x2d) || is_digit c then
          match ParseNumber (c :: text) with
          | Failed status => Some (Failed status)
          | Value (v, rest) => Some (Value (v, mkParser rest items))
          end
        else parse_fail (B "unexpected character where a value was expected")
      end
  end
with parse_members (fuel : nat) (depth : Z) (members : list (bytes * Json)) (p : Parser) {struct fuel}
  : Parsed Json :=
  match fuel with
  | O => None
  | S fuel =>
    match SkipWhitespace (ps_text p) with
    | q :: text =>
      if negb (bool_decide (q = Byte.x22)) then parse_fail (B "object key must be a string")
      else
        match string_loop text [] with
        | Failed status => Some (Failed status)
        | Value (key, rest) =>
          match SkipWhitespace rest with
          | colon :: text =>
            if negb (bool_decide (colon = Byte.x3a)) then parse_fail (B "object member is missing its colon")
            else
              match ParseValue fuel (depth + 1) (mkParser text (ps_items p)) with
              | None => None
              | Some (Failed status) => Some (Failed status)
              | Some (Value (value, p)) =>
                if max_object_members limits <=? blen members then
                  parse_fail (B "object exceeds max_object_members")
                else if Contains (JObject members) key then parse_fail (B "duplicate object key")
                else
                  let members := set_member key value members in
                  match SkipWhitespace (ps_text p) with
                  | [] => parse_fail (B "unterminated object")
                  | c :: text =>
                    if bool_decide (c = Byte.x2c) then parse_members fuel depth members (mkParser text (ps_items p))
                    else if bool_decide (c = Byte.x7d) then
                      Some (Value (JObject members, mkParser text (ps_items p)))
                    else parse_fail (B "expected a comma or a closing brace")
                  end
              end
          | [] => parse_fail (B "object member is missing its colon")
          end
        end
    | [] => parse_fail (B "object key must be a string")
    end
  end
with parse_items (fuel : nat) (depth : Z) (items : list Json) (p : Parser) {struct fuel} : Parsed Json :=
  match fuel with
  | O => None
  | S fuel =>
    match ParseValue fuel (depth + 1) p with
    | None => None
    | Some (Failed status) => Some (Failed status)
    | Some (Value (value, p)) =>
      if max_array_items limits <=? blen items then parse_fail (B "array exceeds max_array_items")
      else
        let items := items ++ [value] in
        match SkipWhitespace (ps_text p) with
        | [] => parse_fail (B "unterminated array")
        | c :: text =>
          if bool_decide (c = Byte.x2c) then parse_items fuel depth items (mkParser text (ps_items p))
          else if bool_decide (c = Byte.x5d) then
            Some (Value (JArray items, mkParser text (ps_items p)))
          else parse_fail (B "expected a comma or a closing bracket")
        end
    end
  end.

(** Twice the text and one more: a value takes one unit and at least one character, a loop one
    unit more. *)
Definition parse_fuel (text : bytes) : nat := 2 * length text + 1.

(** Models [Parser::Run], src/json.cpp:36-52. *)
Definition Run (text : bytes) : option (Result Json) :=
  if is_empty text then Some (Failed (json_reject (B "empty input")))
  else if max_bytes limits <? blen text then Some (Failed (json_reject (B "input exceeds max_bytes")))
  else
    match ParseValue (parse_fuel text) 0 (mkParser text 0) with
    | None => None
    | Some (Failed status) => Some (Failed status)
    | Some (Value (v, p)) =>
      if is_empty (SkipWhitespace (ps_text p)) then Some (Value v)
      else Some (Failed (json_reject (B "trailing content after the top-level value")))
    end.
End Parser.

(** ** The printer *)

(** Models [kDumpDepthLimit], src/json.cpp:22-22. *)
Definition kDumpDepthLimit : Z := 128.

(** Models [AppendEscaped], src/json.cpp:424-449, on one character. *)
Definition escape_char (c : byte) : bytes :=
  if bool_decide (c = Byte.x22) then [Byte.x5c; Byte.x22]
  else if bool_decide (c = Byte.x5c) then [Byte.x5c; Byte.x5c]
  else if bool_decide (c = Byte.x08) then [Byte.x5c; Byte.x62]
  else if bool_decide (c = Byte.x0c) then [Byte.x5c; Byte.x66]
  else if bool_decide (c = Byte.x0a) then [Byte.x5c; Byte.x6e]
  else if bool_decide (c = Byte.x0d) then [Byte.x5c; Byte.x72]
  else if bool_decide (c = Byte.x09) then [Byte.x5c; Byte.x74]
  else if byte_to_Z c <? 0x20 then
    [Byte.x5c; Byte.x75; Byte.x30; Byte.x30] ++ hex_byte c
  else [c].

(** Models [AppendEscaped], src/json.cpp:424-449. *)
Definition AppendEscaped (text : bytes) : bytes :=
  [Byte.x22] ++ concat (map escape_char text) ++ [Byte.x22].

(** [v / 10^x] of [n / d], rounded half to even at the last of 17 digits. *)
Definition round_ratio (n d : Z) : Z :=
  let q := n / d in let r := n mod d in
  if 2 * r <? d then q else if d <? 2 * r then q + 1 else if Z.even q then q else q + 1.

(** The decimal exponent and the 17 digits of a positive ratio: the exponent is estimated from
    the binary one and corrected by one. *)
Definition scaled (n d x : Z) : Z :=
  if 0 <=? x then round_ratio n (d * 10 ^ x) else round_ratio (n * 10 ^ (- x)) d.
Definition digits17 (n d : Z) : Z * Z :=
  let k := Z.log2 n - Z.log2 d in
  let x0 := (k * 30103) / 100000 - 1 in
  let above x := if 0 <=? x then d * 10 ^ x <=? n else d <=? n * 10 ^ (- x) in
  let x := if above (x0 + 2) then x0 + 2 else if above (x0 + 1) then x0 + 1 else x0 in
  let m := scaled n d (x - 16) in
  if m =? 10 ^ 17 then (x + 1, 10 ^ 16) else (x, m).

Fixpoint strip_zeros (digits : bytes) : bytes :=
  match digits with
  | [] => []
  | c :: digits =>
    let rest := strip_zeros digits in
    if is_empty rest && bool_decide (c = Byte.x30) then [] else c :: rest
  end.
Definition with_fraction (integer fraction : bytes) : bytes :=
  let fraction := strip_zeros fraction in
  if is_empty fraction then integer else integer ++ [Byte.x2e] ++ fraction.
Definition exponent_text (x : Z) : bytes :=
  let digits := to_string (Z.abs x) in
  [Byte.x65; if x <? 0 then Byte.x2d else Byte.x2b] ++
  (if Z.abs x <? 10 then [Byte.x30] else []) ++ digits.

(** [%.17g] of a positive ratio. *)
Definition print_ratio (n d : Z) : bytes :=
  let '(x, m) := digits17 n d in
  let digits := to_string m in
  if (-4 <=? x) && (x <? 17) then
    if 0 <=? x then with_fraction (take (Z.to_nat (x + 1)) digits) (drop (Z.to_nat (x + 1)) digits)
    else with_fraction [Byte.x30] (repeat Byte.x30 (Z.to_nat (- x - 1)) ++ digits)
  else with_fraction (take 1 digits) (drop 1 digits) ++ exponent_text x.

(** Models [AppendReal], src/json.cpp:459-463. *)
Definition AppendReal (f : spec_float) : bytes :=
  match f with
  | S754_zero s => if s then B "-0" else B "0"
  | S754_infinity s => if s then B "-inf" else B "inf"
  | S754_nan => B "nan"
  | S754_finite s m e =>
    (if s then [Byte.x2d] else []) ++
    (if 0 <=? e then print_ratio (Z.pos m * 2 ^ e) 1 else print_ratio (Z.pos m) (2 ^ (- e)))
  end.

(** Models [AppendIndent], src/json.cpp:467-473. *)
Definition AppendIndent (indent depth : Z) : bytes :=
  if indent <=? 0 then [] else [Byte.x0a] ++ repeat Byte.x20 (Z.to_nat (indent * depth)).

(** [std::stable_sort] of the members by their keys. *)
Fixpoint insert_member {A} (member : bytes * A) (members : list (bytes * A)) : list (bytes * A) :=
  match members with
  | [] => [member]
  | other :: members' =>
    if bytes_ltb (fst other) (fst member) then other :: insert_member member members' else member :: members
  end.
Definition sort_members {A} (members : list (bytes * A)) : list (bytes * A) := foldr insert_member [] members.

(** The elements of a container, with a comma between two. *)
Fixpoint join_commas (l : list bytes) : bytes :=
  match l with [] => [] | [x] => x | x :: l => x ++ [Byte.x2c] ++ join_commas l end.

(** The space after a colon in an indented text. *)
Definition colon_gap (indent : Z) : bytes := if 0 <? indent then [Byte.x20] else [].

(** Models [DumpValue], src/json.cpp:475-552. Each member is printed before the members are put in
    order, which depends on the keys alone. *)
Fixpoint DumpValue (indent depth : Z) (sort_keys : bool) (v : Json) {struct v} : bytes :=
  if kDumpDepthLimit <? depth then B "null"
  else
    match v with
    | JNull => B "null"
    | JBoolean b => if b then B "true" else B "false"
    | JInteger n | JUnsigned n => to_string n
    | JReal f => AppendReal f
    | JText text => AppendEscaped text
    | JArray items =>
      match items with
      | [] => B "[]"
      | _ =>
        [Byte.x5b] ++
        join_commas (map (fun item => AppendIndent indent (depth + 1) ++
                                      DumpValue indent (depth + 1) sort_keys item) items) ++
        AppendIndent indent depth ++ [Byte.x5d]
      end
    | JObject members =>
      match members with
      | [] => B "{}"
      | _ =>
        let printed := map (fun member : bytes * Json =>
          (fst member, DumpValue indent (depth + 1) sort_keys (snd member))) members in
        [Byte.x7b] ++
        join_commas (map (fun member : bytes * bytes =>
            AppendIndent indent (depth + 1) ++ AppendEscaped (fst member) ++ [Byte.x3a] ++
            colon_gap indent ++ snd member)
          (if sort_keys then sort_members printed else printed)) ++
        AppendIndent indent depth ++ [Byte.x7d]
      end
    end.

(** Models [Value::Dump], src/json.cpp:734-738. *)
Definition Dump (indent : Z) (v : Json) : bytes := DumpValue indent 0 false v.
(** Models [Value::DumpCanonical], src/json.cpp:740-744. *)
Definition DumpCanonical (indent : Z) (v : Json) : bytes := DumpValue indent 0 true v.

(** Models [Parse], src/json.cpp:746-755. *)
Definition Parse (text : bytes) (limits : ParseLimits) : option (Result Json) := Run limits text.
