(* ===== verification/JsonFacts.v ===== *)
(** * The json reader and printer: theorems

    Printing and reading back, totality of the parser and the limits on what it accepts, and the
    canonical order of members. *)

From Stdlib Require Import ZArith Lia DecimalString DecimalFacts DecimalPos DecimalN Floats.SpecFloat.
From stdpp Require Import prelude.
From S2P Require Import Prelude OrdMap Hash Status Identity Canonical Value Policy Json.
Local Open Scope Z_scope.

(** ** Facts on texts *)

Lemma length_SkipWhitespace text : (length (SkipWhitespace text) <= length text)%nat.
Proof. induction text as [|c text IH]; cbn [SkipWhitespace]; [done|]. destruct (IsWhitespace c); cbn [length]; lia. Qed.

Lemma SkipWhitespace_app ws text :
  forallb IsWhitespace ws = true -> SkipWhitespace (ws ++ text) = SkipWhitespace text.
Proof.
  induction ws as [|c ws IH]; [done|]. cbn [forallb app SkipWhitespace]. intros H.
  apply andb_true_iff in H as [-> H]. by apply IH.
Qed.

Lemma SkipWhitespace_cons c text : IsWhitespace c = false -> SkipWhitespace (c :: text) = c :: text.
Proof. intros H. cbn [SkipWhitespace]. by rewrite H. Qed.

Lemma indent_whitespace indent depth : forallb IsWhitespace (AppendIndent indent depth) = true.
Proof.
  unfold AppendIndent. destruct (indent <=? 0); [done|]. cbn [app forallb].
  apply andb_true_iff. split; [done|]. by induction (Z.to_nat _).
Qed.

(** One printed character is read back as one character. *)
Lemma escape_step limits c text acc :
  string_loop limits (escape_char c ++ text) acc =
  if too_long limits (acc ++ [c]) then Failed string_too_long else string_loop limits text (acc ++ [c]).
Proof. destruct c; reflexivity. Qed.

Lemma string_roundtrip limits t : forall acc rest,
  blen (acc ++ t) <= max_string_bytes limits ->
  string_loop limits (concat (map escape_char t) ++ Byte.x22 :: rest) acc = Value (acc ++ t, rest).
Proof.
  induction t as [|c t IH]; intros acc rest Hlen.
  - cbn. by rewrite app_nil_r.
  - cbn [map concat]. rewrite <- app_assoc, escape_step. unfold too_long.
    rewrite blen_app, blen_cons in Hlen. pose proof (blen_nonneg t).
    rewrite (proj2 (Z.ltb_ge _ _)) by (rewrite blen_app, blen_cons, blen_nil; lia).
    rewrite IH; [by rewrite <- app_assoc|]. rewrite !blen_app, blen_cons, blen_nil. lia.
Qed.

(** ** Facts on numbers *)

Fixpoint uint_bytes (u : Decimal.uint) : bytes :=
  match u with
  | Decimal.Nil => []
  | Decimal.D0 u => Byte.x30 :: uint_bytes u | Decimal.D1 u => Byte.x31 :: uint_bytes u
  | Decimal.D2 u => Byte.x32 :: uint_bytes u | Decimal.D3 u => Byte.x33 :: uint_bytes u
  | Decimal.D4 u => Byte.x34 :: uint_bytes u | Decimal.D5 u => Byte.x35 :: uint_bytes u
  | Decimal.D6 u => Byte.x36 :: uint_bytes u | Decimal.D7 u => Byte.x37 :: uint_bytes u
  | Decimal.D8 u => Byte.x38 :: uint_bytes u | Decimal.D9 u => Byte.x39 :: uint_bytes u
  end.

Lemma uint_bytes_string u : String.list_byte_of_string (NilEmpty.string_of_uint u) = uint_bytes u.
Proof. induction u; cbn; by f_equal. Qed.

Lemma uint_bytes_digits u : forallb is_digit (uint_bytes u) = true.
Proof. by induction u. Qed.

Lemma uint_bytes_value u p : digits_value (Z.pos p) (uint_bytes u) = Z.pos (Pos.of_uint_acc u p).
Proof. revert p. induction u as [|u IH|u IH|u IH|u IH|u IH|u IH|u IH|u IH|u IH|u IH]; intros p; [done|..];
  cbn [uint_bytes digits_value Pos.of_uint_acc]; rewrite <- IH; f_equal; unfold digit_value; cbn; lia. Qed.

Lemma uint_bytes_value0 u : digits_value 0 (uint_bytes u) = Z.of_N (Pos.of_uint u).
Proof. induction u as [|u IH|u IH|u IH|u IH|u IH|u IH|u IH|u IH|u IH|u IH]; [done|done|..];
  cbn [uint_bytes digits_value Pos.of_uint Z.of_N]; rewrite <- uint_bytes_value; reflexivity. Qed.

Lemma pos_uint_head p u : Pos.to_uint p <> Decimal.D0 u.
Proof.
  intros E. pose proof (DecimalPos.Unsigned.to_of (Pos.to_uint p)) as H.
  rewrite DecimalPos.Unsigned.of_to in H. cbn [N.to_uint] in H.
  destruct (Decimal.nzhead (Pos.to_uint p)) eqn:En;
    [apply unorm_0 in En; rewrite En in H; by apply DecimalPos.Unsigned.to_uint_nonzero in H
    |by apply nzhead_nonzero in En|..];
    unfold Decimal.unorm in H; rewrite En, E in H; discriminate H.
Qed.

(** The decimal text of a positive number: digits, the first not a zero. *)
Lemma to_string_pos p : exists c digits,
  to_string (Z.pos p) = c :: digits /\ forallb is_digit (c :: digits) = true /\
  digits_value 0 (c :: digits) = Z.pos p /\ c <> Byte.x30.
Proof.
  pose proof (DecimalPos.Unsigned.to_uint_nonnil p) as Hn.
  assert (to_string (Z.pos p) = uint_bytes (Pos.to_uint p)) as ->.
  { unfold to_string. cbn [Z.to_int NilZero.string_of_int]. rewrite <- uint_bytes_string.
    unfold NilZero.string_of_uint. by destruct (Pos.to_uint p). }
  pose proof (uint_bytes_digits (Pos.to_uint p)) as Hd. pose proof (uint_bytes_value0 (Pos.to_uint p)) as Hv.
  rewrite DecimalPos.Unsigned.of_to in Hv. cbn [Z.of_N] in Hv.
  destruct (Pos.to_uint p) as [|u|u|u|u|u|u|u|u|u|u] eqn:E; [done|by apply pos_uint_head in E|..];
    eexists _, (uint_bytes u); by split_and!.
Qed.

Lemma to_string_neg p : to_string (Z.neg p) = Byte.x2d :: to_string (Z.pos p).
Proof. reflexivity. Qed.

(** What may follow a value in a printed text. *)
Definition stops (rest : bytes) : bool :=
  match rest with
  | [] => true
  | c :: _ =>
    bool_decide (c = Byte.x2c) || bool_decide (c = Byte.x5d) || bool_decide (c = Byte.x7d) ||
    bool_decide (c = Byte.x0a)
  end.

Lemma stops_cases rest : stops rest = true ->
  rest = [] \/ exists c rest', rest = c :: rest' /\ (c = Byte.x2c \/ c = Byte.x5d \/ c = Byte.x7d \/ c = Byte.x0a).
Proof.
  destruct rest as [|c rest]; [by left|]. cbn. intros H. right. exists c, rest. split; [done|].
  repeat (apply orb_true_iff in H as [H|H]); apply bool_decide_eq_true in H; tauto.
Qed.

Lemma span_digits_stops rest : stops rest = true -> span_digits rest = ([], rest).
Proof. intros H. apply stops_cases in H as [->|(c & rest' & -> & [->|[->|[->| ->]]])]; reflexivity. Qed.

Lemma span_digits_app digits rest :
  forallb is_digit digits = true -> stops rest = true -> span_digits (digits ++ rest) = (digits, rest).
Proof.
  intros Hd Hr. induction digits as [|c digits IH]; [by apply span_digits_stops|].
  cbn [forallb app span_digits] in *. apply andb_true_iff in Hd as [-> Hd]. by rewrite IH.
Qed.

Lemma tail_parts rest : stops rest = true ->
  fraction_part rest = Value (None, rest) /\ exponent_part rest = Value (None, rest).
Proof. intros H. apply stops_cases in H as [->|(c & rest' & -> & [->|[->|[->| ->]]])]; done. Qed.

Lemma integer_part_pos p rest : stops rest = true -> exists digits,
  integer_part (to_string (Z.pos p) ++ rest) = Value (digits, rest) /\ digits_value 0 digits = Z.pos p.
Proof.
  intros Hr. destruct (to_string_pos p) as (c & digits & Ht & Hd & Hv & Hc). exists (c :: digits).
  split; [|done]. rewrite Ht. unfold integer_part. cbn [app]. rewrite bool_decide_eq_false_2 by done.
  assert (is_digit c = true) as -> by (cbn in Hd; by bool_hyps).
  change (c :: digits ++ rest) with ((c :: digits) ++ rest). by rewrite span_digits_app.
Qed.

(** The value an integer prints as and reads back to. *)
Lemma ParseNumber_to_string n rest :
  - 2 ^ 63 <= n < 2 ^ 64 -> stops rest = true ->
  ParseNumber (to_string n ++ rest) = Value (if n <? 2 ^ 63 then JInteger n else JUnsigned n, rest).
Proof.
  intros Hn Hr. destruct (tail_parts rest Hr) as [Hf He]. unfold ParseNumber. destruct n as [|p|p].
  - change (to_string 0) with [Byte.x30]. cbn [app]. rewrite bool_decide_eq_false_2 by done.
    assert (integer_part (Byte.x30 :: rest) = Value ([Byte.x30], rest)) as ->
      by (apply stops_cases in Hr as [->|(c & rest' & -> & [->|[->|[->| ->]]])]; done).
    by rewrite Hf, He.
  - destruct (integer_part_pos p rest Hr) as (digits & Hi & Hv).
    destruct (to_string_pos p) as (c & ds & Ht & Hd & _). rewrite Ht in *. cbn [app] in *.
    rewrite bool_decide_eq_false_2 by (intros ->; by destruct (bool_decide_reflect (forallb is_digit (Byte.x2d :: ds) = true))).
    rewrite Hi, Hf, He. unfold integer_of. rewrite Hv.
    rewrite (proj2 (Z.ltb_ge _ _)) by lia.
    destruct (Z.ltb_spec (Z.pos p) (2 ^ 63)); [rewrite (proj2 (Z.leb_le _ _)) by lia|rewrite (proj2 (Z.leb_gt _ _)) by lia]; done.
  - rewrite to_string_neg. cbn [app]. rewrite bool_decide_eq_true_2 by done.
    destruct (integer_part_pos p rest Hr) as (digits & -> & Hv). rewrite Hf, He. unfold integer_of. rewrite Hv.
    rewrite (proj2 (Z.ltb_ge _ _)) by lia. rewrite (proj2 (Z.ltb_lt _ _)) by lia. done.
Qed.

(** ** Values the parser accepts *)

Section JsonInduction.
Variable P : Json -> Prop.
Hypothesis Hnull : P JNull.
Hypothesis Hbool : forall b, P (JBoolean b).
Hypothesis Hint : forall n, P (JInteger n).
Hypothesis Huint : forall n, P (JUnsigned n).
Hypothesis Hreal : forall f, P (JReal f).
Hypothesis Htext : forall t, P (JText t).
Hypothesis Harray : forall items, Forall P items -> P (JArray items).
Hypothesis Hobject : forall members, Forall (fun m : bytes * Json => P (snd m)) members -> P (JObject members).

Fixpoint json_ind' (v : Json) : P v :=
  match v with
  | JNull => Hnull
  | JBoolean b => Hbool b
  | JInteger n => Hint n
  | JUnsigned n => Huint n
  | JReal f => Hreal f
  | JText t => Htext t
  | JArray items =>
    Harray items ((fix go (l : list Json) : Forall P l :=
      match l with [] => Forall_nil_2 _ | x :: l => Forall_cons_2 _ _ _ (json_ind' x) (go l) end) items)
  | JObject members =>
    Hobject members ((fix go (l : list (bytes * Json)) : Forall (fun m => P (snd m)) l :=
      match l with [] => Forall_nil_2 _ | x :: l => Forall_cons_2 _ _ _ (json_ind' (snd x)) (go l) end) members)
  end.
End JsonInduction.

Section JsonOk.
Variable limits : ParseLimits.

(** The bounds the parser enforces on a value at a depth: nesting, sizes, distinct keys, and
    integers in the kind their range selects. *)
Fixpoint json_ok (depth : Z) (v : Json) {struct v} : bool :=
  (depth <=? max_depth limits) &&
  match v with
  | JNull | JBoolean _ => true
  | JInteger n => i64 n
  | JUnsigned n => (2 ^ 63 <=? n) && (n <? 2 ^ 64)
  | JReal f => is_finite f
  | JText t => blen t <=? max_string_bytes limits
  | JArray items => (blen items <=? max_array_items limits) && forallb (json_ok (depth + 1)) items
  | JObject members =>
    (blen members <=? max_object_members limits) && bool_decide (NoDup (map fst members)) &&
    forallb (fun m : bytes * Json =>
      (blen (fst m) <=? max_string_bytes limits) && json_ok (depth + 1) (snd m)) members
  end.

Definition sum_Z (l : list Z) : Z := foldr Z.add 0 l.

(** The values a value is made of, itself included. *)
Fixpoint json_count (v : Json) : Z :=
  match v with
  | JArray items => 1 + sum_Z (map json_count items)
  | JObject members => 1 + sum_Z (map (fun m : bytes * Json => json_count (snd m)) members)
  | _ => 1
  end.

Fixpoint no_reals (v : Json) : bool :=
  match v with
  | JReal _ => false
  | JArray items => forallb no_reals items
  | JObject members => forallb (fun m : bytes * Json => no_reals (snd m)) members
  | _ => true
  end.

Lemma json_count_pos v : 1 <= json_count v.
Proof.
  induction v as [| | | | | |items IH|members IH] using json_ind'; cbn [json_count]; try lia;
    match goal with |- _ <= 1 + ?s => assert (0 <= s); [|lia] end;
    induction IH as [|x l Hx _ IHl]; cbn [map sum_Z foldr] in *; unfold sum_Z in *; lia.
Qed.

Lemma json_ok_depth depth v : json_ok depth v = true -> depth <= max_depth limits.
Proof. destruct v; cbn [json_ok]; intros H; bool_hyps; lia. Qed.

Hypothesis Hdump : max_depth limits <= kDumpDepthLimit.

(** A printed value starts with a character that neither is white space nor closes. *)
Lemma dump_head indent depth v :
  json_ok depth v = true -> no_reals v = true -> exists c t,
  DumpValue indent depth false v = c :: t /\ IsWhitespace c = false /\ c <> Byte.x5d /\ c <> Byte.x7d.
Proof.
  intros Hok Hr. apply json_ok_depth in Hok as Hd.
  assert (forall n, exists c t, to_string n = c :: t /\ IsWhitespace c = false /\ c <> Byte.x5d /\ c <> Byte.x7d) as Hn.
  { intros [|p|p]; [by exists Byte.x30, []| |by exists Byte.x2d, (to_string (Z.pos p))].
    destruct (to_string_pos p) as (c & ds & -> & Hdg & _). exists c, ds. split; [done|].
    cbn [forallb] in Hdg. apply andb_true_iff in Hdg as [Hc _]. destruct c; try discriminate Hc; done. }
  destruct v as [|b|n|n|f|t|items|members]; cbn [DumpValue];
    rewrite (proj2 (Z.ltb_ge _ _)) by (unfold kDumpDepthLimit in *; lia).
  - by exists Byte.x6e, (B "ull").
  - destruct b; [by exists Byte.x74, (B "rue")|by exists Byte.x66, (B "alse")].
  - apply Hn.
  - apply Hn.
  - done.
  - by exists Byte.x22, (concat (map escape_char t) ++ [Byte.x22]).
  - destruct items; [by exists Byte.x5b, [Byte.x5d]|exists Byte.x5b; eexists; split; [reflexivity|done]].
  - destruct members; [by exists Byte.x7b, [Byte.x7d]|exists Byte.x7b; eexists; split; [reflexivity|done]].
Qed.

(** The text after an item, and after a member. *)
Fixpoint items_tail (indent depth : Z) (l : list Json) (rest : bytes) : bytes :=
  match l with
  | [] => AppendIndent indent depth ++ Byte.x5d :: rest
  | x :: l => Byte.x2c :: AppendIndent indent (depth + 1) ++ DumpValue indent (depth + 1) false x ++
              items_tail indent depth l rest
  end.
Definition member_text (indent depth : Z) (m : bytes * Json) : bytes :=
  AppendIndent indent (depth + 1) ++ AppendEscaped (fst m) ++ [Byte.x3a] ++
  colon_gap indent ++ DumpValue indent (depth + 1) false (snd m).
Fixpoint members_tail (indent depth : Z) (l : list (bytes * Json)) (rest : bytes) : bytes :=
  match l with
  | [] => AppendIndent indent depth ++ Byte.x7d :: rest
  | m :: l => Byte.x2c :: member_text indent depth m ++ members_tail indent depth l rest
  end.

Lemma join_cons {A} (f : A -> bytes) x y l :
  join_commas (map f (x :: y :: l)) = f x ++ [Byte.x2c] ++ join_commas (map f (y :: l)).
Proof. done. Qed.

Lemma join_items indent depth x l rest :
  join_commas (map (fun item => AppendIndent indent (depth + 1) ++ DumpValue indent (depth + 1) false item) (x :: l)) ++
    AppendIndent indent depth ++ Byte.x5d :: rest =
  AppendIndent indent (depth + 1) ++ DumpValue indent (depth + 1) false x ++ items_tail indent depth l rest.
Proof.
  revert x. induction l as [|y l IH]; intros x; [cbn; by rewrite <- !app_assoc|].
  rewrite join_cons, <- !app_assoc, IH. reflexivity.
Qed.

Lemma join_members indent depth m l rest :
  join_commas (map (member_text indent depth) (m :: l)) ++ AppendIndent indent depth ++ Byte.x7d :: rest =
  member_text indent depth m ++ members_tail indent depth l rest.
Proof.
  revert m. induction l as [|y l IH]; intros m; [done|].
  rewrite join_cons, <- !app_assoc, IH. reflexivity.
Qed.

Lemma stops_indent indent depth c rest :
  stops (c :: rest) = true -> stops (AppendIndent indent depth ++ c :: rest) = true.
Proof. intros H. unfold AppendIndent. by destruct (indent <=? 0). Qed.

Lemma items_tail_stops indent depth l rest : stops (items_tail indent depth l rest) = true.
Proof. destruct l; [by apply stops_indent|done]. Qed.
Lemma members_tail_stops indent depth l rest : stops (members_tail indent depth l rest) = true.
Proof. destruct l; [by apply stops_indent|done]. Qed.
End JsonOk.

(** ** Printing and reading back *)

Section RoundTrip.
Variable limits : ParseLimits.
Hypothesis Hdump : max_depth limits <= kDumpDepthLimit.

(** A printed value is read back, whatever white space comes before it and whatever the text
    goes on with. *)
Definition reads (v : Json) : Prop :=
  forall indent depth fuel ws rest items,
  json_ok limits depth v = true -> no_reals v = true -> forallb IsWhitespace ws = true ->
  stops rest = true -> items + json_count v <= max_items limits ->
  (2 * length (ws ++ DumpValue indent depth false v ++ rest) + 1 <= fuel)%nat ->
  ParseValue limits fuel depth (mkParser (ws ++ DumpValue indent depth false v ++ rest) items) =
    Some (Value (v, mkParser rest (items + json_count v))).

Lemma find_member_None {A} key (members : list (bytes * A)) :
  key ∉ map fst members -> find_member key members = None.
Proof.
  induction members as [|[name value] members IH]; [done|]. cbn [map fst find_member].
  rewrite not_elem_of_cons. intros [Hne Hnin]. rewrite bool_decide_eq_false_2 by done. by apply IH.
Qed.

Lemma set_member_new key value members :
  key ∉ map fst members -> set_member key value members = members ++ [(key, value)].
Proof.
  induction members as [|[name old] members IH]; [done|]. cbn [map fst set_member app].
  rewrite not_elem_of_cons. intros [Hne Hnin]. rewrite bool_decide_eq_false_2 by done. by rewrite IH.
Qed.

Lemma sum_Z_cons x l : sum_Z (x :: l) = x + sum_Z l.
Proof. done. Qed.

Lemma sum_Z_count_nonneg {A} (f : A -> Json) l : 0 <= sum_Z (map (fun x => json_count (f x)) l).
Proof.
  induction l as [|x l IH]; [done|]. rewrite map_cons, sum_Z_cons. pose proof (json_count_pos (f x)). lia.
Qed.

Lemma items_count_nonneg l : 0 <= sum_Z (map json_count l).
Proof. exact (sum_Z_count_nonneg id l). Qed.

Ltac lengths := repeat (rewrite length_app in * || cbn [length] in *).

Lemma parse_items_reads indent depth rest l : forall x acc fuel ws n,
  reads x -> Forall reads l ->
  forallb (json_ok limits (depth + 1)) (x :: l) = true -> forallb no_reals (x :: l) = true ->
  forallb IsWhitespace ws = true -> blen acc + blen (x :: l) <= max_array_items limits ->
  n + sum_Z (map json_count (x :: l)) <= max_items limits ->
  (2 * length (ws ++ DumpValue indent (depth + 1) false x ++ items_tail indent depth l rest) + 2 <= fuel)%nat ->
  parse_items limits fuel depth acc
    (mkParser (ws ++ DumpValue indent (depth + 1) false x ++ items_tail indent depth l rest) n) =
    Some (Value (JArray (acc ++ x :: l), mkParser rest (n + sum_Z (map json_count (x :: l))))).
Proof.
  induction l as [|y l IH]; intros x acc fuel ws n Hx Hl Hok Hr Hws Hsize Hn Hfuel;
    (destruct fuel as [|fuel]; [lia|]); cbn [forallb] in Hok, Hr; rewrite map_cons, sum_Z_cons in Hn |- *;
    apply andb_true_iff in Hok as [Hok Hoks]; apply andb_true_iff in Hr as [Hr Hrs];
    rewrite blen_cons in Hsize; pose proof (blen_nonneg acc); cbn [parse_items].
  - cbn in Hn. rewrite (Hx indent (depth + 1) fuel ws); [|done..|apply items_tail_stops|lia|lia].
    rewrite blen_nil in Hsize. rewrite (proj2 (Z.leb_gt _ _)) by lia. cbn [ps_text items_tail ps_items].
    rewrite SkipWhitespace_app by apply indent_whitespace. rewrite SkipWhitespace_cons by done.
    rewrite bool_decide_eq_false_2, bool_decide_eq_true_2 by done. cbn. repeat f_equal. lia.
  - pose proof (items_count_nonneg (y :: l)). rewrite blen_cons in Hsize. pose proof (blen_nonneg l).
    rewrite (Hx indent (depth + 1) fuel ws); [|done..|apply items_tail_stops|lia|lia].
    rewrite (proj2 (Z.leb_gt _ _)) by lia. cbn [ps_text items_tail ps_items].
    rewrite SkipWhitespace_cons by done. rewrite bool_decide_eq_true_2 by done.
    apply Forall_cons in Hl as [Hy Hl].
    rewrite IH; [|done..|apply indent_whitespace| | |].
    + by rewrite <- app_assoc, Z.add_assoc.
    + rewrite blen_app, !blen_cons, blen_nil. lia.
    + lia.
    + destruct (dump_head limits Hdump indent (depth + 1) x Hok Hr) as (c & t & Hc & _). rewrite Hc in Hfuel.
      cbn [items_tail] in Hfuel. lengths. lia.
Qed.

(** The text of a member, read back up to its value. *)
Lemma parse_member_key fuel indent depth ws m l rest acc n :
  forallb IsWhitespace ws = true -> blen (fst m) <= max_string_bytes limits ->
  parse_members limits (S fuel) depth acc
    (mkParser (ws ++ AppendEscaped (fst m) ++ [Byte.x3a] ++ colon_gap indent ++
       DumpValue indent (depth + 1) false (snd m) ++ members_tail indent depth l rest) n) =
  match ParseValue limits fuel (depth + 1)
          (mkParser (colon_gap indent ++ DumpValue indent (depth + 1) false (snd m) ++
                     members_tail indent depth l rest) n) with
  | None => None
  | Some (Failed status) => Some (Failed status)
  | Some (Value (value, p)) =>
    if max_object_members limits <=? blen acc then parse_fail (B "object exceeds max_object_members")
    else if Contains (JObject acc) (fst m) then parse_fail (B "duplicate object key")
    else
      match SkipWhitespace (ps_text p) with
      | [] => parse_fail (B "unterminated object")
      | c :: text =>
        if bool_decide (c = Byte.x2c) then
          parse_members limits fuel depth (set_member (fst m) value acc) (mkParser text (ps_items p))
        else if bool_decide (c = Byte.x7d) then
          Some (Value (JObject (set_member (fst m) value acc), mkParser text (ps_items p)))
        else parse_fail (B "expected a comma or a closing brace")
      end
  end.
Proof.
  intros Hws Hk. cbn [parse_members ps_text ps_items]. rewrite SkipWhitespace_app by done.
  unfold AppendEscaped. rewrite <- !app_assoc. cbn [app]. rewrite SkipWhitespace_cons by done.
  rewrite bool_decide_eq_true_2 by done. cbn [negb].
  rewrite string_roundtrip by (by cbn [app]). cbn [app]. rewrite SkipWhitespace_cons by done.
  rewrite bool_decide_eq_true_2 by done. reflexivity.
Qed.

Lemma parse_members_reads indent depth rest l : forall m acc fuel ws n,
  reads (snd m) -> Forall (fun m => reads (snd m)) l ->
  forallb (fun m : bytes * Json =>
    (blen (fst m) <=? max_string_bytes limits) && json_ok limits (depth + 1) (snd m)) (m :: l) = true ->
  forallb (fun m : bytes * Json => no_reals (snd m)) (m :: l) = true ->
  NoDup (map fst (acc ++ m :: l)) ->
  forallb IsWhitespace ws = true -> blen acc + blen (m :: l) <= max_object_members limits ->
  n + sum_Z (map (fun m : bytes * Json => json_count (snd m)) (m :: l)) <= max_items limits ->
  (2 * length (ws ++ AppendEscaped (fst m) ++ [Byte.x3a] ++ colon_gap indent ++
       DumpValue indent (depth + 1) false (snd m) ++ members_tail indent depth l rest) + 2 <= fuel)%nat ->
  parse_members limits fuel depth acc
    (mkParser (ws ++ AppendEscaped (fst m) ++ [Byte.x3a] ++ colon_gap indent ++
       DumpValue indent (depth + 1) false (snd m) ++ members_tail indent depth l rest) n) =
    Some (Value (JObject (acc ++ m :: l),
                 mkParser rest (n + sum_Z (map (fun m : bytes * Json => json_count (snd m)) (m :: l))))).
Proof.
  induction l as [|y l IH]; intros m acc fuel ws n Hm Hl Hok Hr Hnd Hws Hsize Hn Hfuel;
    (destruct fuel as [|fuel]; [lia|]); cbn [forallb] in Hok, Hr; rewrite map_cons, sum_Z_cons in Hn |- *;
    apply andb_true_iff in Hok as [Hok Hoks]; apply andb_true_iff in Hok as [Hk Hok]; apply Z.leb_le in Hk;
    apply andb_true_iff in Hr as [Hr Hrs];
    rewrite blen_cons in Hsize; pose proof (blen_nonneg acc);
    rewrite parse_member_key by done;
    assert (forallb IsWhitespace (colon_gap indent) = true) as Hws' by (unfold colon_gap; by destruct (0 <? indent));
    assert (fst m ∉ map fst acc) as Hnew by (rewrite map_app, map_cons in Hnd;
      apply NoDup_app in Hnd as (_ & Hnd & _); intros Hin; apply (Hnd _ Hin); by left);
    (rewrite (Hm indent (depth + 1) fuel (colon_gap indent));
      [|done..|apply members_tail_stops| |lengths; lia]).
  - cbn in Hn |- *. rewrite blen_nil in Hsize. rewrite (proj2 (Z.leb_gt _ _)) by lia.
    unfold Contains, Find. cbn [json_members]. rewrite find_member_None by done. rewrite bool_decide_eq_false_2 by (by intros []).
    rewrite SkipWhitespace_app by apply indent_whitespace. rewrite SkipWhitespace_cons by done.
    rewrite bool_decide_eq_false_2, bool_decide_eq_true_2 by done. rewrite set_member_new by done.
    destruct m as [key value]. cbn. repeat f_equal. lia.
  - cbn in Hn. lia.
  - cbn [members_tail ps_text ps_items]. rewrite blen_cons in Hsize. pose proof (blen_nonneg l). rewrite (proj2 (Z.leb_gt _ _)) by lia.
    unfold Contains, Find. cbn [json_members]. rewrite find_member_None by done. rewrite bool_decide_eq_false_2 by (by intros []).
    rewrite SkipWhitespace_cons by done. rewrite bool_decide_eq_true_2 by done. rewrite set_member_new by done.
    apply Forall_cons in Hl as [Hy Hl]. unfold member_text. rewrite <- !app_assoc.
    rewrite IH; [|done..| |apply indent_whitespace| | |].
    + destruct m as [key value]. cbn [fst snd]. by rewrite <- app_assoc, Z.add_assoc.
    + destruct m as [key value]. cbn [fst snd]. by rewrite <- app_assoc.
    + rewrite blen_app, !blen_cons, blen_nil. lia.
    + lia.
    + cbn [members_tail] in Hfuel. unfold member_text in Hfuel. lengths. lia.
  - pose proof (sum_Z_count_nonneg snd (y :: l)). cbv beta in *. lia.
Qed.

(** Entering a value: past the white space, with the value counted. *)
Lemma ParseValue_enter fuel depth ws c t items :
  depth <= max_depth limits -> items < max_items limits -> forallb IsWhitespace ws = true ->
  IsWhitespace c = false ->
  ParseValue limits (S fuel) depth (mkParser (ws ++ c :: t) items) =
  ParseValue limits (S fuel) depth (mkParser (c :: t) items).
Proof.
  intros Hd Hi Hws Hc. cbn [ParseValue ps_text ps_items]. by rewrite SkipWhitespace_app, !SkipWhitespace_cons by done.
Qed.

(** Opens a value on its first character. *)
Ltac enter_value :=
  cbn [ParseValue ps_text ps_items]; rewrite (proj2 (Z.ltb_ge _ _)), (proj2 (Z.leb_gt _ _)) by lia;
  rewrite SkipWhitespace_cons by done; repeat (rewrite bool_decide_eq_false_2 by done);
  rewrite ?bool_decide_eq_true_2 by done.

Lemma reads_number n (v : Json) :
  (v = JInteger n /\ i64 n = true) \/ (v = JUnsigned n /\ 2 ^ 63 <= n < 2 ^ 64) -> reads v.
Proof.
  intros Hv indent depth fuel ws rest items Hok Hr Hws Hst Hn Hfuel.
  assert (DumpValue indent depth false v = to_string n /\ json_count v = 1) as [Hdv Hcv].
  { apply json_ok_depth in Hok. destruct Hv as [[-> _]|[-> _]]; cbn [DumpValue json_count];
      rewrite (proj2 (Z.ltb_ge _ _)) by (unfold kDumpDepthLimit in *; lia); done. }
  destruct (dump_head limits Hdump indent depth v Hok Hr) as (c & t & Hc & Hcw & _).
  rewrite Hdv in *. rewrite Hcv in *. apply json_ok_depth in Hok.
  destruct fuel as [|fuel]; [lia|]. rewrite Hc. cbn [app].
  rewrite ParseValue_enter by (done || lia). change (c :: t ++ rest) with ((c :: t) ++ rest). rewrite <- Hc.
  assert (- 2 ^ 63 <= n < 2 ^ 64) as Hrange.
  { destruct Hv as [[_ H]|[_ H]]; [|lia]. unfold in_signed in H. bool_hyps. change (2 ^ (64 - 1)) with (2 ^ 63) in *. lia. }
  assert ((if n <? 2 ^ 63 then JInteger n else JUnsigned n) = v) as Hsel.
  { destruct Hv as [[-> H]|[-> H]].
    - unfold in_signed in H. bool_hyps. change (2 ^ (64 - 1)) with (2 ^ 63) in *. by rewrite (proj2 (Z.ltb_lt _ _)) by lia.
    - by rewrite (proj2 (Z.ltb_ge _ _)) by lia. }
  pose proof (ParseNumber_to_string n rest Hrange Hst) as Hp. rewrite Hsel in Hp.
  assert (bool_decide (c = Byte.x2d) || is_digit c = true) as Hdc.
  { destruct n as [|p|p]; [by injection Hc as <- _| |by injection Hc as <- _].
    destruct (to_string_pos p) as (c' & ds & Ht & Hdg & _). rewrite Ht in Hc. injection Hc as -> ->.
    cbn [forallb] in Hdg. apply andb_true_iff in Hdg as [-> _]. by rewrite orb_true_r. }
  rewrite Hc in *. cbn [app] in *.
  cbn [ParseValue ps_text ps_items]. rewrite (proj2 (Z.ltb_ge _ _)), (proj2 (Z.leb_gt _ _)) by lia.
  rewrite SkipWhitespace_cons by done.
  assert (c <> Byte.x7b /\ c <> Byte.x5b /\ c <> Byte.x22 /\ c <> Byte.x74 /\ c <> Byte.x66 /\ c <> Byte.x6e)
    as (H1 & H2 & H3 & H4 & H5 & H6) by (by destruct c).
  rewrite !bool_decide_eq_false_2 in * by done.
  rewrite Hdc, Hp. done.
Qed.

(** Past the bracket and the white space, a container that is not empty goes to its loop. *)
Lemma skip_to_value indent depth ws v rest :
  json_ok limits depth v = true -> no_reals v = true -> forallb IsWhitespace ws = true -> exists c t,
  SkipWhitespace (ws ++ DumpValue indent depth false v ++ rest) = DumpValue indent depth false v ++ rest /\
  DumpValue indent depth false v ++ rest = c :: t /\ c <> Byte.x5d.
Proof.
  intros Hok Hr Hws. destruct (dump_head limits Hdump indent depth v Hok Hr) as (c & t & Hc & Hcw & Hne & _).
  exists c, (t ++ rest). rewrite SkipWhitespace_app, Hc by done. cbn [app]. by rewrite SkipWhitespace_cons.
Qed.

Lemma reads_array items : Forall reads items -> reads (JArray items).
Proof.
  intros IH indent depth fuel ws rest n Hok Hr Hws Hst Hn Hfuel. pose proof (json_ok_depth _ _ _ Hok) as Hd.
  cbn [json_count] in *. destruct fuel as [|fuel]; [lia|]. cbn [DumpValue] in *.
  rewrite (proj2 (Z.ltb_ge _ _)) in * by (unfold kDumpDepthLimit in *; lia).
  destruct items as [|x l].
  - change (sum_Z (map json_count [])) with 0 in *. change (B "[]" ++ rest) with (Byte.x5b :: Byte.x5d :: rest).
    rewrite ParseValue_enter by (done || lia). by enter_value.
  - cbn [app] in *. pose proof (items_count_nonneg (x :: l)) as Hpos.
    rewrite ParseValue_enter by (done || lia). rewrite <- app_assoc in *.
    enter_value. cbn [no_reals json_ok] in Hr, Hok.
    change (AppendIndent indent depth ++ [Byte.x5d]) with (AppendIndent indent depth ++ Byte.x5d :: []) in *.
    rewrite <- (app_assoc (AppendIndent indent depth)) in *. cbn [app] in *.
    rewrite (join_items indent depth x l rest) in *.
    apply andb_true_iff in Hok as [_ Hok]. apply andb_true_iff in Hok as [Hsize Hok]. apply Z.leb_le in Hsize.
    pose proof Hok as Hok1. cbn [forallb] in Hok1. apply andb_true_iff in Hok1 as [Hokx _].
    pose proof Hr as Hr1. cbn [forallb] in Hr1. apply andb_true_iff in Hr1 as [Hrx _].
    apply Forall_cons in IH as [Hx Hl].
    destruct (skip_to_value indent (depth + 1) (AppendIndent indent (depth + 1)) x (items_tail indent depth l rest)
      Hokx Hrx (indent_whitespace _ _)) as (c & t & Hskip & Hct & Hne).
    rewrite Hskip, Hct, bool_decide_eq_false_2 by done. rewrite <- Hct.
    etransitivity; [apply (parse_items_reads indent depth rest l x [] fuel [] (n + 1)); try done|].
    + lia.
    + cbn [app]. lengths. lia.
    + cbn [app]. by rewrite Z.add_assoc.
Qed.

Lemma printed_members indent depth l :
  map (fun member : bytes * bytes => AppendIndent indent (depth + 1) ++ AppendEscaped (fst member) ++ [Byte.x3a] ++
         colon_gap indent ++ snd member)
    (map (fun member : bytes * Json => (fst member, DumpValue indent (depth + 1) false (snd member))) l) =
  map (member_text indent depth) l.
Proof. by rewrite map_map. Qed.

Lemma reads_object members : Forall (fun m => reads (snd m)) members -> reads (JObject members).
Proof.
  intros IH indent depth fuel ws rest n Hok Hr Hws Hst Hn Hfuel. pose proof (json_ok_depth _ _ _ Hok) as Hd.
  cbn [json_count] in *. destruct fuel as [|fuel]; [lia|]. cbn [DumpValue] in *.
  rewrite (proj2 (Z.ltb_ge _ _)) in * by (unfold kDumpDepthLimit in *; lia).
  destruct members as [|m l].
  - change (sum_Z (map _ [])) with 0 in *. change (B "{}" ++ rest) with (Byte.x7b :: Byte.x7d :: rest).
    rewrite ParseValue_enter by (done || lia). by enter_value.
  - cbv zeta in *. cbn [app] in *. rewrite printed_members in *. pose proof (sum_Z_count_nonneg snd (m :: l)) as Hpos.
    rewrite ParseValue_enter by (done || lia). rewrite <- app_assoc in *.
    cbn [ParseValue ps_text ps_items]. rewrite (proj2 (Z.ltb_ge _ _)), (proj2 (Z.leb_gt _ _)) by lia.
    rewrite SkipWhitespace_cons, bool_decide_eq_true_2 by done. cbn [no_reals json_ok] in Hr, Hok.
    rewrite <- (app_assoc (AppendIndent indent depth)) in *. cbn [app] in *.
    rewrite (join_members indent depth m l rest) in *. unfold member_text in Hfuel |- *. rewrite <- !app_assoc in *.
    apply andb_true_iff in Hok as [_ Hok]. apply andb_true_iff in Hok as [Hok1 Hok].
    apply andb_true_iff in Hok1 as [Hsize Hnd]. apply Z.leb_le in Hsize. apply bool_decide_eq_true in Hnd.
    apply Forall_cons in IH as [Hm Hl].
    rewrite SkipWhitespace_app by apply indent_whitespace.
    change (AppendEscaped (fst m)) with (Byte.x22 :: (concat (map escape_char (fst m)) ++ [Byte.x22])). cbn [app].
    rewrite SkipWhitespace_cons, bool_decide_eq_false_2 by done.
    etransitivity; [apply (parse_members_reads indent depth rest l m [] fuel [] (n + 1)); try done|].
    + lia.
    + change (AppendEscaped (fst m)) with (Byte.x22 :: (concat (map escape_char (fst m)) ++ [Byte.x22])) in *.
      lengths. lia.
    + cbn [app]. by rewrite Z.add_assoc.
Qed.

(** Texts and literals. *)
Lemma reads_leaf v : match v with JNull | JBoolean _ | JText _ => reads v | _ => True end.
Proof.
  destruct v as [|b| | | |t| |]; try done;
    intros indent depth fuel ws rest n Hok Hr Hws Hst Hn Hfuel; pose proof (json_ok_depth _ _ _ Hok) as Hd;
    cbn [json_count] in *; (destruct fuel as [|fuel]; [lia|]); cbn [DumpValue] in *;
    rewrite (proj2 (Z.ltb_ge _ _)) in * by (unfold kDumpDepthLimit in *; lia).
  - change (B "null" ++ rest) with (Byte.x6e :: (B "ull" ++ rest)). rewrite ParseValue_enter by (done || lia).
    enter_value. done.
  - destruct b.
    + change (B "true" ++ rest) with (Byte.x74 :: (B "rue" ++ rest)). rewrite ParseValue_enter by (done || lia).
      enter_value. done.
    + change (B "false" ++ rest) with (Byte.x66 :: (B "alse" ++ rest)). rewrite ParseValue_enter by (done || lia).
      enter_value. done.
  - unfold AppendEscaped. rewrite <- !app_assoc. cbn [app]. rewrite ParseValue_enter by (done || lia).
    enter_value. rewrite string_roundtrip; [done|]. cbn [app json_ok] in *. bool_hyps. done.
Qed.

Lemma reads_all v : reads v.
Proof.
  induction v as [|b|n|n|f|t|items IH|members IH] using json_ind'.
  - exact (reads_leaf JNull).
  - exact (reads_leaf (JBoolean b)).
  - intros indent depth fuel ws rest items Hok. pose proof Hok as Hok'. cbn [json_ok] in Hok'. bool_hyps.
    by apply (reads_number n); [left|].
  - intros indent depth fuel ws rest items Hok. pose proof Hok as Hok'. cbn [json_ok] in Hok'. bool_hyps.
    by apply (reads_number n); [right|].
  - done.
  - exact (reads_leaf (JText t)).
  - by apply reads_array.
  - by apply reads_object.
Qed.

Lemma Parse_Dump indent v :
  json_ok limits 0 v = true -> no_reals v = true -> json_count v <= max_items limits ->
  blen (Dump indent v) <= max_bytes limits -> Parse (Dump indent v) limits = Some (Value v).
Proof.
  intros Hok Hr Hc Hlen. unfold Parse, Run, Dump in *.
  destruct (dump_head limits Hdump indent 0 v Hok Hr) as (c & t & Hct & _).
  assert (is_empty (DumpValue indent 0 false v) = false) as -> by (rewrite Hct; done).
  rewrite (proj2 (Z.ltb_ge _ _)) by lia.
  pose proof (reads_all v indent 0 (parse_fuel (DumpValue indent 0 false v)) [] [] 0 Hok Hr eq_refl eq_refl Hc) as Hp.
  cbn [app] in Hp. rewrite app_nil_r in Hp. rewrite Hp; [done|]. unfold parse_fuel. lia.
Qed.
End RoundTrip.

(** ** Every text is decided *)

Section Total.
Variable limits : ParseLimits.

(** A string ends before its text does: by induction on the length, as an escape takes several
    characters. *)
Lemma string_loop_shorter text : forall acc s rest,
  string_loop limits text acc = Value (s, rest) -> (length rest < length text)%nat.
Proof.
  induction text as [text IH] using (induction_ltof1 _ (@length byte)). unfold ltof in IH.
  intros acc s rest. destruct text as [|raw text]; [done|]. cbn [string_loop].
  assert (forall text' acc', (length text' <= length text)%nat ->
    (if too_long limits acc' then Failed string_too_long else string_loop limits text' acc') = Value (s, rest) ->
    (length rest < length (raw :: text))%nat) as Hgo.
  { intros text' acc' Hle. destruct (too_long limits acc'); [done|]. intros H.
    apply IH in H; cbn [length]; lia. }
  destruct (_ <? _); [done|]. destruct (bool_decide _); [intros [= _ <-]; cbn; lia|].
  destruct (bool_decide _); [|by apply Hgo].
  destruct text as [|e text]; [done|]. destruct (simple_escape e); [apply Hgo; cbn; lia|].
  destruct (negb _); [done|]. destruct text as [|a [|b [|c [|d text]]]]; try done.
  destruct (ParseHex4 a b c d) as [first|]; [|done].
  destruct (_ && _).
  - destruct text as [|s1 [|s2 text]]; try done. destruct (_ || _); [done|].
    destruct text as [|a2 [|b2 [|c2 [|d2 text]]]]; try done. destruct (ParseHex4 a2 b2 c2 d2); [|done].
    destruct (_ || _); [done|]. destruct (AppendCodePoint _); [|done]. apply Hgo. cbn. lia.
  - destruct (_ && _); [done|]. destruct (AppendCodePoint _); [|done]. apply Hgo. cbn. lia.
Qed.

Lemma span_digits_length text : (length (snd (span_digits text)) <= length text)%nat.
Proof.
  induction text as [|c text IH]; [done|]. cbn [span_digits]. destruct (is_digit c); [|done].
  destruct (span_digits text) as [ds rest]. cbn in *. lia.
Qed.

Lemma integer_part_shorter text digits rest :
  integer_part text = Value (digits, rest) -> (length rest < length text)%nat.
Proof.
  destruct text as [|c text]; [done|]. cbn [integer_part]. destruct (bool_decide _).
  - destruct text as [|d text]; [intros [= _ <-]; cbn; lia|]. destruct (is_digit d); [done|].
    intros [= _ <-]. cbn. lia.
  - cbn [span_digits]. destruct (is_digit c); [|done]. pose proof (span_digits_length text).
    destruct (span_digits text) as [ds r]. intros [= _ <-]. cbn in *. lia.
Qed.

Lemma fraction_part_length text fraction rest :
  fraction_part text = Value (fraction, rest) -> (length rest <= length text)%nat.
Proof.
  destruct text as [|c text]; [by intros [= _ <-]|]. cbn [fraction_part]. destruct (bool_decide _); [|by intros [= _ <-]].
  pose proof (span_digits_length text). destruct (span_digits text) as [ds r]. destruct (is_empty ds); [done|].
  intros [= _ <-]. cbn in *. lia.
Qed.

Lemma exponent_part_length text exponent rest :
  exponent_part text = Value (exponent, rest) -> (length rest <= length text)%nat.
Proof.
  destruct text as [|c text]; [by intros [= _ <-]|]. cbn [exponent_part]. destruct (_ || _); [|by intros [= _ <-]].
  match goal with |- context [let '(_, _) := ?x in _] => destruct x as [negative text'] eqn:E end.
  assert (length text' <= length text)%nat as Hle.
  { destruct text as [|s text2]; [by injection E as _ <-|].
    destruct (bool_decide _); [injection E as _ <-; cbn; lia|]. destruct (bool_decide _); injection E as _ <-; cbn; lia. }
  pose proof (span_digits_length text'). destruct (span_digits text') as [ds r]. destruct (is_empty ds); [done|].
  intros [= _ <-]. cbn in *. lia.
Qed.

Lemma ParseNumber_shorter text v rest :
  ParseNumber text = Value (v, rest) -> (length rest < length text)%nat.
Proof.
  unfold ParseNumber.
  match goal with |- context [let '(_, _) := ?x in _] => destruct x as [negative text'] eqn:E end.
  assert (length text' <= length text)%nat as Hle.
  { destruct text as [|c text2]; [by injection E as _ <-|]. destruct (bool_decide _); injection E as _ <-; cbn; lia. }
  destruct (integer_part text') as [[digits t1]|] eqn:E1; [|done]. apply integer_part_shorter in E1.
  destruct (fraction_part t1) as [[fraction t2]|] eqn:E2; [|done]. apply fraction_part_length in E2.
  destruct (exponent_part t2) as [[exponent t3]|] eqn:E3; [|done]. apply exponent_part_length in E3.
  match goal with |- match ?x with _ => _ end = _ -> _ => destruct x as [v'|]; [|done] end.
  intros [= _ <-]. lia.
Qed.

(** The result of a call that has fuel for its text: one that takes at least one character. *)
Definition decided {A} (p : Parser) (r : Parsed A) : Prop :=
  match r with
  | None => False
  | Some (Failed _) => True
  | Some (Value (_, p')) => (length (ps_text p') < length (ps_text p))%nat
  end.

Lemma decided_weaken {A} p q (r : Parsed A) :
  decided q r -> (length (ps_text q) <= length (ps_text p))%nat -> decided p r.
Proof. destruct r as [[[a p']|]|]; cbn; [lia|done..]. Qed.

Lemma skip_cons text c rest : SkipWhitespace text = c :: rest -> (length rest < length text)%nat.
Proof. intros H. pose proof (length_SkipWhitespace text) as Hl. rewrite H in Hl. cbn in Hl. lia. Qed.

Lemma ParseLiteral_decided literal v c p :
  literal <> [] -> ps_text p <> [] -> (length (ps_text p) <= length (ps_text c))%nat ->
  decided c (ParseLiteral literal v p).
Proof.
  intros Hl Hp Hle. unfold ParseLiteral. destruct (bool_decide _); [|done]. cbn. rewrite length_drop.
  destruct literal, (ps_text p); try done. cbn [length] in *. lia.
Qed.

Lemma parse_decided fuel :
  (forall depth p, (2 * length (ps_text p) + 1 <= fuel)%nat -> decided p (ParseValue limits fuel depth p)) /\
  (forall depth members p, (2 * length (ps_text p) + 2 <= fuel)%nat -> decided p (parse_members limits fuel depth members p)) /\
  (forall depth items p, (2 * length (ps_text p) + 2 <= fuel)%nat -> decided p (parse_items limits fuel depth items p)).
Proof.
  induction fuel as [|fuel (IHv & IHm & IHi)]; [split_and!; lia|]. split_and!.
  - intros depth p Hf. cbn [ParseValue]. destruct (_ <? _); [done|]. destruct (_ <=? _); [done|]. cbv zeta.
    destruct (SkipWhitespace (ps_text p)) as [|c text] eqn:Es; [done|]. apply skip_cons in Es as Hlt.
    pose proof (length_SkipWhitespace text) as Hskip.
    destruct (bool_decide _); [|destruct (bool_decide _); [|destruct (bool_decide _)]].
    + destruct (SkipWhitespace text) as [|c' text'] eqn:Es2; [|destruct (bool_decide _); [cbn in *; lia|]];
        (eapply decided_weaken; [apply IHm|]); cbn [ps_text length] in *; lia.
    + destruct (SkipWhitespace text) as [|c' text'] eqn:Es2; [|destruct (bool_decide _); [cbn in *; lia|]];
        (eapply decided_weaken; [apply IHi|]); cbn [ps_text length] in *; lia.
    + destruct (string_loop limits text []) as [[s rest]|] eqn:E; [|done]. apply string_loop_shorter in E. cbn. lia.
    + assert (length (c :: text) <= length (ps_text p))%nat by (cbn; lia).
      do 3 (destruct (bool_decide _); [by apply ParseLiteral_decided|]). destruct (_ || _); [|done].
      destruct (ParseNumber (c :: text)) as [[v rest]|] eqn:E; [|done]. apply ParseNumber_shorter in E. cbn in *. lia.
  - intros depth members p Hf. cbn [parse_members].
    destruct (SkipWhitespace (ps_text p)) as [|q text] eqn:Es; [done|]. apply skip_cons in Es. destruct (negb _); [done|].
    destruct (string_loop limits text []) as [[key rest]|] eqn:E; [|done]. apply string_loop_shorter in E.
    destruct (SkipWhitespace rest) as [|colon text2] eqn:Es2; [done|]. apply skip_cons in Es2. destruct (negb _); [done|].
    pose proof (IHv (depth + 1) (mkParser text2 (ps_items p))) as Hv. cbn [ps_text] in Hv. specialize (Hv ltac:(lia)).
    destruct (ParseValue _ _ _ _) as [[[value p2]|]|]; [|done..]. cbn [decided ps_text] in Hv.
    destruct (_ <=? _); [done|]. destruct (Contains _ _); [done|]. cbv zeta.
    destruct (SkipWhitespace (ps_text p2)) as [|c text3] eqn:Es3; [done|]. apply skip_cons in Es3.
    destruct (bool_decide _); [|destruct (bool_decide _); [cbn; lia|done]].
    eapply decided_weaken; [apply IHm|]; cbn; lia.
  - intros depth items p Hf. cbn [parse_items].
    pose proof (IHv (depth + 1) p ltac:(lia)) as Hv.
    destruct (ParseValue _ _ _ _) as [[[value p2]|]|]; [|done..]. cbn [decided] in Hv.
    destruct (_ <=? _); [done|]. cbv zeta.
    destruct (SkipWhitespace (ps_text p2)) as [|c text3] eqn:Es3; [done|]. apply skip_cons in Es3.
    destruct (bool_decide _); [|destruct (bool_decide _); [cbn; lia|done]].
    eapply decided_weaken; [apply IHi|]; cbn; lia.
Qed.
End Total.

(** ** What is accepted is within the limits *)

Section Sound.
Variable limits : ParseLimits.
Hypothesis Hstrings : 0 <= max_string_bytes limits.
Hypothesis Hmembers : 0 <= max_object_members limits.
Hypothesis Hitems : 0 <= max_array_items limits.

Lemma string_loop_bounded text : forall acc s rest,
  blen acc <= max_string_bytes limits ->
  string_loop limits text acc = Value (s, rest) -> blen s <= max_string_bytes limits.
Proof.
  induction text as [text IH] using (induction_ltof1 _ (@length byte)). unfold ltof in IH.
  intros acc s rest Hacc. destruct text as [|raw text]; [done|]. cbn [string_loop].
  assert (forall text' acc', (length text' <= length text)%nat ->
    (if too_long limits acc' then Failed string_too_long else string_loop limits text' acc') = Value (s, rest) ->
    blen s <= max_string_bytes limits) as Hgo.
  { intros text' acc' Hle. unfold too_long. destruct (Z.ltb_spec (max_string_bytes limits) (blen acc')); [done|].
    intros H'. eapply (IH text'); [cbn; lia| |exact H']. lia. }
  destruct (_ <? _); [done|]. destruct (bool_decide _); [by intros [= <- _]|].
  destruct (bool_decide _); [|by apply Hgo].
  destruct text as [|e text]; [done|]. destruct (simple_escape e); [apply Hgo; cbn; lia|].
  destruct (negb _); [done|]. destruct text as [|a [|b [|c [|d text]]]]; try done.
  destruct (ParseHex4 a b c d) as [first|]; [|done].
  destruct (_ && _).
  - destruct text as [|s1 [|s2 text]]; try done. destruct (_ || _); [done|].
    destruct text as [|a2 [|b2 [|c2 [|d2 text]]]]; try done. destruct (ParseHex4 a2 b2 c2 d2); [|done].
    destruct (_ || _); [done|]. destruct (AppendCodePoint _); [|done]. apply Hgo. cbn. lia.
  - destruct (_ && _); [done|]. destruct (AppendCodePoint _); [|done]. apply Hgo. cbn. lia.
Qed.

Lemma digits_value_nonneg digits : forall acc, 0 <= acc -> forallb is_digit digits = true -> 0 <= digits_value acc digits.
Proof.
  induction digits as [|c digits IH]; intros acc Ha Hd; [done|]. cbn [digits_value forallb] in *.
  apply andb_true_iff in Hd as [Hc Hd]. apply IH; [|done]. unfold is_digit, digit_value in *. bool_hyps. lia.
Qed.

Lemma span_digits_digits text : forallb is_digit (fst (span_digits text)) = true.
Proof.
  induction text as [|c text IH]; [done|]. cbn [span_digits]. destruct (is_digit c) eqn:E; [|done].
  destruct (span_digits text) as [ds rest]. cbn in *. by rewrite E.
Qed.

Lemma integer_part_digits text digits rest :
  integer_part text = Value (digits, rest) -> forallb is_digit digits = true.
Proof.
  destruct text as [|c text]; [done|]. cbn [integer_part].
  destruct (bool_decide_reflect (c = Byte.x30)) as [->|].
  - destruct text as [|d text]; [by intros [= <- _]|]. destruct (is_digit d); [done|]. by intros [= <- _].
  - destruct (is_digit c) eqn:E; [|done]. pose proof (span_digits_digits (c :: text)) as H.
    destruct (span_digits (c :: text)) as [ds r]. by intros [= <- _].
Qed.

Lemma integer_of_ok negative digits v depth :
  depth <= max_depth limits -> forallb is_digit digits = true -> integer_of negative digits = Value v ->
  json_ok limits depth v = true /\ json_count v = 1.
Proof.
  intros Hd Hdg. pose proof (digits_value_nonneg digits 0 ltac:(lia) Hdg). unfold integer_of.
  destruct negative.
  - destruct (Z.ltb_spec (- digits_value 0 digits) (- 2 ^ 63)); [done|]. intros [= <-]. split; [|done].
    cbn [json_ok]. unfold in_signed. change (2 ^ (64 - 1)) with (2 ^ 63). bool_goal; lia.
  - destruct (Z.ltb_spec (2 ^ 64 - 1) (digits_value 0 digits)); [done|].
    destruct (Z.leb_spec (digits_value 0 digits) (2 ^ 63 - 1)); intros [= <-]; (split; [|done]); cbn [json_ok];
      unfold in_signed; change (2 ^ (64 - 1)) with (2 ^ 63); bool_goal; lia.
Qed.

Lemma real_of_ok negative integer fraction exponent v depth :
  depth <= max_depth limits -> real_of negative integer fraction exponent = Value v ->
  json_ok limits depth v = true /\ json_count v = 1.
Proof.
  intros Hd. unfold real_of. cbv zeta.
  assert (digits_value 0 (integer ++ fraction) = 0 -> is_finite (strtod negative integer fraction exponent) = true) as Hz.
  { intros H. unfold strtod, double_of_ratio. rewrite H. by destruct (0 <=? _). }
  destruct (Z.eqb_spec (digits_value 0 (integer ++ fraction)) 0) as [E|E]; cbn [negb andb].
  - intros [= <-]. split; [|done]. cbn [json_ok]. rewrite Hz by done. bool_goal; [lia|done].
  - destruct (_ || _) eqn:Ef; [done|]. apply orb_false_iff in Ef as [_ Ef]. apply negb_false_iff in Ef.
    intros [= <-]. split; [|done]. cbn [json_ok]. rewrite Ef. bool_goal; [lia|done].
Qed.

Lemma ParseNumber_ok text v rest depth :
  depth <= max_depth limits -> ParseNumber text = Value (v, rest) ->
  json_ok limits depth v = true /\ json_count v = 1.
Proof.
  intros Hd. unfold ParseNumber. destruct (match text with [] => _ | _ => _ end) as [negative text'].
  destruct (integer_part text') as [[digits t1]|] eqn:E1; [|done]. apply integer_part_digits in E1.
  destruct (fraction_part t1) as [[fraction t2]|]; [|done]. destruct (exponent_part t2) as [[exponent t3]|]; [|done].
  destruct fraction as [fraction|], exponent as [exponent|]; cbv zeta;
    match goal with |- match ?x with _ => _ end = _ -> _ => destruct x as [v'|] eqn:Ev; [|done] end;
    intros [= <- _]; by (eapply real_of_ok + eapply integer_of_ok).
Qed.

(** A value that was parsed: within the limits, and counted. *)
Definition counted (depth : Z) (p : Parser) (v : Json) (p' : Parser) : Prop :=
  json_ok limits depth v = true /\ ps_items p' = ps_items p + json_count v /\ ps_items p' <= max_items limits.

(** The state of a loop over members: distinct bounded keys, values within the limits. *)
Definition members_ok (depth : Z) (members : list (bytes * Json)) : Prop :=
  blen members <= max_object_members limits /\ NoDup (map fst members) /\
  forallb (fun m : bytes * Json =>
    (blen (fst m) <=? max_string_bytes limits) && json_ok limits (depth + 1) (snd m)) members = true.
Definition items_ok (depth : Z) (items : list Json) : Prop :=
  blen items <= max_array_items limits /\ forallb (json_ok limits (depth + 1)) items = true.

Definition count_members (members : list (bytes * Json)) : Z :=
  sum_Z (map (fun m : bytes * Json => json_count (snd m)) members).

Lemma sum_Z_app l1 l2 : sum_Z (l1 ++ l2) = sum_Z l1 + sum_Z l2.
Proof. induction l1 as [|x l1 IH]; [done|]. cbn [app]. rewrite !sum_Z_cons, IH. lia. Qed.

Lemma find_member_in {A} key (members : list (bytes * A)) :
  find_member key members = None -> key ∉ map fst members.
Proof.
  induction members as [|[name value] members IH]; cbn [find_member map fst]; [intros _; apply not_elem_of_nil|].
  destruct (bool_decide_reflect (name = key)); [done|]. intros H. apply not_elem_of_cons. split; [done|]. by apply IH.
Qed.

Lemma members_ok_snoc depth members key value :
  members_ok depth members -> blen members < max_object_members limits -> Contains (JObject members) key = false ->
  blen key <= max_string_bytes limits -> json_ok limits (depth + 1) value = true ->
  members_ok depth (set_member key value members) /\
  count_members (set_member key value members) = count_members members + json_count value.
Proof.
  intros (H1 & H2 & H3) Hlt Hc Hk Hv. unfold Contains, Find in Hc. cbn [json_members] in Hc.
  apply bool_decide_eq_false in Hc. destruct (find_member key members) eqn:E; [destruct Hc; by eexists|].
  apply find_member_in in E. rewrite set_member_new by done. unfold members_ok, count_members.
  rewrite blen_app, !map_app, forallb_app, sum_Z_app, H3. cbn [map forallb fst snd andb].
  rewrite sum_Z_cons, blen_cons, blen_nil. change (sum_Z []) with 0. split; [|lia]. split; [lia|].
  split; [|rewrite Hv; bool_goal; done || lia]. apply NoDup_app. split; [done|]. split; [|apply NoDup_singleton].
  intros x Hx Hx'. apply list_elem_of_singleton in Hx'. by subst.
Qed.

Lemma members_ok_object depth members :
  depth <= max_depth limits -> members_ok depth members ->
  json_ok limits depth (JObject members) = true /\ json_count (JObject members) = 1 + count_members members.
Proof.
  intros Hd (H1 & H2 & H3). split; [|done]. cbn [json_ok]. rewrite H3. rewrite bool_decide_eq_true_2 by done.
  bool_goal; try done; lia.
Qed.

Lemma items_ok_array depth items :
  depth <= max_depth limits -> items_ok depth items ->
  json_ok limits depth (JArray items) = true /\ json_count (JArray items) = 1 + sum_Z (map json_count items).
Proof. intros Hd (H1 & H2). split; [|done]. cbn [json_ok]. rewrite H2. bool_goal; try done; lia. Qed.

Lemma items_ok_snoc depth items value :
  items_ok depth items -> blen items < max_array_items limits -> json_ok limits (depth + 1) value = true ->
  items_ok depth (items ++ [value]) /\
  sum_Z (map json_count (items ++ [value])) = sum_Z (map json_count items) + json_count value.
Proof.
  intros (H1 & H2) Hlt Hv. unfold items_ok. rewrite blen_app, map_app, forallb_app, sum_Z_app, H2.
  cbn [map forallb]. rewrite sum_Z_cons, Hv, blen_cons, blen_nil. change (sum_Z []) with 0.
  split; [split; [lia|done]|lia].
Qed.

Lemma ParseLiteral_inv literal w p v p' :
  ParseLiteral literal w p = Some (Value (v, p')) -> v = w /\ ps_items p' = ps_items p.
Proof. unfold ParseLiteral. destruct (bool_decide _); [|done]. by intros [= <- <-]. Qed.

(** What each of the three functions guarantees with some fuel. *)
Definition value_sound (fuel : nat) : Prop := forall depth p v p',
  ParseValue limits fuel depth p = Some (Value (v, p')) -> counted depth p v p'.
Definition members_sound (fuel : nat) : Prop := forall depth members p v p',
  depth <= max_depth limits -> members_ok depth members -> ps_items p <= max_items limits ->
  parse_members limits fuel depth members p = Some (Value (v, p')) ->
  json_ok limits depth v = true /\ ps_items p' + count_members members + 1 = ps_items p + json_count v /\
  ps_items p' <= max_items limits.
Definition items_sound (fuel : nat) : Prop := forall depth items p v p',
  depth <= max_depth limits -> items_ok depth items -> ps_items p <= max_items limits ->
  parse_items limits fuel depth items p = Some (Value (v, p')) ->
  json_ok limits depth v = true /\ ps_items p' + sum_Z (map json_count items) + 1 = ps_items p + json_count v /\
  ps_items p' <= max_items limits.

Lemma value_sound_step fuel : members_sound fuel -> items_sound fuel -> value_sound (S fuel).
Proof.
  intros IHm IHi. intros depth p v p'. cbn [ParseValue]. unfold counted.
  destruct (Z.ltb_spec (max_depth limits) depth) as [|Hd]; [done|].
  destruct (Z.leb_spec (max_items limits) (ps_items p)) as [|Hi]; [done|]. cbv zeta.
  assert (members_ok depth [] /\ items_ok depth []) as [Hm0 Hi0]
    by (split; [split_and!; [done|apply NoDup_nil_2|done]|done]).
  destruct (members_ok_object depth [] Hd Hm0) as [Ho0 _]. destruct (items_ok_array depth [] Hd Hi0) as [Ha0 _].
  assert (forall text, parse_members limits fuel depth [] (mkParser text (ps_items p + 1)) = Some (Value (v, p')) ->
    json_ok limits depth v = true /\ ps_items p' = ps_items p + json_count v /\ ps_items p' <= max_items limits) as Hgm.
  { intros text H. apply IHm in H as (H1 & H2 & H3); [|done..|cbn; lia]. cbn [ps_items] in H2.
    change (count_members []) with 0 in H2. split_and!; [done|lia|done]. }
  assert (forall text, parse_items limits fuel depth [] (mkParser text (ps_items p + 1)) = Some (Value (v, p')) ->
    json_ok limits depth v = true /\ ps_items p' = ps_items p + json_count v /\ ps_items p' <= max_items limits) as Hgi.
  { intros text H. apply IHi in H as (H1 & H2 & H3); [|done..|cbn; lia]. cbn [ps_items] in H2.
    change (sum_Z (map json_count [])) with 0 in H2. split_and!; [done|lia|done]. }
  destruct (SkipWhitespace (ps_text p)) as [|c text]; [done|].
  destruct (bool_decide _); [|destruct (bool_decide _); [|destruct (bool_decide _)]].
  - destruct (SkipWhitespace text) as [|c' text']; [apply Hgm|]. destruct (bool_decide _); [|apply Hgm].
    intros [= <- <-]. cbn [ps_items json_count map sum_Z foldr]. split_and!; [done|lia|lia].
  - destruct (SkipWhitespace text) as [|c' text']; [apply Hgi|]. destruct (bool_decide _); [|apply Hgi].
    intros [= <- <-]. cbn [ps_items json_count map sum_Z foldr]. split_and!; [done|lia|lia].
  - destruct (string_loop limits text []) as [[s rest]|] eqn:E; [|done].
    apply string_loop_bounded in E; [|by rewrite blen_nil]. intros [= <- <-]. cbn [json_ok json_count ps_items].
    split_and!; [bool_goal; lia|lia|lia].
  - do 3 (destruct (bool_decide _); [intros H; apply ParseLiteral_inv in H as [-> ->]; cbn [json_ok json_count ps_items];
      split_and!; [bool_goal; done || lia|lia|lia]|]).
    destruct (_ || _); [|done]. destruct (ParseNumber (c :: text)) as [[w rest]|] eqn:E; [|done].
    apply (ParseNumber_ok _ _ _ depth Hd) in E as [E1 E2]. intros [= <- <-]. cbn [ps_items].
    rewrite E2. split_and!; [done|lia|lia].
Qed.

Lemma members_sound_step fuel : value_sound fuel -> members_sound fuel -> members_sound (S fuel).
Proof.
  intros IHv IHm. intros depth members p v p' Hd Hm Hp. cbn [parse_members].
  destruct (SkipWhitespace (ps_text p)) as [|q text]; [done|]. destruct (negb _); [done|].
  destruct (string_loop limits text []) as [[key rest]|] eqn:E; [|done].
  apply string_loop_bounded in E; [|by rewrite blen_nil].
  destruct (SkipWhitespace rest) as [|colon text2]; [done|]. destruct (negb _); [done|].
  destruct (ParseValue _ _ _ _) as [[[value p2]|]|] eqn:Ev; [|done..]. apply IHv in Ev as (Hv1 & Hv2 & Hv3).
  destruct (Z.leb_spec (max_object_members limits) (blen members)) as [|Hlt]; [done|].
  destruct (Contains _ _) eqn:Ec; [done|]. cbv zeta. cbn [ps_items] in Hv2.
  destruct (members_ok_snoc depth members key value Hm Hlt Ec E Hv1) as [Hm' Hcnt].
  destruct (SkipWhitespace (ps_text p2)) as [|c text3]; [done|]. destruct (bool_decide _).
  - intros H. apply IHm in H as (H1 & H2 & H3); [|done..]. cbn [ps_items] in H2. split_and!; [done|lia|done].
  - destruct (bool_decide _); [|done]. intros [= <- <-]. destruct (members_ok_object depth _ Hd Hm') as [H1 ->].
    cbn [ps_items]. split_and!; [done|lia|done].
Qed.

Lemma items_sound_step fuel : value_sound fuel -> items_sound fuel -> items_sound (S fuel).
Proof.
  intros IHv IHi. intros depth items p v p' Hd Hm Hp. cbn [parse_items].
  destruct (ParseValue _ _ _ _) as [[[value p2]|]|] eqn:Ev; [|done..]. apply IHv in Ev as (Hv1 & Hv2 & Hv3).
  destruct (Z.leb_spec (max_array_items limits) (blen items)) as [|Hlt]; [done|]. cbv zeta.
  destruct (items_ok_snoc depth items value Hm Hlt Hv1) as [Hm' Hcnt].
  destruct (SkipWhitespace (ps_text p2)) as [|c text3]; [done|]. destruct (bool_decide _).
  - intros H. apply IHi in H as (H1 & H2 & H3); [|done..]. cbn [ps_items] in H2. split_and!; [done|lia|done].
  - destruct (bool_decide _); [|done]. intros [= <- <-]. destruct (items_ok_array depth _ Hd Hm') as [H1 ->].
    cbn [ps_items]. split_and!; [done|lia|done].
Qed.

Lemma parse_sound fuel : value_sound fuel /\ members_sound fuel /\ items_sound fuel.
Proof.
  induction fuel as [|fuel (IHv & IHm & IHi)]; [done|].
  split_and!; [by apply value_sound_step|by apply members_sound_step|by apply items_sound_step].
Qed.
End Sound.

(** ** The canonical order of members *)

(** A value with the members of every object in the order of their keys. *)
Fixpoint canonical (v : Json) : Json :=
  match v with
  | JArray items => JArray (map canonical items)
  | JObject members =>
    JObject (sort_members (map (fun m : bytes * Json => (fst m, canonical (snd m))) members))
  | _ => v
  end.

Definition on_values {A C} (f : A -> C) (members : list (bytes * A)) : list (bytes * C) :=
  map (fun m => (fst m, f (snd m))) members.

Lemma sort_members_values {A C} (f : A -> C) members :
  sort_members (on_values f members) = on_values f (sort_members members).
Proof.
  unfold sort_members, on_values. induction members as [|m members IH]; [done|]. cbn [map foldr]. rewrite IH.
  generalize (foldr insert_member [] members) as l. clear IH.
  induction l as [|x l IH]; [done|]. cbn [map insert_member fst]. destruct (bytes_ltb _ _); [|done].
  cbn [map]. by rewrite IH.
Qed.

Lemma insert_member_perm {A} (m : bytes * A) l : insert_member m l ≡ₚ m :: l.
Proof.
  induction l as [|x l IH]; [done|]. cbn [insert_member]. destruct (bytes_ltb _ _); [|done].
  rewrite IH. constructor.
Qed.

Lemma sort_members_perm {A} (members : list (bytes * A)) : sort_members members ≡ₚ members.
Proof.
  induction members as [|m members IH]; [done|].
  change (insert_member m (sort_members members) ≡ₚ m :: members). by rewrite insert_member_perm, IH.
Qed.

Lemma map_fst_values {A C} (f : A -> C) members : map fst (on_values f members) = map fst members.
Proof. unfold on_values. by rewrite map_map. Qed.

(** The canonical printer prints the canonical value. *)
Lemma DumpValue_canonical indent v : forall depth,
  DumpValue indent depth true v = DumpValue indent depth false (canonical v).
Proof.
  induction v as [| | | | | |items IH|members IH] using json_ind'; intros depth; try done.
  - assert (map (fun item => AppendIndent indent (depth + 1) ++ DumpValue indent (depth + 1) true item) items =
      map (fun item => AppendIndent indent (depth + 1) ++ DumpValue indent (depth + 1) false item) (map canonical items)) as Hp.
    { rewrite map_map. induction IH as [|x l Hx Hl IHl]; [done|]. cbn [map]. by rewrite Hx, IHl. }
    cbn [canonical DumpValue]. destruct (_ <? _); [done|]. destruct items as [|x l]; [done|].
    rewrite Hp. reflexivity.
  - cbn [canonical]. change (map (fun m : bytes * Json => (fst m, canonical (snd m))) members) with (on_values canonical members).
    assert (on_values (DumpValue indent (depth + 1) true) members =
            on_values (DumpValue indent (depth + 1) false) (on_values canonical members)) as Hp.
    { unfold on_values. rewrite map_map. induction IH as [|m l Hm Hl IHl]; [done|]. cbn [map fst snd]. by rewrite Hm, IHl. }
    cbn [DumpValue]. destruct (_ <? _); [done|].
    destruct members as [|m l]; [done|]. cbv zeta. fold (on_values (DumpValue indent (depth + 1) true) (m :: l)).
    rewrite Hp, sort_members_values.
    destruct (sort_members (on_values canonical (m :: l))) as [|m' l'] eqn:E; [|done].
    pose proof (sort_members_perm (on_values canonical (m :: l))) as Hperm. rewrite E in Hperm.
    by apply Permutation_nil in Hperm.
Qed.

Lemma forallb_perm {A} (f : A -> bool) l1 l2 : l1 ≡ₚ l2 -> forallb f l1 = forallb f l2.
Proof.
  induction 1 as [|x l1 l2 _ IH|x y l|l1 l2 l3 _ IH1 _ IH2]; cbn [forallb]; [done|by rewrite IH| |congruence].
  by rewrite !andb_assoc, (andb_comm (f y)).
Qed.

Lemma forallb_map_ext {A C} (f : C -> bool) (g : A -> bool) (h : A -> C) l :
  Forall (fun x => f (h x) = g x) l -> forallb f (map h l) = forallb g l.
Proof. induction 1 as [|x l Hx _ IH]; [done|]. cbn [map forallb]. by rewrite Hx, IH. Qed.

Lemma sum_Z_perm l1 l2 : l1 ≡ₚ l2 -> sum_Z l1 = sum_Z l2.
Proof.
  induction 1 as [|x l1 l2 _ IH|x y l|l1 l2 l3 _ IH1 _ IH2]; rewrite ?sum_Z_cons; [done|by rewrite IH|lia|congruence].
Qed.

Lemma canonical_count v : json_count (canonical v) = json_count v.
Proof.
  induction v as [| | | | | |items IH|members IH] using json_ind'; try done; cbn [canonical json_count]; f_equal.
  - rewrite map_map. f_equal. by apply List.map_ext_Forall.
  - rewrite (sum_Z_perm _ (map (fun m => json_count (snd m)) (on_values canonical members)))
      by (apply Permutation_map, sort_members_perm).
    unfold on_values. rewrite map_map. f_equal. by apply List.map_ext_Forall.
Qed.

Lemma canonical_no_reals v : no_reals (canonical v) = no_reals v.
Proof.
  induction v as [| | | | | |items IH|members IH] using json_ind'; try done; cbn [canonical no_reals].
  - by apply forallb_map_ext.
  - rewrite (forallb_perm _ _ _ (sort_members_perm _)). by apply forallb_map_ext.
Qed.

Lemma canonical_ok limits v : forall depth, json_ok limits depth (canonical v) = json_ok limits depth v.
Proof.
  induction v as [| | | | | |items IH|members IH] using json_ind'; intros depth; try done; cbn [canonical json_ok]; f_equal.
  - unfold blen. rewrite length_map. f_equal. apply forallb_map_ext.
    eapply Forall_impl; [exact IH|]. by intros x Hx.
  - change (map (fun m : bytes * Json => (fst m, canonical (snd m))) members) with (on_values canonical members).
    pose proof (sort_members_perm (on_values canonical members)) as Hp. f_equal; [f_equal|].
    + unfold blen. rewrite Hp. unfold on_values. by rewrite length_map.
    + apply bool_decide_ext. rewrite (Permutation_map fst Hp), map_fst_values. done.
    + rewrite (forallb_perm _ _ _ Hp). unfold on_values. apply forallb_map_ext.
      eapply Forall_impl; [exact IH|]. intros x Hx. cbn [fst snd]. by rewrite Hx.
Qed.

(** Members in order are left in order; distinct keys have one order. *)
Lemma insert_member_sorted {A} key (value : A) l :
  key ∉ map fst l -> om_sorted l = true -> insert_member (key, value) l = om_insert key value l.
Proof.
  induction l as [|[k v] l IH]; [done|]. cbn [map fst]. rewrite not_elem_of_cons. intros [Hne Hnin] Hs.
  apply om_sorted_cons in Hs as [_ Hs]. cbn [insert_member om_insert fst].
  change (bytes_ltb k key) with (key_ltb k key).
  destruct (key_ltb k key) eqn:E1; destruct (key_ltb key k) eqn:E2; try done.
  - rewrite (key_ltb_asym _ _ E1) in E2. done.
  - by rewrite IH.
  - by destruct (Hne (key_ltb_total _ _ E2 E1)).
Qed.

Lemma sort_members_sorted {A} (members : list (bytes * A)) :
  NoDup (map fst members) -> om_sorted (sort_members members) = true.
Proof.
  induction members as [|[key value] members IH]; [done|]. cbn [map fst]. rewrite NoDup_cons. intros [Hnin Hnd].
  change (sort_members ((key, value) :: members)) with (insert_member (key, value) (sort_members members)).
  rewrite insert_member_sorted; [by apply om_sorted_insert, IH| |by apply IH].
  by rewrite (Permutation_map fst (sort_members_perm members)).
Qed.

Lemma sorted_perm_eq {A} (l1 l2 : list (bytes * A)) :
  om_sorted l1 = true -> om_sorted l2 = true -> l1 ≡ₚ l2 -> l1 = l2.
Proof.
  intros H1 H2 Hp. apply om_ext; [done..|]. intros k.
  destruct (om_find k l1) as [v|] eqn:E1.
  - apply om_find_Some_in in E1. rewrite Hp in E1. symmetry. by apply om_find_in.
  - destruct (om_find k l2) as [v|] eqn:E2; [|done].
    apply om_find_Some_in in E2. rewrite <- Hp in E2. rewrite (om_find_in _ _ _ H1 E2) in E1. done.
Qed.

Lemma sort_members_unique {A} (l1 l2 : list (bytes * A)) :
  NoDup (map fst l1) -> l1 ≡ₚ l2 -> sort_members l1 = sort_members l2.
Proof.
  intros Hnd Hp. apply sorted_perm_eq.
  - by apply sort_members_sorted.
  - apply sort_members_sorted. by rewrite <- Hp.
  - by rewrite !sort_members_perm.
Qed.

Lemma sort_members_id {A} (l : list (bytes * A)) : om_sorted l = true -> sort_members l = l.
Proof.
  intros H. apply sorted_perm_eq; [|done|apply sort_members_perm]. apply sort_members_sorted.
  rewrite <- os_sorted_keys in H. by apply os_sorted_NoDup.
Qed.

(** Values that differ only in the order in which members were set. *)
Inductive json_equiv : Json -> Json -> Prop :=
| JE_refl v : json_equiv v v
| JE_array items items' : Forall2 json_equiv items items' -> json_equiv (JArray items) (JArray items')
| JE_object members mid members' :
    NoDup (map fst members) -> map fst members = map fst mid ->
    Forall2 json_equiv (map snd members) (map snd mid) -> mid ≡ₚ members' ->
    json_equiv (JObject members) (JObject members').

Lemma canonical_equiv v : forall w, json_equiv v w -> canonical v = canonical w.
Proof.
  induction v as [| | | | | |items IH|members IH] using json_ind'; intros w Hw; inversion Hw; subst; try done.
  - cbn [canonical]. f_equal. match goal with H : Forall2 _ items _ |- _ => revert H end. clear Hw.
    intros H. induction H as [|x y l l' Hxy _ IHl]; [done|]. apply Forall_cons in IH as [Hx IH]. cbn [map].
    by rewrite (Hx _ Hxy), IHl.
  - cbn [canonical]. f_equal.
    change (sort_members (on_values canonical members) = sort_members (on_values canonical members')).
    transitivity (sort_members (on_values canonical mid)).
    + f_equal. match goal with H : Forall2 _ _ _, H' : map fst members = _ |- _ => revert H H' end. clear - IH.
      revert mid. induction members as [|[k v] l IHl]; intros [|[k' v'] mid]; cbn; try done.
      intros Hf [= -> Hk]. apply Forall_cons in IH as [Hv IH]. apply Forall2_cons in Hf as [Hvv Hf].
      cbn [snd] in Hv. rewrite (Hv _ Hvv). f_equal. by apply IHl.
    + apply sort_members_unique; [rewrite map_fst_values; congruence|]. unfold on_values. by apply Permutation_map.
Qed.

(** ** Theorems *)


(** What a parsed value respects. *)
Lemma Parse_ok limits text v :
  0 <= max_string_bytes limits -> 0 <= max_object_members limits -> 0 <= max_array_items limits ->
  Parse text limits = Some (Value v) ->
  json_ok limits 0 v = true /\ json_count v <= max_items limits /\ 0 < blen text <= max_bytes limits.
Proof.
  intros H1 H2 H3. unfold Parse, Run. destruct (is_empty text) eqn:Ee; [done|].
  destruct (Z.ltb_spec (max_bytes limits) (blen text)) as [|Hlen]; [done|].
  destruct (ParseValue _ _ _ _) as [[[w p]|status]|] eqn:E; [|done|done].
  apply (parse_sound limits H1 H2 H3) in E as (Hok & Hcnt & Hmax). cbn [ps_items] in Hcnt.
  destruct (is_empty (SkipWhitespace (ps_text p))); [|done]. intros [= <-].
  split; [done|]. split; [lia|]. split; [|done]. unfold is_empty in Ee. apply bool_decide_eq_false in Ee.
  destruct text; [done|]. rewrite blen_cons. pose proof (blen_nonneg text). lia.
Qed.

(** C36. Parsing decides every text: whatever the bytes, the parser ends with an error or with a
    value, and a value it returns respects every limit: nesting, number of values, sizes of
    strings, arrays and objects, distinct keys, integers in range, finite doubles. *)
Theorem json_parse_total limits text :
  0 <= max_string_bytes limits -> 0 <= max_object_members limits -> 0 <= max_array_items limits ->
  exists r, Parse text limits = Some r /\
  forall v, r = Value v ->
    json_ok limits 0 v = true /\ json_count v <= max_items limits /\ 0 < blen text <= max_bytes limits.
Proof.
  intros H1 H2 H3. assert (exists r, Parse text limits = Some r) as [r Hr].
  { unfold Parse, Run. destruct (is_empty text); [by eexists|]. destruct (_ <? _); [by eexists|].
    destruct (parse_decided limits (parse_fuel text)) as (Hdec & _).
    specialize (Hdec 0 (mkParser text 0)). unfold parse_fuel in *. cbn [ps_text] in Hdec. specialize (Hdec ltac:(lia)).
    destruct (ParseValue _ _ _ _) as [[[v p]|status]|]; [|by eexists|done]. destruct (is_empty _); by eexists. }
  exists r. split; [done|]. intros v ->. by apply Parse_ok.
Qed.

(** Canonical texts identify values: values that differ only in the order in which their
    members were set have the same canonical text, and within the parser's limits equal
    canonical texts mean equal values up to that order. *)
Theorem json_canonical_text limits indent v w :
  max_depth limits <= kDumpDepthLimit ->
  (json_equiv v w -> DumpCanonical indent v = DumpCanonical indent w) /\
  (json_ok limits 0 v && no_reals v && (json_count v <=? max_items limits) &&
     (blen (DumpCanonical indent v) <=? max_bytes limits) = true ->
   json_ok limits 0 w && no_reals w && (json_count w <=? max_items limits) = true ->
   DumpCanonical indent v = DumpCanonical indent w -> canonical v = canonical w).
Proof.
  intros Hd. unfold DumpCanonical. rewrite !DumpValue_canonical. split; [intros H; by rewrite (canonical_equiv v w)|].
  intros Hv Hw Heq. bool_hyps.
  assert (forall u, json_ok limits 0 u = true -> no_reals u = true -> json_count u <= max_items limits ->
    DumpValue indent 0 false (canonical u) = DumpValue indent 0 false (canonical v) ->
    Parse (DumpValue indent 0 false (canonical v)) limits = Some (Value (canonical u))) as Hp.
  { intros u Hok Hr Hc Hu. rewrite <- Hu. apply Parse_Dump;
      [done|by rewrite canonical_ok|by rewrite canonical_no_reals|by rewrite canonical_count|].
    unfold Dump. by rewrite Hu. }
  pose proof (Hp v ltac:(done) ltac:(done) ltac:(done) eq_refl) as Hpv.
  pose proof (Hp w ltac:(done) ltac:(done) ltac:(done) (eq_sym Heq)) as Hpw. congruence.
Qed.

(** ** Examples *)

Definition example_json : Json :=
  JObject [(B "name", JText (B "port/eth1" ++ [Byte.x09; Byte.x22])); (B "generation", JUnsigned (2 ^ 64 - 1));
           (B "deltas", JArray [JInteger (-5); JNull; JBoolean true; JObject []])].
Definition example_json_reordered : Json :=
  JObject [(B "deltas", JArray [JInteger (-5); JNull; JBoolean true; JObject []]);
           (B "name", JText (B "port/eth1" ++ [Byte.x09; Byte.x22])); (B "generation", JUnsigned (2 ^ 64 - 1))].


Lemma json_parse_total_witness : exists r, Parse (B "[1, 2") default_parse_limits = Some r.
Proof.
  destruct (json_parse_total default_parse_limits (B "[1, 2")) as (r & H & _).
  - vm_compute. discriminate.
  - vm_compute. discriminate.
  - vm_compute. discriminate.
  - exists r. exact H.
Defined.

Lemma json_canonical_text_witness : DumpCanonical 2 example_json = DumpCanonical 2 example_json_reordered.
Proof.
  apply (json_canonical_text default_parse_limits).
  - vm_compute. discriminate.
  - apply (JE_object _ [(B "name", JText (B "port/eth1" ++ [Byte.x09; Byte.x22])); (B "generation", JUnsigned (2 ^ 64 - 1));
           (B "deltas", JArray [JInteger (-5); JNull; JBoolean true; JObject []])]).
    + apply (bool_decide_unpack _). vm_compute. exact I.
    + reflexivity.
    + repeat constructor.
    + apply Permutation_sym, (Permutation_middle [_; _] []).
Defined.

(** A double whose value is an integer is printed as an integer, and is read back as one. *)
Example integral_double_text : Parse (Dump 0 (JReal (double_of_Z 100))) default_parse_limits = Some (Value (JInteger 100)).
Proof. vm_compute. reflexivity. Qed.

(** 2^63 passes the range test of [AsInteger], whose bound is rounded up to it, and 2^64 that of
    [AsUnsigned]: the conversion is undefined. *)
Example integer_bound_rounds_up :
  AsInteger (JReal (double_of_Z (2 ^ 63))) 0 = None /\ AsUnsigned (JReal (double_of_Z (2 ^ 64))) 0 = None.
Proof. vm_compute. done. Qed.

(** [%.17g] and the nearest double. *)
Example real_texts :
  map (fun text => match Parse text default_parse_limits with Some (Value v) => Dump 0 v | _ => [] end)
    [B "0.1"; B "1e300"; B "1E-7"; B "-2.5e-3"; B "5e-324"; B "1e17"; B "1e309"; B "1e-400"] =
  [B "0.10000000000000001"; B "1.0000000000000001e+300"; B "9.9999999999999995e-08"; B "-0.0025000000000000001";
   B "4.9406564584124654e-324"; B "1e+17"; []; []].
Proof. vm_compute. reflexivity. Qed.
