(* ===== verification/DocumentJson.v ===== *)
(** * Documents as json (document_json.hpp, document_json.cpp)

    Every domain object printed as canonical json, and the five that are read from json: intents,
    submissions, policies, fences and verification evidence. *)

From Stdlib Require Import ZArith Lia.
From stdpp Require Import prelude.
From S2P Require Import Prelude OrdMap Hash Status Identity Canonical Value Policy Document Drift.
From S2P Require Import Authority Plan Lineage Journal Snapshot StoreState Store Engine Render Json JsonFacts.
Local Open Scope Z_scope.

(** ** Building objects *)

(** An object built by a sequence of [Set]. *)
Definition make_object (members : list (bytes * Json)) : Json :=
  foldl (fun v m => Set_ v (fst m) (snd m)) (JObject []) members.
(** An array built by a sequence of [Push]. *)
Definition make_array (items : list Json) : Json := foldl Push (JArray []) items.

(** Models [DigestJson], src/document_json.cpp:18-18. *)
Definition DigestJson (digest : bytes) : Json := JText (ToHex digest).

(** The single member that carries an attribute value. *)
Definition attribute_json (v : AttributeValue) : Json :=
  make_object
    [match v with
     | AV_Absent => (B "absent", JBoolean true)
     | AV_Boolean b => (B "bool", JBoolean b)
     | AV_Integer n => (B "i64", JInteger n)
     | AV_Unsigned n => (B "u64", JUnsigned n)
     | AV_Text text => (B "text", JText text)
     | AV_Token text => (B "token", JText text)
     | AV_Invalid => (B "invalid", JBoolean true)
     end].

(** Models [StateJson], src/document_json.cpp:20-49. *)
Definition StateJson (state : SubjectState) : Json :=
  make_object (map (fun attribute => (fst attribute, attribute_json (snd attribute))) state).

(** Models [EvidenceJson], src/document_json.cpp:179-179. *)
Definition EvidenceJson (value : EvidenceClass) : Json := JText (EvidenceClass_ToText value).

(** Models [ToJson], src/document_json.cpp:195-197: one subject of a document. *)
Definition subject_json (complete_attributes : bool) (state : SubjectState) : Json :=
  make_object [(B "complete_attributes", JBoolean complete_attributes); (B "attributes", StateJson state)].
Definition subjects_json {V} (complete_of : V -> bool) (state_of : V -> SubjectState)
    (subjects : list (bytes * V)) : Json :=
  make_object (map (fun entry => (fst entry, subject_json (complete_of (snd entry)) (state_of (snd entry)))) subjects).

(** ** Printing *)

(** Models [ToJson], src/document_json.cpp:184-200: the object that is printed. *)
Definition intent_json (d : IntentDocument) : Json :=
  make_object
    [(B "intent", JText (in_intent d)); (B "scope", JText (in_scope d));
     (B "definition", JText (in_definition d)); (B "generation", JUnsigned (in_generation d));
     (B "policy_version", JUnsigned (in_policy_version d)); (B "evidence", EvidenceJson (in_evidence d));
     (B "complete", JBoolean (in_complete d)); (B "digest", DigestJson (in_digest d));
     (B "subjects", subjects_json si_complete_attributes si_desired (in_subjects d))].

(** Models [ToJson], src/document_json.cpp:183-202. *)
Definition ToJson_intent (d : IntentDocument) : bytes := DumpCanonical 2 (intent_json d).

(** Models [ToJson], src/document_json.cpp:205-220: the object that is printed. *)
Definition submission_json (s : ObservationSubmission) : Json :=
  make_object
    [(B "observation", JText (su_observation s)); (B "scope", JText (su_scope s));
     (B "reporter", JText (su_reporter s)); (B "generation", JUnsigned (su_generation s));
     (B "evidence", EvidenceJson (su_evidence s)); (B "complete", JBoolean (su_complete s));
     (B "authoritative_absence", JBoolean (su_authoritative_absence s));
     (B "subjects", subjects_json so_complete_attributes so_observed (su_subjects s))].

(** Models [ToJson], src/document_json.cpp:204-222. *)
Definition ToJson_submission (s : ObservationSubmission) : bytes := DumpCanonical 2 (submission_json s).

(** Models [ToJson], src/document_json.cpp:224-245. *)
Definition ToJson_observation (d : ObservationDocument) : bytes :=
  DumpCanonical 2 (make_object
    [(B "observation", JText (ob_observation d)); (B "scope", JText (ob_scope d));
     (B "reporter", JText (ob_reporter d)); (B "generation", JUnsigned (ob_generation d));
     (B "evidence", EvidenceJson (ob_evidence d)); (B "complete", JBoolean (ob_complete d));
     (B "authoritative_absence", JBoolean (ob_authoritative_absence d));
     (B "received_epoch", JUnsigned (ob_received_epoch d));
     (B "received_unix_ms", JInteger (ob_received_unix_ms d)); (B "digest", DigestJson (ob_digest d));
     (B "subjects", subjects_json so_complete_attributes so_observed (ob_subjects d))]).

(** Models [ToJson], src/document_json.cpp:248-272: the object that is printed. *)
Definition policy_json (p : ReconciliationPolicy) : Json :=
  make_object
    [(B "id", JText (po_id p)); (B "version", JUnsigned (po_version p));
     (B "max_observation_age_ms", JInteger (max_observation_age_ms (freshness p)));
     (B "require_current_epoch", JBoolean (require_current_epoch (freshness p)));
     (B "require_complete_coverage_for_absence",
        JBoolean (require_complete_coverage_for_absence (freshness p)));
     (B "permit_apply_missing", JBoolean (permit_apply_missing p));
     (B "permit_apply_mismatched", JBoolean (permit_apply_mismatched p));
     (B "permit_withdraw_unexpected", JBoolean (permit_withdraw_unexpected p));
     (B "require_complete_coverage_for_convergence_proof",
        JBoolean (require_complete_coverage_for_convergence_proof p));
     (B "require_independent_verification", JBoolean (require_independent_verification p));
     (B "digest", DigestJson (ComputePolicyDigest p));
     (B "unmanaged_attributes", make_array (map JText (unmanaged_attributes p)));
     (B "observe_only_attributes", make_array (map JText (observe_only_attributes p)))].

(** Models [ToJson], src/document_json.cpp:247-274. *)
Definition ToJson_policy (p : ReconciliationPolicy) : bytes := DumpCanonical 2 (policy_json p).

Definition delta_json (d : AttributeDelta) : Json :=
  make_object
    [(B "key", JText (ad_key d)); (B "kind", JText (AttributeDeltaKind_ToText (ad_kind d)));
     (B "intended", JText (AttributeValue_Render (ad_intended d)));
     (B "observed", JText (AttributeValue_Render (ad_observed d)))].

(** Models [ToJson], src/document_json.cpp:276-304. *)
Definition ToJson_report (r : ClassificationReport) : bytes :=
  DumpCanonical 2 (make_object
    [(B "scope", JText (cr_scope r)); (B "has_intent", JBoolean (ev_has_intent (cr_evidence r)));
     (B "has_observation", JBoolean (ev_has_observation (cr_evidence r)));
     (B "freshness", JText (FreshnessVerdict_ToText (ev_freshness (cr_evidence r))));
     (B "subject_visits", JUnsigned (cr_subject_visits r));
     (B "attribute_comparisons", JUnsigned (cr_attribute_comparisons r));
     (B "records", make_array (map (fun record => make_object
        [(B "subject", JText (dr_subject record)); (B "drift", JText (DriftClass_ToText (dr_drift record)));
         (B "reason", JText (ReasonCode_ToText (dr_reason record)));
         (B "deltas", make_array (map delta_json (dr_deltas record)))]) (cr_records r)))]).

Definition step_json (step : ExplanationStep) : Json :=
  make_object [(B "code", JText (ReasonCode_ToText (xs_code step))); (B "detail", JText (xs_detail step))].

Definition decision_json (d : Decision) : Json :=
  make_object
    [(B "subject", JText (de_subject d)); (B "drift", JText (DriftClass_ToText (de_drift d)));
     (B "reason", JText (ReasonCode_ToText (de_reason d)));
     (B "action", JText (ActionKind_ToText (de_action d)));
     (B "disposition", JText (DecisionDisposition_ToText (de_disposition d)));
     (B "idempotency_key", DigestJson (de_idempotency_key d));
     (B "authority", JText (AuthorityVector_Render (de_authority d)));
     (B "explanation", make_array (map step_json (ex_steps (de_explanation d))))].

(** Models [ToJson], src/document_json.cpp:306-361. *)
Definition ToJson_plan (p : ReconciliationPlan) : bytes :=
  DumpCanonical 2 (make_object
    [(B "plan_id", JText (pl_plan_id p)); (B "scope", JText (pl_scope p));
     (B "definition", JText (pl_definition p)); (B "epoch", JUnsigned (pl_epoch p));
     (B "boot", JText (HexOf (pl_boot p))); (B "policy", JText (pl_policy_id p));
     (B "policy_version", JUnsigned (pl_policy_version p)); (B "policy_digest", DigestJson (pl_policy_digest p));
     (B "intent", JText (pl_intent p)); (B "intent_generation", JUnsigned (pl_intent_generation p));
     (B "intent_digest", DigestJson (pl_intent_digest p)); (B "observation", JText (pl_observation p));
     (B "observation_generation", JUnsigned (pl_observation_generation p));
     (B "observation_reporter", JText (pl_reporter p));
     (B "observation_digest", DigestJson (pl_observation_digest p));
     (B "observation_epoch", JUnsigned (pl_observation_epoch p));
     (B "observation_received_unix_ms", JInteger (pl_observation_received_unix_ms p));
     (B "freshness", JText (FreshnessVerdict_ToText (pl_freshness p)));
     (B "verdict", JText (ConvergenceVerdict_ToText (pl_verdict p)));
     (B "scope_reason", JText (ReasonCode_ToText (pl_scope_reason p)));
     (B "evidence", EvidenceJson (pl_evidence p)); (B "truncated", JBoolean (pl_truncated p));
     (B "mutation_count", JUnsigned (MutationCount p));
     (B "scope_explanation", make_array (map step_json (ex_steps (pl_scope_explanation p))));
     (B "decisions", make_array (map decision_json (pl_decisions p)))]).

(** Models [ToJson], src/document_json.cpp:363-389. *)
Definition ToJson_boot_report (r : BootReport) : bytes :=
  DumpCanonical 2 (make_object
    [(B "store", JText (HexOf (br_store r))); (B "boot", JText (HexOf (br_boot r)));
     (B "epoch", JUnsigned (br_epoch r)); (B "previous_epoch", JUnsigned (br_previous_epoch r));
     (B "store_created", JBoolean (br_store_created r)); (B "snapshot_loaded", JBoolean (br_snapshot_loaded r));
     (B "recovered_torn_tail", JBoolean (br_recovered_torn_tail r));
     (B "recovered_bytes", JUnsigned (br_recovered_bytes r));
     (B "records_replayed", JUnsigned (br_records_replayed r));
     (B "attempts_restored", JUnsigned (br_attempts_restored r));
     (B "attempts_interrupted", JUnsigned (br_attempts_interrupted r));
     (B "attempts_abandoned", JUnsigned (br_attempts_abandoned r));
     (B "attempts_fenced", JUnsigned (br_attempts_fenced r));
     (B "observations_retained", JUnsigned (br_observations_retained r));
     (B "outcomes_retained", JUnsigned (br_outcomes_retained r));
     (B "fences_active", JUnsigned (br_fences_active r));
     (B "freshness_restored", JBoolean (br_freshness_restored r));
     (B "mutation_authority_restored", JBoolean (br_mutation_authority_restored r));
     (B "notes", make_array (map (fun note => JText (ReasonCode_ToText note)) (br_notes r)))]).

(** Models [ToJson], src/document_json.cpp:391-407. *)
Definition ToJson_outcome (o : ReconciliationOutcome) : bytes :=
  DumpCanonical 2 (make_object
    [(B "idempotency_key", DigestJson (oc_idempotency_key o)); (B "scope", JText (oc_scope o));
     (B "subject", JText (oc_subject o)); (B "action", JText (ActionKind_ToText (oc_action o)));
     (B "attempt", JUnsigned (oc_attempt o)); (B "epoch", JUnsigned (oc_epoch o));
     (B "boot", JText (HexOf (oc_boot o)));
     (B "terminal_state", JText (AttemptState_ToText (oc_terminal_state o)));
     (B "reason", JText (ReasonCode_ToText (oc_reason o)));
     (B "committed_unix_ms", JInteger (oc_committed_unix_ms o)); (B "verified", JBoolean (oc_verified o));
     (B "verified_generation", JUnsigned (oc_verified_generation o));
     (B "ambiguous", JBoolean (oc_ambiguous o))]).

Definition fence_json (f : FenceEntry) : Json :=
  make_object
    [(B "id", JText (fe_id f)); (B "scope", JText (fe_scope f)); (B "subject", JText (fe_subject f));
     (B "fenced_below", JUnsigned (fe_fenced_below f));
     (B "reason", JText (ReasonCode_ToText (fe_reason f))); (B "detail", JText (fe_detail f));
     (B "created_unix_ms", JInteger (fe_created_unix_ms f))].

(** Models [ToJson], src/document_json.cpp:409-419. *)
Definition ToJson_fence (f : FenceEntry) : bytes := DumpCanonical 2 (fence_json f).

(** Models [ToJson], src/document_json.cpp:421-443. *)
Definition ToJson_attempt (a : AttemptRecord) : bytes :=
  DumpCanonical 2 (make_object
    [(B "attempt", JUnsigned (at_id a)); (B "idempotency_key", DigestJson (at_idempotency_key a));
     (B "scope", JText (at_scope a)); (B "subject", JText (at_subject a));
     (B "action", JText (ActionKind_ToText (at_action a)));
     (B "state", JText (AttemptState_ToText (at_state a))); (B "epoch", JUnsigned (at_epoch a));
     (B "boot", JText (HexOf (at_boot a))); (B "issued_unix_ms", JInteger (at_issued_unix_ms a));
     (B "transitions", make_array (map (fun transition => make_object
        [(B "from", JText (AttemptState_ToText (tr_from transition)));
         (B "to", JText (AttemptState_ToText (tr_to transition)));
         (B "epoch", JUnsigned (tr_epoch transition));
         (B "reason", JText (ReasonCode_ToText (tr_reason transition)))]) (at_transitions a)))]).

(** ** Reading *)

(** A reader's result: a value or a status; [None] where a conversion of a double is undefined. *)
Definition Doc (A : Type) : Type := option (Result A).
#[export] Instance Doc_ret : MRet Doc := fun A a => Some (Value a).
#[export] Instance Doc_bind : MBind Doc := fun A C f m =>
  match m with
  | None => None
  | Some (Failed status) => Some (Failed status)
  | Some (Value a) => f a
  end.
Definition fail {A} (status : Status) : Doc A := Some (Failed status).
(** A conversion that may be undefined. *)
Definition converted {A} (x : option A) : Doc A := match x with Some a => Some (Value a) | None => None end.

(** Models [Reject], src/document_json.cpp:14-16. *)
Definition document_reject (what : bytes) : Status :=
  mkStatus SC_Rejected RC_UnsupportedInput (B "document: " ++ what).
Definition doc_reject {A} (what : bytes) : Doc A := fail (document_reject what).
Definition doc_require (ok : bool) (what : bytes) : Doc unit := if ok then mret tt else doc_reject what.

(** What a marker of an attribute value sets, when it is present. *)
Definition marker (node : Json) (name : bytes) (read : Json -> Doc AttributeValue)
    (value : option AttributeValue) : Doc (option AttributeValue) :=
  match Find node name with
  | None => mret value
  | Some member => v ← read member; mret (Some v)
  end.

Definition read_absent (member : Json) : Doc AttributeValue :=
  _ ← doc_require (AsBool member false) (B "absent marker must be true"); mret AV_Absent.

(** Models [ParseState], src/document_json.cpp:72-101: the value of one attribute, where a later
    marker replaces an earlier one. *)
Definition json_attribute (node : Json) : Doc AttributeValue :=
  value ← marker node (B "absent") read_absent None;
  value ← marker node (B "bool") (fun m => mret (AV_Boolean (AsBool m false))) value;
  value ← marker node (B "i64") (fun m => n ← converted (AsInteger m 0); mret (AV_Integer n)) value;
  value ← marker node (B "u64") (fun m => n ← converted (AsUnsigned m 0); mret (AV_Unsigned n)) value;
  value ← marker node (B "text") (fun m => mret (AV_Text (AsText m))) value;
  value ← marker node (B "token") (fun m => mret (AV_Token (AsText m))) value;
  match value with
  | Some v => mret v
  | None => doc_reject (B "attribute value does not name exactly one of absent/bool/i64/u64/text/token")
  end.

(** Models [ParseState], src/document_json.cpp:62-108: the loop over the members of an object that fills an
    ordered map. *)
Fixpoint read_members {V} (invalid not_object duplicate : bytes) (read : bytes -> Json -> Doc V)
    (members : list (bytes * Json)) (filled : list (bytes * V)) : Doc (list (bytes * V)) :=
  match members with
  | [] => mret filled
  | (name, node) :: members =>
    match StringId_TryParse name with
    | None => doc_reject invalid
    | Some key =>
      _ ← doc_require (IsObject node) not_object;
      v ← read key node;
      match om_emplace key v filled with
      | None => doc_reject duplicate
      | Some filled => read_members invalid not_object duplicate read members filled
      end
    end
  end.

(** Models [ParseState], src/document_json.cpp:51-109. *)
Definition ParseState (node : Json) (limits : RuntimeLimits) : Doc SubjectState :=
  if IsNull node then mret []
  else
    _ ← doc_require (IsObject node) (B "subject attributes must be an object");
    if max_attributes_per_subject limits <? json_size node then
      fail (mkStatus SC_LimitExceeded RC_PlanActionLimitReached
              (B "subject declares more attributes than the configured bound"))
    else
      read_members (B "invalid attribute key") (B "attribute value must be an object")
        (B "duplicate attribute key") (fun _ => json_attribute) (json_members node) [].

(** Models [ReadU64], src/document_json.cpp:111-121. *)
Definition json_ReadU64 (object : Json) (key : bytes) (out : Z) : Doc Z :=
  match Find object key with
  | None => mret out
  | Some member =>
    _ ← doc_require (IsNumber member) (B "expected an integer member"); converted (AsUnsigned member 0)
  end.

(** Models [ReadBool], src/document_json.cpp:123-133. *)
Definition json_ReadBool (object : Json) (key : bytes) (out : bool) : Doc bool :=
  match Find object key with
  | None => mret out
  | Some member =>
    _ ← doc_require (bool_decide (json_kind member = JK_Boolean)) (B "expected a boolean member");
    mret (AsBool member false)
  end.

(** Models [ReadText], src/document_json.cpp:135-145. *)
Definition json_ReadText (object : Json) (key : bytes) (out : bytes) : Doc bytes :=
  match Find object key with
  | None => mret out
  | Some member =>
    _ ← doc_require (IsText member) (B "expected a text member"); mret (AsText member)
  end.

(** A signed member, read in place by three of the readers. *)
Definition json_ReadI64 (object : Json) (key what : bytes) (out : Z) : Doc Z :=
  match Find object key with
  | None => mret out
  | Some member => _ ← doc_require (IsNumber member) what; converted (AsInteger member 0)
  end.

Definition unknown_member (name : bytes) : Status :=
  mkStatus SC_Rejected RC_UnsupportedInput (B "unknown member '" ++ name ++ B "'").

Fixpoint check_names (names allowed : list bytes) : Doc unit :=
  match names with
  | [] => mret tt
  | name :: names =>
    if bool_decide (name ∈ allowed) then check_names names allowed else fail (unknown_member name)
  end.

(** Models [CheckMembers], src/document_json.cpp:147-165. *)
Definition CheckMembers (object : Json) (allowed : list bytes) : Doc unit :=
  _ ← doc_require (IsObject object) (B "expected a top level object");
  check_names (map fst (json_members object)) allowed.

(** The text a [const char*] of a string denotes: up to its first zero. *)
Fixpoint c_str (text : bytes) : bytes :=
  match text with
  | [] => []
  | c :: text => if bool_decide (c = Byte.x00) then [] else c :: c_str text
  end.

(** Models [ParseEvidence], src/document_json.cpp:167-177. *)
Definition ParseEvidence (object : Json) : EvidenceClass :=
  match Find object (B "evidence") with
  | Some (JText text) => default EC_Synthetic (TryParseEvidenceClass (c_str text))
  | _ => EC_Synthetic
  end.

(** The first error of the parser becomes the reader's. *)
Definition read_root (text : bytes) : Doc Json := Parse text default_parse_limits.

(** Models [ParseJson], src/document_json.cpp:509-515: the flag and the state of one subject. *)
Definition read_subject (limits : RuntimeLimits) (node : Json) : Doc (bool * SubjectState) :=
  complete_attributes ← json_ReadBool node (B "complete_attributes") true;
  match Find node (B "attributes") with
  | None => mret (complete_attributes, [])
  | Some attributes => state ← ParseState attributes limits; mret (complete_attributes, state)
  end.

(** Models [ParseJson], src/document_json.cpp:490-520: the subjects of a document; 576-607 reads the
    observed ones the same way. *)
Definition read_subjects {V} (limits : RuntimeLimits) (make : bytes -> bool -> SubjectState -> V)
    (too_many : bytes) (root : Json) : Doc (list (bytes * V)) :=
  match Find root (B "subjects") with
  | None => mret []
  | Some subjects =>
    _ ← doc_require (IsObject subjects) (B "subjects must be an object");
    if max_subjects_per_document limits <? json_size subjects then
      fail (mkStatus SC_LimitExceeded RC_PlanActionLimitReached too_many)
    else
      read_members (B "invalid subject identity") (B "subject entry must be an object") (B "duplicate subject")
        (fun key node => '(complete, state) ← read_subject limits node; mret (make key complete state))
        (json_members subjects) []
  end.

(** A check whose status is the reader's when it fails. *)
Definition checked (status : Status) : Doc unit := if Status_ok status then mret tt else fail status.

Definition intent_members : list bytes :=
  [B "intent"; B "scope"; B "definition"; B "generation"; B "policy_version"; B "evidence"; B "complete";
   B "subjects"].

(** Models [ParseJson], src/document_json.cpp:451-528: what follows the parse of the text. *)
Definition intent_of (root : Json) (limits : RuntimeLimits) : Doc IntentDocument :=
  _ ← CheckMembers root intent_members;
  intent_text ← json_ReadText root (B "intent") [];
  scope_text ← json_ReadText root (B "scope") [];
  definition_text ← json_ReadText root (B "definition") [];
  generation ← json_ReadU64 root (B "generation") 0;
  policy_version ← json_ReadU64 root (B "policy_version") 0;
  complete ← json_ReadBool root (B "complete") true;
  match StringId_TryParse intent_text, StringId_TryParse scope_text, StringId_TryParse definition_text with
  | Some intent, Some scope, Some definition =>
    subjects ← read_subjects limits mkSubjectIntent
                 (B "intent declares more subjects than the configured bound") root;
    let document := mkIntent intent scope definition generation policy_version (ParseEvidence root) complete
                      subjects zero_digest in
    let document := mkIntent intent scope definition generation policy_version (ParseEvidence root) complete
                      subjects (ComputeIntentDigest document) in
    _ ← checked (ValidateIntent document limits);
    mret document
  | _, _, _ => doc_reject (B "intent, scope and definition must be valid identities")
  end.

(** Models [ParseJson], src/document_json.cpp:445-528. *)
Definition ParseJson_intent (text : bytes) (limits : RuntimeLimits) : Doc IntentDocument :=
  root ← read_root text; intent_of root limits.

Definition submission_members : list bytes :=
  [B "observation"; B "scope"; B "reporter"; B "generation"; B "evidence"; B "complete";
   B "authoritative_absence"; B "subjects"].

(** Models [ParseJson], src/document_json.cpp:536-614: what follows the parse of the text. *)
Definition submission_of (root : Json) (limits : RuntimeLimits) : Doc ObservationSubmission :=
  _ ← CheckMembers root submission_members;
  observation_text ← json_ReadText root (B "observation") [];
  scope_text ← json_ReadText root (B "scope") [];
  reporter_text ← json_ReadText root (B "reporter") [];
  generation ← json_ReadU64 root (B "generation") 0;
  complete ← json_ReadBool root (B "complete") true;
  absence ← json_ReadBool root (B "authoritative_absence") false;
  match StringId_TryParse observation_text, StringId_TryParse scope_text, StringId_TryParse reporter_text with
  | Some observation, Some scope, Some reporter =>
    subjects ← read_subjects limits mkSubjectObservation
                 (B "observation declares more subjects than the configured bound") root;
    let submission := mkSubmission observation scope reporter generation (ParseEvidence root) complete absence
                        subjects in
    _ ← checked (ValidateSubmission submission limits);
    mret submission
  | _, _, _ => doc_reject (B "observation, scope and reporter must be valid identities")
  end.

(** Models [ParseJson], src/document_json.cpp:530-614. *)
Definition ParseJson_submission (text : bytes) (limits : RuntimeLimits) : Doc ObservationSubmission :=
  root ← read_root text; submission_of root limits.

Definition policy_members : list bytes :=
  [B "id"; B "version"; B "max_observation_age_ms"; B "require_current_epoch";
   B "require_complete_coverage_for_absence"; B "permit_apply_missing"; B "permit_apply_mismatched";
   B "permit_withdraw_unexpected"; B "require_complete_coverage_for_convergence_proof";
   B "require_independent_verification"; B "unmanaged_attributes"; B "observe_only_attributes"].

(** Models [ParseJson], src/document_json.cpp:685-694: the loop over the entries of one list. *)
Fixpoint read_keys (items : list Json) (target : list bytes) : Doc (list bytes) :=
  match items with
  | [] => mret target
  | item :: items =>
    _ ← doc_require (IsText item) (B "attribute list entries must be text");
    match StringId_TryParse (AsText item) with
    | None => doc_reject (B "invalid attribute key in policy")
    | Some key => read_keys items (target ++ [key])
    end
  end.

(** Models [ParseJson], src/document_json.cpp:673-695: one of the two attribute lists. *)
Definition read_key_list (root : Json) (field : bytes) (target : list bytes) : Doc (list bytes) :=
  match Find root field with
  | None => mret target
  | Some list =>
    _ ← doc_require (IsArray list) (B "attribute list must be an array"); read_keys (json_items list) target
  end.

(** The identity of the policy, kept when none is given. *)
Definition read_policy_id (id_text : bytes) (out : bytes) : Doc bytes :=
  if is_empty id_text then mret out
  else match StringId_TryParse id_text with
       | Some id => mret id
       | None => doc_reject (B "invalid policy identity")
       end.

(** Models [ParseJson], src/document_json.cpp:622-703: what follows the parse of the text. *)
Definition policy_of (root : Json) (limits : RuntimeLimits) : Doc ReconciliationPolicy :=
  let policy := DefaultPolicy in
  let fresh := freshness policy in
  _ ← CheckMembers root policy_members;
  id_text ← json_ReadText root (B "id") [];
  version ← json_ReadU64 root (B "version") 1;
  max_age ← json_ReadI64 root (B "max_observation_age_ms") (B "max_observation_age_ms must be an integer")
              (max_observation_age_ms fresh);
  current ← json_ReadBool root (B "require_current_epoch") (require_current_epoch fresh);
  absence ← json_ReadBool root (B "require_complete_coverage_for_absence")
              (require_complete_coverage_for_absence fresh);
  missing ← json_ReadBool root (B "permit_apply_missing") (permit_apply_missing policy);
  mismatched ← json_ReadBool root (B "permit_apply_mismatched") (permit_apply_mismatched policy);
  withdraw ← json_ReadBool root (B "permit_withdraw_unexpected") (permit_withdraw_unexpected policy);
  coverage ← json_ReadBool root (B "require_complete_coverage_for_convergence_proof")
               (require_complete_coverage_for_convergence_proof policy);
  independent ← json_ReadBool root (B "require_independent_verification")
                  (require_independent_verification policy);
  id ← read_policy_id id_text (po_id policy);
  unmanaged ← read_key_list root (B "unmanaged_attributes") (unmanaged_attributes policy);
  observe_only ← read_key_list root (B "observe_only_attributes") (observe_only_attributes policy);
  let '(status, canonical) :=
    CanonicalisePolicy (mkPolicy id version (mkFreshness max_age current absence) missing mismatched withdraw
      coverage independent unmanaged observe_only) limits in
  _ ← checked status;
  mret canonical.

(** Models [ParseJson], src/document_json.cpp:616-703. *)
Definition ParseJson_policy (text : bytes) (limits : RuntimeLimits) : Doc ReconciliationPolicy :=
  root ← read_root text; policy_of root limits.

Definition fence_members : list bytes :=
  [B "id"; B "scope"; B "subject"; B "fenced_below"; B "reason"; B "detail"; B "created_unix_ms"].

Definition kKnown : list Z :=
  [RC_ScopeFenced; RC_SubjectFenced; RC_RestartEpochAdvanced; RC_AttemptFencedByEpochAdvance].

(** Models [ParseJson], src/document_json.cpp:746-764: the reason of a fence, by its text. *)
Definition read_fence_reason (reason_text : bytes) : Doc Z :=
  if is_empty reason_text then mret RC_ScopeFenced
  else match List.find (fun candidate => bool_decide (reason_text = ReasonCode_ToText candidate)) kKnown with
       | Some reason => mret reason
       | None => doc_reject (B "unsupported fence reason")
       end.

Definition read_fence_subject (subject_text : bytes) : Doc bytes :=
  if is_empty subject_text then mret []
  else match StringId_TryParse subject_text with
       | Some subject => mret subject
       | None => doc_reject (B "invalid fence subject identity")
       end.

Definition fence_of (root : Json) : Doc FenceEntry :=
  _ ← CheckMembers root fence_members;
  id_text ← json_ReadText root (B "id") [];
  scope_text ← json_ReadText root (B "scope") [];
  subject_text ← json_ReadText root (B "subject") [];
  reason_text ← json_ReadText root (B "reason") [];
  fenced_below ← json_ReadU64 root (B "fenced_below") 0;
  match StringId_TryParse id_text, StringId_TryParse scope_text with
  | Some id, Some scope =>
    subject ← read_fence_subject subject_text;
    reason ← read_fence_reason reason_text;
    detail ← json_ReadText root (B "detail") [];
    created ← json_ReadI64 root (B "created_unix_ms") (B "created_unix_ms must be an integer") 0;
    mret (mkFence id scope subject fenced_below reason detail created)
  | _, _ => doc_reject (B "fence id and scope must be valid identities")
  end.

(** Models [ParseJson], src/document_json.cpp:705-777. *)
Definition ParseJson_fence (text : bytes) : Doc FenceEntry := root ← read_root text; fence_of root.

Definition verification_members : list bytes :=
  [B "scope"; B "subject"; B "idempotency_key"; B "observation"; B "generation"; B "received_epoch";
   B "verifier"; B "applier"; B "received_unix_ms"; B "confirms_effect"].

Definition verification_of (root : Json) : Doc VerificationEvidence :=
  _ ← CheckMembers root verification_members;
  scope_text ← json_ReadText root (B "scope") [];
  subject_text ← json_ReadText root (B "subject") [];
  key_text ← json_ReadText root (B "idempotency_key") [];
  observation_text ← json_ReadText root (B "observation") [];
  generation ← json_ReadU64 root (B "generation") 0;
  epoch ← json_ReadU64 root (B "received_epoch") 0;
  verifier_text ← json_ReadText root (B "verifier") [];
  applier_text ← json_ReadText root (B "applier") [];
  confirms ← json_ReadBool root (B "confirms_effect") false;
  at_ms ← json_ReadI64 root (B "received_unix_ms") (B "received_unix_ms must be an integer") 0;
  match StringId_TryParse scope_text, StringId_TryParse subject_text, StringId_TryParse observation_text,
        StringId_TryParse verifier_text, StringId_TryParse applier_text with
  | Some scope, Some subject, Some observation, Some verifier, Some applier =>
    match TryParseHexDigest key_text with
    | None => doc_reject (B "idempotency_key must be 64 hexadecimal characters")
    | Some key =>
      mret (mkVerification scope subject key observation generation epoch verifier applier at_ms confirms)
    end
  | _, _, _, _, _ => doc_reject (B "verification carries an invalid identity")
  end.

(** Models [ParseJson], src/document_json.cpp:779-851. *)
Definition ParseJson_verification (text : bytes) : Doc VerificationEvidence :=
  root ← read_root text; verification_of root.
