(* ===== verification/DocumentJsonFacts.v ===== *)
(** * Documents as json, proved

    The documents in json: a printed submission or fence is read back as itself, a
    document a reader accepts is typed and within the limits, and the printed intents and
    policies are refused for the digest they carry.  The readers and printers themselves are
    in the file DocumentJson. *)

From Stdlib Require Import ZArith Lia.
From stdpp Require Import prelude.
From S2P Require Import Prelude OrdMap Hash Status Identity Canonical Value Policy Document Drift.
From S2P Require Import Authority Plan Lineage Journal Snapshot StoreState Store Engine Render Json JsonFacts.
From S2P Require Import EngineRuns DocumentJson.
Local Open Scope Z_scope.

(** ** Facts on objects *)

Lemma foldl_Set_distinct l : forall acc,
  NoDup (map fst (acc ++ l)) -> foldl (fun v m => Set_ v (fst m) (snd m)) (JObject acc) l = JObject (acc ++ l).
Proof.
  induction l as [|[k v] l IH]; intros acc Hnd; cbn [foldl]; [by rewrite app_nil_r|]. cbn [Set_ fst snd].
  assert (k ∉ map fst acc) as Hk.
  { rewrite map_app in Hnd. apply NoDup_app in Hnd as (_ & Hd & _). intros Hin. apply (Hd _ Hin). by left. }
  rewrite set_member_new by done. rewrite IH; by rewrite <- app_assoc.
Qed.

Lemma make_object_distinct l : NoDup (map fst l) -> make_object l = JObject l.
Proof. intros H. exact (foldl_Set_distinct l [] H). Qed.

Lemma make_array_items l : make_array l = JArray l.
Proof.
  unfold make_array. assert (forall acc, foldl Push (JArray acc) l = JArray (acc ++ l)) as H; [|exact (H [])].
  induction l as [|x l IH]; intros acc; cbn [foldl]; [by rewrite app_nil_r|]. cbn [Push]. by rewrite IH, <- app_assoc.
Qed.

(** An unsigned integer below 2^63 is read back as a signed one. *)
Fixpoint normal (v : Json) : Json :=
  match v with
  | JUnsigned n => if n <? 2 ^ 63 then JInteger n else JUnsigned n
  | JArray items => JArray (map normal items)
  | JObject members => JObject (map (fun m : bytes * Json => (fst m, normal (snd m))) members)
  | _ => v
  end.

Lemma DumpValue_normal indent sort_keys v : forall depth,
  DumpValue indent depth sort_keys (normal v) = DumpValue indent depth sort_keys v.
Proof.
  induction v as [| |n|n| | |items IH|members IH] using json_ind'; intros depth; try done; cbn [normal].
  - by destruct (n <? 2 ^ 63).
  - assert (map (fun item => AppendIndent indent (depth + 1) ++ DumpValue indent (depth + 1) sort_keys item) (map normal items) =
      map (fun item => AppendIndent indent (depth + 1) ++ DumpValue indent (depth + 1) sort_keys item) items) as Hp.
    { rewrite map_map. apply List.map_ext_Forall. eapply Forall_impl; [exact IH|]. intros x Hx. cbv beta. by rewrite Hx. }
    cbn [DumpValue]. destruct (_ <? _); [done|]. destruct items as [|x l]; [done|]. by rewrite Hp.
  - assert (map (fun m : bytes * Json => (fst m, DumpValue indent (depth + 1) sort_keys (snd m)))
        (map (fun m : bytes * Json => (fst m, normal (snd m))) members) =
      map (fun m : bytes * Json => (fst m, DumpValue indent (depth + 1) sort_keys (snd m))) members) as Hp.
    { rewrite map_map. apply List.map_ext_Forall. eapply Forall_impl; [exact IH|]. intros x Hx. cbn [fst snd]. by rewrite Hx. }
    cbn [DumpValue]. destruct (_ <? _); [done|]. destruct members as [|x l]; [done|]. cbv zeta. by rewrite Hp.
Qed.

(** What a printed value is read back as. *)
Definition read_back (v : Json) : Json := canonical (normal v).

(** A value that fits the parser's default limits. *)
Definition fits (v : Json) : bool :=
  json_ok default_parse_limits 0 (normal v) && no_reals (normal v) &&
  (json_count (normal v) <=? max_items default_parse_limits) &&
  (blen (DumpCanonical 2 v) <=? max_bytes default_parse_limits).

Lemma read_root_printed v : fits v = true -> read_root (DumpCanonical 2 v) = mret (read_back v).
Proof.
  intros H. unfold fits in H. bool_hyps. unfold read_root, read_back, DumpCanonical in *.
  rewrite <- (DumpValue_normal 2 true v) in *. rewrite DumpValue_canonical in *.
  apply (Parse_Dump default_parse_limits ltac:(done) 2);
    [by rewrite canonical_ok|by rewrite canonical_no_reals|by rewrite canonical_count|done].
Qed.

Lemma find_member_perm {A} key (l1 l2 : list (bytes * A)) :
  NoDup (map fst l1) -> l1 ≡ₚ l2 -> find_member key l1 = find_member key l2.
Proof.
  intros Hnd Hp. induction Hp as [|[k v] l1 l2 Hp IH|[k1 v1] [k2 v2] l|l1 l2 l3 H1 IH1 H2 IH2]; cbn [find_member]; [done| | |].
  - cbn [map fst] in Hnd. apply NoDup_cons in Hnd as [_ Hnd]. by rewrite IH.
  - cbn [map fst] in Hnd. apply NoDup_cons in Hnd as [Hnin _]. apply not_elem_of_cons in Hnin as [Hne _].
    destruct (bool_decide_reflect (k2 = key)), (bool_decide_reflect (k1 = key)); try done. by subst.
  - rewrite IH1 by done. apply IH2. by rewrite <- H1.
Qed.

Lemma find_member_values {A C} (f : A -> C) key l :
  find_member key (on_values f l) = f <$> find_member key l.
Proof.
  unfold on_values. induction l as [|[k v] l IH]; [done|]. cbn [map find_member fst snd]. by destruct (bool_decide _).
Qed.

Lemma read_back_object l :
  read_back (JObject l) = JObject (sort_members (on_values read_back l)).
Proof. unfold read_back, on_values. cbn [normal canonical]. by rewrite map_map. Qed.

(** The members of an object that was read back. *)
Lemma Find_read_back l key : NoDup (map fst l) -> Find (read_back (JObject l)) key = read_back <$> find_member key l.
Proof.
  intros Hnd. rewrite read_back_object. unfold Find. cbn [json_members].
  rewrite <- find_member_values. symmetry. apply find_member_perm; [by rewrite map_fst_values|by rewrite sort_members_perm].
Qed.

Lemma check_names_ok names allowed : Forall (fun name => name ∈ allowed) names -> check_names names allowed = mret tt.
Proof. induction 1 as [|name names Hn _ IH]; [done|]. cbn [check_names]. by rewrite bool_decide_eq_true_2. Qed.

Lemma CheckMembers_read_back l allowed :
  Forall (fun name => name ∈ allowed) (map fst l) -> CheckMembers (read_back (JObject l)) allowed = mret tt.
Proof.
  intros H. rewrite read_back_object.
  transitivity (check_names (map fst (sort_members (on_values read_back l))) allowed); [reflexivity|]. apply check_names_ok.
  rewrite (Permutation_map fst (sort_members_perm (on_values read_back l))), map_fst_values. done.
Qed.

Lemma CheckMembers_refused l1 name v l2 allowed :
  NoDup (map fst (l1 ++ (name, v) :: l2)) -> name ∉ allowed ->
  (forall other, other ∈ map fst (l1 ++ l2) -> other ∈ allowed) ->
  CheckMembers (read_back (JObject (l1 ++ (name, v) :: l2))) allowed = fail (unknown_member name).
Proof.
  intros Hnd Hname Hothers. rewrite read_back_object. set (l := l1 ++ (name, v) :: l2) in *.
  transitivity (check_names (map fst (sort_members (on_values read_back l))) allowed); [reflexivity|]. subst l.
  assert (forall names, (forall other, other ∈ names -> other = name \/ other ∈ allowed) -> name ∈ names ->
    check_names names allowed = fail (unknown_member name)) as Hgo.
  { induction names as [|n names IH]; intros Hall Hin; [by apply elem_of_nil in Hin|]. cbn [check_names].
    destruct (bool_decide_reflect (n ∈ allowed)) as [Hn|Hn].
    - apply IH; [intros other Ho; apply Hall; by right|]. apply elem_of_cons in Hin as [->|Hin]; done.
    - destruct (Hall n ltac:(by left)) as [->|]; done. }
  apply Hgo.
  - intros other Ho. rewrite (Permutation_map fst (sort_members_perm _)), map_fst_values in Ho.
    rewrite map_app in Ho. cbn [map fst] in Ho. rewrite <- Permutation_middle, <- map_app in Ho.
    apply elem_of_cons in Ho as [->|Ho]; [by left|right; by apply Hothers].
  - rewrite (Permutation_map fst (sort_members_perm _)), map_fst_values, map_app. cbn [map fst].
    apply elem_of_app. right. by left.
Qed.

(** ** Members read back *)

Section Members.
Variable l : list (bytes * Json).
Hypothesis Hnd : NoDup (map fst l).

Lemma ReadText_back key text out :
  find_member key l = Some (JText text) -> json_ReadText (read_back (JObject l)) key out = mret text.
Proof. intros H. unfold json_ReadText. by rewrite Find_read_back, H. Qed.

Lemma ReadBool_back key b out :
  find_member key l = Some (JBoolean b) -> json_ReadBool (read_back (JObject l)) key out = mret b.
Proof. intros H. unfold json_ReadBool. by rewrite Find_read_back, H. Qed.

Lemma read_back_unsigned n : 0 <= n ->
  IsNumber (read_back (JUnsigned n)) = true /\ AsUnsigned (read_back (JUnsigned n)) 0 = Some n.
Proof.
  intros Hn. unfold read_back. cbn [normal]. destruct (Z.ltb_spec n (2 ^ 63)); [|done].
  cbn [canonical]. split; [done|]. cbn [AsUnsigned]. by rewrite (proj2 (Z.ltb_ge _ _)).
Qed.

Lemma ReadU64_back key n out :
  find_member key l = Some (JUnsigned n) -> u64 n = true -> json_ReadU64 (read_back (JObject l)) key out = mret n.
Proof.
  intros H Hn. unfold json_ReadU64. rewrite Find_read_back, H by done. cbn [fmap option_fmap option_map].
  destruct (read_back_unsigned n) as [H1 H2]; [unfold in_unsigned in Hn; by bool_hyps|]. by rewrite H1, H2.
Qed.

Lemma ReadI64_back key what n out :
  find_member key l = Some (JInteger n) -> json_ReadI64 (read_back (JObject l)) key what out = mret n.
Proof. intros H. unfold json_ReadI64. by rewrite Find_read_back, H. Qed.

Lemma ParseEvidence_back e :
  find_member (B "evidence") l = Some (EvidenceJson e) -> ParseEvidence (read_back (JObject l)) = e.
Proof. intros H. unfold ParseEvidence. rewrite Find_read_back, H by done. by destruct e. Qed.
End Members.

(** ** Maps read back *)

Lemma sorted_values {A C} (f : A -> C) (l : list (bytes * A)) : om_sorted (on_values f l) = om_sorted l.
Proof. rewrite <- !os_sorted_keys. exact (f_equal os_sorted (map_fst_values f l)). Qed.

Lemma sorted_distinct {A} (l : list (bytes * A)) : om_sorted l = true -> NoDup (map fst l).
Proof. intros H. rewrite <- os_sorted_keys in H. by apply os_sorted_NoDup. Qed.

Lemma on_values_comp {A1 A2 A3} (g : A2 -> A3) (f : A1 -> A2) l :
  on_values g (on_values f l) = on_values (fun v => g (f v)) l.
Proof. unfold on_values. by rewrite map_map. Qed.

(** An object printed from an ordered map keeps its order. *)
Lemma read_back_map {V} (enc : V -> Json) (l : list (bytes * V)) :
  om_sorted l = true -> read_back (make_object (on_values enc l)) = JObject (on_values (fun v => read_back (enc v)) l).
Proof.
  intros Hs. rewrite make_object_distinct by (rewrite map_fst_values; by apply sorted_distinct).
  rewrite read_back_object, on_values_comp. f_equal. apply sort_members_id. exact (eq_trans (sorted_values (fun v => read_back (enc v)) l) Hs).
Qed.

(** Reading the members of an ordered map, one after the other, fills the map again. *)
Lemma read_members_back {V} invalid not_object duplicate (read : bytes -> Json -> Doc V) (enc : V -> Json) l : forall filled,
  om_sorted (filled ++ l) = true ->
  Forall (fun e => IsValidIdentityText (fst e) = true /\ IsObject (enc (snd e)) = true /\
                   read (fst e) (enc (snd e)) = mret (snd e)) l ->
  read_members invalid not_object duplicate read (on_values enc l) filled = mret (filled ++ l).
Proof.
  induction l as [|[k v] l IH]; intros filled Hs Hall; [by rewrite app_nil_r|].
  apply Forall_cons in Hall as [(Hk & Ho & Hr) Hall]. cbn [fst snd] in *.
  pose proof (om_sorted_snoc_lt _ _ _ _ Hs) as Hlt. unfold on_values. cbn [map read_members fst snd].
  unfold StringId_TryParse. rewrite Hk. cbn [negb]. rewrite Ho. cbn [doc_require mbind Doc_bind mret Doc_ret].
  rewrite Hr. cbn [mbind Doc_bind mret Doc_ret]. unfold om_emplace.
  rewrite om_find_above by done. rewrite om_insert_snoc by done.
  rewrite IH; [by rewrite <- app_assoc|by rewrite <- app_assoc|done].
Qed.

Lemma bind_ret {A C} (a : A) (f : A -> Doc C) : mbind (M := Doc) f (mret a) = f a.
Proof. done. Qed.
Lemma marker_none node name read v : Find node name = None -> marker node name read v = mret v.
Proof. intros H. unfold marker. by rewrite H. Qed.
Lemma marker_some node name read v m x :
  Find node name = Some m -> read m = mret x -> marker node name read v = mret (Some x).
Proof. intros H Hr. unfold marker. by rewrite H, Hr. Qed.

Lemma attribute_back v : value_wf v = true ->
  IsObject (read_back (attribute_json v)) = true /\ json_attribute (read_back (attribute_json v)) = mret v.
Proof.
  intros H. destruct v as [| |b|n|n|t|t]; try done.
  cbn [value_wf] in H. unfold in_unsigned in H. bool_hyps.
  change (read_back (attribute_json (AV_Unsigned n))) with (JObject [(B "u64", read_back (JUnsigned n))]).
  split; [done|]. destruct (read_back_unsigned n ltac:(done)) as [_ H2]. revert H2.
  generalize (read_back (JUnsigned n)) as w. intros w Hw.
  unfold json_attribute. do 3 (rewrite marker_none by reflexivity; rewrite bind_ret).
  rewrite (marker_some _ _ _ _ w (AV_Unsigned n)) by (reflexivity || (cbv beta; by rewrite Hw)).
  rewrite bind_ret. do 2 (rewrite marker_none by reflexivity; rewrite bind_ret). reflexivity.
Qed.

Lemma ParseState_back limits state :
  state_wf limits state = true -> ParseState (read_back (StateJson state)) limits = mret state.
Proof.
  unfold state_wf. intros H. bool_hyps. unfold StateJson.
  change (map (fun attribute => (fst attribute, attribute_json (snd attribute))) state) with (on_values attribute_json state).
  rewrite read_back_map by done.
  transitivity (if max_attributes_per_subject limits <? blen (on_values (fun v => read_back (attribute_json v)) state) then
      fail (mkStatus SC_LimitExceeded RC_PlanActionLimitReached
              (B "subject declares more attributes than the configured bound"))
    else read_members (B "invalid attribute key") (B "attribute value must be an object")
      (B "duplicate attribute key") (fun _ => json_attribute) (on_values (fun v => read_back (attribute_json v)) state) []);
    [reflexivity|].
  assert (blen (on_values (fun v => read_back (attribute_json v)) state) = blen state) as ->
    by (unfold blen, on_values; by rewrite length_map).
  rewrite (proj2 (Z.ltb_ge _ _)) by done. apply (read_members_back _ _ _ _ (fun v => read_back (attribute_json v)) state []); [done|].
  match goal with Hf : forallb _ state = true |- _ => apply forallb_Forall in Hf; eapply Forall_impl; [exact Hf|] end.
  intros [k v] Hkv. cbn [fst snd] in *. bool_hyps. destruct (attribute_back v); done.
Qed.

Lemma read_subject_back limits complete state :
  state_wf limits state = true ->
  IsObject (read_back (subject_json complete state)) = true /\
  read_subject limits (read_back (subject_json complete state)) = mret (complete, state).
Proof.
  intros H.
  change (read_back (subject_json complete state)) with
    (JObject [(B "attributes", read_back (StateJson state)); (B "complete_attributes", JBoolean complete)]).
  split; [done|].
  transitivity (state ← ParseState (read_back (StateJson state)) limits; mret (complete, state) : Doc (bool * SubjectState));
    [reflexivity|by rewrite ParseState_back].
Qed.

Lemma read_subjects_back {V} limits (make : bytes -> bool -> SubjectState -> V) complete_of state_of too_many l subjects :
  NoDup (map fst l) ->
  find_member (B "subjects") l = Some (subjects_json complete_of state_of subjects) ->
  om_sorted subjects = true -> blen subjects <= max_subjects_per_document limits ->
  Forall (fun e => IsValidIdentityText (fst e) = true /\ state_wf limits (state_of (snd e)) = true /\
                   make (fst e) (complete_of (snd e)) (state_of (snd e)) = snd e) subjects ->
  read_subjects limits make too_many (read_back (JObject l)) = mret subjects.
Proof.
  intros Hnd Hf Hs Hlen Hall. unfold read_subjects. rewrite Find_read_back, Hf by done. cbn [fmap option_fmap option_map].
  unfold subjects_json.
  set (enc := fun v => subject_json (complete_of v) (state_of v)).
  change (map _ subjects) with (on_values enc subjects). rewrite read_back_map by done.
  transitivity (if max_subjects_per_document limits <? blen (on_values (fun v => read_back (enc v)) subjects) then
      fail (mkStatus SC_LimitExceeded RC_PlanActionLimitReached too_many)
    else read_members (B "invalid subject identity") (B "subject entry must be an object") (B "duplicate subject")
        (fun key node => '(complete, state) ← read_subject limits node; mret (make key complete state))
        (on_values (fun v => read_back (enc v)) subjects) []); [reflexivity|].
  assert (blen (on_values (fun v => read_back (enc v)) subjects) = blen subjects) as ->
    by (unfold blen, on_values; by rewrite length_map).
  rewrite (proj2 (Z.ltb_ge _ _)) by done. apply (read_members_back _ _ _ _ (fun v => read_back (enc v)) subjects []); [done|].
  eapply Forall_impl; [exact Hall|]. intros [k v] (Hk & Hst & Hmk). cbn [fst snd] in *.
  destruct (read_subject_back limits (complete_of v) (state_of v) Hst) as [Ho Hr]. split; [done|]. split; [done|].
  unfold enc. rewrite Hr. cbn. by rewrite Hmk.
Qed.

(** ** Documents read back *)

Definition submission_list (s : ObservationSubmission) : list (bytes * Json) :=
  [(B "observation", JText (su_observation s)); (B "scope", JText (su_scope s));
   (B "reporter", JText (su_reporter s)); (B "generation", JUnsigned (su_generation s));
   (B "evidence", EvidenceJson (su_evidence s)); (B "complete", JBoolean (su_complete s));
   (B "authoritative_absence", JBoolean (su_authoritative_absence s));
   (B "subjects", subjects_json so_complete_attributes so_observed (su_subjects s))].

Ltac distinct_names := apply (bool_decide_unpack _); vm_compute; exact I.

Lemma submission_names s : NoDup (map fst (submission_list s)).
Proof. cbn [submission_list map fst]. distinct_names. Qed.

Lemma submission_object s : submission_json s = JObject (submission_list s).
Proof. apply (make_object_distinct (submission_list s)), submission_names. Qed.

Lemma submission_of_back limits s :
  submission_wf limits s = true -> submission_of (read_back (submission_json s)) limits = mret s.
Proof.
  intros Hwf. pose proof (ValidateSubmission_wf _ _ Hwf) as Hvalid.
  unfold submission_wf, subjects_wf in Hwf. bool_hyps. rewrite submission_object.
  pose proof (submission_names s) as Hnd. unfold submission_of.
  rewrite CheckMembers_read_back by (cbn [submission_list map fst]; distinct_names). rewrite bind_ret.
  rewrite (ReadText_back _ Hnd (B "observation") (su_observation s)) by reflexivity. rewrite bind_ret.
  rewrite (ReadText_back _ Hnd (B "scope") (su_scope s)) by reflexivity. rewrite bind_ret.
  rewrite (ReadText_back _ Hnd (B "reporter") (su_reporter s)) by reflexivity. rewrite bind_ret.
  rewrite (ReadU64_back _ Hnd (B "generation") (su_generation s)) by (reflexivity || done). rewrite bind_ret.
  rewrite (ReadBool_back _ Hnd (B "complete") (su_complete s)) by reflexivity. rewrite bind_ret.
  rewrite (ReadBool_back _ Hnd (B "authoritative_absence") (su_authoritative_absence s)) by reflexivity. rewrite bind_ret.
  rewrite !StringId_TryParse_ok by done.
  rewrite (read_subjects_back limits mkSubjectObservation so_complete_attributes so_observed _ (submission_list s) (su_subjects s));
    [|done|reflexivity|done|done|].
  - rewrite bind_ret. cbv zeta.
    rewrite (ParseEvidence_back _ Hnd (su_evidence s)) by reflexivity. destruct s. cbn in *. by rewrite Hvalid.
  - match goal with Hf : forallb _ (su_subjects s) = true |- _ => apply forallb_Forall in Hf; eapply Forall_impl; [exact Hf|] end.
    intros [k v] Hkv. unfold subject_observation_wf in Hkv. cbn [fst snd] in *. bool_hyps. split; [done|]. split; [done|].
    destruct v. cbn in *. by subst.
Qed.

Definition fence_list (f : FenceEntry) : list (bytes * Json) :=
  [(B "id", JText (fe_id f)); (B "scope", JText (fe_scope f)); (B "subject", JText (fe_subject f));
   (B "fenced_below", JUnsigned (fe_fenced_below f));
   (B "reason", JText (ReasonCode_ToText (fe_reason f))); (B "detail", JText (fe_detail f));
   (B "created_unix_ms", JInteger (fe_created_unix_ms f))].

Lemma fence_names f : NoDup (map fst (fence_list f)).
Proof. cbn [fence_list map fst]. distinct_names. Qed.

Lemma fence_object f : fence_json f = JObject (fence_list f).
Proof. apply (make_object_distinct (fence_list f)), fence_names. Qed.

Lemma read_fence_reason_known reason :
  reason ∈ kKnown -> read_fence_reason (ReasonCode_ToText reason) = mret reason.
Proof.
  unfold kKnown. rewrite !elem_of_cons, elem_of_nil. intros [->|[->|[->|[->|[]]]]]; vm_compute; reflexivity.
Qed.

Lemma fence_of_back f :
  fence_wf f = true -> fe_reason f ∈ kKnown -> fence_of (read_back (fence_json f)) = mret f.
Proof.
  intros Hwf Hreason. unfold fence_wf in Hwf. bool_hyps. rewrite fence_object.
  pose proof (fence_names f) as Hnd. unfold fence_of.
  rewrite CheckMembers_read_back by (cbn [fence_list map fst]; distinct_names). rewrite bind_ret.
  rewrite (ReadText_back _ Hnd (B "id") (fe_id f)) by reflexivity. rewrite bind_ret.
  rewrite (ReadText_back _ Hnd (B "scope") (fe_scope f)) by reflexivity. rewrite bind_ret.
  rewrite (ReadText_back _ Hnd (B "subject") (fe_subject f)) by reflexivity. rewrite bind_ret.
  rewrite (ReadText_back _ Hnd (B "reason") (ReasonCode_ToText (fe_reason f))) by reflexivity. rewrite bind_ret.
  rewrite (ReadU64_back _ Hnd (B "fenced_below") (fe_fenced_below f)) by (reflexivity || done). rewrite bind_ret.
  rewrite !StringId_TryParse_ok by done.
  assert (read_fence_subject (fe_subject f) = mret (fe_subject f)) as ->.
  { unfold read_fence_subject. destruct (is_empty (fe_subject f)) eqn:E.
    - unfold is_empty in E. apply bool_decide_eq_true in E. by rewrite E.
    - unfold id_or_empty, is_empty in *. rewrite StringId_TryParse_ok; [done|].
      match goal with Ho : _ || _ = true |- _ => apply orb_true_iff in Ho as [Ho|Ho]; [congruence|done] end. }
  rewrite bind_ret, read_fence_reason_known, bind_ret by done.
  rewrite (ReadText_back _ Hnd (B "detail") (fe_detail f)) by reflexivity. rewrite bind_ret.
  rewrite (ReadI64_back _ Hnd (B "created_unix_ms") _ (fe_created_unix_ms f)) by reflexivity. by destruct f.
Qed.

(** ** What is read is typed *)

(** Every value a reader may return satisfies [P]. *)
Definition gives {A} (m : Doc A) (P : A -> Prop) : Prop := forall a, m = Some (Value a) -> P a.

Lemma gives_ret {A} (a : A) (P : A -> Prop) : P a -> gives (mret a) P.
Proof. by intros H b [= <-]. Qed.
Lemma gives_fail {A} status (P : A -> Prop) : gives (fail status) P.
Proof. done. Qed.
Lemma gives_reject {A} what (P : A -> Prop) : gives (doc_reject what) P.
Proof. done. Qed.
Lemma gives_bind {A C} (m : Doc A) (f : A -> Doc C) P Q :
  gives m P -> (forall a, P a -> gives (f a) Q) -> gives (mbind (M := Doc) f m) Q.
Proof. intros Hm Hf c. destruct m as [[a|]|]; [|done..]. intros H. by eapply Hf; [apply Hm|exact H]. Qed.
Lemma gives_true {A} (m : Doc A) : gives m (fun _ => True).
Proof. done. Qed.
Lemma gives_require ok what : gives (doc_require ok what) (fun _ => ok = true).
Proof. by destruct ok. Qed.
Lemma gives_checked status : gives (checked status) (fun _ => Status_ok status = true).
Proof. unfold checked. by destruct (Status_ok status). Qed.

Create HintDb gives.
#[export] Hint Resolve gives_true gives_require gives_checked gives_fail gives_reject : gives.

(** Passes one step of a reader, keeping what it guarantees. *)
Ltac give_step :=
  lazymatch goal with
  | |- gives (mret _) _ => apply gives_ret
  | |- gives (fail _) _ => apply gives_fail
  | |- gives (doc_reject _) _ => apply gives_reject
  | |- gives (mbind _ _) _ => eapply gives_bind; [eauto with gives|intros ? ?]
  | |- gives (if ?c then _ else _) _ => destruct c eqn:?
  | |- gives (match ?x with _ => _ end) _ => destruct x eqn:?
  end.

Section Typed.
Variable L : ParseLimits.

Lemma json_ok_member depth v key w :
  json_ok L depth v = true -> Find v key = Some w -> json_ok L (depth + 1) w = true.
Proof.
  destruct v as [| | | | | | |members]; try done. cbn [json_ok]. intros H. bool_hyps. unfold Find. cbn [json_members].
  match goal with Hf : forallb _ members = true |- _ => revert Hf end.
  induction members as [|[k x] members IH]; [done|]. cbn [forallb find_member fst snd]. intros Hf. bool_hyps.
  destruct (bool_decide _); [by intros [= <-]|]. apply IH; try done.
  - rewrite blen_cons in *. lia.
  - match goal with Hn : NoDup _ |- _ => cbn [map fst] in Hn; by apply NoDup_cons in Hn as [_ Hn] end.
Qed.

Lemma json_ok_members depth v :
  json_ok L depth v = true -> Forall (fun m => json_ok L (depth + 1) (snd m) = true) (json_members v).
Proof.
  destruct v as [| | | | | | |members]; try (intros _; apply Forall_nil_2). cbn [json_ok json_members]. intros H. bool_hyps.
  match goal with Hf : forallb _ members = true |- _ => apply forallb_Forall in Hf; eapply Forall_impl; [exact Hf|] end.
  intros m Hm. cbv beta in Hm. by bool_hyps.
Qed.

Lemma AsUnsigned_u64 depth v n : json_ok L depth v = true -> AsUnsigned v 0 = Some n -> u64 n = true.
Proof.
  intros Hok. destruct v as [| |z|z|f| | |]; cbn [AsUnsigned]; try (intros [= <-]; done).
  - cbn [json_ok] in Hok. unfold in_signed in Hok. bool_hyps. change (2 ^ (64 - 1)) with (2 ^ 63) in *.
    intros [= <-]. unfold in_unsigned. destruct (Z.ltb_spec z 0); bool_goal; lia.
  - cbn [json_ok] in Hok. bool_hyps. intros [= <-]. unfold in_unsigned. bool_goal; lia.
  - destruct (_ || _); [by intros [= <-]|]. destruct (u64 (double_trunc f)) eqn:E; [|done]. by intros [= <-].
Qed.

Lemma AsInteger_i64 depth v n : json_ok L depth v = true -> AsInteger v 0 = Some n -> i64 n = true.
Proof.
  intros Hok. destruct v as [| |z|z|f| | |]; cbn [AsInteger]; try (intros [= <-]; done).
  - cbn [json_ok] in Hok. bool_hyps. by intros [= <-].
  - cbn [json_ok] in Hok. bool_hyps. intros [= <-]. destruct (Z.ltb_spec (2 ^ 63 - 1) z); [done|lia].
  - destruct (negb _); [by intros [= <-]|]. destruct (_ || _); [by intros [= <-]|].
    destruct (i64 (double_trunc f)) eqn:E; [|done]. by intros [= <-].
Qed.

Lemma gives_unsigned depth v : json_ok L depth v = true -> gives (converted (AsUnsigned v 0)) (fun n => u64 n = true).
Proof. intros H n. unfold converted. destruct (AsUnsigned v 0) eqn:E; [|done]. intros [= <-]. by eapply AsUnsigned_u64. Qed.
Lemma gives_integer depth v : json_ok L depth v = true -> gives (converted (AsInteger v 0)) (fun n => i64 n = true).
Proof. intros H n. unfold converted. destruct (AsInteger v 0) eqn:E; [|done]. intros [= <-]. by eapply AsInteger_i64. Qed.

Lemma gives_ReadU64 depth o key out :
  json_ok L depth o = true -> u64 out = true -> gives (json_ReadU64 o key out) (fun n => u64 n = true).
Proof.
  intros Ho Hout. unfold json_ReadU64. give_step; [|by give_step].
  give_step. eapply gives_unsigned, json_ok_member; done.
Qed.

(** A typed value: its integer in range; the length of a text is checked later. *)
Definition value_typed (v : AttributeValue) : bool :=
  match v with AV_Invalid => false | AV_Integer n => i64 n | AV_Unsigned n => u64 n | _ => true end.

Lemma gives_marker depth node name read value :
  json_ok L depth node = true -> (forall v, value = Some v -> value_typed v = true) ->
  (forall m, json_ok L (depth + 1) m = true -> gives (read m) (fun v => value_typed v = true)) ->
  gives (marker node name read value) (fun o => forall v, o = Some v -> value_typed v = true).
Proof.
  intros Hn Hv Hr. unfold marker. destruct (Find node name) as [m|] eqn:E; [|by apply gives_ret].
  eapply gives_bind; [apply Hr; by eapply json_ok_member|]. intros v Hty. apply gives_ret. by intros ? [= <-].
Qed.

Lemma gives_attribute depth node :
  json_ok L depth node = true -> gives (json_attribute node) (fun v => value_typed v = true).
Proof.
  intros Hn. unfold json_attribute.
  eapply gives_bind; [apply (gives_marker depth); [done|done|]|intros v1 H1].
  { intros m _. unfold read_absent. give_step. by give_step. }
  eapply gives_bind; [apply (gives_marker depth); [done|done|intros m _; by apply gives_ret]|intros v2 H2].
  eapply gives_bind; [apply (gives_marker depth); [done|done|]|intros v3 H3].
  { intros m Hm. eapply gives_bind; [by eapply gives_integer|]. intros n Hi. by apply gives_ret. }
  eapply gives_bind; [apply (gives_marker depth); [done|done|]|intros v4 H4].
  { intros m Hm. eapply gives_bind; [by eapply gives_unsigned|]. intros n Hi. by apply gives_ret. }
  eapply gives_bind; [apply (gives_marker depth); [done|done|intros m _; by apply gives_ret]|intros v5 H5].
  eapply gives_bind; [apply (gives_marker depth); [done|done|intros m _; by apply gives_ret]|intros v6 H6].
  destruct v6 as [v|]; [|apply gives_reject]. apply gives_ret. by apply H6.
Qed.

(** A map filled from members: sorted, one entry per member, keys valid identities. *)
Definition filled_ok {V} (P : bytes -> V -> Prop) (n : nat) (m : list (bytes * V)) : Prop :=
  om_sorted m = true /\ length m = n /\ Forall (fun e => IsValidIdentityText (fst e) = true /\ P (fst e) (snd e)) m.

Lemma gives_members {V} depth (P : bytes -> V -> Prop) invalid not_object duplicate read members : forall filled n,
  (forall key node, json_ok L depth node = true -> gives (read key node) (P key)) ->
  Forall (fun m => json_ok L depth (snd m) = true) members -> filled_ok P n filled ->
  gives (read_members invalid not_object duplicate read members filled) (filled_ok P (n + length members)).
Proof.
  induction members as [|[name node] members IH]; intros filled n Hread Hall Hf; cbn [read_members].
  - apply gives_ret. by rewrite Nat.add_0_r.
  - apply Forall_cons in Hall as [Hnode Hall]. destruct (StringId_TryParse name) as [key|] eqn:Ek; [|apply gives_reject].
    give_step. eapply gives_bind; [by apply Hread|]. intros v Hv. unfold om_emplace.
    destruct (om_find key filled) eqn:Ef; [apply gives_reject|].
    cbn [length]. rewrite <- Nat.add_succ_comm. apply IH; [done|done|].
    destruct Hf as (H1 & H2 & H3). unfold filled_ok. rewrite om_length_insert_new by done. split_and!.
    + by apply om_sorted_insert.
    + by rewrite H2.
    + apply om_insert_Forall; [|done]. split; [|done].
      unfold StringId_TryParse in Ek. destruct (IsValidIdentityText name) eqn:E; [|done]. by injection Ek as <-.
Qed.

Lemma json_ok_size depth v : json_ok L depth v = true -> 0 <= max_array_items L -> 0 <= max_object_members L ->
  json_size v <= Z.max (max_array_items L) (max_object_members L).
Proof. destruct v; cbn [json_ok json_size]; intros H ? ?; bool_hyps; lia. Qed.

Lemma gives_ReadI64 depth o key what out :
  json_ok L depth o = true -> i64 out = true -> gives (json_ReadI64 o key what out) (fun n => i64 n = true).
Proof.
  intros Ho Hout. unfold json_ReadI64. give_step; [|by give_step].
  give_step. eapply gives_integer, json_ok_member; done.
Qed.
End Typed.

(** ** Documents a reader accepts *)

Notation root_ok := (json_ok default_parse_limits).

(** A state that was read: ordered, addressable keys, typed values. *)
Definition state_read (state : SubjectState) : Prop :=
  om_sorted state = true /\ blen state < 2 ^ 32 /\
  Forall (fun e => IsValidIdentityText (fst e) = true /\ value_typed (snd e) = true) state.

Lemma members_size depth v : root_ok depth v = true -> Z.of_nat (length (json_members v)) < 2 ^ 32.
Proof.
  destruct v as [| | | | | | |members]; try (intros _; cbn; lia). cbn [json_ok json_members]. intros H.
  apply andb_true_iff in H as [_ H]. do 2 apply andb_true_iff in H as [H _]. apply Z.leb_le in H.
  change (max_object_members default_parse_limits) with 1000000 in H. unfold blen in H. lia.
Qed.

Lemma gives_ParseState limits depth node :
  root_ok depth node = true -> gives (ParseState node limits) state_read.
Proof.
  intros Hn. unfold ParseState. give_step.
  { apply gives_ret. split_and!; [done|done|apply Forall_nil_2]. }
  give_step. give_step; [apply gives_fail|]. intros state Hs.
  eapply (gives_members default_parse_limits (depth + 1) (fun _ v => value_typed v = true) _ _ _ _ _ [] 0) in Hs as (H1 & H2 & H3).
  - split_and!; [done| |done]. unfold blen. rewrite H2. by eapply members_size.
  - intros _ w Hw. by eapply gives_attribute.
  - by apply json_ok_members.
  - split_and!; [done|done|apply Forall_nil_2].
Qed.

Lemma gives_read_subject limits depth node :
  root_ok depth node = true -> gives (read_subject limits node) (fun r => state_read (snd r)).
Proof.
  intros Hn. unfold read_subject. give_step. give_step.
  - eapply gives_bind; [eapply gives_ParseState, json_ok_member; done|]. intros state Hs. by apply gives_ret.
  - apply gives_ret. split_and!; [done|done|apply Forall_nil_2].
Qed.

Lemma gives_read_subjects {V} limits (make : bytes -> bool -> SubjectState -> V) too_many root :
  root_ok 0 root = true ->
  gives (read_subjects limits make too_many root) (fun subjects =>
    om_sorted subjects = true /\ blen subjects < 2 ^ 32 /\
    Forall (fun e => IsValidIdentityText (fst e) = true /\
      exists complete state, state_read state /\ snd e = make (fst e) complete state) subjects).
Proof.
  intros Hr. unfold read_subjects. destruct (Find root (B "subjects")) as [node|] eqn:E.
  2: { apply gives_ret. split_and!; [done|done|apply Forall_nil_2]. }
  pose proof (json_ok_member _ _ _ _ _ Hr E) as Hn.
  give_step. give_step; [apply gives_fail|]. intros subjects Hs.
  eapply (gives_members default_parse_limits (0 + 1 + 1)
    (fun k v => exists complete state, state_read state /\ v = make k complete state) _ _ _ _ _ [] 0) in Hs as (H1 & H2 & H3).
  - split_and!; [done| |done]. unfold blen. rewrite H2. by eapply members_size.
  - intros key w Hw. eapply gives_bind; [by eapply gives_read_subject|]. intros [complete state] Hst.
    apply gives_ret. by exists complete, state.
  - by apply json_ok_members.
  - split_and!; [done|done|apply Forall_nil_2].
Qed.

Lemma validate_attributes_ok what state :
  Status_ok (validate_attributes what state) = true -> Forall (fun e => AttributeValue_IsValid (snd e) = true) state.
Proof.
  induction state as [|[k v] state IH]; [intros _; apply Forall_nil_2|]. cbn [validate_attributes].
  destruct (is_empty k); [done|]. destruct (AttributeValue_IsValid v) eqn:E; cbn [negb]; [|done].
  intros H. apply Forall_cons. by split; [|apply IH].
Qed.

Lemma value_typed_valid v : value_typed v = true -> AttributeValue_IsValid v = true -> value_wf v = true.
Proof. by destruct v. Qed.

Lemma ValidateState_read limits what state :
  state_read state -> Status_ok (ValidateState limits what state) = true -> state_wf limits state = true.
Proof.
  intros (Hs & Hlen & Hall). unfold ValidateState.
  destruct (Z.ltb_spec (max_attributes_per_subject limits) (blen state)); [done|].
  intros Hv. apply validate_attributes_ok in Hv. unfold state_wf. bool_goal; [done..|].
  apply forallb_Forall. eapply Forall_impl; [exact (proj2 (Forall_and _ _) (conj Hall Hv))|].
  intros e [[Hk Ht] Hval]. by rewrite Hk, value_typed_valid.
Qed.

Lemma validate_subjects_read {V} limits empty_text what state_of (subjects : list (bytes * V)) :
  Status_ok (validate_subjects limits empty_text what state_of subjects) = true ->
  Forall (fun e => Status_ok (ValidateState limits what (state_of (snd e))) = true) subjects.
Proof.
  induction subjects as [|[k e] subjects IH]; [intros _; apply Forall_nil_2|]. cbn [validate_subjects].
  destruct (is_empty k); [done|]. cbv zeta. destruct (Status_ok (ValidateState _ _ _)) eqn:E; cbn [negb]; [|by rewrite E].
  intros H. apply Forall_cons. by split; [|apply IH].
Qed.

(** The subjects a validated document was read with. *)
Lemma subjects_read_wf {V} limits (make : bytes -> bool -> SubjectState -> V) state_of entry_wf empty_text what subjects :
  (forall key complete state, state_of (make key complete state) = state) ->
  (forall key complete state, IsValidIdentityText key = true -> state_wf limits state = true ->
     entry_wf (key, make key complete state) = true) ->
  om_sorted subjects = true -> blen subjects < 2 ^ 32 -> blen subjects <= max_subjects_per_document limits ->
  Forall (fun e => IsValidIdentityText (fst e) = true /\
    exists complete state, state_read state /\ snd e = make (fst e) complete state) subjects ->
  Status_ok (validate_subjects limits empty_text what state_of subjects) = true ->
  subjects_wf limits entry_wf subjects = true.
Proof.
  intros Hstate Hwf Hs Hlt Hle Hall Hv. apply validate_subjects_read in Hv.
  unfold subjects_wf. bool_goal; [done..|]. apply forallb_Forall.
  eapply Forall_impl; [exact (proj2 (Forall_and _ _) (conj Hall Hv))|].
  intros [k v] [(Hk & complete & state & Hread & Hmk) Hok]. cbn [fst snd] in *. subst v. apply Hwf; [done|].
  rewrite Hstate in Hok. by eapply ValidateState_read.
Qed.

Lemma gives_root text (P : Json -> Prop) :
  (forall root, root_ok 0 root = true -> P root) -> gives (read_root text) P.
Proof. intros HP root Hr. apply HP. by apply (Parse_ok default_parse_limits text root ltac:(done) ltac:(done) ltac:(done)). Qed.

(** Passes the reads of a reader whose results carry no guarantee, the names checked. *)
Ltac give_names :=
  repeat match goal with
  | |- gives (match StringId_TryParse ?text with _ => _ end) _ =>
    let E := fresh "Hid" in
    destruct (StringId_TryParse text) eqn:E; [apply TryParse_valid in E|try apply gives_reject]
  end.

Lemma ValidateSubmission_read limits s :
  Status_ok (ValidateSubmission s limits) = true ->
  blen (su_subjects s) <= max_subjects_per_document limits /\
  Status_ok (validate_subjects limits (B "observation carries an empty subject identity")
    (B "observation subject") so_observed (su_subjects s)) = true.
Proof.
  unfold ValidateSubmission. destruct (_ || _); [done|].
  destruct (Z.ltb_spec (max_subjects_per_document limits) (blen (su_subjects s))); done.
Qed.

Lemma ValidateIntent_read limits d :
  Status_ok (ValidateIntent d limits) = true ->
  blen (in_subjects d) <= max_subjects_per_document limits /\
  Status_ok (validate_subjects limits (B "intent carries an empty subject identity")
    (B "intent subject") si_desired (in_subjects d)) = true.
Proof.
  unfold ValidateIntent. destruct (_ || _); [done|].
  destruct (Z.ltb_spec (max_subjects_per_document limits) (blen (in_subjects d))); done.
Qed.

Lemma gives_submission limits root :
  root_ok 0 root = true -> gives (submission_of root limits) (fun s => submission_wf limits s = true).
Proof.
  intros Hr. unfold submission_of. do 4 give_step.
  eapply gives_bind; [by eapply gives_ReadU64|]. intros generation Hg. do 2 give_step. give_names.
  eapply gives_bind; [by apply gives_read_subjects|]. intros subjects (Hs1 & Hs2 & Hs3). cbv zeta.
  eapply gives_bind; [apply gives_checked|]. intros [] Hv. apply gives_ret.
  apply ValidateSubmission_read in Hv as [Hlen Hv]. cbn [su_subjects] in *.
  unfold submission_wf. cbn [su_observation su_scope su_reporter su_generation su_subjects].
  rewrite Hid, Hid0, Hid1, Hg. cbn [andb].
  apply (subjects_read_wf _ mkSubjectObservation so_observed _ (B "observation carries an empty subject identity")
    (B "observation subject")); try done.
  intros key complete state Hk Hst. unfold subject_observation_wf. cbn [fst snd so_id so_observed].
  by rewrite Hk, Hst, bool_decide_eq_true_2.
Qed.

Lemma gives_intent limits root :
  root_ok 0 root = true -> gives (intent_of root limits) (fun d => intent_wf limits d = true).
Proof.
  intros Hr. unfold intent_of. do 4 give_step.
  eapply gives_bind; [by eapply gives_ReadU64|]. intros generation Hg.
  eapply gives_bind; [by eapply gives_ReadU64|]. intros version Hver. give_step. give_names.
  eapply gives_bind; [by apply gives_read_subjects|]. intros subjects (Hs1 & Hs2 & Hs3). cbv zeta.
  eapply gives_bind; [apply gives_checked|]. intros [] Hv. apply gives_ret.
  apply ValidateIntent_read in Hv as [Hlen Hv]. cbn [in_subjects] in *.
  unfold intent_wf. cbn [in_intent in_scope in_definition in_generation in_policy_version in_subjects in_digest].
  rewrite Hid, Hid0, Hid1, Hg, Hver. cbn [andb]. apply andb_true_iff. split; [|by apply bool_decide_eq_true_2].
  apply (subjects_read_wf _ mkSubjectIntent si_desired _ (B "intent carries an empty subject identity")
    (B "intent subject")); try done.
  intros key complete state Hk Hst. unfold subject_intent_wf. cbn [fst snd si_id si_desired].
  by rewrite Hk, Hst, bool_decide_eq_true_2.
Qed.

Lemma gives_read_keys items target :
  Forall (fun key => IsValidIdentityText key = true) target ->
  gives (read_keys items target) (fun keys =>
    Forall (fun key => IsValidIdentityText key = true) keys /\ length keys = (length target + length items)%nat).
Proof.
  revert target. induction items as [|item items IH]; intros target Ht; cbn [read_keys].
  - apply gives_ret. cbn [length]. by rewrite Nat.add_0_r.
  - give_step. give_names. intros keys Hk. apply IH in Hk as [Hall Hlen].
    + split; [done|]. rewrite Hlen, length_app. cbn [length]. lia.
    + apply Forall_app. split; [done|]. by apply Forall_singleton.
Qed.

Lemma gives_read_key_list root field :
  root_ok 0 root = true ->
  gives (read_key_list root field []) (fun keys =>
    forallb id_or_empty keys = true /\ blen keys < 2 ^ 32).
Proof.
  intros Hr. unfold read_key_list. destruct (Find root field) as [node|] eqn:E; [|by apply gives_ret].
  pose proof (json_ok_member _ _ _ _ _ Hr E) as Hn.
  give_step. intros keys Hk. apply gives_read_keys in Hk as [Hall Hlen]; [|apply Forall_nil_2]. split.
  - apply forallb_Forall. eapply Forall_impl; [exact Hall|]. intros key Hkey. unfold id_or_empty. by rewrite Hkey, orb_true_r.
  - unfold blen. rewrite Hlen. destruct node as [| | | | | |l|]; try (cbn; lia).
    cbn [json_ok] in Hn. apply andb_true_iff in Hn as [_ Hn]. apply andb_true_iff in Hn as [Hn _]. apply Z.leb_le in Hn.
    change (max_array_items default_parse_limits) with 4000000 in Hn. unfold blen in Hn. cbn [length json_items]. lia.
Qed.

Lemma gives_policy limits root :
  root_ok 0 root = true -> gives (policy_of root limits) (fun p => policy_wf limits p = true).
Proof.
  intros Hr. unfold policy_of. cbv zeta. do 2 give_step.
  eapply gives_bind; [by eapply gives_ReadU64|]. intros version Hver.
  eapply gives_bind; [by eapply gives_ReadI64|]. intros age Hage. do 7 give_step.
  apply (gives_bind _ _ (fun id => id_or_empty id = true)).
  { unfold read_policy_id. give_step; [by apply gives_ret|]. give_names. apply gives_ret. unfold id_or_empty.
    by rewrite Hid, orb_true_r. }
  intros id Hid.
  eapply gives_bind; [by apply gives_read_key_list|]. intros unmanaged [Hu1 Hu2].
  eapply gives_bind; [by apply gives_read_key_list|]. intros observe_only [Ho1 Ho2].
  set (policy := mkPolicy _ _ _ _ _ _ _ _ _ _).
  assert (policy_typed policy = true) as Ht.
  { unfold policy_typed, policy. cbn [po_id po_version freshness max_observation_age_ms unmanaged_attributes observe_only_attributes].
    bool_goal; done. }
  pose proof (CanonicalisePolicy_typed limits policy Ht) as Hwf.
  destruct (CanonicalisePolicy policy limits) as [status canonical]. give_step. apply gives_ret. by apply Hwf.
Qed.

Definition fence_read (f : FenceEntry) : bool :=
  IsValidIdentityText (fe_id f) && IsValidIdentityText (fe_scope f) && id_or_empty (fe_subject f) &&
  u64 (fe_fenced_below f) && bool_decide (fe_reason f ∈ kKnown) && i64 (fe_created_unix_ms f).

Lemma gives_fence root : root_ok 0 root = true -> gives (fence_of root) (fun f => fence_read f = true).
Proof.
  intros Hr. unfold fence_of. do 5 give_step.
  eapply gives_bind; [by eapply gives_ReadU64|]. intros below Hb. give_names.
  apply (gives_bind _ _ (fun subject => id_or_empty subject = true)).
  { unfold read_fence_subject. give_step; [by apply gives_ret|]. give_names. apply gives_ret. unfold id_or_empty.
    by rewrite Hid1, orb_true_r. }
  intros subject Hs. apply (gives_bind _ _ (fun reason => reason ∈ kKnown)).
  { unfold read_fence_reason. give_step; [apply gives_ret; by left|]. give_step; [|apply gives_reject].
    apply gives_ret. match goal with Hf : List.find _ _ = Some _ |- _ => apply List.find_some in Hf as [Hf _] end. by apply list_elem_of_In. }
  intros reason Hreason. give_step. eapply gives_bind; [by eapply gives_ReadI64|]. intros created Hc. apply gives_ret.
  unfold fence_read. cbn [fe_id fe_scope fe_subject fe_fenced_below fe_reason fe_created_unix_ms]. bool_goal; done.
Qed.

Lemma gives_verification root :
  root_ok 0 root = true -> gives (verification_of root) (fun v => verification_typed v = true).
Proof.
  intros Hr. unfold verification_of. do 5 give_step.
  eapply gives_bind; [by eapply gives_ReadU64|]. intros generation Hg. do 4 give_step.
  eapply gives_bind; [by eapply gives_ReadI64|]. intros at_ms Hat. give_names.
  give_step; [|apply gives_reject]. apply gives_ret. unfold verification_typed. cbn [vf_received_unix_ms vf_generation].
  by rewrite Hat, Hg.
Qed.

(** ** Intents and policies read back without their digest *)

Definition digest_name : bytes := B "digest".

Definition intent_list (d : IntentDocument) : list (bytes * Json) :=
  [(B "intent", JText (in_intent d)); (B "scope", JText (in_scope d));
   (B "definition", JText (in_definition d)); (B "generation", JUnsigned (in_generation d));
   (B "policy_version", JUnsigned (in_policy_version d)); (B "evidence", EvidenceJson (in_evidence d));
   (B "complete", JBoolean (in_complete d)); (digest_name, DigestJson (in_digest d));
   (B "subjects", subjects_json si_complete_attributes si_desired (in_subjects d))].

Definition policy_list (p : ReconciliationPolicy) : list (bytes * Json) :=
  [(B "id", JText (po_id p)); (B "version", JUnsigned (po_version p));
   (B "max_observation_age_ms", JInteger (max_observation_age_ms (freshness p)));
   (B "require_current_epoch", JBoolean (require_current_epoch (freshness p)));
   (B "require_complete_coverage_for_absence", JBoolean (require_complete_coverage_for_absence (freshness p)));
   (B "permit_apply_missing", JBoolean (permit_apply_missing p));
   (B "permit_apply_mismatched", JBoolean (permit_apply_mismatched p));
   (B "permit_withdraw_unexpected", JBoolean (permit_withdraw_unexpected p));
   (B "require_complete_coverage_for_convergence_proof",
      JBoolean (require_complete_coverage_for_convergence_proof p));
   (B "require_independent_verification", JBoolean (require_independent_verification p));
   (digest_name, DigestJson (ComputePolicyDigest p));
   (B "unmanaged_attributes", make_array (map JText (unmanaged_attributes p)));
   (B "observe_only_attributes", make_array (map JText (observe_only_attributes p)))].

Lemma intent_names d : NoDup (map fst (intent_list d)).
Proof. cbn [intent_list map fst]. distinct_names. Qed.
Lemma policy_names p : NoDup (map fst (policy_list p)).
Proof. cbn [policy_list map fst]. distinct_names. Qed.

Lemma intent_object d : intent_json d = JObject (intent_list d).
Proof. apply (make_object_distinct (intent_list d)), intent_names. Qed.
Lemma policy_object p : policy_json p = JObject (policy_list p).
Proof. apply (make_object_distinct (policy_list p)), policy_names. Qed.

Ltac names_allowed := apply list.Forall_forall; distinct_names.

Lemma intent_of_printed limits d :
  intent_of (read_back (intent_json d)) limits = fail (unknown_member digest_name).
Proof.
  rewrite intent_object. unfold intent_of.
  rewrite (CheckMembers_refused (take 7 (intent_list d)) digest_name (DigestJson (in_digest d)) (drop 8 (intent_list d)));
    [done|exact (intent_names d)|distinct_names|names_allowed].
Qed.

Lemma policy_of_printed limits p :
  policy_of (read_back (policy_json p)) limits = fail (unknown_member digest_name).
Proof.
  rewrite policy_object. unfold policy_of. cbv zeta.
  rewrite (CheckMembers_refused (take 10 (policy_list p)) digest_name (DigestJson (ComputePolicyDigest p)) (drop 11 (policy_list p)));
    [done|exact (policy_names p)|distinct_names|names_allowed].
Qed.

(** An object less one of its members. *)
Definition without (name : bytes) (v : Json) : Json :=
  JObject (List.filter (fun m => negb (bool_decide (fst m = name))) (json_members v)).

Definition intent_rest (d : IntentDocument) : list (bytes * Json) := take 7 (intent_list d) ++ drop 8 (intent_list d).
Definition policy_rest (p : ReconciliationPolicy) : list (bytes * Json) :=
  take 10 (policy_list p) ++ drop 11 (policy_list p).

Lemma intent_without d : without digest_name (intent_json d) = JObject (intent_rest d).
Proof. rewrite intent_object. reflexivity. Qed.
Lemma policy_without p : without digest_name (policy_json p) = JObject (policy_rest p).
Proof. rewrite policy_object. reflexivity. Qed.

Lemma intent_rest_names d : NoDup (map fst (intent_rest d)).
Proof. cbn [intent_rest intent_list take drop app map fst]. distinct_names. Qed.
Lemma policy_rest_names p : NoDup (map fst (policy_rest p)).
Proof. cbn [policy_rest policy_list take drop app map fst]. distinct_names. Qed.

Lemma intent_sealed d : in_digest d = ComputeIntentDigest d ->
  mkIntent (in_intent d) (in_scope d) (in_definition d) (in_generation d) (in_policy_version d) (in_evidence d)
    (in_complete d) (in_subjects d)
    (ComputeIntentDigest (mkIntent (in_intent d) (in_scope d) (in_definition d) (in_generation d)
       (in_policy_version d) (in_evidence d) (in_complete d) (in_subjects d) zero_digest)) = d.
Proof.
  destruct d as [x1 x2 x3 x4 x5 x6 x7 x8 x9].
  cbn [in_digest in_intent in_scope in_definition in_generation in_policy_version in_evidence in_complete in_subjects].
  intros H. f_equal. symmetry. exact H.
Qed.

Lemma intent_of_back limits d :
  intent_wf limits d = true -> intent_of (read_back (without digest_name (intent_json d))) limits = mret d.
Proof.
  intros Hwf. pose proof (ValidateIntent_wf _ _ Hwf) as Hvalid.
  unfold intent_wf, subjects_wf in Hwf. bool_hyps. rewrite intent_without.
  pose proof (intent_rest_names d) as Hnd. unfold intent_of.
  rewrite CheckMembers_read_back by (cbn [intent_rest intent_list take drop app map fst]; distinct_names). rewrite bind_ret.
  rewrite (ReadText_back _ Hnd (B "intent") (in_intent d)) by reflexivity. rewrite bind_ret.
  rewrite (ReadText_back _ Hnd (B "scope") (in_scope d)) by reflexivity. rewrite bind_ret.
  rewrite (ReadText_back _ Hnd (B "definition") (in_definition d)) by reflexivity. rewrite bind_ret.
  rewrite (ReadU64_back _ Hnd (B "generation") (in_generation d)) by (reflexivity || done). rewrite bind_ret.
  rewrite (ReadU64_back _ Hnd (B "policy_version") (in_policy_version d)) by (reflexivity || done). rewrite bind_ret.
  rewrite (ReadBool_back _ Hnd (B "complete") (in_complete d)) by reflexivity. rewrite bind_ret.
  rewrite !StringId_TryParse_ok by done.
  rewrite (read_subjects_back limits mkSubjectIntent si_complete_attributes si_desired _ (intent_rest d) (in_subjects d));
    [|done|reflexivity|done|done|].
  - rewrite bind_ret. cbv zeta. rewrite (ParseEvidence_back _ Hnd (in_evidence d)) by reflexivity.
    rewrite (intent_sealed d) by done. unfold checked. by rewrite Hvalid.
  - match goal with Hf : forallb _ (in_subjects d) = true |- _ => apply forallb_Forall in Hf; eapply Forall_impl; [exact Hf|] end.
    intros [k v] Hkv. unfold subject_intent_wf in Hkv. cbn [fst snd] in *. bool_hyps. split; [done|]. split; [done|].
    destruct v. cbn in *. by subst.
Qed.

Lemma read_keys_back keys : forall target,
  forallb IsValidIdentityText keys = true -> read_keys (map JText keys) target = mret (target ++ keys).
Proof.
  induction keys as [|key keys IH]; intros target H; [by rewrite app_nil_r|]. cbn [forallb map] in *. bool_hyps.
  cbn [read_keys IsText doc_require AsText]. change (doc_require _ _) with (mret tt : Doc unit). rewrite bind_ret.
  rewrite StringId_TryParse_ok, IH by done. by rewrite <- app_assoc.
Qed.

Lemma read_key_list_back l key keys :
  NoDup (map fst l) -> find_member key l = Some (make_array (map JText keys)) ->
  forallb IsValidIdentityText keys = true -> read_key_list (read_back (JObject l)) key [] = mret keys.
Proof.
  intros Hnd Hf Hk. unfold read_key_list. rewrite Find_read_back, Hf, make_array_items by done.
  cbn [fmap option_fmap option_map].
  assert (read_back (JArray (map JText keys)) = JArray (map JText keys)) as ->.
  { unfold read_back. cbn [normal canonical]. rewrite !map_map. done. }
  cbn [IsArray json_items]. change (doc_require _ _) with (mret tt : Doc unit). rewrite bind_ret.
  exact (read_keys_back keys [] Hk).
Qed.

Lemma policy_of_back limits p :
  policy_wf limits p = true -> policy_of (read_back (without digest_name (policy_json p))) limits = mret p.
Proof.
  intros Hwf. pose proof (CanonicalisePolicy_wf _ _ Hwf) as Hc.
  unfold policy_wf, keys_wf in Hwf. bool_hyps. rewrite policy_without.
  pose proof (policy_rest_names p) as Hnd. unfold policy_of. cbv zeta.
  rewrite CheckMembers_read_back by (cbn [policy_rest policy_list take drop app map fst]; distinct_names). rewrite bind_ret.
  rewrite (ReadText_back _ Hnd (B "id") (po_id p)) by reflexivity. rewrite bind_ret.
  rewrite (ReadU64_back _ Hnd (B "version") (po_version p)) by (reflexivity || done). rewrite bind_ret.
  rewrite (ReadI64_back _ Hnd (B "max_observation_age_ms") _ (max_observation_age_ms (freshness p))) by reflexivity. rewrite bind_ret.
  rewrite (ReadBool_back _ Hnd (B "require_current_epoch") (require_current_epoch (freshness p))) by reflexivity. rewrite bind_ret.
  rewrite (ReadBool_back _ Hnd (B "require_complete_coverage_for_absence") (require_complete_coverage_for_absence (freshness p))) by reflexivity. rewrite bind_ret.
  rewrite (ReadBool_back _ Hnd (B "permit_apply_missing") (permit_apply_missing p)) by reflexivity. rewrite bind_ret.
  rewrite (ReadBool_back _ Hnd (B "permit_apply_mismatched") (permit_apply_mismatched p)) by reflexivity. rewrite bind_ret.
  rewrite (ReadBool_back _ Hnd (B "permit_withdraw_unexpected") (permit_withdraw_unexpected p)) by reflexivity. rewrite bind_ret.
  rewrite (ReadBool_back _ Hnd (B "require_complete_coverage_for_convergence_proof") (require_complete_coverage_for_convergence_proof p)) by reflexivity. rewrite bind_ret.
  rewrite (ReadBool_back _ Hnd (B "require_independent_verification") (require_independent_verification p)) by reflexivity. rewrite bind_ret.
  unfold read_policy_id. rewrite is_empty_valid, StringId_TryParse_ok by done. rewrite bind_ret.
  change (unmanaged_attributes DefaultPolicy) with (@nil bytes). change (observe_only_attributes DefaultPolicy) with (@nil bytes).
  rewrite (read_key_list_back _ (B "unmanaged_attributes") (unmanaged_attributes p) Hnd) by (reflexivity || done). rewrite bind_ret.
  rewrite (read_key_list_back _ (B "observe_only_attributes") (observe_only_attributes p) Hnd) by (reflexivity || done). rewrite bind_ret.
  assert (mkPolicy (po_id p) (po_version p) (mkFreshness (max_observation_age_ms (freshness p)) (require_current_epoch (freshness p))
    (require_complete_coverage_for_absence (freshness p))) (permit_apply_missing p) (permit_apply_mismatched p)
    (permit_withdraw_unexpected p) (require_complete_coverage_for_convergence_proof p) (require_independent_verification p)
    (unmanaged_attributes p) (observe_only_attributes p) = p) as -> by (by destruct p as [? ? []]).
  by rewrite Hc.
Qed.

(** ** Properties *)


(** Quotes for apostrophes, for the examples. *)
Definition quoted (text : bytes) : bytes :=
  map (fun c => if bool_decide (c = Byte.x27) then Byte.x22 else c) text.

Definition example_json_submission : ObservationSubmission :=
  mkSubmission (B "obs-1") (B "fabric/rack-7") (B "agent/a") 9 EC_Real true false
    [(B "port/eth0", mkSubjectObservation (B "port/eth0") true example_state);
     (B "port/eth1", mkSubjectObservation (B "port/eth1") false [])].
Definition example_json_fence : FenceEntry :=
  mkFence (B "fence-1") (B "fabric/rack-7") [] 4 RC_ScopeFenced (quoted (B "lost 'quorum'")) (-5).



Definition example_json_text : bytes :=
  B "{ 'intent' : 'i-1', 'scope': 's/1', 'definition':'d', 'generation': 3.0e0, 'policy_version': 2,
       'subjects': {'port/1': {'attributes': {'mtu': {'u64': 9000}, 'mode': {'token': 'L3'}}},
                    'port/0': {'complete_attributes': false}}}".

Definition example_json_intent : IntentDocument :=
  seal_intent (mkIntent (B "i-1") (B "s/1") (B "d") 3 2 EC_Synthetic true
    [(B "port/0", mkSubjectIntent (B "port/0") false []);
     (B "port/1", mkSubjectIntent (B "port/1") true
        [(B "mode", AV_Token (B "L3")); (B "mtu", AV_Unsigned 9000)])] []).

Lemma example_json_accepted :
  ParseJson_intent (quoted example_json_text) default_limits = Some (Value example_json_intent).
Proof. vm_compute. reflexivity. Qed.


(** A printed intent or policy is not accepted back: its digest is a member the readers do not
    know, and the error names it; less that member, what is read is the same document, with
    its digest recomputed and equal. *)
Theorem printed_digest_refused limits intent policy :
  intent_wf limits intent && policy_wf limits policy = true ->
  fits (intent_json intent) && fits (policy_json policy) &&
    fits (without digest_name (intent_json intent)) && fits (without digest_name (policy_json policy)) = true ->
  ParseJson_intent (ToJson_intent intent) limits = Some (Failed (unknown_member digest_name)) /\
  ParseJson_policy (ToJson_policy policy) limits = Some (Failed (unknown_member digest_name)) /\
  ParseJson_intent (DumpCanonical 2 (without digest_name (intent_json intent))) limits = Some (Value intent) /\
  ParseJson_policy (DumpCanonical 2 (without digest_name (policy_json policy))) limits = Some (Value policy).
Proof.
  intros Hwf Hfits. bool_hyps. unfold ParseJson_intent, ToJson_intent, ParseJson_policy, ToJson_policy.
  rewrite !read_root_printed, !bind_ret by done.
  split_and!; [apply intent_of_printed|apply policy_of_printed|by apply intent_of_back|by apply policy_of_back].
Qed.

Lemma printed_digest_refused_witness :
  ParseJson_intent (ToJson_intent example_json_intent) default_limits = Some (Failed (unknown_member digest_name)).
Proof.
  apply (printed_digest_refused default_limits example_json_intent example_policy); vm_compute; reflexivity.
Defined.

(** The markers of an attribute value are not exclusive: the last of the fixed order wins, and
    a marker of another type counts as zero. *)
Example two_markers :
  json_attribute (JObject [(B "token", JText (B "a")); (B "i64", JText (B "5"))]) = Some (Value (AV_Token (B "a"))) /\
  json_attribute (JObject [(B "i64", JText (B "5"))]) = Some (Value (AV_Integer 0)) /\
  json_attribute (JObject [(B "u64", JInteger (-1))]) = Some (Value (AV_Unsigned 0)).
Proof. vm_compute. by split_and!. Qed.

(** An evidence class no enumerator has is read as synthetic evidence. *)
Example unknown_evidence : ParseEvidence (JObject [(B "evidence", JText (B "certain"))]) = EC_Synthetic.
Proof. reflexivity. Qed.
