(* ===== verification/Cli.v ===== *)
(** * The command line (tools/fabric_reconciliation_cli.cpp)

    Each run of the tool is a process: it parses its arguments, opens the engine on a store
    directory, which is a boot of its own, calls the engine and prints.  What the host supplies
    (files read, whether a file can be written, the answers to each engine call, the listener,
    the lines of standard input) is a record of the run; what the process did (engine, output,
    errors, files written) is its state. *)

From Stdlib Require Import ZArith Lia.
From stdpp Require Import prelude.
From S2P Require Import Prelude OrdMap Hash Status Identity Canonical Value Policy Document Drift.
From S2P Require Import Authority Plan Lineage Journal Snapshot StoreState Store Engine Planner.
From S2P Require Import Lifecycle Wire WireOps Render Server Json DocumentJson.
Local Open Scope Z_scope.

(** ** The process *)

(** What the host supplies to one run. The engine calls of a run are numbered, the opening
    of the engine being call 0. [wd_stdin], [wd_drain] and [wd_until] tell what the sessions of a
    service did: before each line of the control channel, while it was stopped, and, without a
    control channel, until the process was terminated. *)
Record World := mkWorld {
  wd_file : bytes -> bytes;
  wd_writable : bytes -> bool;
  wd_disk : bytes -> StoreDisk;
  wd_boot : BootHost;
  wd_host : nat -> Host;
  wd_bind : Status;
  wd_port : Z;
  wd_stdin : list (bytes * (Service -> Service));
  wd_drain : Service -> Service;
  wd_until : Service -> Service;
  wd_boots : bytes * bytes
}.

Record Process := mkProcess {
  pc_engine : option Engine;
  pc_out : bytes;
  pc_err : bytes;
  pc_written : list (bytes * bytes)
}.

Definition process_new : Process := mkProcess None [] [] [].

(** How a piece of a command ends: it goes on, the command returns its exit code, or the
    process runs until it is terminated. *)
Inductive Flow (A : Type) :=
| Goes (a : A)
| Returns (code : Z)
| Forever.
Arguments Goes {A}.
Arguments Returns {A}.
Arguments Forever {A}.

(** A piece of a command; [None] is undefined behaviour (a null engine, or a double out of
    range converted by a reader). *)
Definition Cmd (A : Type) : Type := Process -> option (Flow A * Process).

#[export] Instance Cmd_ret : MRet Cmd := fun A a p => Some (Goes a, p).
#[export] Instance Cmd_bind : MBind Cmd := fun A C f m p =>
  match m p with
  | Some (Goes a, p') => f a p'
  | Some (Returns code, p') => Some (Returns code, p')
  | Some (Forever, p') => Some (Forever, p')
  | None => None
  end.

Definition return_code {A} (code : Z) : Cmd A := fun p => Some (Returns code, p).

(** [std::printf] to standard output; a text printed with [%s] ends at its first zero, see
    [c_str]. *)
Definition print (text : bytes) : Cmd unit := fun p =>
  Some (Goes tt, mkProcess (pc_engine p) (pc_out p ++ text) (pc_err p) (pc_written p)).
Definition print_text (text : bytes) : Cmd unit := print (c_str text).
Definition print_line (text : bytes) : Cmd unit := print (c_str text ++ newline).

(** Models [Fail], tools/fabric_reconciliation_cli.cpp:32-35. *)
Definition Fail {A} (message : bytes) : Cmd A := fun p =>
  Some (Returns 1, mkProcess (pc_engine p) (pc_out p) (pc_err p ++ B "error: " ++ c_str message ++ newline)
                     (pc_written p)).

(** [if (!status.ok()) return Fail(status.ToString());] *)
Definition or_fail {A} (r : Result A) : Cmd A :=
  match r with Value a => mret a | Failed status => Fail (Status_ToString status) end.

Definition valid_or {A} (message : bytes) (x : option A) : Cmd A :=
  match x with Some a => mret a | None => Fail message end.

(** A call of the engine the process opened. *)
Definition engine_call {A} (m : Op A) : Cmd (Result A) := fun p =>
  match pc_engine p with
  | None => None
  | Some e => let '(r, e') := m e in
              Some (Goes r, mkProcess (Some e') (pc_out p) (pc_err p) (pc_written p))
  end.

Definition engine_read {A} (f : Engine -> A) : Cmd A := fun p =>
  match pc_engine p with None => None | Some e => Some (Goes (f e), p) end.

(** What a reader of json answered. *)
Definition parsed {A} (r : Doc A) : Cmd (Result A) := fun p =>
  match r with None => None | Some r => Some (Goes r, p) end.

(** ** Options *)

(** Models [Options], tools/fabric_reconciliation_cli.cpp:37-57. *)
Record Options := mkOptions {
  op_command : bytes;
  op_store : bytes;
  op_scope : bytes;
  op_subject : bytes;
  op_file : bytes;
  op_out : bytes;
  op_address : bytes;
  op_plan_id : bytes;
  op_state : bytes;
  op_key : bytes;
  op_ready_file : bytes;
  op_now : Z;
  op_port : Z;
  op_attempt : Z;
  op_below : Z;
  op_json : bool;
  op_dry_run : bool;
  op_quiet : bool;
  op_stdin_control : bool
}.

Definition options_new (command : bytes) : Options :=
  mkOptions command (B "fabric-store") [] [] [] [] (B "127.0.0.1") [] [] [] [] 0 0 0 0 false false false false.

(** [std::strtoll] in base ten: blanks, a sign, the digits it starts with, clamped to 64 bits. *)
Definition is_space (c : byte) : bool := (byte_to_Z c =? 32) || ((9 <=? byte_to_Z c) && (byte_to_Z c <=? 13)).
Fixpoint skip_space (text : bytes) : bytes :=
  match text with [] => [] | c :: rest => if is_space c then skip_space rest else text end.
Definition clamp_i64 (n : Z) : Z := Z.max (- 2 ^ 63) (Z.min (2 ^ 63 - 1) n).
Definition strtoll (text : bytes) : Z :=
  let text := skip_space text in
  let '(negative, text) :=
    match text with
    | c :: rest => if bool_decide (c = Byte.x2d) then (true, rest)
                   else if bool_decide (c = Byte.x2b) then (false, rest) else (false, text)
    | [] => (false, [])
    end in
  let n := digits_value 0 (fst (span_digits text)) in
  clamp_i64 (if negative then - n else n).

Section Flags.
Variable o : Options.

(** Models [main], tools/fabric_reconciliation_cli.cpp:690-703: the options that take a value. *)
Definition set_value (token value : bytes) : option Options :=
  let is_ name := bool_decide (token = name) in
  let text (store scope subject file out address plan_id state key ready_file : bytes) :=
    Some (mkOptions (op_command o) store scope subject file out address plan_id state key ready_file
            (op_now o) (op_port o) (op_attempt o) (op_below o) (op_json o) (op_dry_run o) (op_quiet o)
            (op_stdin_control o)) in
  let number (now port attempt below : Z) :=
    Some (mkOptions (op_command o) (op_store o) (op_scope o) (op_subject o) (op_file o) (op_out o)
            (op_address o) (op_plan_id o) (op_state o) (op_key o) (op_ready_file o) now port attempt below
            (op_json o) (op_dry_run o) (op_quiet o) (op_stdin_control o)) in
  if is_ (B "--store") then
    text value (op_scope o) (op_subject o) (op_file o) (op_out o) (op_address o) (op_plan_id o) (op_state o) (op_key o) (op_ready_file o)
  else if is_ (B "--scope") then
    text (op_store o) value (op_subject o) (op_file o) (op_out o) (op_address o) (op_plan_id o) (op_state o) (op_key o) (op_ready_file o)
  else if is_ (B "--subject") then
    text (op_store o) (op_scope o) value (op_file o) (op_out o) (op_address o) (op_plan_id o) (op_state o) (op_key o) (op_ready_file o)
  else if is_ (B "--file") then
    text (op_store o) (op_scope o) (op_subject o) value (op_out o) (op_address o) (op_plan_id o) (op_state o) (op_key o) (op_ready_file o)
  else if is_ (B "--out") then
    text (op_store o) (op_scope o) (op_subject o) (op_file o) value (op_address o) (op_plan_id o) (op_state o) (op_key o) (op_ready_file o)
  else if is_ (B "--address") then
    text (op_store o) (op_scope o) (op_subject o) (op_file o) (op_out o) value (op_plan_id o) (op_state o) (op_key o) (op_ready_file o)
  else if is_ (B "--plan-id") then
    text (op_store o) (op_scope o) (op_subject o) (op_file o) (op_out o) (op_address o) value (op_state o) (op_key o) (op_ready_file o)
  else if is_ (B "--state") then
    text (op_store o) (op_scope o) (op_subject o) (op_file o) (op_out o) (op_address o) (op_plan_id o) value (op_key o) (op_ready_file o)
  else if is_ (B "--key") then
    text (op_store o) (op_scope o) (op_subject o) (op_file o) (op_out o) (op_address o) (op_plan_id o) (op_state o) value (op_ready_file o)
  else if is_ (B "--ready-file") then
    text (op_store o) (op_scope o) (op_subject o) (op_file o) (op_out o) (op_address o) (op_plan_id o) (op_state o) (op_key o) value
  else if is_ (B "--now") then number (strtoll value) (op_port o) (op_attempt o) (op_below o)
  else if is_ (B "--port") then number (op_now o) (strtoll value) (op_attempt o) (op_below o)
  else if is_ (B "--attempt") then number (op_now o) (op_port o) (strtoll value) (op_below o)
  else if is_ (B "--below") then number (op_now o) (op_port o) (op_attempt o) (strtoll value)
  else None.

(** Models [main], tools/fabric_reconciliation_cli.cpp:704-707: the options that are flags. *)
Definition set_flag (token : bytes) : option Options :=
  let is_ name := bool_decide (token = name) in
  let flags (json dry_run quiet stdin_control : bool) :=
    Some (mkOptions (op_command o) (op_store o) (op_scope o) (op_subject o) (op_file o) (op_out o)
            (op_address o) (op_plan_id o) (op_state o) (op_key o) (op_ready_file o) (op_now o) (op_port o)
            (op_attempt o) (op_below o) json dry_run quiet stdin_control) in
  if is_ (B "--json") then flags true (op_dry_run o) (op_quiet o) (op_stdin_control o)
  else if is_ (B "--dry-run") then flags (op_json o) true (op_quiet o) (op_stdin_control o)
  else if is_ (B "--quiet") then flags (op_json o) (op_dry_run o) true (op_stdin_control o)
  else if is_ (B "--stdin-control") then flags (op_json o) (op_dry_run o) (op_quiet o) true
  else None.
End Flags.

(** Models [kVersionString], include/summon/fabric_reconciliation/version.hpp:19-19. *)
Definition kVersionString : bytes := B "1.0.0".
(** Models [kProductName], include/summon/fabric_reconciliation/version.hpp:20-20. *)
Definition kProductName : bytes := B "Fabric Reconciliation".

(** ** Files and the engine *)

Section Commands.
Variable w : World.

(** Models [ReadFile], tools/fabric_reconciliation_cli.cpp:59-67: empty when it cannot be read. *)
Definition ReadFile (path : bytes) : bytes := wd_file w path.

(** Models [WriteFile], tools/fabric_reconciliation_cli.cpp:69-76: zero when it was written. *)
Definition WriteFile (path content : bytes) : Cmd Z := fun p =>
  if wd_writable w path then
    Some (Goes 0, mkProcess (pc_engine p) (pc_out p) (pc_err p) (pc_written p ++ [(path, content)]))
  else Some (Goes 1, p).

Definition cli_engine_options (store : bytes) : EngineOptions :=
  mkEngineOptions store default_limits true false empty_policy true 8192.

(** Models [OpenEngine], tools/fabric_reconciliation_cli.cpp:78-82. *)
Definition OpenEngine (o : Options) : Cmd unit := fun p =>
  match Engine_Open (wd_host w 0) (wd_boot w) (cli_engine_options (op_store o)) (wd_disk w (op_store o)) with
  | Failed status => Fail (Status_ToString status) p
  | Value e => Some (Goes tt, mkProcess (Some e) (pc_out p) (pc_err p) (pc_written p))
  end.

(** The text of a file a command cannot do without. *)
Definition required_file (path message : bytes) : Cmd bytes :=
  let text := ReadFile path in if is_empty text then Fail message else mret text.

Definition scope_message : bytes := B "--scope is required and must be a valid identity".

Definition write_plan (o : Options) (plan : ReconciliationPlan) (message : bytes) : Cmd unit :=
  if is_empty (op_out o) then mret tt
  else written ← WriteFile (op_out o) (ToJson_plan plan ++ newline);
       if written =? 0 then mret tt else Fail message.

(** ** Commands *)

(** Models [CommitPolicy], tools/fabric_reconciliation_cli.cpp:84-98. *)
Definition CommitPolicy (o : Options) : Cmd (Result Status) :=
  if is_empty (op_file o) then engine_call (Engine_PutPolicy (wd_host w 1) DefaultPolicy true)
  else
    let text := ReadFile (op_file o) in
    if is_empty text then
      mret (Failed (mkStatus SC_Rejected RC_MalformedPayload (B "policy file is empty or unreadable")))
    else
      r ← parsed (ParseJson_policy text default_limits);
      match r with
      | Failed status => mret (Failed status)
      | Value policy => engine_call (Engine_PutPolicy (wd_host w 1) policy true)
      end.

(** Models [CommandInit], tools/fabric_reconciliation_cli.cpp:100-110. *)
Definition CommandInit (o : Options) : Cmd Z :=
  _ ← OpenEngine o;
  report ← engine_read en_boot_report;
  _ ← (if op_quiet o then mret tt else print_text (RenderBootReportText report));
  mret 0.

(** Models [CommandStatus], tools/fabric_reconciliation_cli.cpp:112-135. *)
Definition CommandStatus (o : Options) : Cmd Z :=
  _ ← OpenEngine o;
  report ← engine_read en_boot_report;
  if op_json o then _ ← print_line (ToJson_boot_report report); mret 0
  else
    _ ← print_text (RenderBootReportText report);
    policy ← engine_read ActivePolicy;
    _ ← match policy with Value policy => print_line (ToJson_policy policy) | Failed _ => mret tt end;
    scopes ← engine_read KnownScopes;
    _ ← print (concat (map (fun scope => B "scope " ++ c_str scope ++ newline) scopes));
    mret 0.

(** Models [CommandPolicy], tools/fabric_reconciliation_cli.cpp:137-153. *)
Definition CommandPolicy (o : Options) : Cmd Z :=
  _ ← OpenEngine o;
  committed ← CommitPolicy o;
  _ ← or_fail committed;
  policy ← engine_read ActivePolicy;
  policy ← or_fail policy;
  _ ← print_line (ToJson_policy policy);
  mret 0.

(** Models [CommandIntent], tools/fabric_reconciliation_cli.cpp:155-180. *)
Definition CommandIntent (o : Options) : Cmd Z :=
  text ← required_file (op_file o) (B "intent file is empty or unreadable");
  document ← parsed (ParseJson_intent text default_limits);
  document ← or_fail document;
  _ ← OpenEngine o;
  committed ← engine_call (Engine_CommitIntent (wd_host w 1) document);
  '(_, result) ← or_fail committed;
  _ ← print (B "intent scope=" ++ c_str (in_scope document) ++ B " generation=" ++
             to_string (ic_generation result) ++ B " duplicate=" ++ yes_no (ic_duplicate result) ++
             B " digest=" ++ ToHex (ic_digest result) ++ newline);
  mret 0.

(** Models [CommandObserve], tools/fabric_reconciliation_cli.cpp:182-213. *)
Definition CommandObserve (o : Options) : Cmd Z :=
  text ← required_file (op_file o) (B "observation file is empty or unreadable");
  submission ← parsed (ParseJson_submission text default_limits);
  submission ← or_fail submission;
  _ ← OpenEngine o;
  committed ← engine_call (RecordObservationAt (wd_host w 1) submission (op_now o));
  '(_, result) ← or_fail committed;
  if op_json o then _ ← print_line (ToJson_observation (oc_stamped result)); mret 0
  else
    _ ← print (B "observation scope=" ++ c_str (su_scope submission) ++ B " reporter=" ++
               c_str (su_reporter submission) ++ B " generation=" ++ to_string (su_generation submission) ++
               B " duplicate=" ++ yes_no (oc_duplicate result) ++ B " epoch=" ++
               to_string (ob_received_epoch (oc_stamped result)) ++ newline);
    mret 0.

(** Models [CommandPlan], tools/fabric_reconciliation_cli.cpp:215-247; both values of
    [explain_only] print the same text. *)
Definition CommandPlan (o : Options) (explain_only : bool) : Cmd Z :=
  _ ← OpenEngine o;
  scope ← valid_or scope_message (StringId_TryParse (op_scope o));
  plan ← engine_call (Engine_Plan (wd_host w 1) (mkPlanRequest scope None (op_now o) (op_dry_run o)));
  plan ← or_fail plan;
  _ ← (if op_json o then print_line (ToJson_plan plan)
       else if explain_only then print_text (RenderPlanText plan)
       else print_text (RenderPlanText plan));
  _ ← write_plan o plan (B "could not write the plan document");
  mret 0.

(** Models [CommandClassify], tools/fabric_reconciliation_cli.cpp:249-269. *)
Definition CommandClassify (o : Options) : Cmd Z :=
  _ ← OpenEngine o;
  scope ← valid_or scope_message (StringId_TryParse (op_scope o));
  report ← engine_call (Engine_Classify (wd_host w 1) scope (op_now o));
  report ← or_fail report;
  _ ← (if op_json o then print_line (ToJson_report report)
       else print_text (RenderClassificationText report));
  mret 0.

(** Models [CommandDispatch], tools/fabric_reconciliation_cli.cpp:271-305. *)
Definition CommandDispatch (o : Options) : Cmd Z :=
  _ ← OpenEngine o;
  scope ← valid_or scope_message (StringId_TryParse (op_scope o));
  plan ← engine_call (Engine_Plan (wd_host w 1) (mkPlanRequest scope None (op_now o) false));
  plan ← or_fail plan;
  if negb (is_empty (op_plan_id o)) && negb (bool_decide (op_plan_id o = pl_plan_id plan)) then
    Fail (B "the plan changed since the supplied plan id was observed")
  else
    dispatched ← engine_call (Engine_Dispatch (wd_host w 2) plan);
    dispatched ← or_fail dispatched;
    _ ← print (B "plan=" ++ c_str (pl_plan_id plan) ++ B " verdict=" ++
               ConvergenceVerdict_ToText (pl_verdict plan) ++ B " issued=" ++
               to_string (blen (di_intents dispatched)) ++ B " already-issued=" ++
               to_string (di_already_issued dispatched) ++ B " fenced=" ++
               to_string (di_fenced dispatched) ++ newline);
    _ ← print (concat (map (fun action =>
                 B "attempt=" ++ to_string (ai_attempt action) ++ B " key=" ++
                 ToHex (ai_idempotency_key action) ++ B " subject=" ++ c_str (ai_subject action) ++
                 B " action=" ++ ActionKind_ToText (ai_action action) ++ newline) (di_intents dispatched)));
    mret 0.

(** Models [CommandComplete], tools/fabric_reconciliation_cli.cpp:307-333. *)
Definition CommandComplete (o : Options) : Cmd Z :=
  _ ← OpenEngine o;
  target ← valid_or (B "--state must be one of ACKNOWLEDGED, APPLIED, FAILED, ABANDONED")
             (TryParseAttemptState (c_str (op_state o)));
  epoch ← engine_read Engine_epoch;
  boot ← engine_read Engine_boot;
  key ← valid_or (B "--key must be 64 hexadecimal characters") (TryParseHexDigest (op_key o));
  completed ← engine_call (Engine_Complete (wd_host w 1)
    (mkCompletion (wrap 64 (op_attempt o)) epoch boot key target (op_now o) RC_None []));
  outcome ← or_fail completed;
  _ ← print_line (ToJson_outcome outcome);
  mret 0.

(** Models [CommandVerify], tools/fabric_reconciliation_cli.cpp:335-357. *)
Definition CommandVerify (o : Options) : Cmd Z :=
  text ← required_file (op_file o) (B "verification file is empty or unreadable");
  evidence ← parsed (ParseJson_verification text);
  evidence ← or_fail evidence;
  _ ← OpenEngine o;
  verified ← engine_call (Engine_Verify (wd_host w 1) evidence);
  outcome ← or_fail verified;
  _ ← print_line (ToJson_outcome outcome);
  mret 0.

(** The fence an operator asks for. *)
Definition cli_fence_id (below : Z) : bytes := B "fence/cli/" ++ to_string below.
Definition cli_fence (id scope subject : bytes) (below : Z) : FenceEntry :=
  mkFence id scope subject (wrap 64 below) RC_ScopeFenced (B "operator fence") 0.

(** Models [CommandFence], tools/fabric_reconciliation_cli.cpp:359-389. *)
Definition CommandFence (o : Options) : Cmd Z :=
  _ ← OpenEngine o;
  match StringId_TryParse (cli_fence_id (op_below o)), StringId_TryParse (op_scope o) with
  | Some id, Some scope =>
    subject ← (if is_empty (op_subject o) then mret []
               else valid_or (B "--subject must be a valid identity") (StringId_TryParse (op_subject o)));
    let fence := cli_fence id scope subject (op_below o) in
    status ← engine_call (Engine_PutFence (wd_host w 1) fence);
    _ ← or_fail status;
    _ ← print_line (ToJson_fence fence);
    mret 0
  | _, _ => Fail scope_message
  end.

(** The scope a listing is restricted to; empty for every scope. *)
Definition optional_scope (o : Options) : Cmd bytes :=
  if is_empty (op_scope o) then mret []
  else valid_or (B "--scope must be a valid identity") (StringId_TryParse (op_scope o)).

(** Models [CommandAttempts], tools/fabric_reconciliation_cli.cpp:391-417. *)
Definition CommandAttempts (o : Options) : Cmd Z :=
  _ ← OpenEngine o;
  scope ← optional_scope o;
  attempts ← engine_read (fun e => Engine_Attempts e scope);
  _ ← print (concat (map (fun attempt =>
        if op_json o then c_str (ToJson_attempt attempt) ++ newline else c_str (RenderAttemptText attempt))
        attempts));
  mret 0.

(** Models [CommandOutcomes], tools/fabric_reconciliation_cli.cpp:419-441. *)
Definition CommandOutcomes (o : Options) : Cmd Z :=
  _ ← OpenEngine o;
  scope ← optional_scope o;
  outcomes ← engine_read (fun e => Engine_Outcomes e scope);
  _ ← print (concat (map (fun outcome => c_str (ToJson_outcome outcome) ++ newline) outcomes));
  mret 0.

(** The engine of the process is the one the service works on. *)
Definition follow (service : Service) : Cmd unit := fun p =>
  Some (Goes tt, mkProcess (Some (sv_engine (sc_server service))) (pc_out p) (pc_err p) (pc_written p)).

(** Models [CommandServe], tools/fabric_reconciliation_cli.cpp:476-489: the control channel; before
    each line the sessions of the service did what the host records. *)
Fixpoint serve_control (lines : list (bytes * (Service -> Service))) (service : Service) : Cmd Service :=
  match lines with
  | [] => mret service
  | (line, sessions_did) :: rest =>
    let service := sessions_did service in
    _ ← follow service;
    if bool_decide (line = B "stop") then mret service
    else
      _ ← (if bool_decide (line = B "status") then
             print (B "accepted=" ++ to_string (sc_accepted service) ++ B " rejected=" ++
                    to_string (sv_rejected (sc_server service)) ++ B " epoch=" ++
                    to_string (Engine_epoch (sv_engine (sc_server service))) ++ newline)
           else mret tt);
      serve_control rest service
  end.

(** Models [CommandServe], tools/fabric_reconciliation_cli.cpp:443-501. *)
Definition CommandServe (o : Options) : Cmd Z :=
  _ ← OpenEngine o;
  _ ← (if Status_ok (wd_bind w) then mret tt else Fail (Status_ToString (wd_bind w)));
  e ← engine_read (fun e => e);
  let service := Start (mkServerOptions default_limits 64 false) e in
  let endpoint := op_address o ++ B ":" ++ to_string (wd_port w) in
  _ ← print (B "listening " ++ c_str endpoint ++ B " epoch=" ++ to_string (Engine_epoch e) ++
             B " boot=" ++ HexOf (Engine_boot e) ++ newline);
  _ ← (if is_empty (op_ready_file o) then mret tt
       else written ← WriteFile (op_ready_file o)
                        (endpoint ++ newline ++ B "epoch=" ++ to_string (Engine_epoch e) ++ newline ++
                         B "boot=" ++ HexOf (Engine_boot e) ++ newline);
            if written =? 0 then mret tt else Fail (B "could not write the readiness file"));
  if op_stdin_control o then
    service ← serve_control (wd_stdin w) service;
    _ ← follow (stop_accepting (wd_drain w service));
    _ ← print (B "stopped" ++ newline);
    mret 0
  else
    _ ← follow (wd_until w service);
    (fun p => Some (Forever, p)) : Cmd Z.

(** ** The synthetic scenario *)

(** Models [CommandScenario], tools/fabric_reconciliation_cli.cpp:542-552: subject, desired and
    observed value, presence. *)
Definition fixtures : list (bytes * Z * Z * bool) :=
  [(B "node/n1/port/eth0", 9000, 9000, true); (B "node/n2/port/eth0", 9000, 1500, true);
   (B "node/n3/port/eth0", 9000, 0, false)].

Definition mtu (value : Z) : SubjectState := [(B "mtu", AV_Unsigned value)].

(** Models [CommandScenario], tools/fabric_reconciliation_cli.cpp:522-567: the intent of the
    scenario; the identities are constants of the grammar. *)
Definition scenario_intent : IntentDocument :=
  mkIntent (B "intent/rack-7") (B "fabric/rack-7") (B "definition/rack-7") 1 1 EC_Synthetic true
    (foldl (fun subjects '(subject, desired, _, _) =>
              om_insert subject (mkSubjectIntent subject true (mtu desired)) subjects) [] fixtures)
    zero_digest.

(** Models [CommandScenario], tools/fabric_reconciliation_cli.cpp:530-582: its observation. *)
Definition scenario_observation : ObservationSubmission :=
  mkSubmission (B "observation/rack-7/1") (B "fabric/rack-7") (B "reporter/synthetic-probe") 1 EC_Synthetic
    true true
    (om_insert (B "node/n9/port/eth0") (mkSubjectObservation (B "node/n9/port/eth0") true (mtu 9000))
      (foldl (fun subjects '(subject, _, observed, present) =>
                if (present : bool)
                then om_insert subject (mkSubjectObservation subject true (mtu observed)) subjects
                else subjects) [] fixtures)).

(** Models [CommandScenario], tools/fabric_reconciliation_cli.cpp:508-620. *)
Definition CommandScenario (o : Options) : Cmd Z :=
  _ ← OpenEngine o;
  if negb (forallb IsValidIdentityText
             ([in_scope scenario_intent; in_intent scenario_intent; in_definition scenario_intent;
               su_reporter scenario_observation; su_observation scenario_observation; B "mtu"] ++
              map (fun '(subject, _, _, _) => subject) fixtures)) then
    Fail (B "synthetic fixture identities are invalid")
  else
    committed ← engine_call (Engine_CommitIntent (wd_host w 1) scenario_intent);
    _ ← or_fail committed;
    recorded ← engine_call (RecordObservationAt (wd_host w 2) scenario_observation (op_now o));
    _ ← or_fail recorded;
    let request := mkPlanRequest (B "fabric/rack-7") None (op_now o) true in
    plan ← engine_call (Engine_Plan (wd_host w 3) request);
    plan ← or_fail plan;
    _ ← print_text (RenderPlanText plan);
    _ ← print (B "scenario plan-id=" ++ c_str (pl_plan_id plan) ++ newline);
    _ ← write_plan o plan (B "could not write the scenario plan");
    replay ← engine_call (Engine_Plan (wd_host w 4) request);
    replay ← or_fail replay;
    if negb (bool_decide (pl_plan_id replay = pl_plan_id plan)) then
      Fail (B "plan identity is not deterministic across identical requests")
    else
      _ ← print (B "scenario deterministic=yes" ++ newline);
      mret 0.

(** Models [CommandSelftest], tools/fabric_reconciliation_cli.cpp:622-636. *)
Definition CommandSelftest : Cmd Z :=
  if negb (bool_decide (ToHex (Sha256Of (B "abc")) =
             B "ba7816bf8f01cfea414140de5dae2223b00361a396177a9cb410ff61f20015ad")) then
    Fail (B "SHA-256 self test failed")
  else if bool_decide (fst (wd_boots w) = snd (wd_boots w)) then Fail (B "boot identities are not unique")
  else _ ← print (B "selftest ok version=" ++ kVersionString ++ newline); mret 0.

(** ** The entry point *)

(** The lines of the usage text. *)
Definition usage_lines : list bytes :=
  [kProductName ++ B " " ++ kVersionString; B "usage: fabric-reconciliation <command> [options]"; [];
   B "commands:";
   B "  init      --store DIR [--quiet]";
   B "  status    --store DIR [--json]";
   B "  policy    --store DIR [--file POLICY.json]";
   B "  intent    --store DIR --file INTENT.json";
   B "  observe   --store DIR --file OBSERVATION.json [--now MS] [--json]";
   B "  classify  --store DIR --scope SCOPE [--now MS] [--json]";
   B "  plan      --store DIR --scope SCOPE [--now MS] [--dry-run] [--json] [--out FILE]";
   B "  explain   --store DIR --scope SCOPE [--now MS]";
   B "  dispatch  --store DIR --scope SCOPE [--now MS] [--plan-id ID]";
   B "  complete  --store DIR --attempt N --key HEX --state STATE [--now MS]";
   B "  verify    --store DIR --file VERIFICATION.json";
   B "  fence     --store DIR --scope SCOPE --below EPOCH [--subject ID]";
   B "  attempts  --store DIR [--scope SCOPE] [--json]";
   B "  outcomes  --store DIR [--scope SCOPE]";
   B "  serve     --store DIR [--address A] [--port N] [--ready-file F] [--stdin-control]";
   B "  scenario  --store DIR [--now MS] [--out FILE]";
   B "  selftest"].

(** Models [PrintUsage], tools/fabric_reconciliation_cli.cpp:638-661. *)
Definition PrintUsage : Cmd unit := print (concat (map (fun line => line ++ newline) usage_lines)).

(** Models [main], tools/fabric_reconciliation_cli.cpp:688-711: the loop over the arguments, where
    an option at the end of the line has the empty value ([Next], lines 663-669). *)
Fixpoint parse_options (o : Options) (raw : list bytes) : Cmd Options :=
  match raw with
  | [] => mret o
  | token :: rest =>
    match set_value o token [] with
    | Some o' =>
      match rest with
      | [] => mret o'
      | value :: rest => parse_options (default o (set_value o token value)) rest
      end
    | None =>
      match set_flag o token with
      | Some o => parse_options o rest
      | None =>
        if bool_decide (token = B "--version") then _ ← print (kVersionString ++ newline); return_code 0
        else if bool_decide (token = B "--help") || bool_decide (token = B "-h") then
          _ ← PrintUsage; return_code 0
        else Fail (B "unknown argument: " ++ token)
      end
    end
  end.

(** Models [main], tools/fabric_reconciliation_cli.cpp:713-731: the command is chosen by its name. *)
Definition run_command (o : Options) : Cmd Z :=
  let is_ name := bool_decide (op_command o = name) in
  if is_ (B "init") then CommandInit o
  else if is_ (B "status") then CommandStatus o
  else if is_ (B "policy") then CommandPolicy o
  else if is_ (B "intent") then CommandIntent o
  else if is_ (B "observe") then CommandObserve o
  else if is_ (B "classify") then CommandClassify o
  else if is_ (B "plan") then CommandPlan o false
  else if is_ (B "explain") then CommandPlan o true
  else if is_ (B "dispatch") then CommandDispatch o
  else if is_ (B "complete") then CommandComplete o
  else if is_ (B "verify") then CommandVerify o
  else if is_ (B "fence") then CommandFence o
  else if is_ (B "attempts") then CommandAttempts o
  else if is_ (B "outcomes") then CommandOutcomes o
  else if is_ (B "serve") then CommandServe o
  else if is_ (B "scenario") then CommandScenario o
  else if is_ (B "selftest") then CommandSelftest
  else _ ← PrintUsage; Fail (B "unknown command: " ++ op_command o).

(** Models [main], tools/fabric_reconciliation_cli.cpp:678-712. *)
Definition cli (raw : list bytes) : Cmd Z :=
  match raw with
  | [] => _ ← PrintUsage; return_code 2
  | command :: rest =>
    if bool_decide (command = B "--version") then _ ← print (kVersionString ++ newline); return_code 0
    else if bool_decide (command = B "--help") || bool_decide (command = B "-h") then
      _ ← PrintUsage; return_code 0
    else options ← parse_options (options_new command) rest; run_command options
  end.

(** Models [main], tools/fabric_reconciliation_cli.cpp:673-732: a run of the tool. *)
Definition cli_main (raw : list bytes) : option (Flow Z * Process) := cli raw process_new.
End Commands.
