(* ===== verification/CliSafety.v ===== *)
(** * What a run of the command line does to the engine

    Pieces of a command are reasoned about with triples over the process; the invariant of every
    command is that the engine, once opened, has only served requests within its contracts. *)

From Stdlib Require Import ZArith Lia.
From stdpp Require Import prelude.
From S2P Require Import Prelude OrdMap Hash Status Identity Canonical Value Policy Document Drift.
From S2P Require Import Authority Plan Lineage Journal Snapshot StoreState Store Engine Planner.
From S2P Require Import Lifecycle EngineRuns EngineSafety EngineGuards Wire WireOps Render Server ServerSafety.
From S2P Require Import Json JsonFacts DocumentJson DocumentJsonFacts Cli.
Local Open Scope Z_scope.

(** ** Options *)

Definition options_ok (o : Options) : bool := i64 (op_now o).

Lemma strtoll_i64 text : i64 (strtoll text) = true.
Proof.
  unfold strtoll. cbv zeta. destruct (skip_space text) as [|c rest]; [done|].
  destruct (bool_decide _); [|destruct (bool_decide _)]; unfold clamp_i64, in_signed; bool_goal; lia.
Qed.

Lemma set_value_ok o token value o' : options_ok o = true -> set_value o token value = Some o' -> options_ok o' = true.
Proof.
  unfold set_value, options_ok. intros Ho. cbv zeta.
  repeat (destruct (bool_decide _); [intros [= <-]; first [exact Ho|apply strtoll_i64]|]). done.
Qed.

Lemma set_flag_ok o token o' : options_ok o = true -> set_flag o token = Some o' -> options_ok o' = true.
Proof.
  unfold set_flag, options_ok. intros Ho. cbv zeta.
  repeat (destruct (bool_decide _); [intros [= <-]; exact Ho|]). done.
Qed.

(** ** Triples *)

Section Runs.
Variable w : World.
Context {D : Discipline}.

(** The engines this world's stores open to. *)
Definition opened (e : Engine) : Prop :=
  exists store, Engine_Open (wd_host w 0) (wd_boot w) (cli_engine_options store) (wd_disk w store) = Value e.

(** The engine of the process, related to the engine that was opened. *)
Definition at_engine (R : Engine -> Engine -> Prop) (p : Process) : Prop :=
  exists e0 e, opened e0 /\ pc_engine p = Some e /\ R e0 e.

(** No engine yet, or one that only served requests within its contracts. *)
Definition legal (p : Process) : Prop := pc_engine p = None \/ at_engine served p.

(** From [P], a piece goes on with [Q], or the process returns a code under [E]. *)
Definition ends {A} (E : Z -> Process -> Prop) (P : Process -> Prop) (m : Cmd A) (Q : A -> Process -> Prop) : Prop :=
  forall p r p', P p -> m p = Some (r, p') ->
    match r with Goes a => Q a p' | Returns code => E code p' | Forever => legal p' end.

(** The process may return any code, as long as it is legal. *)
Notation triple := (ends (fun _ => legal)).

(** A condition on the engine alone, under which the process may end. *)
Class Settled (P : Process -> Prop) : Prop := {
  settled_legal p : P p -> legal p;
  settled_engine p p' : pc_engine p' = pc_engine p -> P p -> P p'
}.

Definition unopened (p : Process) : Prop := pc_engine p = None.
#[global] Instance unopened_settled : Settled unopened.
Proof. split; [intros p H; by left|]. unfold unopened. by intros p p' ->. Qed.

#[global] Instance at_engine_settled R : (forall e0 e, R e0 e -> served e0 e) -> Settled (at_engine R).
Proof.
  intros HR. split.
  - intros p (e0 & e & H0 & He & H). right. exists e0, e. auto.
  - intros p p' Hp (e0 & e & H0 & He & H). exists e0, e. by rewrite Hp.
Qed.

#[global] Instance served_settled : Settled (at_engine served).
Proof. by apply at_engine_settled. Qed.

(** The engine serves its opening state still. *)
Definition idle (e0 e : Engine) : Prop := served e0 e /\ en_state e = en_state e0.
#[global] Instance idle_settled : Settled (at_engine idle).
Proof. apply at_engine_settled. by intros e0 e [H _]. Qed.

Lemma idle_served p : at_engine idle p -> at_engine served p.
Proof. intros (e0 & e & H0 & He & H & _). by exists e0, e. Qed.

Lemma t_pre {A} E (P P' : Process -> Prop) (m : Cmd A) Q : (forall p, P p -> P' p) -> ends E P' m Q -> ends E P m Q.
Proof. intros H Hm p r p' Hp. by apply Hm, H. Qed.

Lemma t_bind {A C} {E} (P : Process -> Prop) (m : Cmd A) (f : A -> Cmd C) Q R :
  ends E P m Q -> (forall a, ends E (Q a) (f a) R) -> ends E P (m ≫= f) R.
Proof.
  intros Hm Hf p r p' Hp. unfold mbind, Cmd_bind. destruct (m p) as [[[a|code|] p1]|] eqn:Em; [| | |done].
  - apply (Hf a). exact (Hm _ _ _ Hp Em).
  - intros [= <- <-]. exact (Hm _ _ _ Hp Em).
  - intros [= <- <-]. exact (Hm _ _ _ Hp Em).
Qed.

Lemma t_post {A} E (P : Process -> Prop) (m : Cmd A) Q R :
  ends E P m Q -> (forall a p, Q a p -> R a p) -> ends E P m R.
Proof. intros Hm H p r p' Hp Em. specialize (Hm p r p' Hp Em). destruct r; auto. Qed.

Section Rules.
Context {P : Process -> Prop} `{!Settled P}.

Lemma t_ret {A} E (a : A) (Q : A -> Process -> Prop) : (forall p, P p -> Q a p) -> ends E P (mret a) Q.
Proof. intros H p r p' Hp [= <- <-]. by apply H. Qed.

Lemma t_done (code : Z) : triple P (mret code) (fun _ => legal).
Proof. apply t_ret. apply settled_legal. Qed.

Lemma t_return {A} code (Q : A -> Process -> Prop) : triple P (return_code code) Q.
Proof. intros p r p' Hp [= <- <-]. by apply settled_legal. Qed.

Lemma t_Fail {A} message (Q : A -> Process -> Prop) : triple P (Fail message) Q.
Proof. intros p r p' Hp [= <- <-]. apply settled_legal. by apply (settled_engine p). Qed.

Lemma t_or_fail {A} (r : Result A) : triple P (or_fail r) (fun a p => P p /\ r = Value a).
Proof. destruct r; [apply t_ret; auto|apply t_Fail]. Qed.

Lemma t_valid_or {A} message (x : option A) : triple P (valid_or message x) (fun a p => P p /\ x = Some a).
Proof. destruct x; [apply t_ret; auto|apply t_Fail]. Qed.

Lemma t_print E text : ends E P (print text) (fun _ => P).
Proof. intros p r p' Hp [= <- <-]. by apply (settled_engine p). Qed.

Lemma t_parsed {A} (r : Doc A) : triple P (parsed r) (fun a p => P p /\ r = Some a).
Proof. intros p r' p' Hp. unfold parsed. destruct r; [|done]. by intros [= <- <-]. Qed.

Lemma t_write path content : triple P (WriteFile w path content) (fun _ => P).
Proof.
  intros p r p' Hp. unfold WriteFile. destruct (wd_writable w path); intros [= <- <-]; [|done].
  by apply (settled_engine p).
Qed.

Lemma t_fact {A} E (F : Prop) (m : Cmd A) Q : (F -> ends E P m Q) -> ends E (fun p => P p /\ F) m Q.
Proof. intros H p r p' [Hp HF]. by apply (H HF). Qed.
End Rules.

Lemma t_read {A E} R (f : Engine -> A) (Q : A -> Process -> Prop) :
  (forall p e0 e, opened e0 -> R e0 e -> pc_engine p = Some e -> Q (f e) p) ->
  ends E (at_engine R) (engine_read f) Q.
Proof.
  intros H p r p' (e0 & e & H0 & He & HR). unfold engine_read. rewrite He. intros [= <- <-]. by eapply H.
Qed.

Lemma t_call {A E} R (m : Op A) S :
  (forall e0 e, opened e0 -> R e0 e -> S (m e).1 e0 (m e).2) ->
  ends E (at_engine R) (engine_call m) (fun r => at_engine (S r)).
Proof.
  intros H p r p' (e0 & e & H0 & He & HR). unfold engine_call. rewrite He. destruct (m e) as [x e'] eqn:Em.
  intros [= <- <-]. exists e0, e'. cbn [pc_engine]. split; [done|]. split; [done|]. specialize (H e0 e H0 HR). by rewrite Em in H.
Qed.

Lemma t_open o : triple unopened (OpenEngine w o) (fun _ => at_engine idle).
Proof.
  intros p r p' Hp. unfold OpenEngine. destruct (Engine_Open _ _ _ _) as [e|status] eqn:E.
  - intros [= <- <-]. exists e, e. cbn [pc_engine]. split; [by exists (op_store o)|]. split; [done|]. split; [apply rtc_refl|done].
  - intros H. exact (t_Fail (P := unopened) _ (fun _ => at_engine idle) p r p' Hp H).
Qed.

(** ** Every command *)

Hypothesis Hopen : forall e, opened e -> engine_ok e /\ en_limits e = default_limits /\ attempts_room e.
Hypothesis Hhost : forall i, host_typed (wd_host w i) = true.
Hypothesis Hfollows : forall i, follows (wd_host w i).
Hypothesis Hlines : forall line did service, (line, did) ∈ wd_stdin w -> service_run service (did service).
Hypothesis Hdrain : forall service, service_run service (wd_drain w service).
Hypothesis Huntil : forall service, service_run service (wd_until w service).

Lemma served_engine e0 e :
  opened e0 -> served e0 e -> engine_ok e /\ en_limits e = default_limits.
Proof.
  intros H0 Hs. destruct (Hopen e0 H0) as (Hok & Hl & _). pose proof (served_evolves _ _ Hok Hs) as He. split.
  - by eapply engine_ok_evolves.
  - destruct He as [(Ho & _) _]. unfold en_limits in *. by rewrite Ho.
Qed.

(** A call that serves a request the engine's contracts cover. *)
Lemma t_served {A E} R (m : Op A) :
  (forall e0 e, R e0 e -> served e0 e) ->
  (forall e, engine_ok e -> en_limits e = default_limits -> served e (m e).2) ->
  ends E (at_engine R) (engine_call m) (fun _ => at_engine served).
Proof.
  intros HR Hm. apply (t_call R m (fun _ => served)). intros e0 e H0 He.
  destruct (served_engine e0 e H0 (HR _ _ He)). etransitivity; [by apply HR|by apply Hm].
Qed.

Lemma t_request {A E} R request i (m : Op A) :
  (forall e0 e, R e0 e -> served e0 e) -> serve (wd_host w i) request = forget m ->
  (forall e, en_limits e = default_limits -> request_ok e request = true) ->
  ends E (at_engine R) (engine_call m) (fun _ => at_engine served).
Proof. intros HR Hs Hr. apply t_served; [done|]. intros e _ Hl. apply (served_call (wd_host w i) request); [done|done|by apply Hr|done]. Qed.

Lemma idle_sub e0 e : idle e0 e -> served e0 e.
Proof. by intros [H _]. Qed.
Lemma served_sub e0 e : served e0 e -> served e0 e.
Proof. done. Qed.

Lemma t_required_file path message :
  triple unopened (required_file w path message) (fun _ => unopened).
Proof. unfold required_file. cbv zeta. destruct (is_empty _); [apply t_Fail|by apply t_ret]. Qed.

Lemma t_write_plan o plan message : triple (at_engine served) (write_plan w o plan message) (fun _ => at_engine served).
Proof.
  unfold write_plan. destruct (is_empty _); [by apply t_ret|]. eapply t_bind; [apply t_write|]. intros written.
  destruct (written =? 0); [by apply t_ret|apply t_Fail].
Qed.

(** Passes one step of a command. *)
Ltac cmd :=
  cbv zeta; unfold print_line, print_text;
  lazymatch goal with
  | |- triple _ (mbind _ (OpenEngine _ _)) _ => eapply t_bind; [apply t_open|intros []]
  | |- triple _ (mbind _ (print _)) _ => eapply t_bind; [apply t_print|intros []]
  | |- triple _ (mbind _ (or_fail _)) _ => eapply t_bind; [apply t_or_fail|intros ?; apply t_fact; intros ?]
  | |- triple _ (mbind _ (valid_or _ _)) _ => eapply t_bind; [apply t_valid_or|intros ?; apply t_fact; intros ?]
  | |- triple _ (mbind _ (parsed _)) _ => eapply t_bind; [apply t_parsed|intros ?; apply t_fact; intros ?]
  | |- triple _ (mbind _ (required_file _ _ _)) _ => eapply t_bind; [apply t_required_file|intros ?]
  | |- triple _ (mbind _ (write_plan _ _ _ _)) _ => eapply t_bind; [apply t_write_plan|intros []]
  | |- triple ?P (mbind _ (engine_read _)) _ =>
    eapply t_bind; [apply (t_read _ _ (fun _ => P)); intros ? ? ? ? ? ?; eexists _, _; eauto|intros ?]
  | |- triple ?P (mbind _ (if _ then _ else _)) _ =>
    eapply (t_bind P _ _ (fun _ => P)); [repeat case_match; first [apply t_print|by apply t_ret|apply t_Fail]|intros []]
  | |- triple ?P (mbind _ (match _ with _ => _ end)) _ =>
    eapply (t_bind P _ _ (fun _ => P)); [repeat case_match; first [apply t_print|by apply t_ret|apply t_Fail]|intros []]
  | |- triple _ (mret _) _ => apply t_done
  | |- triple _ (Fail _) _ => apply t_Fail
  | |- triple _ (return_code _) _ => apply t_return
  | |- triple _ (if ?c then _ else _) _ => destruct c eqn:?
  end.

Lemma run_init o : triple unopened (CommandInit w o) (fun _ => legal).
Proof. unfold CommandInit. repeat cmd. Qed.

Lemma run_status o : triple unopened (CommandStatus w o) (fun _ => legal).
Proof. unfold CommandStatus. repeat cmd. Qed.

Lemma t_optional_scope o : triple (at_engine idle) (optional_scope o) (fun _ => at_engine idle).
Proof.
  unfold optional_scope. destruct (is_empty _); [by apply t_ret|].
  eapply t_post; [apply t_valid_or|]. by intros a p [H _].
Qed.

Lemma run_attempts o : triple unopened (CommandAttempts w o) (fun _ => legal).
Proof. unfold CommandAttempts. cmd. eapply t_bind; [apply t_optional_scope|intros ?]. repeat cmd. Qed.

Lemma run_outcomes o : triple unopened (CommandOutcomes w o) (fun _ => legal).
Proof. unfold CommandOutcomes. cmd. eapply t_bind; [apply t_optional_scope|intros ?]. repeat cmd. Qed.

Lemma documents_typed {A} text (read : Json -> Doc A) (P : A -> Prop) a :
  (forall root, root_ok 0 root = true -> gives (read root) P) ->
  (root ← read_root text; read root) = Some (Value a) -> P a.
Proof.
  intros H. exact (gives_bind _ _ (fun root => root_ok 0 root = true) P (gives_root text _ (fun _ h => h)) H a).
Qed.

Lemma run_intent o : triple unopened (CommandIntent w o) (fun _ => legal).
Proof.
  unfold CommandIntent. do 4 cmd. subst.
  match goal with H : ParseJson_intent ?text ?limits = Some (Value ?d) |- _ =>
    pose proof (documents_typed text _ _ d (gives_intent limits) H) as Hd end.
  eapply t_bind.
  { apply (t_request idle (RQ_CommitIntent a1) 1); [apply idle_sub|done|]. intros e Hl. cbn [request_ok].
    rewrite Hl. by apply intent_wf_typed. }
  intros r. cmd. destruct a0. repeat cmd.
Qed.

Lemma run_observe o : options_ok o = true -> triple unopened (CommandObserve w o) (fun _ => legal).
Proof.
  intros Ho. unfold CommandObserve. do 4 cmd. subst.
  match goal with H : ParseJson_submission ?text ?limits = Some (Value ?d) |- _ =>
    pose proof (documents_typed text _ _ d (gives_submission limits) H) as Hd end.
  eapply t_bind.
  { apply (t_request idle (RQ_RecordObservation a1 (op_now o)) 1); [apply idle_sub|done|]. intros e Hl. cbn [request_ok].
    rewrite Hl. apply andb_true_iff. done. }
  intros r. cmd. destruct a0. repeat cmd.
Qed.

Lemma run_policy o : triple unopened (CommandPolicy w o) (fun _ => legal).
Proof.
  unfold CommandPolicy. cmd. eapply (t_bind _ _ _ (fun _ => at_engine served)).
  - unfold CommitPolicy. destruct (is_empty (op_file o)).
    { by apply (t_request idle (RQ_PutPolicy DefaultPolicy true) 1); [apply idle_sub| |]. }
    cbv zeta. destruct (is_empty _); [apply t_ret, idle_served|]. cmd.
    match goal with r : Result ReconciliationPolicy |- _ => destruct r as [policy|status] end.
    + match goal with H : ParseJson_policy ?text ?limits = Some (Value ?d) |- _ =>
        pose proof (documents_typed text _ _ d (gives_policy limits) H) as Hd end.
      apply (t_request idle (RQ_PutPolicy policy true) 1); [apply idle_sub|done|]. intros e Hl.
      by apply (policy_wf_typed default_limits).
    + apply t_ret, idle_served.
  - intros r. repeat cmd.
Qed.

Lemma run_classify o : triple unopened (CommandClassify w o) (fun _ => legal).
Proof.
  unfold CommandClassify. do 2 cmd. eapply t_bind.
  { by apply (t_request idle (RQ_Classify a (op_now o)) 1); [apply idle_sub| |]. }
  intros r. repeat cmd.
Qed.

Lemma run_plan o explain_only : triple unopened (CommandPlan w o explain_only) (fun _ => legal).
Proof.
  unfold CommandPlan. do 2 cmd. eapply t_bind.
  { by apply (t_request idle (RQ_Plan (mkPlanRequest a None (op_now o) (op_dry_run o))) 1); [apply idle_sub| |]. }
  intros r. repeat cmd.
Qed.

Lemma run_complete o : options_ok o = true -> triple unopened (CommandComplete w o) (fun _ => legal).
Proof.
  intros Ho. unfold CommandComplete. do 5 cmd. eapply t_bind.
  { match goal with |- triple _ (engine_call (Engine_Complete _ ?request)) _ =>
      apply (t_request idle (RQ_Complete request) 1); [apply idle_sub|reflexivity|] end. intros e _. cbn [request_ok].
    unfold completion_typed. cbn [cq_at_unix_ms cq_reason]. apply andb_true_iff. done. }
  intros r. repeat cmd.
Qed.

Lemma run_verify o : triple unopened (CommandVerify w o) (fun _ => legal).
Proof.
  unfold CommandVerify. do 4 cmd. subst.
  match goal with H : ParseJson_verification ?text = Some (Value ?d) |- _ =>
    pose proof (documents_typed text _ _ d gives_verification H) as Hd end.
  eapply t_bind.
  { match goal with |- triple _ (engine_call (Engine_Verify _ ?evidence)) _ =>
      by apply (t_request idle (RQ_Verify evidence) 1); [apply idle_sub|reflexivity|] end. }
  intros r. repeat cmd.
Qed.

Lemma cli_fence_wf id scope subject below :
  IsValidIdentityText id = true -> IsValidIdentityText scope = true -> id_or_empty subject = true ->
  fence_wf (cli_fence id scope subject below) = true.
Proof.
  intros H1 H2 H3. unfold fence_wf, cli_fence.
  cbn [fe_id fe_scope fe_subject fe_fenced_below fe_reason fe_detail fe_created_unix_ms]. rewrite H1, H2, H3.
  by rewrite wrap_u64.
Qed.

Lemma run_fence o : triple unopened (CommandFence w o) (fun _ => legal).
Proof.
  unfold CommandFence. cmd. destruct (StringId_TryParse (cli_fence_id _)) as [id|] eqn:E1; [|apply t_Fail].
  destruct (StringId_TryParse (op_scope o)) as [scope|] eqn:E2; [|apply t_Fail].
  apply TryParse_valid in E1, E2.
  eapply (t_bind _ _ _ (fun subject p => at_engine idle p /\ id_or_empty subject = true)).
  - destruct (is_empty (op_subject o)); [by apply t_ret|]. eapply t_post; [apply t_valid_or|].
    intros a p [Hp Ha]. split; [done|]. apply TryParse_valid in Ha. unfold id_or_empty. by rewrite Ha, orb_true_r.
  - intros subject. apply t_fact. intros Hs. cbv zeta. eapply t_bind.
    { apply (t_served idle); [apply idle_sub|]. intros e _ _.
      apply (served_one (wd_host w 1) (RQ_PutFence (cli_fence id scope subject (op_below o)))); [done|done|]. by apply cli_fence_wf. }
    intros r. repeat cmd.
Qed.

(** A plan of the engine can be dispatched by it, as far as its types go. *)
Lemma plan_request_ok host request e plan e1 :
  engine_ok e -> en_limits e = default_limits -> attempts_room e -> IsValidIdentityText (pr_scope request) = true ->
  Engine_Plan host request e = (Value plan, e1) -> request_ok e1 (RQ_Dispatch plan) = true.
Proof.
  intros Hok Hl Hroom Hscope Ep. destruct (plan_decisions_bounded e host request plan e1 Ep) as [Hlen Hst].
  cbn [request_ok]. rewrite (plan_decisions_typed e Hok host request plan e1 Hscope Ep). apply Z.ltb_lt.
  unfold attempts_room in Hroom. rewrite Hst. lia.
Qed.

Lemma run_dispatch o : triple unopened (CommandDispatch w o) (fun _ => legal).
Proof.
  unfold CommandDispatch. do 2 cmd. set (request := mkPlanRequest a None (op_now o) false).
  match goal with H : StringId_TryParse _ = Some a |- _ => apply TryParse_valid in H; rename H into Hscope end.
  set (R := fun (r : Result ReconciliationPlan) e0 e => served e0 e /\
    forall plan, r = Value plan -> request_ok e (RQ_Dispatch plan) = true).
  eapply (t_bind _ _ _ (fun r => at_engine (R r))).
  { apply t_call. intros e0 e H0 [Hs Hst]. destruct (served_engine e0 e H0 Hs) as [Hok Hl].
    destruct (Hopen e0 H0) as (_ & Hl0 & Hroom).
    assert (served e (Engine_Plan (wd_host w 1) request e).2) as Hp
      by (by apply (served_call (wd_host w 1) (RQ_Plan request))).
    split; [by etransitivity|]. intros plan Hv. destruct (Engine_Plan (wd_host w 1) request e) as [r e1] eqn:Ep.
    cbn [fst snd] in *. subst r. apply (plan_request_ok (wd_host w 1) request e); try done.
    unfold attempts_room in *. by rewrite Hst, Hl, <- Hl0. }
  intros r. assert (Settled (at_engine (R r))) as Hset by (apply at_engine_settled; by intros e0 e [H _]).
  cmd. destruct (_ && _); [cmd|]. eapply (t_bind _ _ _ (fun _ => at_engine served)).
  { apply (t_call (R r) _ (fun _ => served)). intros e0 e H0 [Hs Hr]. destruct (served_engine e0 e H0 Hs) as [Hok Hl].
    etransitivity; [exact Hs|]. 
    match goal with |- served _ (Engine_Dispatch _ ?plan _).2 =>
      apply (served_call (wd_host w 2) (RQ_Dispatch plan)); [done|done|by apply Hr|reflexivity] end. }
  intros r2. repeat cmd.
Qed.

Lemma run_scenario o : options_ok o = true -> triple unopened (CommandScenario w o) (fun _ => legal).
Proof.
  intros Ho. unfold CommandScenario. cmd. destruct (negb _); [cmd|]. eapply t_bind.
  { apply (t_request idle (RQ_CommitIntent scenario_intent) 1); [apply idle_sub|done|]. intros e Hl. cbn [request_ok].
    rewrite Hl. vm_compute. reflexivity. }
  intros r1. cmd. eapply t_bind.
  { apply (t_request served (RQ_RecordObservation scenario_observation (op_now o)) 2); [done|done|]. intros e Hl.
    cbn [request_ok]. rewrite Hl. apply andb_true_iff. split; [vm_compute; reflexivity|done]. }
  intros r2. cmd. cbv zeta. set (request := mkPlanRequest _ _ _ _). eapply t_bind.
  { by apply (t_request served (RQ_Plan request) 3). }
  intros r3. do 4 cmd. eapply t_bind.
  { by apply (t_request served (RQ_Plan request) 4). }
  intros r4. repeat cmd.
Qed.

(** A service that was started on an engine this process opened. *)
Definition cli_server_options : ServerOptions := mkServerOptions default_limits 64 false.
Definition hosted (service : Service) : Prop :=
  exists e0 e1, opened e0 /\ served e0 e1 /\ service_run (Start cli_server_options e1) service.

Lemma hosted_served service : hosted service -> exists e0, opened e0 /\ served e0 (sv_engine (sc_server service)).
Proof.
  intros (e0 & e1 & H0 & H1 & Hrun). exists e0. split; [done|]. destruct (served_engine e0 e1 H0 H1) as [Hok Hl].
  destruct (service_run_keeps _ _ Hrun (service_ok_Start cli_server_options e1 Hok (eq_sym Hl) ltac:(done) ltac:(done)))
    as [_ Hs]. by etransitivity.
Qed.

Lemma hosted_run service service' : hosted service -> service_run service service' -> hosted service'.
Proof. intros (e0 & e1 & H0 & H1 & Hrun) H. exists e0, e1. split; [done|]. split; [done|]. by etransitivity. Qed.

Lemma t_follow P service : hosted service -> triple P (follow service) (fun _ => at_engine served).
Proof.
  intros Hh p r p' _ [= <- <-]. destruct (hosted_served service Hh) as (e0 & H0 & Hs). by exists e0, (sv_engine (sc_server service)).
Qed.

Lemma t_control lines : forall service,
  (forall line did, (line, did) ∈ lines -> (line, did) ∈ wd_stdin w) -> hosted service ->
  triple (at_engine served) (serve_control lines service) (fun s p => at_engine served p /\ hosted s).
Proof.
  induction lines as [|[line did] lines IH]; intros service Hin Hh; cbn [serve_control]; [by apply t_ret|]. cbv zeta.
  assert (hosted (did service)) as Hh'.
  { eapply hosted_run; [exact Hh|]. apply (Hlines line). apply Hin. by left. }
  eapply t_bind; [by apply t_follow|intros []]. destruct (bool_decide _); [by apply t_ret|]. cmd.
  apply IH; [|done]. intros l d Hl. apply Hin. by right.
Qed.

Lemma run_serve o : triple unopened (CommandServe w o) (fun _ => legal).
Proof.
  unfold CommandServe. do 2 cmd.
  eapply (t_bind _ _ _ (fun e p => at_engine idle p /\ hosted (Start cli_server_options e))).
  { apply t_read. intros p e0 e H0 [Hs Hst] Hp. split; [by exists e0, e|]. exists e0, e. split_and!; [done|done|apply rtc_refl]. }
  intros e. apply t_fact. intros Hh. fold cli_server_options. cmd.
  eapply (t_bind _ _ _ (fun _ => at_engine idle)).
  { destruct (is_empty _); [by apply t_ret|]. eapply t_bind; [apply t_write|]. intros written.
    destruct (written =? 0); [by apply t_ret|apply t_Fail]. }
  intros []. destruct (op_stdin_control o).
  - eapply t_bind; [eapply t_pre; [apply idle_served|by apply (t_control (wd_stdin w))]|]. intros service. apply t_fact.
    intros Hs. eapply t_bind.
    { apply t_follow. eapply hosted_run; [eapply hosted_run; [exact Hs|apply Hdrain]|]. apply rtc_once. apply SS_stop. }
    intros []. repeat cmd.
  - eapply t_bind; [apply t_follow; by eapply hosted_run|]. intros [] p r p' Hp [= <- <-].
    by apply (settled_legal (P := at_engine served)).
Qed.

Lemma t_PrintUsage : triple unopened PrintUsage (fun _ => unopened).
Proof. apply t_print. Qed.

Lemma run_selftest : triple unopened (CommandSelftest w) (fun _ => legal).
Proof. unfold CommandSelftest. repeat cmd. Qed.

Lemma t_parse_options raw : forall o, options_ok o = true ->
  triple unopened (parse_options o raw) (fun o p => unopened p /\ options_ok o = true).
Proof.
  induction raw as [raw IH] using (induction_ltof1 _ (@length bytes)). intros o Ho.
  destruct raw as [|token rest]; [by apply t_ret|]. cbn [parse_options].
  destruct (set_value o token []) as [o'|] eqn:E1.
  - destruct rest as [|value rest]; [apply t_ret; split; [done|by eapply set_value_ok]|].
    apply IH; [unfold ltof; cbn; lia|]. destruct (set_value o token value) eqn:E2; [by eapply set_value_ok|done].
  - destruct (set_flag o token) as [o'|] eqn:E2; [apply IH; [unfold ltof; cbn; lia|by eapply set_flag_ok]|].
    destruct (bool_decide _); [cmd; cmd|]. destruct (_ || _); [|cmd].
    eapply t_bind; [apply t_PrintUsage|]. intros []. cmd.
Qed.

Lemma run_command_legal o : options_ok o = true -> triple unopened (run_command w o) (fun _ => legal).
Proof.
  intros Ho. unfold run_command. cbv zeta.
  destruct (bool_decide _); [apply run_init|].
  destruct (bool_decide _); [apply run_status|].
  destruct (bool_decide _); [apply run_policy|].
  destruct (bool_decide _); [apply run_intent|].
  destruct (bool_decide _); [by apply run_observe|].
  destruct (bool_decide _); [apply run_classify|].
  destruct (bool_decide _); [apply run_plan|].
  destruct (bool_decide _); [apply run_plan|].
  destruct (bool_decide _); [apply run_dispatch|].
  destruct (bool_decide _); [by apply run_complete|].
  destruct (bool_decide _); [apply run_verify|].
  destruct (bool_decide _); [apply run_fence|].
  destruct (bool_decide _); [apply run_attempts|].
  destruct (bool_decide _); [apply run_outcomes|].
  destruct (bool_decide _); [apply run_serve|].
  destruct (bool_decide _); [by apply run_scenario|].
  destruct (bool_decide _); [apply run_selftest|].
  eapply t_bind; [apply t_PrintUsage|]. intros []. cmd.
Qed.

Lemma cli_legal raw : triple unopened (cli w raw) (fun _ => legal).
Proof.
  unfold cli. destruct raw as [|command rest]; [eapply t_bind; [apply t_PrintUsage|]; intros []; cmd|].
  destruct (bool_decide _); [cmd; cmd|]. destruct (_ || _); [eapply t_bind; [apply t_PrintUsage|]; intros []; cmd|].
  eapply t_bind; [by apply t_parse_options|]. intros o. apply t_fact. apply run_command_legal.
Qed.
End Runs.

(** ** The engine a process opens *)

(** What a store directory may hold: no store yet, or what a crash left of one after any history.
    It is used by inversion only. *)
Unset Elimination Schemes.
Inductive store_left : StoreDisk -> Prop :=
| left_nothing disk : unborn disk -> store_left disk
| left_by_process store spec disk :
  store_history default_limits store spec -> crashed default_limits store disk -> store_left disk.
Set Elimination Schemes.

(** The host of a run: clocks and identities of their types, stores as processes left them,
    sessions that do what sessions can do, and room in the attempt counter for one plan.  What the
    host answers to the opening of the store and to every write is free. *)
Record world_ok (w : World) : Prop := {
  wo_hosts i : host_typed (wd_host w i) = true;
  wo_boot : BootId_valid (bh_boot (wd_boot w)) = true;
  wo_fresh : length (bh_fresh_store (wd_boot w)) = 16%nat;
  wo_clock : i64 (bh_now_header (wd_boot w)) = true;
  wo_disks store : store_left (wd_disk w store);
  wo_lines line did service : (line, did) ∈ wd_stdin w -> service_run service (did service);
  wo_drain service : service_run service (wd_drain w service);
  wo_until service : service_run service (wd_until w service);
  wo_room e : opened w e -> attempts_room e
}.

Section Opened.
Variable w : World.
Hypothesis Hw : world_ok w.

(** The engine of a process is sound, newer than what it found, and holds no attempt in flight. *)
Lemma opened_engine_ok e : opened w e ->
  engine_ok e /\ en_limits e = default_limits /\
  (forall id a, om_find id (ds_attempts (en_state e)) = Some a -> terminal a = true).
Proof.
  intros (store & H). assert (en_limits e = default_limits) as Hl.
  { revert H. unfold Engine_Open, Engine_Boot. destruct (is_empty _); [done|].
    destruct (sp_store _) as [[dstore report]|]; [|done]. cbn [cli_engine_options eo_read_only].
    pose proof (keeps_boot (wd_host w 0) (opened_engine (cli_engine_options store) (bh_boot (wd_boot w)) dstore report)) as Hk.
    cbn [cli_engine_options] in Hk.
    destruct (boot_writable _ _) as [[u|status] e1]; [|done]. intros [= <-]. unfold en_limits. cbn [snd] in Hk. by rewrite Hk. }
  assert (boot_options_ok (cli_engine_options store) (wd_boot w) && host_typed (wd_host w 0) = true) as Hb.
  { rewrite (wo_hosts w Hw 0), andb_true_r. unfold boot_options_ok. rewrite (wo_boot w Hw), andb_true_r. vm_compute. reflexivity. }
  pose proof (wo_disks w Hw store) as Hd. destruct Hd as [disk Hu|dstore spec disk H1 H2].
  - destruct (created_engine (wd_host w 0) (wd_boot w) (cli_engine_options store) disk e Hb Hu
      (wo_fresh w Hw) (wo_clock w Hw) H) as (Hok & _ & sid & Hre).
    split; [done|]. split; [done|]. intros id a Ha. destruct Hre as (_ & _ & _ & _ & _ & _ & Hall). by destruct (Hall id a Ha).
  - destruct (restart_recovers (wd_host w 0) (wd_boot w) (cli_engine_options store) dstore spec disk e Hb
      H1 H2 H) as (s & extra & _ & _ & _ & Hre & _ & _ & _ & Hok & _).
    split; [done|]. split; [done|]. intros id a Ha. destruct Hre as (_ & _ & _ & _ & _ & _ & Hall). by destruct (Hall id a Ha).
Qed.
End Opened.

(** ** Requests on an engine without attempts in flight *)

Definition all_terminal (e : Engine) : Prop :=
  forall id a, om_find id (ds_attempts (en_state e)) = Some a -> terminal a = true.

Lemma writable_bind {A} (f : unit -> Op A) e :
  (require_writable ≫= f) e = if st_read_only (en_store e) then (Failed engine_read_only, e) else f tt e.
Proof. unfold require_writable, refuse_if, mbind, Op_bind, get. by destruct (st_read_only (en_store e)). Qed.

Lemma complete_refused host request e : all_terminal e ->
  exists status e', Engine_Complete host request e = (Failed status, e') /\ en_state e' = en_state e.
Proof.
  intros Hall. unfold Engine_Complete. rewrite writable_bind.
  destruct (st_read_only (en_store e)); [by eexists _, _|].
  rewrite get_bind. destruct (om_find _ _) as [attempt|] eqn:E; [|by eexists _, _].
  apply Hall in E. unfold terminal in E.
  destruct (negb (bool_decide _)); [by eexists _, _|]. destruct (negb (live _ _ _)); [by eexists _, _|].
  destruct (negb (live _ _ _)); [by eexists _, _|]. rewrite E. by eexists _, _.
Qed.

Lemma verify_refused host evidence e : engine_ok e -> all_terminal e ->
  exists status e', Engine_Verify host evidence e = (Failed status, e') /\ en_state e' = en_state e.
Proof.
  intros (_ & _ & Hwf & _) Hall. unfold Engine_Verify. rewrite writable_bind.
  destruct (st_read_only (en_store e)); [by eexists _, _|].
  rewrite get_bind. cbv zeta. destruct (List.find _ _) as [target|] eqn:E; [|by eexists _, _].
  apply List.find_some in E as [Hin _]. apply list_elem_of_In in Hin.
  apply (attempt_listed _ _ _ Hwf), Hall in Hin. unfold terminal in Hin.
  destruct (_ || _); [by eexists _, _|]. destruct (negb (live _ _ _)); [by eexists _, _|].
  destruct (bool_decide_reflect (at_state target = AS_Applied)) as [Ha|_]; [by rewrite Ha in Hin|]. by eexists _, _.
Qed.

(** The evidence an engine holds was all received before it booted. *)
Definition evidence_older (e : Engine) : Prop :=
  forall scope d, d ∈ ObservationEvidence e scope -> ob_received_epoch d < en_live_epoch e.

Lemma fresh_is_current d f epoch now :
  require_current_epoch f = true -> EvaluateFreshness d f epoch now = FV_Fresh -> ob_received_epoch d = epoch.
Proof.
  intros Hf. unfold EvaluateFreshness. rewrite Hf.
  destruct (Z.eqb_spec (ob_received_epoch d) epoch) as [|Hne]; [done|]. cbn [negb andb].
  repeat case_match; done.
Qed.

Lemma plan_not_actionable host request e plan e' :
  pr_policy request = None -> require_current_epoch (freshness (ds_policy (en_state e))) = true -> evidence_older e ->
  Engine_Plan host request e = (Value plan, e') ->
  Forall (fun d => de_disposition d <> DD_Actionable) (pl_decisions plan).
Proof.
  intros Hp Hcur Hold Hplan. apply Engine_Plan_inv in Hplan as (report & Hc & -> & _).
  apply Forall_forall. intros d Hd Ha. apply decision_record in Hd as (r & Hr & ->).
  apply decide_actionable in Ha as [_ Hlic].
  destruct (actionable_compared _ _ _ _ _ Hc Hr Hlic) as (policy & intent & observation & Hcmp).
  apply compared_documents in Hcmp as (-> & _ & Ho & Hf). unfold request_policy in Hf. rewrite Hp in Hf. cbn [default] in Hf.
  apply fresh_is_current in Hf; [|done]. specialize (Hold _ _ Ho). lia.
Qed.

Lemma dispatch_none host intent now decisions result e :
  Forall (fun d => de_disposition d <> DD_Actionable) decisions ->
  dispatch_decisions host intent now decisions result e = (Value result, e).
Proof.
  induction 1 as [|d decisions Hd _ IH]; [done|]. cbn [dispatch_decisions]. by rewrite bool_decide_eq_false_2.
Qed.

Lemma refuse_bind {A} c status (f : unit -> Op A) e :
  (refuse_if c status ≫= f) e = if c then (Failed status, e) else f tt e.
Proof. by destruct c. Qed.

Lemma dispatch_issues_nothing host plan e r e' :
  engine_ok e -> Forall (fun d => de_disposition d <> DD_Actionable) (pl_decisions plan) ->
  Engine_Dispatch host plan e = (r, e') ->
  ds_attempts (en_state e') = ds_attempts (en_state e) /\ forall result, r = Value result -> result = dispatch_empty.
Proof.
  intros Hok Hn. unfold Engine_Dispatch. rewrite writable_bind. destruct (st_read_only (en_store e)); [by intros [= <- <-]|].
  rewrite get_bind. rewrite refuse_bind. destruct (negb _ || negb _); [by intros [= <- <-]|].
  rewrite refuse_bind. destruct (negb (ds_has_policy _)); [by intros [= <- <-]|].
  rewrite refuse_bind. destruct (negb (bool_decide _)); [by intros [= <- <-]|].
  destruct (bound_intent e plan) as [intent|]; [|by intros [= <- <-]].
  rewrite refuse_bind. destruct (negb (bound_observation _ _)); [by intros [= <- <-]|].
  unfold mbind, Op_bind. rewrite dispatch_none by done.
  destruct (MaybeCompactLocked_state host e Hok) as (_ & (u & Hu) & Hst). apply compacted_fields in Hst as (Ha & _).
  destruct (MaybeCompactLocked host e) as [r1 e1]. cbn [fst snd] in *. subst r1. intros [= <- <-].
  split; [done|]. by intros result [= <-].
Qed.

Lemma PutFence_fences host fence e u e' :
  host_typed host = true -> engine_ok e -> fence_wf fence = true -> Engine_PutFence host fence e = (Value u, e') ->
  ds_fences (en_state e') =
    om_insert (fe_id fence) (stamped_fence fence (fence_time host fence)) (ds_fences (en_state e)).
Proof.
  intros Hh Hok Hw H. destruct (Engine_PutFence_inv host fence e u e' Hh Hok Hw H)
    as (e1 & e2 & Hok1 & Hf1 & Hnow & (n & Hst) & Hrun & ->).
  assert (durable_wf (en_limits e1) (en_state e1) = true) as Hwf by (by destruct Hok1 as (_ & _ & ? & _)).
  destruct (for_each_concludes (revoke host (fence_time host fence)) _ _ (revoke_concludes host (follows_any host) _ Hnow)
    (picked (victim_of fence) (en_state e1)) e1 Hok1) as [Hev Hc].
  { by eapply picked_NoDup. }
  { apply Forall_forall. intros a Ha. apply (elem_picked _ _ _ _ Hwf) in Ha as [Hfa Hv].
    split; [done|]. by apply victim_in_flight in Hv. }
  rewrite Hrun in Hev. specialize (Hc tt e2 Hrun). pose proof (engine_ok_evolves _ _ Hok1 Hev) as Hok2.
  destruct (MaybeCompactLocked_state host e2 Hok2) as (_ & _ & Hst2).
  destruct (compacted_fields _ _ Hst2) as (_ & -> & _). destruct Hc as ((_ & _ & _ & _ & _ & _ & ->) & _). by rewrite Hst.
Qed.

(** ** Runs of the tool *)

Lemma open_cases w o p : pc_engine p = None ->
  (exists p', OpenEngine w o p = Some (Returns 1, p') /\ pc_engine p' = None) \/
  (exists e, opened w e /\ OpenEngine w o p = Some (Goes tt, mkProcess (Some e) (pc_out p) (pc_err p) (pc_written p))).
Proof.
  intros Hp. unfold OpenEngine. destruct (Engine_Open _ _ _ _) as [e|status] eqn:E.
  - right. exists e. split; [by exists (op_store o)|done].
  - left. by eexists.
Qed.

(** The process ended with the durable state it opened, if it opened one. *)
Definition opened_state (w : World) (p : Process) : Prop :=
  forall e, pc_engine p = Some e -> exists e0, opened w e0 /\ en_state e = en_state e0.

Lemma opened_state_none w p : pc_engine p = None -> opened_state w p.
Proof. intros H e. by rewrite H. Qed.
Lemma opened_state_self w e out err written : opened w e -> opened_state w (mkProcess (Some e) out err written).
Proof. intros H e1 [= <-]. by exists e. Qed.

(** A command that ends with a refused engine call. *)
Lemma refused_call {A C} w (m : Op A) (f : A -> Cmd C) e p :
  opened w e -> pc_engine p = Some e ->
  (exists status e', m e = (Failed status, e') /\ en_state e' = en_state e) ->
  exists p', (r ← engine_call m; a ← or_fail r; f a) p = Some (Returns 1, p') /\ opened_state w p'.
Proof.
  intros H0 Hp (status & e' & Hm & Hst). unfold mbind, Cmd_bind, engine_call. rewrite Hp, Hm. eexists. split; [reflexivity|].
  intros e1 [= <-]. by exists e.
Qed.

Lemma complete_ends w o : world_ok w ->
  exists p, CommandComplete w o process_new = Some (Returns 1, p) /\ opened_state w p.
Proof.
  intros Hw. unfold CommandComplete. unfold mbind at 1, Cmd_bind at 1.
  destruct (open_cases w o process_new eq_refl) as [(p & -> & Hp)|(e & H0 & ->)];
    [exists p; split; [done|by apply opened_state_none]|].
  set (p := mkProcess _ _ _ _). unfold mbind at 1, Cmd_bind at 1.
  destruct (TryParseAttemptState _) as [target|]; [|eexists; split; [reflexivity|by apply opened_state_self]].
  cbn [valid_or mret Cmd_ret]. unfold mbind at 1, Cmd_bind at 1. cbn [engine_read pc_engine p].
  unfold mbind at 1, Cmd_bind at 1. cbn [engine_read pc_engine p]. unfold mbind at 1, Cmd_bind at 1.
  destruct (TryParseHexDigest _) as [key|]; [|eexists; split; [reflexivity|by apply opened_state_self]].
  cbn [valid_or mret Cmd_ret]. apply (refused_call w _ _ e); [done|done|].
  apply complete_refused. exact (proj2 (proj2 (opened_engine_ok w Hw e H0))).
Qed.

Lemma verify_ends w o flow p : world_ok w ->
  CommandVerify w o process_new = Some (flow, p) -> flow = Returns 1 /\ opened_state w p.
Proof.
  intros Hw. unfold CommandVerify, required_file. cbv zeta. destruct (is_empty _).
  { intros [= <- <-]. split; [done|by apply opened_state_none]. }
  set (text := ReadFile w (op_file o)). unfold mbind at 1, Cmd_bind at 1. cbn [mret Cmd_ret].
  unfold mbind at 1, Cmd_bind at 1, parsed. destruct (ParseJson_verification text) as [[evidence|status]|]; [| |done].
  2: { intros [= <- <-]. split; [done|by apply opened_state_none]. }
  unfold mbind at 1, Cmd_bind at 1. cbn [or_fail mret Cmd_ret]. unfold mbind at 1, Cmd_bind at 1.
  destruct (open_cases w o process_new eq_refl) as [(p1 & -> & Hp)|(e & H0 & ->)].
  { intros [= <- <-]. split; [done|by apply opened_state_none]. }
  destruct (opened_engine_ok w Hw e H0) as (Hok & _ & Hall).
  destruct (refused_call w (Engine_Verify (wd_host w 1) evidence)
    (fun outcome => _ ← print_line (ToJson_outcome outcome); mret 0) e
    (mkProcess (Some e) (pc_out process_new) (pc_err process_new) (pc_written process_new)) H0 eq_refl
    (verify_refused _ _ _ Hok Hall)) as (p' & Hr & Hp').
  intros H. assert (Some (flow, p) = Some (Returns 1, p')) as [= -> ->]; [|done]. rewrite <- H. exact Hr.
Qed.

Lemma fence_ends w o p : world_ok w -> CommandFence w o process_new = Some (Goes 0, p) ->
  exists e0 e scope fence, opened w e0 /\ pc_engine p = Some e /\
    StringId_TryParse (op_scope o) = Some scope /\ fe_scope fence = scope /\
    fe_fenced_below fence = wrap 64 (op_below o) /\
    ds_fences (en_state e) = om_insert (cli_fence_id (op_below o)) fence (ds_fences (en_state e0)).
Proof.
  intros Hw. unfold CommandFence. unfold mbind at 1, Cmd_bind at 1.
  destruct (open_cases w o process_new eq_refl) as [(p1 & -> & Hp)|(e0 & H0 & ->)]; [done|].
  destruct (opened_engine_ok w Hw e0 H0) as (Hok & _ & _).
  destruct (StringId_TryParse (cli_fence_id (op_below o))) as [id|] eqn:E1; [|done].
  assert (id = cli_fence_id (op_below o)) as Hid by (unfold StringId_TryParse in E1; destruct (negb _); [done|by injection E1]).
  destruct (StringId_TryParse (op_scope o)) as [scope|] eqn:E2; [|done].
  set (subject := if is_empty (op_subject o) then mret [] else _ : Cmd bytes).
  assert (forall q r, subject q = Some r -> (exists s, r = (Goes s, q) /\ id_or_empty s = true) \/ exists q', r = (Returns 1, q')) as Hs.
  { intros q r. unfold subject. destruct (is_empty (op_subject o)); [intros [= <-]; left; by exists []|].
    destruct (StringId_TryParse (op_subject o)) as [s|] eqn:E3; intros [= <-]; [left|right; by eexists].
    exists s. split; [done|]. apply TryParse_valid in E3. unfold id_or_empty. by rewrite E3, orb_true_r. }
  clearbody subject. unfold mbind at 1, Cmd_bind at 1.
  destruct (subject _) as [[r q]|] eqn:Es; [|done]. apply Hs in Es as [(s & [= -> ->] & Hsv)|(q' & [= -> ->])]; [|done].
  cbv zeta. unfold mbind at 1, Cmd_bind at 1, engine_call. cbn [pc_engine].
  destruct (Engine_PutFence _ _ e0) as [r e] eqn:Ef. destruct r as [[]|status]; [|done]. intros [= <-].
  apply TryParse_valid in E1 as V1. apply TryParse_valid in E2 as V2.
  pose proof (PutFence_fences _ _ _ _ _ (wo_hosts w Hw 1) Hok (cli_fence_wf id scope s (op_below o) V1 V2 Hsv) Ef) as Hf.
  rewrite <- Hid. exists e0, e, scope, (stamped_fence (cli_fence id scope s (op_below o))
    (fence_time (wd_host w 1) (cli_fence id scope s (op_below o)))). done.
Qed.

(** The attempts of the store are the ones that were there when it was opened. *)
Definition opened_attempts (w : World) (p : Process) : Prop :=
  forall e, pc_engine p = Some e -> exists e0, opened w e0 /\ ds_attempts (en_state e) = ds_attempts (en_state e0).

Lemma opened_attempts_state w p : opened_state w p -> opened_attempts w p.
Proof. intros H e He. destruct (H e He) as (e0 & H0 & Hst). exists e0. by rewrite Hst. Qed.

Lemma dispatch_ends w o flow p : world_ok w ->
  (forall e, opened w e -> evidence_older e /\ require_current_epoch (freshness (ds_policy (en_state e))) = true) ->
  CommandDispatch w o process_new = Some (flow, p) -> opened_attempts w p.
Proof.
  intros Hw Hold. unfold CommandDispatch. unfold mbind at 1, Cmd_bind at 1.
  destruct (open_cases w o process_new eq_refl) as [(p1 & -> & Hp)|(e0 & H0 & ->)].
  { intros [= <- <-]. by apply opened_attempts_state, opened_state_none. }
  destruct (opened_engine_ok w Hw e0 H0) as (Hok & Hl & _). destruct (Hold e0 H0) as [Ho Hc].
  unfold mbind at 1, Cmd_bind at 1. destruct (StringId_TryParse (op_scope o)) as [scope|] eqn:Es.
  2: { intros [= <- <-]. by apply opened_attempts_state, opened_state_self. }
  cbn [valid_or mret Cmd_ret]. set (request := mkPlanRequest scope None (op_now o) false).
  unfold mbind at 1, Cmd_bind at 1, engine_call at 1. cbn [pc_engine].
  pose proof (served_call (wd_host w 1) (RQ_Plan request) (Engine_Plan (wd_host w 1) request) e0 (wo_hosts w Hw 1) (follows_any _) eq_refl eq_refl) as Hs.
  pose proof (evolves_Plan (wd_host w 1) request e0 Hok) as Hev.
  destruct (Engine_Plan (wd_host w 1) request e0) as [[plan|status] e1] eqn:Ep; cbn [snd] in Hs, Hev.
  2: { intros [= <- <-] e [= <-]. exists e0. split; [done|].
       pose proof (keeps_Plan (wd_host w 1) request e0) as Hst. rewrite Ep in Hst. cbn [snd] in Hst. by rewrite Hst. }
  pose proof (keeps_Plan (wd_host w 1) request e0) as Hst. rewrite Ep in Hst. cbn [snd] in Hst.
  pose proof (plan_not_actionable (wd_host w 1) request e0 plan e1 eq_refl Hc Ho Ep) as Hn.
  unfold mbind at 1, Cmd_bind at 1. cbn [or_fail mret Cmd_ret]. destruct (_ && _).
  { intros [= <- <-] e [= <-]. exists e0. by rewrite Hst. }
  unfold mbind at 1, Cmd_bind at 1, engine_call at 1. cbn [pc_engine].
  destruct (Engine_Dispatch (wd_host w 2) plan e1) as [r e2] eqn:Ed.
  apply dispatch_issues_nothing in Ed as [Ha _]; [|by eapply engine_ok_evolves|done]. rewrite Hst in Ha.
  intros H e He. exists e0. split; [done|]. enough (e = e2) as -> by exact Ha. revert H He.
  destruct r as [result|status]; intros [= <- <-]; by intros [= <-].
Qed.

(** A store left by a process that recorded a policy, an intent and an observation. *)
Definition commit_good (store : DurableStore) (event : StoreEvent) : DurableStore :=
  (commit (io_good (kRecordHeaderBytes + blen (event_payload event))) event store).2.

Definition example_events : list StoreEvent :=
  [Ev_Epoch 3; Ev_Policy DefaultPolicy; Ev_Intent example_intent; Ev_Observation example_observation].
Definition example_left_store : DurableStore := Eval vm_compute in foldl commit_good example_dstore0 example_events.
Definition example_left_disk : StoreDisk := Eval vm_compute in
  mkDisk true true (mkSnapshotDir (sd_published (st_snapshot example_left_store)) None)
    (Some (jn_content (st_journal example_left_store))).

Fixpoint commits_ok (events : list StoreEvent) (store : DurableStore) : bool :=
  match events with
  | [] => true
  | event :: events =>
    event_wf default_limits event && (jn_last_sequence (st_journal store) + 3 <? 2 ^ 64) &&
    Status_ok (commit (io_good (kRecordHeaderBytes + blen (event_payload event))) event store).1 &&
    commits_ok events (commit_good store event)
  end.

Lemma commits_history events : forall store spec,
  store_history default_limits store spec -> commits_ok events store = true ->
  store_history default_limits (foldl commit_good store events) (apply_events default_limits events spec).
Proof.
  induction events as [|event events IH]; intros store spec Hh H; [done|]. cbn [commits_ok] in H. bool_hyps.
  cbn [foldl apply_events]. apply IH; [|done].
  pose proof (sh_commit default_limits store spec (io_good (kRecordHeaderBytes + blen (event_payload event))) event Hh
    ltac:(done) ltac:(by left)) as Hc. unfold commit in *.
  match goal with Hs : Status_ok _ = true |- _ => rewrite Hs in Hc end. exact Hc.
Qed.

Lemma example_events_ok : commits_ok example_events example_dstore0 = true.
Proof. vm_compute. reflexivity. Qed.

Lemma example_left_commits : example_left_store = foldl commit_good example_dstore0 example_events.
Proof. vm_compute. reflexivity. Qed.

Lemma example_disk_left : store_left example_left_disk.
Proof.
  apply (left_by_process example_left_store (apply_events default_limits example_events example_spec0)).
  - rewrite example_left_commits. apply commits_history; [|exact example_events_ok]. exact example_created.
  - constructor; [reflexivity|reflexivity|reflexivity| |vm_compute; reflexivity].
    exists (jn_content (st_journal example_left_store)). split; [reflexivity|]. split; [|vm_compute; discriminate].
    exists []. split; [by rewrite app_nil_r|]. vm_compute. discriminate.
Qed.

Definition example_world : World :=
  mkWorld (fun _ => quoted example_json_text) (fun _ => true) (fun _ => example_left_disk) example_boot_host
    (fun _ => good_host 1700000000100) Status_Ok 7000 [] (fun service => service) (fun service => service) (example_boot, []).

Definition older_check (e : Engine) : bool :=
  forallb (fun entry => forallb (fun d => ob_received_epoch d <? en_live_epoch e) entry.2) (ds_observations (en_state e)) &&
  require_current_epoch (freshness (ds_policy (en_state e))).

(** What opening this store gives, in any directory. *)
Lemma example_opened_check store :
  match Engine_Open (good_host 1700000000100) example_boot_host (cli_engine_options store) example_left_disk with
  | Value e => (ds_next_attempt (en_state e) + Z.max 0 (max_plan_actions (en_limits e)) <? 2 ^ 64) && older_check e
  | Failed _ => true
  end = true.
Proof. unfold Engine_Open. destruct (is_empty _); [done|]. vm_compute. reflexivity. Qed.

Lemma example_opened_engine e : opened example_world e ->
  (ds_next_attempt (en_state e) + Z.max 0 (max_plan_actions (en_limits e)) <? 2 ^ 64) && older_check e = true.
Proof.
  intros (store & He). pose proof (example_opened_check store) as Hr.
  change (Engine_Open (good_host 1700000000100) example_boot_host (cli_engine_options store) example_left_disk = Value e) in He.
  by rewrite He in Hr.
Qed.

Lemma example_world_ok : world_ok example_world.
Proof.
  split; [done|done|done|done|intros store; apply example_disk_left| |intros service; apply rtc_refl|intros service; apply rtc_refl|].
  - intros line did service H. by apply elem_of_nil in H.
  - intros e He. apply example_opened_engine, andb_true_iff in He as [Hr _]. by apply Z.ltb_lt in Hr.
Qed.

Lemma older_check_ok e : older_check e = true ->
  evidence_older e /\ require_current_epoch (freshness (ds_policy (en_state e))) = true.
Proof.
  unfold older_check. intros H. apply andb_true_iff in H as [H Hc]. split; [|done].
  intros scope d Hd. unfold ObservationEvidence in Hd.
  destruct (om_find scope (ds_observations (en_state e))) as [l|] eqn:E; [|by apply elem_of_nil in Hd].
  apply (om_find_wf _ _ _ _ H) in E. cbn [snd] in E. rewrite forallb_Forall, Forall_forall in E.
  specialize (E d Hd). by apply Z.ltb_lt.
Qed.

(** ** Properties *)

(** C11. A run of the tool refines the engine's life-cycle: whatever its arguments, the files it
    reads, the store it finds and what its sessions do, the engine of the process, once opened,
    stays well-formed, keeps its epoch, boot identity and options, and its durable state moves
    by legal steps only. *)
Theorem cli_refines_lifecycle w raw flow p e :
  world_ok w -> cli_main w raw = Some (flow, p) -> pc_engine p = Some e ->
  exists e0, opened w e0 /\ engine_ok e /\ same_frame e0 e /\
    rtc (lifecycle_step (en_limits e0) (en_live_epoch e0) (en_live_boot e0)) (en_state e0) (en_state e).
Proof.
  intros Hw Hrun He.
  assert (forall e0, opened w e0 -> engine_ok e0 /\ en_limits e0 = default_limits /\ attempts_room e0) as Hopen.
  { intros e0 H0. destruct (opened_engine_ok w Hw e0 H0) as (H1 & H2 & _). split_and!; [done|done|by apply (wo_room w Hw)]. }
  pose proof (cli_legal w Hopen (wo_hosts w Hw) (fun i => follows_any _) (wo_lines w Hw) (wo_drain w Hw) (wo_until w Hw) raw process_new flow p eq_refl Hrun) as Hl.
  assert (legal w p) as [Hn|(e0 & e1 & H0 & He1 & Hs)] by (by destruct flow); [congruence|].
  assert (e1 = e) as -> by congruence. exists e0. destruct (Hopen e0 H0) as (Hok & _).
  destruct (served_evolves _ _ Hok Hs) as (Hf & Hsteps & _). split; [done|]. split; [|done].
  by eapply engine_ok_evolves, served_evolves.
Qed.

Definition example_args : list bytes := [B "intent"; B "--file"; B "intent.json"; B "--store"; B "d"].

Lemma example_intent_run :
  match cli_main example_world example_args with
  | Some (Goes 0, p) => bool_decide (is_Some (pc_engine p)) && bool_decide (pc_err p = [])
  | _ => false
  end = true.
Proof. vm_compute. reflexivity. Qed.

Lemma cli_refines_lifecycle_witness :
  exists p e, cli_main example_world example_args = Some (Goes 0, p) /\
    pc_engine p = Some e /\ engine_ok e.
Proof.
  pose proof example_intent_run as H.
  destruct (cli_main example_world example_args) as [[flow p]|] eqn:E; [|discriminate H].
  destruct flow as [[|code|code]|code|]; try discriminate H. destruct (pc_engine p) as [e|] eqn:Ep; [|discriminate H].
  exists p, e. split; [reflexivity|]. split; [exact Ep|].
  destruct (cli_refines_lifecycle _ _ _ _ e example_world_ok E Ep) as (e0 & _ & Hok & _). exact Hok.
Defined.



(** The tool dispatches nothing on evidence it did not record itself: with a policy that
    requires evidence of the live epoch, and evidence that was all recorded before the process
    booted, the command [dispatch] issues no attempt, whatever its options and however it ends. *)
Theorem cli_dispatch_needs_live_evidence w o flow p :
  world_ok w ->
  (forall e, opened w e -> evidence_older e /\ require_current_epoch (freshness (ds_policy (en_state e))) = true) ->
  CommandDispatch w o process_new = Some (flow, p) -> opened_attempts w p.
Proof. apply dispatch_ends. Qed.

Definition example_dispatch : Options :=
  default (options_new []) (set_value (options_new (B "dispatch")) (B "--scope") (B "fabric/rack-7")).

Lemma example_dispatch_run :
  match CommandDispatch example_world example_dispatch process_new with
  | Some (Goes 0, p) => bool_decide (is_Some (pc_engine p))
  | _ => false
  end = true.
Proof. vm_compute. reflexivity. Qed.

Lemma cli_dispatch_needs_live_evidence_witness :
  exists p, CommandDispatch example_world example_dispatch process_new = Some (Goes 0, p) /\
    opened_attempts example_world p.
Proof.
  pose proof example_dispatch_run as Hrun.
  destruct (CommandDispatch example_world example_dispatch process_new) as [[flow p]|] eqn:E;
    [|discriminate Hrun].
  destruct flow as [[|code|code]|code|]; try discriminate Hrun. exists p. split; [reflexivity|].
  apply (cli_dispatch_needs_live_evidence _ _ _ _ example_world_ok) in E; [exact E|].
  intros e He. apply older_check_ok. by apply example_opened_engine, andb_true_iff in He as [_ He].
Defined.

(** What the command [fence] puts: on success the fences of the store are those it was opened
    with and one for the scope and epoch that were given, under an identity made of the epoch
    alone; a fence of another scope below the same epoch is replaced. *)
Theorem cli_fence_replaces w o p :
  world_ok w -> CommandFence w o process_new = Some (Goes 0, p) ->
  exists e0 e scope fence, opened w e0 /\ pc_engine p = Some e /\
    StringId_TryParse (op_scope o) = Some scope /\ fe_scope fence = scope /\
    fe_fenced_below fence = wrap 64 (op_below o) /\
    ds_fences (en_state e) = om_insert (cli_fence_id (op_below o)) fence (ds_fences (en_state e0)) /\
    (forall other, om_find (cli_fence_id (op_below o)) (ds_fences (en_state e0)) = Some other -> fe_scope other <> scope ->
       om_find (cli_fence_id (op_below o)) (ds_fences (en_state e)) <> Some other).
Proof.
  intros Hw H. destruct (fence_ends w o p Hw H) as (e0 & e & scope & fence & H1 & H2 & H3 & H4 & H5 & H6).
  exists e0, e, scope, fence. split_and!; try done. intros other _ Hne. rewrite H6, om_find_insert_eq. intros [= ->]. done.
Qed.

Definition example_fence_options (scope : bytes) : Options :=
  mkOptions (B "fence") (B "d") scope [] [] [] [] [] [] [] [] 0 0 0 9 false false false false.

Lemma example_fence_run :
  match CommandFence example_world (example_fence_options (B "fabric/a")) process_new with
  | Some (Goes 0, p) => bool_decide (is_Some (pc_engine p))
  | _ => false
  end = true.
Proof. vm_compute. reflexivity. Qed.

Lemma cli_fence_replaces_witness :
  exists p e, CommandFence example_world (example_fence_options (B "fabric/a")) process_new =
    Some (Goes 0, p) /\ pc_engine p = Some e.
Proof.
  pose proof example_fence_run as H.
  destruct (CommandFence example_world (example_fence_options (B "fabric/a")) process_new)
    as [[flow p]|] eqn:E; [|discriminate H].
  destruct flow as [[|code|code]|code|]; try discriminate H.
  destruct (cli_fence_replaces _ _ p example_world_ok E) as (e0 & e & scope & fence & _ & He & _).
  exists p, e. split; [reflexivity|exact He].
Defined.

(** Two scopes fenced below the same epoch by the tool: the first is no longer fenced. *)
Example cli_fence_lifted :
  let put scope e := (Engine_PutFence (good_host 1700000000100) (cli_fence (cli_fence_id 9) scope [] 9) e).2 in
  let e1 := put (B "fabric/a") example_engine0 in
  let e2 := put (B "fabric/b") e1 in
  FenceHoldsFor (ds_fences (en_state e1)) (B "fabric/a") (B "port/eth0") 5 = true /\
  FenceHoldsFor (ds_fences (en_state e2)) (B "fabric/a") (B "port/eth0") 5 = false.
Proof. vm_compute. by split. Qed.

(** A negative epoch is taken as a huge one. *)
Example cli_fence_negative : fe_fenced_below (cli_fence (cli_fence_id (-1)) (B "fabric/a") [] (-1)) = 2 ^ 64 - 1.
Proof. vm_compute. reflexivity. Qed.
