(* ===== verification/ToolLife.v ===== *)
(** * A store under the command line

    Runs of the tool, one after another on the same store directories, are part of the life
    that [Durability] describes: each finds what an earlier one left, whenever it ended, and
    leaves a store of which the same can be said. *)

From Stdlib Require Import ZArith Lia.
From stdpp Require Import prelude.
From S2P Require Import Prelude OrdMap Hash Status Identity Canonical Value Policy Document Drift.
From S2P Require Import Authority Plan Lineage Journal Snapshot StoreState Store Engine Planner.
From S2P Require Import Lifecycle EngineRuns EngineSafety EngineGuards Durability Wire WireOps Render.
From S2P Require Import Server ServerSafety Json JsonFacts DocumentJson DocumentJsonFacts Cli CliSafety.
Local Open Scope Z_scope.

Local Opaque EncodePolicy EncodeIntent EncodeObservation EncodeAttemptRecord EncodeOutcome EncodeFence.

(** What a run finds in a store directory: no store yet, or what a crash left of an engine of
    that directory, serving or stopped while it booted. *)
Definition found (store : bytes) (disk : StoreDisk) : Prop :=
  unborn disk \/
  exists booted e, seen (cli_engine_options store) booted e /\ crashed default_limits (en_store e) disk.

(** The world of a run on such directories, with careful hosts. *)
Record world_careful (w : World) : Prop := {
  wc_hosts i : host_typed (wd_host w i) = true;
  wc_follows i : follows (H := careful default_limits) (wd_host w i);
  wc_boot : BootId_valid (bh_boot (wd_boot w)) = true;
  wc_fresh : length (bh_fresh_store (wd_boot w)) = 16%nat;
  wc_clock : i64 (bh_now_header (wd_boot w)) = true;
  wc_disks store : found store (wd_disk w store);
  wc_lines line did service :
    (line, did) ∈ wd_stdin w -> service_run (D := careful default_limits) service (did service);
  wc_drain service : service_run (D := careful default_limits) service (wd_drain w service);
  wc_until service : service_run (D := careful default_limits) service (wd_until w service);
  wc_room e : opened w e -> attempts_room e
}.

Section Tool.
Variable w : World.
Hypothesis Hw : world_careful w.

Lemma careful_prepared store : prepared (cli_engine_options store) (wd_host w 0) (wd_boot w).
Proof.
  split; [|apply (wc_follows w Hw)|apply (wc_fresh w Hw)|apply (wc_clock w Hw)].
  rewrite (wc_hosts w Hw 0), andb_true_r. unfold boot_options_ok. rewrite (wc_boot w Hw), andb_true_r.
  vm_compute. reflexivity.
Qed.

Lemma opened_lives e : opened w e -> exists store, lives (cli_engine_options store) e.
Proof.
  intros (store & H). exists store.
  pose proof (careful_prepared store) as Hp. pose proof (Engine_Open_boots _ _ _ _ _ Hp H) as Hb.
  destruct (wc_disks w Hw store) as [Hd|(booted & e0 & Hlife & Hleft)]; [by eapply seen_created|by eapply seen_restarts].
Qed.

Lemma served_lives options e e' :
  eo_limits options = default_limits -> lives options e -> served (H := careful default_limits) e e' ->
  lives options e'.
Proof. intros Hl Hlife Hs. induction Hs as [|e1 e2 e3 H12 _ IH]; [done|]. apply IH. apply (seen_serves _ e1); [done|]. by rewrite Hl. Qed.
End Tool.

(** ** A concrete world *)

(** The directory [store] is as the torn write of [life3] left it; the others are empty. *)
Definition life_world : World :=
  mkWorld (fun _ => quoted example_json_text) (fun _ => true)
    (fun store => if bool_decide (store = B "store") then life3_disk else empty_disk) next_boot_host
    (fun _ => life_host) Status_Ok 7000 [] (fun service => service) (fun service => service) (example_boot, []).

Lemma life_room_check store (first : bool) :
  match Engine_Open life_host next_boot_host (cli_engine_options store) (if first then life3_disk else empty_disk) with
  | Value e => ds_next_attempt (en_state e) + Z.max 0 (max_plan_actions (en_limits e)) <? 2 ^ 64
  | Failed _ => true
  end = true.
Proof. unfold Engine_Open. destruct (is_empty _); [done|]. destruct first; vm_compute; reflexivity. Qed.

Lemma life_world_careful : world_careful life_world.
Proof.
  split; [done|intros i; by apply complete_host_follows|done|done|done| | |
    intros service; apply rtc_refl|intros service; apply rtc_refl|].
  - intros store. change (found store (if bool_decide (store = B "store") then life3_disk else empty_disk)).
    case_bool_decide as Hs; [subst store; right|left; exact empty_unborn].
    exists true, life3. split; [exact life3_lives|exact life3_crashed].
  - intros line did service H. by apply elem_of_nil in H.
  - intros e (store & He). pose proof (life_room_check store (bool_decide (store = B "store"))) as Hr.
    change (Engine_Open life_host next_boot_host (cli_engine_options store)
      (if bool_decide (store = B "store") then life3_disk else empty_disk) = Value e) in He.
    rewrite He in Hr. by apply Z.ltb_lt in Hr.
Qed.

Definition life_args : list bytes := [B "intent"; B "--file"; B "intent.json"; B "--store"; B "store"].

Lemma life_tool_run :
  match cli_main life_world life_args with
  | Some (Goes 0, p) => bool_decide (is_Some (pc_engine p)) && bool_decide (pc_err p = [])
  | _ => false
  end = true.
Proof. vm_compute. reflexivity. Qed.

(** ** Properties *)


