(* ===== verification/Net.v ===== *)
(** * Sockets (net.hpp, net.cpp)

    The system calls are the host's: the answer of each is an argument, and the model keeps the
    descriptors the process holds open and the calls that act on them.  A [Socket] is its
    handle, where the null pointer is zero. The code is the one built for POSIX systems. *)

From Stdlib Require Import ZArith Lia.
From stdpp Require Import prelude gmap.
From S2P Require Import Prelude Status Value Render DocumentJson.
Local Open Scope Z_scope.

(** ** The host *)

Inductive Syscall :=
| Sys_shutdown (fd : Z)
| Sys_close (fd : Z)
| Sys_send (fd : Z) (data : bytes)
| Sys_drain (fd : Z).

Record Os := mkOs {
  os_open : gset Z;
  os_log : list Syscall
}.

Definition Net (A : Type) : Type := Os -> A * Os.
#[export] Instance Net_ret : MRet Net := fun A a os => (a, os).
#[export] Instance Net_bind : MBind Net := fun A C f m os => let '(a, os') := m os in f a os'.

Definition kInvalidSocket : Z := -1.

(** A call that may open a descriptor; a negative answer is a failure. *)
Definition sys_open (answer : Z) : Net Z := fun os =>
  (answer, if answer <? 0 then os else mkOs ({[answer]} ∪ os_open os) (os_log os)).
Definition sys_close (fd : Z) : Net unit := fun os =>
  (tt, mkOs (os_open os ∖ {[fd]}) (os_log os ++ [Sys_close fd])).
Definition sys_note (call : Syscall) : Net unit := fun os => (tt, mkOs (os_open os) (os_log os ++ [call])).

(** ** Sockets *)

(** Models [Socket], src/net.hpp:28-56: the handle it owns, zero for none. *)
Definition Socket : Type := Z.
Definition Socket_null : Socket := 0.

(** Models [Socket::valid], src/net.hpp:38-40. *)
Definition Socket_valid (socket : Socket) : bool := negb (socket =? 0).

(** Models [ToNative], src/net.cpp:50-52. *)
Definition ToNative (socket : Socket) : Z := socket.
(** Models [FromNative], src/net.cpp:54-56: descriptor 0 is the null pointer. *)
Definition FromNative (fd : Z) : Socket := fd.

(** Models [Socket::Close], src/net.cpp:86-101. *)
Definition Socket_Close (socket : Socket) : Net Socket :=
  if negb (Socket_valid socket) then mret Socket_null
  else
    _ ← sys_note (Sys_shutdown (ToNative socket));
    _ ← sys_close (ToNative socket);
    mret Socket_null.

(** Models [Socket::Shutdown], src/net.cpp:103-114. *)
Definition Socket_Shutdown (socket : Socket) : Net unit :=
  if negb (Socket_valid socket) then mret tt else sys_note (Sys_shutdown (ToNative socket)).

(** Models [Socket::operator=], src/net.cpp:75-82: the old socket is closed, the new one moved in. *)
Definition Socket_assign (self other : Socket) : Net (Socket * Socket) :=
  _ ← Socket_Close self; mret (other, Socket_null).

Definition session_limit (detail : bytes) : Status := mkStatus SC_Rejected RC_SessionLimitReached detail.
Definition not_found (detail : bytes) : Status := mkStatus SC_NotFound RC_SessionClosed detail.

(** ** Listening and accepting *)

(** What the host answers to the calls of [Listen]. *)
Record ListenIo := mkListenIo {
  li_socket : Z;
  li_address_ok : bool;
  li_bind_ok : bool;
  li_listen_ok : bool;
  li_bound : option Z
}.

(** A failure after the descriptor was opened. *)
Definition abandon {A} (fd : Z) (status : Status) : Net (Result A) := _ ← sys_close fd; mret (Failed status).

(** Models [Listen], src/net.cpp:116-173: the socket and the port it is bound to. *)
Definition Listen (io : ListenIo) : Net (Result (Socket * Z)) :=
  fd ← sys_open (li_socket io);
  if fd =? kInvalidSocket then mret (Failed (session_limit (B "cannot create listening socket")))
  else if negb (li_address_ok io) then abandon fd (session_limit (B "bind address is not a valid IPv4 literal"))
  else if negb (li_bind_ok io) then abandon fd (session_limit (B "bind failed"))
  else if negb (li_listen_ok io) then abandon fd (session_limit (B "listen failed"))
  else match li_bound io with
       | None => abandon fd (session_limit (B "getsockname failed"))
       | Some port => mret (Value (FromNative fd, port))
       end.

(** Models [Accept], src/net.cpp:175-202. *)
Definition Accept (listener : Socket) (answer : Z) : Net (Result Socket) :=
  if negb (Socket_valid listener) then
    mret (Failed (mkStatus SC_PreconditionFailed RC_SessionClosed (B "listener is not open")))
  else
    fd ← sys_open answer;
    if fd <? 0 then mret (Failed (not_found (B "listener was shut down while waiting for a connection")))
    else mret (Value (FromNative fd)).

(** ** The wakeup channel *)

(** Models [WakeupChannel], src/net.hpp:69-90. *)
Record WakeupChannel := mkWakeup {
  wc_receiver : Socket;
  wc_sender : Socket
}.

Record WakeupIo := mkWakeupIo {
  wi_receiver : Z;
  wi_bind_ok : bool;
  wi_name_ok : bool;
  wi_sender : Z;
  wi_connect_ok : bool
}.

(** Models [WakeupChannel::Create], src/net.cpp:204-247. *)
Definition WakeupChannel_Create (io : WakeupIo) : Net (Result WakeupChannel) :=
  receiver ← sys_open (wi_receiver io);
  if receiver =? kInvalidSocket then mret (Failed (session_limit (B "cannot create wakeup receiver")))
  else if negb (wi_bind_ok io) then
    _ ← Socket_Close (FromNative receiver); mret (Failed (session_limit (B "cannot bind wakeup receiver")))
  else if negb (wi_name_ok io) then
    _ ← Socket_Close (FromNative receiver); mret (Failed (session_limit (B "cannot inspect wakeup receiver")))
  else
    sender ← sys_open (wi_sender io);
    if sender =? kInvalidSocket then
      _ ← Socket_Close (FromNative receiver); mret (Failed (session_limit (B "cannot create wakeup sender")))
    else if negb (wi_connect_ok io) then
      _ ← Socket_Close (FromNative receiver);
      _ ← Socket_Close (FromNative sender);
      mret (Failed (session_limit (B "cannot connect wakeup sender")))
    else mret (Value (mkWakeup (FromNative receiver) (FromNative sender))).

(** Models [WakeupChannel::Signal], src/net.cpp:249-255. *)
Definition WakeupChannel_Signal (channel : WakeupChannel) : Net unit :=
  if negb (Socket_valid (wc_sender channel)) then mret tt
  else sys_note (Sys_send (ToNative (wc_sender channel)) [Byte.x01]).

(** Models [WakeupChannel::Close], src/net.cpp:257-260. *)
Definition WakeupChannel_Close (channel : WakeupChannel) : Net WakeupChannel :=
  sender ← Socket_Close (wc_sender channel);
  receiver ← Socket_Close (wc_receiver channel);
  mret (mkWakeup receiver sender).

(** What [select] answers: its result, whether an error was an interruption, which of the two
    descriptors are readable. *)
Record SelectIo := mkSelectIo {
  sl_ready : Z;
  sl_interrupted : bool;
  sl_wake : bool;
  sl_listener : bool
}.

(** Models [WaitReadable], src/net.cpp:262-314: whether a connection is pending. *)
Definition WaitReadable (listener : Socket) (wake : WakeupChannel) (io : SelectIo) : Net (Result bool) :=
  if negb (Socket_valid listener) then mret (Failed (not_found (B "listener is not open")))
  else if sl_ready io <? 0 then
    mret (Failed (not_found (if sl_interrupted io then B "wait was interrupted while the listener was closing"
                             else B "select failed")))
  else if Socket_valid (wc_receiver wake) && sl_wake io then
    _ ← sys_note (Sys_drain (ToNative (wc_receiver wake)));
    mret (Failed (not_found (B "service is shutting down")))
  else if negb (sl_listener io) then mret (Failed (not_found (B "no readable socket")))
  else mret (Value true).

(** ** Connections *)

Record ConnectIo := mkConnectIo {
  ci_socket : Z;
  ci_address_ok : bool;
  ci_connect_ok : bool
}.

(** Models [Connect], src/net.cpp:316-347. *)
Definition Net_Connect (io : ConnectIo) : Net (Result Socket) :=
  fd ← sys_open (ci_socket io);
  if fd =? kInvalidSocket then
    mret (Failed (mkStatus SC_Rejected RC_SessionClosed (B "cannot create socket")))
  else if negb (ci_address_ok io) then
    abandon fd (mkStatus SC_Rejected RC_SessionClosed (B "host is not a valid IPv4 literal"))
  else if negb (ci_connect_ok io) then abandon fd (not_found (B "connect failed"))
  else mret (Value (FromNative fd)).

(** Models [SendAll], src/net.cpp:357-367: the loop, where each [send] writes what the host
    answers, at most what it was given; without a further answer it is blocked. *)
Fixpoint send_loop (fd : Z) (answers : list Z) (data : bytes) : Net (option Status) :=
  match data with
  | [] => mret (Some Status_Ok)
  | _ :: _ =>
    match answers with
    | [] => mret None
    | written :: answers =>
      if written <=? 0 then
        mret (Some (mkStatus SC_Indeterminate RC_SessionClosed (B "send failed")))
      else
        _ ← sys_note (Sys_send fd (take (Z.to_nat written) data));
        send_loop fd answers (drop (Z.to_nat written) data)
    end
  end.

(** Models [SendAll], src/net.cpp:349-369. *)
Definition SendAll (socket : Socket) (answers : list Z) (data : bytes) : Net (option Status) :=
  if negb (Socket_valid socket) then
    mret (Some (mkStatus SC_PreconditionFailed RC_SessionClosed (B "socket is closed")))
  else send_loop (ToNative socket) answers data.

(** Models [Receive], src/net.cpp:371-398: what one [recv] of at most [capacity] bytes gives, the
    host answering its result and the bytes that were there. *)
Definition Receive (socket : Socket) (capacity : Z) (answer : Z) (available : bytes) : Result bytes :=
  if negb (Socket_valid socket) then Failed (not_found (B "socket is closed"))
  else if answer =? 0 then Failed (not_found (B "peer closed the connection"))
  else if answer <? 0 then Failed (mkStatus SC_Indeterminate RC_SessionClosed (B "receive failed"))
  else Value (take (Z.to_nat (Z.min answer capacity)) available).

(** Models [DescribePeer], src/net.cpp:400-422: the host answers the address and the port. *)
Definition DescribePeer (socket : Socket) (peer : option (option bytes * Z)) : bytes :=
  if negb (Socket_valid socket) then B "<closed>"
  else match peer with
       | None | Some (None, _) => B "<unknown>"
       | Some (Some address, port) => c_str address ++ B ":" ++ to_string port
       end.

(** ** Facts *)

(** What the process has sent on a descriptor. *)
Definition sent_on (fd : Z) (log : list Syscall) : bytes :=
  concat (map (fun call => match call with Sys_send fd' data => if fd' =? fd then data else [] | _ => [] end) log).

Lemma sent_on_app fd l1 l2 : sent_on fd (l1 ++ l2) = sent_on fd l1 ++ sent_on fd l2.
Proof. unfold sent_on. by rewrite map_app, concat_app. Qed.

(** The loop sends a prefix, all of it exactly on success. *)
Lemma send_loop_spec fd answers : forall data os r os',
  send_loop fd answers data os = (r, os') ->
  os_open os' = os_open os /\
  exists sent rest, data = sent ++ rest /\ sent_on fd (os_log os') = sent_on fd (os_log os) ++ sent /\
    (r = Some Status_Ok <-> rest = []).
Proof.
  induction answers as [|written answers IH]; intros data os r os' H.
  - destruct data as [|c data]; cbn in H; injection H as <- <-; (split; [done|]).
    + exists [], []. split_and!; [done|by rewrite app_nil_r|done].
    + exists [], (c :: data). split_and!; [done|by rewrite app_nil_r|done].
  - destruct data as [|c data].
    { cbn in H. injection H as <- <-. split; [done|]. exists [], []. split_and!; [done|by rewrite app_nil_r|done]. }
    cbn [send_loop] in H. destruct (Z.leb_spec written 0).
    { injection H as <- <-. split; [done|]. exists [], (c :: data). split_and!; [done|by rewrite app_nil_r|done]. }
    unfold mbind, Net_bind, sys_note in H. apply IH in H as (Ho & sent & rest & Hd & Hs & Hr). split; [done|].
    exists (take (Z.to_nat written) (c :: data) ++ sent), rest. split.
    { rewrite <- app_assoc, <- Hd. symmetry. apply take_drop. }
    split; [|done]. rewrite Hs. cbn [os_log]. rewrite sent_on_app.
    assert (sent_on fd [Sys_send fd (take (Z.to_nat written) (c :: data))] = take (Z.to_nat written) (c :: data)) as ->.
    { unfold sent_on. cbn [map concat]. by rewrite Z.eqb_refl, app_nil_r. }
    by rewrite app_assoc.
Qed.

(** With as many answers as there are bytes, none a failure, the loop ends. *)
Lemma send_loop_ends fd answers : forall data os,
  Forall (fun written => 0 < written) answers -> (length data <= length answers)%nat ->
  (send_loop fd answers data os).1 = Some Status_Ok.
Proof.
  induction answers as [|written answers IH]; intros data os Hall Hlen.
  - by destruct data; [|cbn in Hlen; lia].
  - destruct data as [|c data]; [done|]. apply Forall_cons in Hall as [Hw Hall]. cbn [send_loop].
    destruct (Z.leb_spec written 0); [lia|]. unfold mbind, Net_bind, sys_note. apply IH; [done|].
    rewrite length_drop. cbn [length] in *. lia.
Qed.

(** An answer of the host that opens a descriptor: new and not zero. *)
Definition opens (os : Os) (answer : Z) : Prop := answer = -1 \/ 0 < answer /\ answer ∉ os_open os.

Lemma sys_open_opens os answer : opens os answer -> answer <> -1 ->
  0 < answer /\ answer ∉ os_open os /\ sys_open answer os = (answer, mkOs ({[answer]} ∪ os_open os) (os_log os)).
Proof.
  intros [H|[H1 H2]] Hn; [done|]. split_and!; [done|done|]. unfold sys_open. destruct (Z.ltb_spec answer 0); [lia|done].
Qed.

Lemma closed_again (s : gset Z) fd : fd ∉ s -> ({[fd]} ∪ s) ∖ {[fd]} = s.
Proof. set_solver. Qed.

(** What a call that may open one socket leaves: that socket open, or nothing new. *)
Definition one_socket (os : Os) (outcome : Result Socket * Os) : Prop :=
  match outcome.1 with
  | Value socket => Socket_valid socket = true /\ socket ∉ os_open os /\ os_open outcome.2 = {[socket]} ∪ os_open os
  | Failed _ => os_open outcome.2 = os_open os
  end.

Lemma positive_valid fd : 0 < fd -> Socket_valid fd = true.
Proof. intros H. unfold Socket_valid. destruct (Z.eqb_spec fd 0); [lia|done]. Qed.

Lemma Listen_sockets os io : opens os (li_socket io) ->
  one_socket os (match (Listen io os).1 with Value (socket, _) => Value socket | Failed status => Failed status end,
                 (Listen io os).2).
Proof.
  intros Ho. unfold Listen, kInvalidSocket. unfold mbind, Net_bind. destruct (Z.eqb_spec (li_socket io) (-1)) as [E|E].
  { rewrite E. reflexivity. }
  destruct (sys_open_opens os _ Ho E) as (Hp & Hn & ->). destruct (Z.eqb_spec (li_socket io) (-1)); [done|].
  assert (forall status, one_socket os (abandon (li_socket io) status (mkOs ({[li_socket io]} ∪ os_open os) (os_log os)))) as Ha.
  { intros status. unfold one_socket. cbn. by apply closed_again. }
  destruct (li_address_ok io); cbn [negb]; [|apply Ha]. destruct (li_bind_ok io); cbn [negb]; [|apply Ha].
  destruct (li_listen_ok io); cbn [negb]; [|apply Ha]. destruct (li_bound io); [|apply Ha].
  unfold one_socket. cbn [fst snd mret Net_ret os_open]. split_and!; [by apply positive_valid|done|done].
Qed.

Lemma Connect_sockets os io : opens os (ci_socket io) -> one_socket os (Net_Connect io os).
Proof.
  intros Ho. unfold Net_Connect, kInvalidSocket. unfold mbind, Net_bind. destruct (Z.eqb_spec (ci_socket io) (-1)) as [E|E].
  { rewrite E. reflexivity. }
  destruct (sys_open_opens os _ Ho E) as (Hp & Hn & ->). destruct (Z.eqb_spec (ci_socket io) (-1)); [done|].
  assert (forall status, one_socket os (abandon (ci_socket io) status (mkOs ({[ci_socket io]} ∪ os_open os) (os_log os)))) as Ha.
  { intros status. unfold one_socket. cbn. by apply closed_again. }
  destruct (ci_address_ok io); cbn [negb]; [|apply Ha]. destruct (ci_connect_ok io); cbn [negb]; [|apply Ha].
  unfold one_socket. cbn [fst snd mret Net_ret os_open]. split_and!; [by apply positive_valid|done|done].
Qed.

Lemma Accept_sockets os listener answer : opens os answer -> one_socket os (Accept listener answer os).
Proof.
  intros Ho. unfold Accept. destruct (Socket_valid listener); cbn [negb]; [|done]. unfold mbind, Net_bind.
  destruct (Z.eqb_spec answer (-1)) as [E|E]; [by rewrite E|].
  destruct (sys_open_opens os _ Ho E) as (Hp & Hn & ->). destruct (Z.ltb_spec answer 0); [lia|].
  unfold one_socket. cbn [fst snd mret Net_ret os_open]. split_and!; [by apply positive_valid|done|done].
Qed.

Lemma Socket_Close_open os fd : 0 < fd -> os_open (Socket_Close fd os).2 = os_open os ∖ {[fd]}.
Proof. intros H. unfold Socket_Close. by rewrite positive_valid. Qed.

(** What the creation of a channel leaves: its two sockets, or nothing new. *)
Definition two_sockets (os : Os) (outcome : Result WakeupChannel * Os) : Prop :=
  match outcome.1 with
  | Value channel =>
    0 < wc_receiver channel /\ 0 < wc_sender channel /\ wc_receiver channel ∉ os_open os /\
    wc_sender channel ∉ os_open os /\ wc_sender channel <> wc_receiver channel /\
    os_open outcome.2 = {[wc_sender channel]} ∪ ({[wc_receiver channel]} ∪ os_open os)
  | Failed _ => os_open outcome.2 = os_open os
  end.

Lemma Create_sockets os io :
  opens os (wi_receiver io) -> opens (sys_open (wi_receiver io) os).2 (wi_sender io) ->
  two_sockets os (WakeupChannel_Create io os).
Proof.
  intros Hr Hs. unfold WakeupChannel_Create, kInvalidSocket. unfold mbind at 1, Net_bind at 1.
  destruct (Z.eqb_spec (wi_receiver io) (-1)) as [E|E]; [by rewrite E|].
  destruct (sys_open_opens os _ Hr E) as (Hp & Hn & Ho). rewrite Ho in Hs |- *. cbn [snd] in Hs.
  set (os1 := mkOs _ _) in *. destruct (Z.eqb_spec (wi_receiver io) (-1)); [done|].
  assert (forall status, two_sockets os ((_ ← Socket_Close (FromNative (wi_receiver io)); mret (Failed status)) os1)) as Ha.
  { intros status. unfold mbind, Net_bind. destruct (Socket_Close _ os1) as [u os2] eqn:Ec.
    pose proof (Socket_Close_open os1 _ Hp) as H. unfold FromNative in Ec. rewrite Ec in H. cbn [snd] in H.
    unfold two_sockets. cbn. rewrite H. by apply closed_again. }
  destruct (wi_bind_ok io); cbn [negb]; [|apply Ha]. destruct (wi_name_ok io); cbn [negb]; [|apply Ha].
  unfold mbind at 1, Net_bind at 1. destruct (Z.eqb_spec (wi_sender io) (-1)) as [E2|E2].
  { rewrite E2. exact (Ha _). }
  destruct (sys_open_opens os1 _ Hs E2) as (Hp2 & Hn2 & ->). destruct (Z.eqb_spec (wi_sender io) (-1)); [done|].
  cbn [os_open os1] in Hn2. destruct (wi_connect_ok io); cbn [negb].
  - unfold two_sockets. cbn [fst snd mret Net_ret wc_receiver wc_sender FromNative os_open].
    split_and!; [done|done|done|set_solver|set_solver|done].
  - unfold FromNative, Socket_Close. rewrite !positive_valid by done. unfold two_sockets. cbn. set_solver.
Qed.

(** ** Properties *)

(** No descriptor is lost: whatever the host answers, a call that succeeds returns a valid
    socket on a descriptor that was not open, which is the only one it added; a call that fails
    leaves the descriptors as they were; and closing a channel gives both of its back, once. *)
Theorem sockets_leak_nothing os listen connect listener accepted wakeup :
  opens os (li_socket listen) -> opens os (ci_socket connect) -> opens os accepted ->
  opens os (wi_receiver wakeup) -> opens (sys_open (wi_receiver wakeup) os).2 (wi_sender wakeup) ->
  one_socket os (match (Listen listen os).1 with Value (socket, _) => Value socket | Failed status => Failed status end,
                 (Listen listen os).2) /\
  one_socket os (Net_Connect connect os) /\ one_socket os (Accept listener accepted os) /\
  two_sockets os (WakeupChannel_Create wakeup os) /\
  (forall channel os', WakeupChannel_Create wakeup os = (Value channel, os') ->
     os_open (WakeupChannel_Close channel os').2 = os_open os /\
     WakeupChannel_Close (WakeupChannel_Close channel os').1 (WakeupChannel_Close channel os').2 =
       WakeupChannel_Close channel os').
Proof.
  intros H1 H2 H3 H4 H5. pose proof (Create_sockets os wakeup H4 H5) as Hc.
  split_and!; [by apply Listen_sockets|by apply Connect_sockets|by apply Accept_sockets|done|].
  intros [r s] os' E. rewrite E in Hc. destruct Hc as (Hr & Hs & Hrn & Hsn & Hne & Ho). cbn [wc_receiver wc_sender snd] in *.
  unfold WakeupChannel_Close, Socket_Close. cbn [wc_receiver wc_sender]. rewrite !positive_valid by done. cbn. split; [|done].
  set_solver.
Qed.

Lemma sockets_leak_nothing_witness :
  one_socket (mkOs {[1; 2]} []) (Net_Connect (mkConnectIo 3 true false) (mkOs {[1; 2]} [])).
Proof.
  apply (sockets_leak_nothing (mkOs {[1; 2]} []) (mkListenIo 3 true true true (Some 80)) (mkConnectIo 3 true false) 1 3
    (mkWakeupIo 3 true true 4 false)); right; vm_compute; (split; [reflexivity|]); intros H; discriminate H.
Defined.

(** Sending all or failing: what goes out on the descriptor is a prefix of the data, in order
    and nothing else; the call succeeds exactly when it is all of it; and it ends, successfully,
    as soon as the host accepted a byte or more at each call often enough. *)
Theorem send_all_or_fail socket answers data os r os' :
  Socket_valid socket = true -> SendAll socket answers data os = (r, os') ->
  (exists sent rest, data = sent ++ rest /\
     sent_on (ToNative socket) (os_log os') = sent_on (ToNative socket) (os_log os) ++ sent /\
     (r = Some Status_Ok <-> rest = [])) /\
  (Forall (fun written => 0 < written) answers -> (length data <= length answers)%nat -> r = Some Status_Ok).
Proof.
  intros Hv. unfold SendAll. rewrite Hv. cbn [negb]. intros H. split.
  - by apply send_loop_spec in H as [_ H].
  - intros Ha Hl. pose proof (send_loop_ends (ToNative socket) answers data os Ha Hl) as He. by rewrite H in He.
Qed.

Lemma send_all_or_fail_witness :
  (SendAll 3 [2; 5; 1; 1; 1] (B "frame") (mkOs {[3]} [])).1 = Some Status_Ok.
Proof.
  destruct (SendAll 3 [2; 5; 1; 1; 1] (B "frame") (mkOs {[3]} [])) as [r os'] eqn:E.
  destruct (send_all_or_fail 3 [2; 5; 1; 1; 1] (B "frame") _ r os' eq_refl E) as [_ H].
  apply H; [repeat constructor|]. change (length (B "frame")) with 5%nat. cbn [length]. lia.
Defined.

(** A process whose standard input is closed may be given descriptor 0: the socket on it is taken
    for none, and the descriptor stays open. *)
Example descriptor_zero_lost :
  let os := mkOs ∅ [] in
  let outcome := Listen (mkListenIo 0 true true true (Some 80)) os in
  outcome.1 = Value (0, 80) /\ Socket_valid 0 = false /\ os_open outcome.2 = {[0]} /\
  os_open (Socket_Close 0 outcome.2).2 = {[0]}.
Proof. vm_compute. by split_and!. Qed.
