(* ===== verification/Threads.v ===== *)
(** * The threads of the service (server.cpp: Start, the accept thread, CloseSession, Stop)

    The accept thread, one thread per session and the thread that calls [Stop] share the
    listener, the wakeup channels and the list of sessions.  Each thread is a program counter
    between its calls that block or take the mutex, and a step of the service is a step of one
    of them: every interleaving is a run of the relation.  Descriptors are those of Net. *)

From Stdlib Require Import ZArith Lia.
From stdpp Require Import prelude gmap.
From S2P Require Import Prelude Status Net.
Local Open Scope Z_scope.

(** ** The state the threads share *)

(** A session in the list of the service: its connection, its wakeup channel, whether the
    channel was signalled, and whether its thread has ended. *)
Record Seat := mkSeat {
  se_socket : Socket;
  se_wake : WakeupChannel;
  se_signalled : bool;
  se_ended : bool
}.

(** Where the accept thread is: at the test of [stopping], in the wait, in [accept], with a
    connection it has not seated yet, or at its end. *)
Inductive AcceptPc :=
| AP_Check
| AP_Wait
| AP_Accept
| AP_Admit (connection : Socket)
| AP_Push (connection : Socket) (wake : WakeupChannel)
| AP_Done.

(** Where [Stop] is: not called, before the signal, before the copy of the list, releasing the
    sessions it copied, joining the accept thread, joining the workers, closing, returned. *)
Inductive StopPc :=
| HP_Running
| HP_Signal
| HP_Snapshot
| HP_Release (live : list nat)
| HP_JoinAccept
| HP_JoinWorkers (workers : list nat)
| HP_Close
| HP_Stopped.

#[export] Instance StopPc_eq_dec : EqDecision StopPc.
Proof. solve_decision. Defined.

(** Models [ReconciliationServer::Impl], src/server.cpp:60-79: what concerns its threads. *)
Record Impl := mkImpl {
  im_os : Os;
  im_listener : Socket;
  im_wake : WakeupChannel;
  im_signalled : bool;
  im_stopping : bool;
  im_sessions : list Seat;
  im_accept : AcceptPc;
  im_stop : StopPc;
  im_max_sessions : Z;
  im_single_session : bool
}.

Definition at_accept (pc : AcceptPc) (os : Os) (t : Impl) : Impl :=
  mkImpl os (im_listener t) (im_wake t) (im_signalled t) (im_stopping t) (im_sessions t) pc (im_stop t)
    (im_max_sessions t) (im_single_session t).
Definition at_stop (pc : StopPc) (os : Os) (t : Impl) : Impl :=
  mkImpl os (im_listener t) (im_wake t) (im_signalled t) (im_stopping t) (im_sessions t) (im_accept t) pc
    (im_max_sessions t) (im_single_session t).
Definition with_sessions (seats : list Seat) (t : Impl) : Impl :=
  mkImpl (im_os t) (im_listener t) (im_wake t) (im_signalled t) (im_stopping t) seats (im_accept t) (im_stop t)
    (im_max_sessions t) (im_single_session t).

(** ** Operations *)

Definition descriptors : Net Os := fun os => (os, os).

(** Models [ReconciliationServer::Start], src/server.cpp:653-674: the channel, the listener and
    the accept thread. *)
Definition Start_threads (wake_io : WakeupIo) (listen_io : ListenIo) (max_sessions : Z) (single : bool)
  : Net (Result Impl) :=
  created ← WakeupChannel_Create wake_io;
  match created with
  | Failed status => mret (Failed status)
  | Value wake =>
    listening ← Listen listen_io;
    match listening with
    | Failed status => _ ← WakeupChannel_Close wake; mret (Failed status)
    | Value (listener, _) =>
      os ← descriptors;
      mret (Value (mkImpl os listener wake false false [] AP_Check HP_Running max_sessions single))
    end
  end.

(** Models [ReconciliationServer::Start], src/server.cpp:692-708: the bound on the sessions and the
    channel of a new one; a refused connection is closed. *)
Definition admit_connection (active max_sessions : Z) (connection : Socket) (wake_io : WakeupIo) : Net AcceptPc :=
  if max_sessions <=? active then _ ← Socket_Close connection; mret AP_Check
  else
    created ← WakeupChannel_Create wake_io;
    match created with
    | Failed _ => _ ← Socket_Close connection; mret AP_Check
    | Value wake => mret (AP_Push connection wake)
    end.

(** Models [ReconciliationServer::Impl::CloseSession], src/server.cpp:502-509: the end of the
    session's thread. *)
Definition CloseSession (seat : Seat) : Net Seat :=
  _ ← Socket_Shutdown (se_socket seat);
  socket ← Socket_Close (se_socket seat);
  mret (mkSeat socket (se_wake seat) (se_signalled seat) true).

(** Models [ReconciliationServer::Stop], src/server.cpp:743-749: the release of one session. *)
Definition release_session (seat : Seat) : Net Seat :=
  _ ← WakeupChannel_Signal (se_wake seat);
  _ ← Socket_Shutdown (se_socket seat);
  mret (mkSeat (se_socket seat) (se_wake seat) true (se_ended seat)).

(** Models [ReconciliationServer::Stop], src/server.cpp:760-766: the sessions are closed and
    destroyed, their channels with them. *)
Fixpoint close_sessions (seats : list Seat) : Net unit :=
  match seats with
  | [] => mret tt
  | seat :: seats =>
    _ ← Socket_Close (se_socket seat);
    _ ← WakeupChannel_Close (se_wake seat);
    close_sessions seats
  end.

(** Models [ReconciliationServer::Stop], src/server.cpp:759-769. *)
Definition close_service (t : Impl) : Impl :=
  let '(_, os) := close_sessions (im_sessions t) (im_os t) in
  let '(listener, os) := Socket_Close (im_listener t) os in
  let '(wake, os) := WakeupChannel_Close (im_wake t) os in
  mkImpl os listener wake (im_signalled t) (im_stopping t) [] (im_accept t) HP_Stopped
    (im_max_sessions t) (im_single_session t).

(** ** Steps *)

(** What [select] may answer when the channel is signalled or not: an error, or a ready
    descriptor, the channel being readable exactly when it was signalled. *)
Definition select_ok (signalled : bool) (io : SelectIo) : bool :=
  (sl_ready io <? 0) || (Bool.eqb (sl_wake io) signalled && (sl_wake io || sl_listener io)).

(** Who causes a step: the process itself, or a peer that connects, closes or misbehaves. *)
Inductive Actor := Own | Peer.

(** Models [ReconciliationServer::Start], src/server.cpp:674-720: the accept thread. *)
Inductive accept_step : Actor -> Impl -> Impl -> Prop :=
| AS_check t :
    im_accept t = AP_Check ->
    accept_step Own t (at_accept (if im_stopping t then AP_Done else AP_Wait) (im_os t) t)
| AS_released t io status os :
    im_accept t = AP_Wait -> select_ok (im_signalled t) io = true ->
    WaitReadable (im_listener t) (im_wake t) io (im_os t) = (Failed status, os) ->
    accept_step Own t (at_accept AP_Done os t)
| AS_ready t io os :
    im_accept t = AP_Wait -> select_ok (im_signalled t) io = true ->
    WaitReadable (im_listener t) (im_wake t) io (im_os t) = (Value true, os) ->
    accept_step Peer t (at_accept AP_Accept os t)
| AS_refused t answer status os :
    im_accept t = AP_Accept -> opens (im_os t) answer ->
    Accept (im_listener t) answer (im_os t) = (Failed status, os) ->
    accept_step Own t (at_accept (if im_stopping t then AP_Done else AP_Check) os t)
| AS_accepted t answer connection os :
    im_accept t = AP_Accept -> opens (im_os t) answer ->
    Accept (im_listener t) answer (im_os t) = (Value connection, os) ->
    accept_step Own t (at_accept (AP_Admit connection) os t)
| AS_admit t connection wake_io pc os :
    im_accept t = AP_Admit connection -> opens (im_os t) (wi_receiver wake_io) ->
    opens (sys_open (wi_receiver wake_io) (im_os t)).2 (wi_sender wake_io) ->
    admit_connection (blen (im_sessions t)) (im_max_sessions t) connection wake_io (im_os t) = (pc, os) ->
    accept_step Own t (at_accept pc os t)
| AS_push t connection wake :
    im_accept t = AP_Push connection wake ->
    accept_step Own t
      (with_sessions (im_sessions t ++ [mkSeat connection wake false false])
         (at_accept (if im_single_session t then AP_Done else AP_Check) (im_os t) t)).

(** Models [ReconciliationServer::Impl::ServeSession], src/server.cpp:643-645: how the thread of a
    session ends, released through its channel or by its peer; what it does with the engine
    before that is the matter of Server. *)
Inductive session_step : Actor -> Impl -> Impl -> Prop :=
| WS_end actor t i seat seat' os :
    im_sessions t !! i = Some seat -> se_ended seat = false ->
    (actor = Own -> se_signalled seat = true) ->
    CloseSession seat (im_os t) = (seat', os) ->
    session_step actor t (with_sessions (<[i := seat']> (im_sessions t)) (at_stop (im_stop t) os t)).

(** Models [ReconciliationServer::Stop], src/server.cpp:726-770: the thread that stops the service,
    a first call. *)
Inductive stop_step : Impl -> Impl -> Prop :=
| HS_begin t :
    im_stop t = HP_Running ->
    stop_step t (mkImpl (im_os t) (im_listener t) (im_wake t) (im_signalled t) true (im_sessions t)
      (im_accept t) HP_Signal (im_max_sessions t) (im_single_session t))
| HS_signal t u1 os1 u2 os2 :
    im_stop t = HP_Signal -> WakeupChannel_Signal (im_wake t) (im_os t) = (u1, os1) ->
    Socket_Shutdown (im_listener t) os1 = (u2, os2) ->
    stop_step t (mkImpl os2 (im_listener t) (im_wake t) true (im_stopping t) (im_sessions t)
      (im_accept t) HP_Snapshot (im_max_sessions t) (im_single_session t))
| HS_snapshot t :
    im_stop t = HP_Snapshot ->
    stop_step t (at_stop (HP_Release (seq 0 (length (im_sessions t)))) (im_os t) t)
| HS_release t i live seat seat' os :
    im_stop t = HP_Release (i :: live) -> im_sessions t !! i = Some seat ->
    release_session seat (im_os t) = (seat', os) ->
    stop_step t (with_sessions (<[i := seat']> (im_sessions t)) (at_stop (HP_Release live) os t))
| HS_released t :
    im_stop t = HP_Release [] -> stop_step t (at_stop HP_JoinAccept (im_os t) t)
| HS_join_accept t :
    im_stop t = HP_JoinAccept -> im_accept t = AP_Done ->
    stop_step t (at_stop (HP_JoinWorkers (seq 0 (length (im_sessions t)))) (im_os t) t)
| HS_join t i workers seat :
    im_stop t = HP_JoinWorkers (i :: workers) -> im_sessions t !! i = Some seat -> se_ended seat = true ->
    stop_step t (at_stop (HP_JoinWorkers workers) (im_os t) t)
| HS_joined t :
    im_stop t = HP_JoinWorkers [] -> stop_step t (at_stop HP_Close (im_os t) t)
| HS_close t :
    im_stop t = HP_Close -> stop_step t (close_service t).

Inductive thread_step : Actor -> Impl -> Impl -> Prop :=
| TS_accept actor t t' : accept_step actor t t' -> thread_step actor t t'
| TS_session actor t t' : session_step actor t t' -> thread_step actor t t'
| TS_stop t t' : stop_step t t' -> thread_step Own t t'.

(** Every interleaving of the threads, whatever the peers do. *)
Definition threads_run : Impl -> Impl -> Prop := rtc (fun t t' => exists actor, thread_step actor t t').
(** The steps the process takes of itself. *)
Definition own_step : Impl -> Impl -> Prop := thread_step Own.

(** ** Descriptors of the service *)

Definition socket_fds (socket : Socket) : list Z := if Socket_valid socket then [socket] else [].
Definition channel_fds (channel : WakeupChannel) : list Z :=
  socket_fds (wc_sender channel) ++ socket_fds (wc_receiver channel).
Definition seat_fds (seat : Seat) : list Z := socket_fds (se_socket seat) ++ channel_fds (se_wake seat).
Definition accept_fds (pc : AcceptPc) : list Z :=
  match pc with
  | AP_Admit connection => socket_fds connection
  | AP_Push connection wake => socket_fds connection ++ channel_fds wake
  | _ => []
  end.
Definition impl_fds (t : Impl) : list Z :=
  socket_fds (im_listener t) ++ channel_fds (im_wake t) ++ accept_fds (im_accept t) ++
  concat (map seat_fds (im_sessions t)).

(** The process holds [own], each once, beside the descriptors [base] of its other parts. *)
Definition owns (base : gset Z) (own : list Z) (os : Os) : Prop :=
  NoDup own /\ Forall (fun fd => 0 < fd) own /\ (forall fd, fd ∈ own -> fd ∉ base) /\
  os_open os = list_to_set own ∪ base.

Section Descriptors.
Variable base : gset Z.

Lemma owns_perm own own' os : own ≡ₚ own' -> owns base own os -> owns base own' os.
Proof.
  intros Hp (Hn & Hf & Hb & Ho). split_and!; [by rewrite <- Hp|by rewrite <- Hp| |by rewrite <- Hp].
  intros fd. rewrite <- Hp. apply Hb.
Qed.

Lemma owns_open own os os' : os_open os' = os_open os -> owns base own os -> owns base own os'.
Proof. intros H (Hn & Hf & Hb & Ho). split_and!; [done..|]. by rewrite H. Qed.

Lemma owns_add own os os' fd :
  owns base own os -> 0 < fd -> fd ∉ os_open os -> os_open os' = {[fd]} ∪ os_open os -> owns base (fd :: own) os'.
Proof.
  intros (Hn & Hf & Hb & Ho) Hp Hnew H. rewrite Ho in Hnew. split_and!.
  - apply NoDup_cons. split; [|done]. set_solver.
  - by constructor.
  - intros x Hx. apply elem_of_cons in Hx as [->|Hx]; [set_solver|by apply Hb].
  - rewrite H, Ho. cbn. set_solver.
Qed.

Lemma owns_Close socket own os :
  owns base (socket_fds socket ++ own) os ->
  (Socket_Close socket os).1 = 0 /\ owns base own (Socket_Close socket os).2.
Proof.
  unfold socket_fds, Socket_Close. destruct (Socket_valid socket); [|by split]. intros (Hn & Hf & Hb & Ho). split; [done|].
  cbn [app] in *. apply NoDup_cons in Hn as [Hni Hn]. apply Forall_cons in Hf as [Hp Hf]. split_and!; [done|done| |].
  - intros fd Hfd. apply Hb. by right.
  - change (os_open os ∖ {[socket]} = list_to_set own ∪ base). rewrite Ho, list_to_set_cons.
    assert (socket ∉ base) by (apply Hb; by left). set_solver.
Qed.

Lemma owns_channel_Close channel own os :
  owns base (channel_fds channel ++ own) os ->
  (WakeupChannel_Close channel os).1 = mkWakeup 0 0 /\ owns base own (WakeupChannel_Close channel os).2.
Proof.
  unfold channel_fds, WakeupChannel_Close. rewrite <- app_assoc. intros H. unfold mbind, Net_bind.
  apply owns_Close in H as [E1 H]. destruct (Socket_Close (wc_sender channel) os) as [s os1]. cbn [fst snd] in *.
  apply owns_Close in H as [E2 H]. destruct (Socket_Close (wc_receiver channel) os1) as [r os2]. cbn [fst snd] in *.
  by subst.
Qed.

Lemma shutdown_open socket os : os_open (Socket_Shutdown socket os).2 = os_open os.
Proof. unfold Socket_Shutdown. by destruct (Socket_valid socket). Qed.
Lemma signal_open channel os : os_open (WakeupChannel_Signal channel os).2 = os_open os.
Proof. unfold WakeupChannel_Signal. by destruct (Socket_valid _). Qed.

Lemma owns_one own os outcome :
  owns base own os -> one_socket os outcome ->
  match outcome.1 with
  | Value socket => 0 < socket -> owns base (socket_fds socket ++ own) outcome.2
  | Failed _ => owns base own outcome.2
  end.
Proof.
  intros H. unfold one_socket. destruct outcome as [[socket|status] os1]; cbn [fst snd].
  - intros (Hv & Hn & Ho) Hp. unfold socket_fds. rewrite Hv. by eapply owns_add.
  - intros Ho. by eapply owns_open.
Qed.

Lemma owns_two own os outcome :
  owns base own os -> two_sockets os outcome ->
  match outcome.1 with
  | Value channel => owns base (channel_fds channel ++ own) outcome.2
  | Failed _ => owns base own outcome.2
  end.
Proof.
  intros H. unfold two_sockets. destruct outcome as [[[r s]|status] os1]; cbn [fst snd wc_receiver wc_sender].
  - intros (Hr & Hs & Hrn & Hsn & Hne & Ho). unfold channel_fds, socket_fds. cbn [wc_receiver wc_sender].
    rewrite !positive_valid by done. cbn [app].
    apply (owns_add _ (mkOs ({[r]} ∪ os_open os) [])); [by eapply owns_add|done|cbn; set_solver|done].
  - intros Ho. by eapply owns_open.
Qed.
End Descriptors.

(** Past the join of the accept thread. *)
Definition joined (pc : StopPc) : bool :=
  match pc with HP_JoinWorkers _ | HP_Close | HP_Stopped => true | _ => false end.

Record held (base : gset Z) (t : Impl) : Prop := {
  hd_owns : owns base (impl_fds t) (im_os t);
  hd_joined : joined (im_stop t) = true -> im_accept t = AP_Done;
  hd_stopped : im_stop t = HP_Stopped -> impl_fds t = [] /\ im_sessions t = []
}.

Section Held.
Variable base : gset Z.

(** The descriptors beside those of the accept thread. *)
Definition rest_fds (t : Impl) : list Z :=
  (socket_fds (im_listener t) ++ channel_fds (im_wake t)) ++ concat (map seat_fds (im_sessions t)).

Lemma impl_fds_rest t : impl_fds t ≡ₚ accept_fds (im_accept t) ++ rest_fds t.
Proof. unfold impl_fds, rest_fds. solve_Permutation. Qed.

Lemma owns_accept pc os t :
  owns base (accept_fds pc ++ rest_fds t) os -> owns base (impl_fds (at_accept pc os t)) (im_os (at_accept pc os t)).
Proof. apply owns_perm. symmetry. apply (impl_fds_rest (at_accept pc os t)). Qed.

(** A step of the accept thread happens before it is joined. *)
Lemma held_accept t pc os :
  held base t -> im_accept t <> AP_Done -> owns base (accept_fds pc ++ rest_fds t) os ->
  held base (at_accept pc os t).
Proof.
  intros [_ Hj Hs] Hn Ho. split; [by apply owns_accept| |].
  - intros H. by apply Hj in H.
  - intros H. cbn in H. rewrite H in Hj. by specialize (Hj eq_refl).
Qed.

Lemma WaitReadable_open listener wake io os : os_open (WaitReadable listener wake io os).2 = os_open os.
Proof. unfold WaitReadable. repeat (case_match; try done). Qed.

Lemma Accept_owns own listener answer os :
  owns base own os -> opens os answer ->
  match Accept listener answer os with
  | (Value connection, os') => owns base (socket_fds connection ++ own) os'
  | (Failed _, os') => owns base own os'
  end.
Proof.
  intros H Ho. pose proof (owns_one base own os _ H (Accept_sockets os listener answer Ho)) as Hx. revert Hx.
  unfold Accept. destruct (Socket_valid listener); cbn [negb]; [|done]. unfold mbind, Net_bind, sys_open.
  destruct (Z.ltb_spec answer 0) as [Hlt|Hge]; [done|]. intros Hx. apply Hx. cbn [fst].
  destruct Ho as [->|[Hp _]]; [lia|exact Hp].
Qed.

Lemma admitted_owns own active max connection io os pc os' :
  owns base (socket_fds connection ++ own) os -> opens os (wi_receiver io) ->
  opens (sys_open (wi_receiver io) os).2 (wi_sender io) ->
  admit_connection active max connection io os = (pc, os') -> owns base (accept_fds pc ++ own) os'.
Proof.
  intros H Hr Hs. unfold admit_connection. destruct (max <=? active).
  { unfold mbind, Net_bind. apply owns_Close in H as [_ H]. destruct (Socket_Close connection os) as [u os1].
    by intros [= <- <-]. }
  unfold mbind at 1, Net_bind at 1. pose proof (owns_two base _ _ _ H (Create_sockets os io Hr Hs)) as Hx.
  destruct (WakeupChannel_Create io os) as [[wake|status] os1]; cbn [fst snd] in Hx.
  - intros [= <- <-]. eapply owns_perm; [|exact Hx]. cbn [accept_fds]. solve_Permutation.
  - unfold mbind, Net_bind. apply owns_Close in Hx as [_ Hx]. destruct (Socket_Close connection os1) as [u os2].
    by intros [= <- <-].
Qed.

Lemma accept_step_held actor t t' : accept_step actor t t' -> held base t -> held base t'.
Proof.
  intros Hstep Hh. pose proof (owns_perm base _ _ _ (impl_fds_rest t) (hd_owns _ _ Hh)) as Ho.
  destruct Hstep as [t Hpc|t io status os Hpc _ Hw|t io os Hpc _ Hw|t answer status os Hpc Ha Hx|t answer c os Hpc Ha Hx
    |t c io pc os Hpc H1 H2 Hx|t c wake Hpc]; rewrite Hpc in Ho; cbn [accept_fds app] in Ho.
  - apply held_accept; [done|congruence|]. by destruct (im_stopping t).
  - apply held_accept; [done|congruence|]. eapply owns_open; [|exact Ho].
    pose proof (WaitReadable_open (im_listener t) (im_wake t) io (im_os t)) as H. by rewrite Hw in H.
  - apply held_accept; [done|congruence|]. eapply owns_open; [|exact Ho].
    pose proof (WaitReadable_open (im_listener t) (im_wake t) io (im_os t)) as H. by rewrite Hw in H.
  - apply held_accept; [done|congruence|]. pose proof (Accept_owns _ (im_listener t) _ _ Ho Ha) as H. rewrite Hx in H.
    by destruct (im_stopping t).
  - apply held_accept; [done|congruence|]. pose proof (Accept_owns _ (im_listener t) _ _ Ho Ha) as H. by rewrite Hx in H.
  - apply held_accept; [done|congruence|]. by eapply admitted_owns.
  - destruct Hh as [_ Hj _]. split.
    + eapply owns_perm; [|exact Ho]. unfold impl_fds, rest_fds. cbn. rewrite map_app, concat_app. cbn [map concat].
      unfold seat_fds. cbn [se_socket se_wake]. destruct (im_single_session t); cbn [accept_fds]; solve_Permutation.
    + intros H. apply Hj in H. congruence.
    + intros H. cbn in H. rewrite H in Hj. specialize (Hj eq_refl). congruence.
Qed.

(** Replacing one session. *)
Lemma sessions_split i (seat : Seat) (seats : list Seat) : seats !! i = Some seat ->
  exists l1 l2, seats = l1 ++ seat :: l2 /\ forall seat', <[i := seat']> seats = l1 ++ seat' :: l2.
Proof.
  intros H. exists (take i seats), (drop (S i) seats). split; [by rewrite take_drop_middle|]. intros seat'.
  apply insert_take_drop. by eapply lookup_lt_Some.
Qed.

Lemma held_seat t i seat seat' os pc :
  held base t -> im_sessions t !! i = Some seat -> joined pc = joined (im_stop t) -> pc <> HP_Stopped ->
  (forall own, owns base (seat_fds seat ++ own) (im_os t) -> owns base (seat_fds seat' ++ own) os) ->
  held base (with_sessions (<[i := seat']> (im_sessions t)) (at_stop pc os t)).
Proof.
  intros [Ho Hj Hs] Hi Hpc Hns Hnew. destruct (sessions_split i seat _ Hi) as (l1 & l2 & E & Ei). split.
  - eapply owns_perm; [|apply Hnew]; [|eapply owns_perm; [|exact Ho]].
    + unfold impl_fds. cbn. rewrite Ei, map_app, concat_app. cbn [map concat].
      instantiate (1 := socket_fds (im_listener t) ++ channel_fds (im_wake t) ++ accept_fds (im_accept t) ++
        concat (map seat_fds l1) ++ concat (map seat_fds l2)). solve_Permutation.
    + unfold impl_fds. rewrite E, map_app, concat_app. cbn [map concat]. solve_Permutation.
  - intros H. cbn in H. rewrite Hpc in H. exact (Hj H).
  - intros H. cbn in H. done.
Qed.

Lemma CloseSession_owns seat own os :
  owns base (seat_fds seat ++ own) os ->
  owns base (seat_fds (CloseSession seat os).1 ++ own) (CloseSession seat os).2.
Proof.
  intros H. unfold CloseSession. unfold mbind, Net_bind. pose proof (shutdown_open (se_socket seat) os) as E.
  destruct (Socket_Shutdown (se_socket seat) os) as [u os1]. cbn [snd] in E. apply (owns_open base _ _ os1 E) in H.
  unfold seat_fds in H. rewrite <- app_assoc in H. apply owns_Close in H as [E2 H].
  destruct (Socket_Close (se_socket seat) os1) as [s os2]. cbn [fst snd] in *. subst s. exact H.
Qed.

Lemma release_owns seat own os :
  owns base (seat_fds seat ++ own) os ->
  owns base (seat_fds (release_session seat os).1 ++ own) (release_session seat os).2.
Proof.
  unfold release_session. unfold mbind, Net_bind. pose proof (signal_open (se_wake seat) os) as E.
  destruct (WakeupChannel_Signal (se_wake seat) os) as [u os1]. pose proof (shutdown_open (se_socket seat) os1) as E2.
  destruct (Socket_Shutdown (se_socket seat) os1) as [u2 os2]. cbn [fst snd] in *. intros H.
  apply (owns_open base _ os); [cbn; congruence|exact H].
Qed.

Lemma session_step_held actor t t' : session_step actor t t' -> held base t -> held base t'.
Proof.
  intros [? s i seat seat' os Hi He _ Hc] Hh. apply (held_seat _ _ seat); [done|done|done| |].
  - intros H. destruct (hd_stopped _ _ Hh H) as [_ Hn]. by rewrite Hn in Hi.
  - intros own H. apply CloseSession_owns in H. by rewrite Hc in H.
Qed.

Lemma close_sessions_owns seats : forall own os,
  owns base (concat (map seat_fds seats) ++ own) os -> owns base own (close_sessions seats os).2.
Proof.
  induction seats as [|seat seats IH]; intros own os H; [done|]. cbn [map concat] in H. unfold seat_fds at 1 in H.
  rewrite <- !app_assoc in H. cbn [close_sessions]. unfold mbind, Net_bind. apply owns_Close in H as [_ H].
  destruct (Socket_Close (se_socket seat) os) as [u os1]. cbn [snd] in H. apply owns_channel_Close in H as [_ H].
  destruct (WakeupChannel_Close (se_wake seat) os1) as [c os2]. cbn [snd] in H. by apply IH.
Qed.

Lemma close_service_held t : held base t -> im_stop t = HP_Close -> held base (close_service t).
Proof.
  intros [Ho Hj _] Hpc. rewrite Hpc in Hj. specialize (Hj eq_refl). unfold close_service.
  assert (owns base (concat (map seat_fds (im_sessions t)) ++ socket_fds (im_listener t) ++ channel_fds (im_wake t) ++ []) (im_os t)) as H.
  { eapply owns_perm; [|exact Ho]. unfold impl_fds. rewrite Hj. cbn [accept_fds]. solve_Permutation. }
  apply close_sessions_owns in H. destruct (close_sessions _ _) as [u os1]. cbn [snd] in H.
  apply owns_Close in H as [El H]. destruct (Socket_Close _ _) as [listener os2]. cbn [fst snd] in *.
  apply owns_channel_Close in H as [Ew H]. destruct (WakeupChannel_Close _ _) as [wake os3]. cbn [fst snd] in *. subst.
  split; [|by cbn; rewrite Hj|by cbn; rewrite Hj]. unfold impl_fds. cbn. rewrite Hj. exact H.
Qed.

Lemma stop_step_held t t' : stop_step t t' -> held base t -> held base t'.
Proof.
  intros Hstep Hh. pose proof Hh as [Ho Hj Hs].
  destruct Hstep as [t Hpc|t u1 os1 u2 os2 Hpc H1 H2|t Hpc|t i live seat seat' os Hpc Hi Hr|t Hpc|t Hpc Hd|t i workers seat Hpc Hi He
    |t Hpc|t Hpc]; rewrite Hpc in *.
  - by split.
  - split; [|done|done]. eapply owns_open; [|exact Ho]. cbn.
    pose proof (signal_open (im_wake t) (im_os t)) as E1. pose proof (shutdown_open (im_listener t) os1) as E2.
    rewrite H1 in E1. rewrite H2 in E2. cbn [snd] in *. congruence.
  - by split.
  - apply (held_seat _ _ seat); [done|done|by rewrite Hpc|done|]. intros own H. apply release_owns in H. by rewrite Hr in H.
  - by split.
  - by split.
  - by split.
  - by split.
  - by apply close_service_held.
Qed.

Lemma threads_held t t' : threads_run t t' -> held base t -> held base t'.
Proof.
  induction 1 as [t|t1 t2 t3 [actor Hstep] _ IH]; [done|]. intros Hh. apply IH.
  destruct Hstep; [by eapply accept_step_held|by eapply session_step_held|by eapply stop_step_held].
Qed.
End Held.

Lemma Listen_owns base own io os :
  owns base own os -> opens os (li_socket io) ->
  match Listen io os with
  | (Value (listener, _), os') => owns base (socket_fds listener ++ own) os'
  | (Failed _, os') => owns base own os'
  end.
Proof.
  intros H Ho.
  assert (forall listener port os', Listen io os = (Value (listener, port), os') -> 0 < listener) as Hp.
  { intros listener port os'. unfold Listen, kInvalidSocket. unfold mbind at 1, Net_bind at 1.
    destruct (Z.eqb_spec (li_socket io) (-1)) as [E|E]; [by rewrite E|].
    destruct (sys_open_opens os _ Ho E) as (Hpos & _ & ->). rewrite (proj2 (Z.eqb_neq _ _) E).
    repeat (case_match; try done). by intros [= <- _ _]. }
  pose proof (owns_one base own os _ H (Listen_sockets os io Ho)) as Hx.
  destruct (Listen io os) as [[[listener port]|status] os'] eqn:El; cbn [fst snd] in Hx; [|done]. by eapply Hx, Hp.
Qed.

(** A service that started owns its listener and its channel; one that did not start owns
    nothing. *)
Lemma Start_held wake_io listen_io max single os :
  opens os (wi_receiver wake_io) -> opens (sys_open (wi_receiver wake_io) os).2 (wi_sender wake_io) ->
  opens (WakeupChannel_Create wake_io os).2 (li_socket listen_io) ->
  match Start_threads wake_io listen_io max single os with
  | (Value t, os') => im_os t = os' /\ held (os_open os) t
  | (Failed _, os') => os_open os' = os_open os
  end.
Proof.
  intros H1 H2 H3. assert (owns (os_open os) [] os) as Ho.
  { split_and!; [constructor|constructor|intros fd H; by apply elem_of_nil in H|]. cbn. set_solver. }
  unfold Start_threads. unfold mbind at 1, Net_bind at 1.
  pose proof (owns_two _ _ _ _ Ho (Create_sockets os wake_io H1 H2)) as Hc.
  destruct (WakeupChannel_Create wake_io os) as [[wake|status] os1]; cbn [fst snd] in *.
  2: { cbn [mret Net_ret]. destruct Hc as (_ & _ & _ & ->). set_solver. }
  unfold mbind at 1, Net_bind at 1. pose proof (Listen_owns _ _ listen_io _ Hc H3) as Hl.
  destruct (Listen listen_io os1) as [[[listener port]|status] os2].
  - cbn. split; [done|]. split; [|done|done]. eapply owns_perm; [|exact Hl]. unfold impl_fds. cbn. solve_Permutation.
  - unfold mbind, Net_bind. apply owns_channel_Close in Hl as [_ Hl].
    destruct (WakeupChannel_Close wake os2) as [c os3]. cbn [snd mret Net_ret] in *. destruct Hl as (_ & _ & _ & ->). set_solver.
Qed.

(** ** Stopping *)

(** What holds of the threads in every run. *)
Record placed (t : Impl) : Prop := {
  pl_sockets : im_stop t <> HP_Stopped ->
    Socket_valid (im_listener t) = true /\ Socket_valid (wc_receiver (im_wake t)) = true;
  pl_stopping : im_stop t <> HP_Running -> im_stopping t = true;
  pl_signalled : im_stop t <> HP_Running -> im_stop t <> HP_Signal -> im_signalled t = true;
  pl_live live : im_stop t = HP_Release live -> Forall (fun i => (i < length (im_sessions t))%nat) live;
  pl_left workers : im_stop t = HP_JoinWorkers workers -> Forall (fun i => (i < length (im_sessions t))%nat) workers
}.

Lemma seq_below n : Forall (fun i => (i < n)%nat) (seq 0 n).
Proof. apply Forall_forall. intros i Hi. apply elem_of_seq in Hi. lia. Qed.

Lemma placed_at_accept pc os t : placed t -> placed (at_accept pc os t).
Proof. by intros []. Qed.

Lemma placed_sessions seats t :
  (length (im_sessions t) <= length seats)%nat -> placed t -> placed (with_sessions seats t).
Proof.
  intros Hl [H1 H2 H3 H4 H5]. split; [done|done|done| |].
  - intros live Hp. eapply Forall_impl; [by apply H4|]. cbn. lia.
  - intros workers Hp. eapply Forall_impl; [by apply H5|]. cbn. lia.
Qed.

Lemma accept_step_placed actor t t' : accept_step actor t t' -> placed t -> placed t'.
Proof.
  intros Hstep Hp. destruct Hstep; try by apply placed_at_accept.
  apply placed_sessions; [cbn; rewrite length_app; lia|]. by apply placed_at_accept.
Qed.

Lemma session_step_placed actor t t' : session_step actor t t' -> placed t -> placed t'.
Proof.
  intros [? s i seat seat' os Hi _ _ _] Hp. apply placed_sessions; [cbn; by rewrite length_insert|]. by destruct Hp.
Qed.

Lemma stop_step_placed t t' : stop_step t t' -> placed t -> placed t'.
Proof.
  intros Hstep [H1 H2 H3 H4 H5].
  destruct Hstep as [t Hpc|t u1 os1 u2 os2 Hpc _ _|t Hpc|t i live seat seat' os Hpc Hi _|t Hpc|t Hpc _|t i workers seat Hpc _ _
    |t Hpc|t Hpc]; rewrite Hpc in *.
  - split; cbn; [by intros _; apply H1|done|done|done|done].
  - split; cbn; [by intros _; apply H1|by intros _; apply H2|done|done|done].
  - split; cbn; [by intros _; apply H1|by intros _; apply H2|by intros _ _; apply H3| |done].
    intros live [= <-]. apply seq_below.
  - apply placed_sessions; [cbn; by rewrite length_insert|].
    split; cbn; [by intros _; apply H1|by intros _; apply H2|by intros _ _; apply H3| |done].
    intros l [= <-]. by specialize (H4 _ eq_refl) as [_ H4]%Forall_cons.
  - split; cbn; [by intros _; apply H1|by intros _; apply H2|by intros _ _; apply H3|done|done].
  - split; cbn; [by intros _; apply H1|by intros _; apply H2|by intros _ _; apply H3|done|].
    intros workers [= <-]. apply seq_below.
  - split; cbn; [by intros _; apply H1|by intros _; apply H2|by intros _ _; apply H3|done|].
    intros l [= <-]. by specialize (H5 _ eq_refl) as [_ H5]%Forall_cons.
  - split; cbn; [by intros _; apply H1|by intros _; apply H2|by intros _ _; apply H3|done|done].
  - unfold close_service. destruct (close_sessions _ _) as [u os1]. destruct (Socket_Close _ _) as [listener os2].
    destruct (WakeupChannel_Close _ _) as [wake os3].
    split; cbn; [done|by intros _; apply H2|by intros _ _; apply H3|done|done].
Qed.

Lemma step_placed actor t t' : thread_step actor t t' -> placed t -> placed t'.
Proof. intros []; [by eapply accept_step_placed|by eapply session_step_placed|by eapply stop_step_placed]. Qed.

(** The accept thread holds no connection. *)
Definition no_connection (pc : AcceptPc) : bool := match pc with AP_Check | AP_Wait | AP_Done => true | _ => false end.

(** Every session whose thread runs is released, or will be. *)
Definition releasing (t : Impl) : Prop :=
  forall i seat, im_sessions t !! i = Some seat -> se_ended seat = false ->
    match im_stop t with
    | HP_Signal | HP_Snapshot => True
    | HP_Release live => se_signalled seat = true \/ i ∈ live
    | _ => se_signalled seat = true
    end.

Record calm (t : Impl) : Prop := {
  ca_begun : im_stop t <> HP_Running;
  ca_accept : no_connection (im_accept t) = true;
  ca_releasing : releasing t
}.

Definition accept_rank (pc : AcceptPc) : nat := match pc with AP_Done => 0 | _ => 1 end.
Definition stop_rank (n : nat) (pc : StopPc) : nat :=
  match pc with
  | HP_Running => 2 * n + 9
  | HP_Signal => 2 * n + 8
  | HP_Snapshot => 2 * n + 7
  | HP_Release live => n + 6 + length live
  | HP_JoinAccept => n + 5
  | HP_JoinWorkers workers => length workers + 3
  | HP_Close => 1
  | HP_Stopped => 0
  end.
Definition unended (seats : list Seat) : nat := length (filter (fun seat => se_ended seat = false) seats).
Definition work (t : Impl) : nat :=
  accept_rank (im_accept t) + stop_rank (length (im_sessions t)) (im_stop t) + unended (im_sessions t).

Lemma unended_insert i seat seat' seats :
  seats !! i = Some seat -> se_ended seat' = se_ended seat -> unended (<[i := seat']> seats) = unended seats.
Proof.
  intros Hi He. destruct (sessions_split i seat _ Hi) as (l1 & l2 & -> & ->).
  unfold unended. rewrite !filter_app, !filter_cons, He. case_decide; by rewrite !length_app.
Qed.

Lemma unended_end i seat seat' seats :
  seats !! i = Some seat -> se_ended seat = false -> se_ended seat' = true ->
  (unended seats = S (unended (<[i := seat']> seats)))%nat.
Proof.
  intros Hi He He'. destruct (sessions_split i seat _ Hi) as (l1 & l2 & -> & ->). unfold unended.
  rewrite !filter_app, !filter_cons, He, He'. rewrite !decide_True, decide_False by done.
  rewrite !length_app. cbn. lia.
Qed.

Lemma releasing_insert t i seat seat' pc os :
  releasing t -> im_sessions t !! i = Some seat -> se_ended seat' = true \/ se_signalled seat' = true ->
  pc = im_stop t \/ im_stop t = HP_Release (i :: match pc with HP_Release live => live | _ => [] end) /\
    pc = HP_Release (match pc with HP_Release live => live | _ => [] end) ->
  releasing (with_sessions (<[i := seat']> (im_sessions t)) (at_stop pc os t)).
Proof.
  intros Hr Hi Hs Hpc j x. cbn [with_sessions im_sessions at_stop im_stop]. intros Hj Hx.
  destruct (decide (j = i)) as [->|Hne].
  - rewrite list_lookup_insert_eq in Hj by (by eapply lookup_lt_Some). injection Hj as <-.
    destruct Hs as [Hs|Hs]; [congruence|]. destruct pc; try done. by left.
  - rewrite list_lookup_insert_ne in Hj by done. specialize (Hr j x Hj Hx).
    destruct Hpc as [->|[E1 E2]]; [done|]. rewrite E1 in Hr. rewrite E2. destruct Hr as [Hr|Hr]; [by left|].
    apply elem_of_cons in Hr as [Hr|Hr]; [done|by right].
Qed.

Lemma CloseSession_seat seat os seat' os' :
  CloseSession seat os = (seat', os') -> se_ended seat' = true /\ se_wake seat' = se_wake seat.
Proof.
  unfold CloseSession. unfold mbind, Net_bind. destruct (Socket_Shutdown _ _) as [u os1].
  destruct (Socket_Close _ _) as [s os2]. by intros [= <- <-].
Qed.

Lemma release_seat seat os seat' os' :
  release_session seat os = (seat', os') -> se_signalled seat' = true /\ se_ended seat' = se_ended seat.
Proof.
  unfold release_session. unfold mbind, Net_bind. destruct (WakeupChannel_Signal _ _) as [u os1].
  destruct (Socket_Shutdown _ _) as [u2 os2]. by intros [= <- <-].
Qed.

(** A step of the process keeps it calm and leaves less to do. *)
Definition calm_less (t t' : Impl) : Prop := calm t' /\ (work t' < work t)%nat.

Ltac work_less Hpc :=
  unfold work; cbn [im_accept im_stop im_sessions at_accept at_stop with_sessions];
  rewrite Hpc; cbn [accept_rank stop_rank length]; rewrite ?length_seq; lia.

Lemma accept_step_calm t t' : accept_step Own t t' -> placed t -> calm t -> calm_less t t'.
Proof.
  intros Hstep Hp [Hb Ha Hr]. inversion Hstep as [s Hpc|s io status os Hpc Hs Hw| |s answer status os Hpc|s answer c os Hpc
    |s c io pc os Hpc|s c wake Hpc]; subst; rewrite Hpc in Ha; try done.
  - rewrite (pl_stopping _ Hp Hb). split; [by split|]. work_less Hpc.
  - split; [by split|]. work_less Hpc.
Qed.

Lemma session_step_calm t t' : session_step Own t t' -> calm t -> calm_less t t'.
Proof.
  intros Hstep [Hb Ha Hr]. inversion Hstep as [? s i seat seat' os Hi He Hs Hc]; subst.
  apply CloseSession_seat in Hc as [He' _]. split.
  - split; [done|done|]. apply (releasing_insert _ _ seat); [done|done|by left|by left].
  - unfold work. cbn [im_accept im_stop im_sessions at_stop with_sessions].
    rewrite length_insert, (unended_end i seat seat' (im_sessions t)) by done. lia.
Qed.

Lemma stop_step_calm t t' : stop_step t t' -> calm t -> calm_less t t'.
Proof.
  intros Hstep [Hb Ha Hr]. unfold releasing in Hr.
  destruct Hstep as [t Hpc|t u1 os1 u2 os2 Hpc _ _|t Hpc|t i live seat seat' os Hpc Hi Hx|t Hpc|t Hpc _|t i workers seat Hpc _ _
    |t Hpc|t Hpc]; [done| | | | | | | |].
  all: try (split; [split; [done|done|]; intros j x Hj Hx; specialize (Hr j x Hj Hx); rewrite Hpc in Hr; cbn in *
                   |work_less Hpc]).
  - done.
  - right. apply elem_of_seq. apply lookup_lt_Some in Hj. lia.
  - apply release_seat in Hx as [Hs He]. split.
    + split; [done|done|]. apply (releasing_insert _ _ seat); [exact Hr|done|by right|by right].
    + unfold work. cbn [im_accept im_stop im_sessions at_stop with_sessions].
      rewrite length_insert, (unended_insert i seat) by done. rewrite Hpc. cbn [stop_rank length]. lia.
  - by destruct Hr as [Hr|Hr%elem_of_nil].
  - done.
  - done.
  - done.
  - unfold close_service. destruct (close_sessions _ _) as [u os1]. destruct (Socket_Close _ _) as [listener os2].
    destruct (WakeupChannel_Close _ _) as [wake os3]. split; [split; [done|done|]|].
    + intros j x Hj. cbn [im_sessions] in Hj. by rewrite lookup_nil in Hj.
    + unfold work. cbn. rewrite Hpc. cbn. lia.
Qed.

Lemma own_step_calm t t' : own_step t t' -> placed t -> calm t -> calm_less t t'.
Proof.
  intros Hstep Hp Hc. inversion Hstep; subst; [by apply accept_step_calm|by apply session_step_calm|by apply stop_step_calm].
Qed.

(** A calm service that has not stopped has a step of its own to take. *)
Lemma calm_progress t : placed t -> calm t -> im_stop t <> HP_Stopped -> exists t', own_step t t'.
Proof.
  intros Hp [Hb Ha Hr] Hs. unfold releasing in Hr. destruct (pl_sockets t Hp Hs) as [Hl Hw].
  destruct (im_stop t) as [| | |[|i live]| |[|i workers]| |] eqn:Hpc; try done.
  - destruct (WakeupChannel_Signal (im_wake t) (im_os t)) as [u1 os1] eqn:E1.
    destruct (Socket_Shutdown (im_listener t) os1) as [u2 os2] eqn:E2.
    eexists. by eapply TS_stop, HS_signal.
  - eexists. by apply TS_stop, HS_snapshot.
  - eexists. by apply TS_stop, HS_released.
  - pose proof (pl_live t Hp _ Hpc) as [Hi _]%Forall_cons. apply lookup_lt_is_Some in Hi as [seat Hi].
    destruct (release_session seat (im_os t)) as [seat' os] eqn:E. eexists. by eapply TS_stop, HS_release.
  - destruct (im_accept t) eqn:Hacc; try done.
    + eexists. by apply TS_accept, AS_check.
    + assert (im_signalled t = true) as Hsig by (by apply (pl_signalled t Hp); rewrite Hpc).
      eexists. eapply TS_accept, (AS_released t (mkSelectIo 1 false true false)); [done|by rewrite Hsig|].
      unfold WaitReadable. rewrite Hl, Hw. reflexivity.
    + eexists. by apply TS_stop, HS_join_accept.
  - eexists. by apply TS_stop, HS_joined.
  - pose proof (pl_left t Hp _ Hpc) as [Hi _]%Forall_cons. apply lookup_lt_is_Some in Hi as [seat Hi].
    destruct (se_ended seat) eqn:He; [eexists; by eapply TS_stop, HS_join|]. specialize (Hr i seat Hi He).
    destruct (CloseSession seat (im_os t)) as [seat' os] eqn:E. eexists. by eapply TS_session, WS_end.
  - eexists. by apply TS_stop, HS_close.
Qed.

Lemma own_steps_calm n : forall t t', nsteps own_step n t t' -> placed t -> calm t ->
  placed t' /\ calm t' /\ (n + work t' <= work t)%nat.
Proof.
  induction n as [|n IH]; intros t t' H Hp Hc; inversion H as [|? ? s ? H1 H2]; subst; [by split_and!|].
  destruct (own_step_calm _ _ H1 Hp Hc) as [Hc' Hw]. destruct (IH s t' H2 (step_placed _ _ _ H1 Hp) Hc') as (Hp2 & Hc2 & Hw2).
  split_and!; [done|done|lia].
Qed.

Lemma threads_placed t t' : threads_run t t' -> placed t -> placed t'.
Proof. induction 1 as [|t1 t2 t3 [actor H] _ IH]; [done|]. intros Hp. apply IH. by eapply step_placed. Qed.

Lemma Start_placed wake_io listen_io max single os t os' :
  opens os (wi_receiver wake_io) -> opens (sys_open (wi_receiver wake_io) os).2 (wi_sender wake_io) ->
  opens (WakeupChannel_Create wake_io os).2 (li_socket listen_io) ->
  Start_threads wake_io listen_io max single os = (Value t, os') -> placed t.
Proof.
  intros H1 H2 H3. unfold Start_threads. unfold mbind at 1, Net_bind at 1.
  pose proof (Create_sockets os wake_io H1 H2) as Hc.
  destruct (WakeupChannel_Create wake_io os) as [[wake|status] os1]; [|done]. destruct Hc as (Hr & _). cbn [snd] in H3.
  unfold mbind at 1, Net_bind at 1. pose proof (Listen_sockets os1 listen_io H3) as Hl.
  destruct (Listen listen_io os1) as [[[listener port]|status] os2].
  - destruct Hl as [Hl _]. cbn. intros [= <- <-]. split; cbn; [|done|done|done|done]. intros _. split; [done|]. by apply positive_valid.
  - unfold mbind, Net_bind. by destruct (WakeupChannel_Close wake os2).
Qed.

Lemma calm_stops n : forall t, (work t <= n)%nat -> placed t -> calm t ->
  exists t', rtc own_step t t' /\ im_stop t' = HP_Stopped.
Proof.
  induction n as [n IH] using lt_wf_ind. intros t Hn Hp Hc.
  destruct (decide (im_stop t = HP_Stopped)) as [Hs|Hs]; [by exists t; split; [apply rtc_refl|]|].
  destruct (calm_progress t Hp Hc Hs) as [s H]. destruct (own_step_calm _ _ H Hp Hc) as [Hc' Hw].
  destruct (IH (work s) ltac:(lia) s ltac:(done) (step_placed _ _ _ H Hp) Hc') as (t' & Hr & Ht'). exists t'.
  split; [by eapply rtc_l|done].
Qed.

(** What the host may answer to the calls of [Start]. *)
Definition start_ok (os : Os) (wake_io : WakeupIo) (listen_io : ListenIo) : Prop :=
  opens os (wi_receiver wake_io) /\ opens (sys_open (wi_receiver wake_io) os).2 (wi_sender wake_io) /\
  opens (WakeupChannel_Create wake_io os).2 (li_socket listen_io).

(** ** Properties *)



Definition example_os : Os := mkOs {[0; 1; 2]} [].
Definition example_wake : WakeupIo := mkWakeupIo 3 true true 4 true.
Definition example_listen : ListenIo := mkListenIo 5 true true true (Some 7000).

Lemma example_start_ok : start_ok example_os example_wake example_listen.
Proof. split_and!; right; (split; [done|]); apply (bool_decide_eq_true_1 _); vm_compute; reflexivity. Qed.

(** The state after a start, and after [Stop] set its flag. *)
Definition example_started : Impl :=
  mkImpl (Start_threads example_wake example_listen 64 false example_os).2 5 (mkWakeup 3 4) false false []
    AP_Check HP_Running 64 false.
Definition example_stopping : Impl :=
  mkImpl (im_os example_started) 5 (mkWakeup 3 4) false true [] AP_Check HP_Signal 64 false.

Lemma example_start :
  Start_threads example_wake example_listen 64 false example_os = (Value example_started, im_os example_started).
Proof. vm_compute. reflexivity. Qed.

Lemma example_begin : threads_run example_started example_stopping.
Proof. apply rtc_once. exists Own. by apply TS_stop, (HS_begin example_started). Qed.

Lemma example_work : work example_stopping = 9%nat.
Proof. vm_compute. reflexivity. Qed.


Lemma example_stopped : exists t, threads_run example_started t /\ im_stop t = HP_Stopped.
Proof.
  destruct example_start_ok as (H1 & H2 & H3).
  pose proof (threads_placed _ _ example_begin (Start_placed _ _ _ _ _ _ _ H1 H2 H3 example_start)) as Hp.
  destruct (calm_stops (work example_stopping) example_stopping ltac:(done) Hp) as (t & Hr & Ht).
  { split; [done|done|]. intros i seat H. cbn in H. by rewrite lookup_nil in H. }
  exists t. split; [|done]. etransitivity; [exact example_begin|]. eapply rtc_subrel; [|exact Hr]. intros s s' H. by exists Own.
Qed.


(** ** A connection accepted while the service stops *)

(** A session that was not released keeps [Stop] waiting. *)
Lemma unreleased_stuck t seat :
  im_accept t = AP_Done -> im_stop t = HP_JoinWorkers [0%nat] -> im_sessions t = [seat] ->
  se_ended seat = false -> se_signalled seat = false -> forall t', ~ own_step t t'.
Proof.
  intros Ha Hs Hseats He Hsig t' Hstep. inversion Hstep as [? ? ? H|? ? ? H|? ? H]; subst; clear Hstep.
  - inversion H; subst; congruence.
  - inversion H as [? ? i x ? ? Hi Hx Hown _]; subst. rewrite Hseats in Hi. destruct i as [|i]; [|done].
    injection Hi as <-. specialize (Hown eq_refl). congruence.
  - inversion H as [| | | | | |? i workers x Hpc Hi Hx| |]; subst; try congruence. rewrite Hs in Hpc. injection Hpc as <- <-.
    rewrite Hseats in Hi. injection Hi as <-. congruence.
Qed.

(** The descriptors when the connection is accepted, when [Stop] has signalled, when it is seated. *)
Definition race_os0 : Os := im_os example_started.
Definition race_os1 : Os := (Accept 5 6 race_os0).2.
Definition race_os2 : Os := (Socket_Shutdown 5 (WakeupChannel_Signal (mkWakeup 3 4) race_os1).2).2.
Definition late_wake : WakeupIo := mkWakeupIo 7 true true 8 true.
Definition race_os3 : Os := (admit_connection 0 64 6 late_wake race_os2).2.

Definition running (os : Os) (accept : AcceptPc) : Impl :=
  mkImpl os 5 (mkWakeup 3 4) false false [] accept HP_Running 64 false.
Definition stopping (os : Os) (seats : list Seat) (accept : AcceptPc) (stop : StopPc) : Impl :=
  mkImpl os 5 (mkWakeup 3 4) true true seats accept stop 64 false.
Definition late_seat : Seat := mkSeat 6 (mkWakeup 7 8) false false.

Lemma race_accepts : threads_run example_started (running race_os1 (AP_Admit 6)).
Proof.
  apply (rtc_l _ _ (running race_os0 AP_Wait)); [exists Own; exact (TS_accept _ _ _ (AS_check example_started eq_refl))|].
  apply (rtc_l _ _ (running race_os0 AP_Accept)).
  { exists Peer. apply TS_accept. by apply (AS_ready (running race_os0 AP_Wait) (mkSelectIo 1 false false true)). }
  apply rtc_once. exists Own. apply TS_accept. apply (AS_accepted (running race_os0 AP_Accept) 6); [done| |done].
  right. split; [done|]. apply (bool_decide_eq_true_1 _). vm_compute. reflexivity.
Qed.

Lemma race_stops : threads_run (running race_os1 (AP_Admit 6)) (stopping race_os2 [] (AP_Admit 6) HP_JoinAccept).
Proof.
  set (begun := mkImpl race_os1 5 (mkWakeup 3 4) false true [] (AP_Admit 6) HP_Signal 64 false).
  apply (rtc_l _ _ begun); [exists Own; exact (TS_stop _ _ (HS_begin (running race_os1 (AP_Admit 6)) eq_refl))|].
  apply (rtc_l _ _ (stopping race_os2 [] (AP_Admit 6) HP_Snapshot)).
  { exists Own. apply TS_stop. by apply (HS_signal begun tt (WakeupChannel_Signal (mkWakeup 3 4) race_os1).2 tt). }
  apply (rtc_l _ _ (stopping race_os2 [] (AP_Admit 6) (HP_Release []))).
  { exists Own. exact (TS_stop _ _ (HS_snapshot (stopping race_os2 [] (AP_Admit 6) HP_Snapshot) eq_refl)). }
  apply rtc_once. exists Own. exact (TS_stop _ _ (HS_released (stopping race_os2 [] (AP_Admit 6) (HP_Release [])) eq_refl)).
Qed.

Lemma race_seats :
  threads_run (stopping race_os2 [] (AP_Admit 6) HP_JoinAccept) (stopping race_os3 [late_seat] AP_Done (HP_JoinWorkers [0%nat])).
Proof.
  apply (rtc_l _ _ (stopping race_os3 [] (AP_Push 6 (mkWakeup 7 8)) HP_JoinAccept)).
  { exists Own. apply TS_accept. apply (AS_admit (stopping race_os2 [] (AP_Admit 6) HP_JoinAccept) 6 late_wake); [done| | |].
    1-2: right; (split; [done|]); apply (bool_decide_eq_true_1 _); vm_compute; reflexivity. vm_compute. reflexivity. }
  apply (rtc_l _ _ (stopping race_os3 [late_seat] AP_Check HP_JoinAccept)).
  { exists Own. exact (TS_accept _ _ _ (AS_push (stopping race_os3 [] (AP_Push 6 (mkWakeup 7 8)) HP_JoinAccept) _ _ eq_refl)). }
  apply (rtc_l _ _ (stopping race_os3 [late_seat] AP_Done HP_JoinAccept)).
  { exists Own. exact (TS_accept _ _ _ (AS_check (stopping race_os3 [late_seat] AP_Check HP_JoinAccept) eq_refl)). }
  apply rtc_once. exists Own.
  exact (TS_stop _ _ (HS_join_accept (stopping race_os3 [late_seat] AP_Done HP_JoinAccept) eq_refl eq_refl)).
Qed.

(** [Stop] may wait for a peer: when a connection is accepted before the flag is set and seated
    after the list was copied, its session is released by nobody; [Stop] then waits for its
    thread, and no thread of the process has a step to take until the peer acts. *)
Theorem stop_misses_connection :
  exists t, threads_run example_started t /\ im_stop t = HP_JoinWorkers [0%nat] /\ im_stopping t = true /\
    forall t', ~ own_step t t'.
Proof.
  exists (stopping race_os3 [late_seat] AP_Done (HP_JoinWorkers [0%nat])). split; [|split; [done|split; [done|]]].
  - etransitivity; [exact race_accepts|]. etransitivity; [exact race_stops|exact race_seats].
  - by apply (unreleased_stuck _ late_seat).
Qed.
