(* ===== verification/Worker.v ===== *)
(** * The multiprocess worker (tools/fabric_reconcile_worker.cpp)

    A process that drives one reconciliation and can end itself, without unwinding, at a named
    durable boundary.  It runs in the same process model as the command line. *)

From Stdlib Require Import ZArith Lia.
From stdpp Require Import prelude.
From S2P Require Import Prelude OrdMap Hash Status Identity Canonical Value Policy Document Drift.
From S2P Require Import Authority Plan Lineage Journal Snapshot StoreState Store Engine Planner.
From S2P Require Import Lifecycle Wire WireOps Render Server Json DocumentJson Cli.
Local Open Scope Z_scope.

(** ** Ends of the process *)

Definition complain (text : bytes) : Cmd unit := fun p =>
  Some (Goes tt, mkProcess (pc_engine p) (pc_out p) (pc_err p ++ text ++ newline) (pc_written p)).

(** Models [Die], tools/fabric_reconcile_worker.cpp:28-31. *)
Definition Die {A} (message : bytes) (code : Z) : Cmd A := _ ← complain message; return_code code.

(** Models [HardExit], tools/fabric_reconcile_worker.cpp:35-38: what was durable is what remains. *)
Definition HardExit {A} (code : Z) : Cmd A := return_code code.

(** An engine call whose failure ends the process with a text and a code. *)
Definition or_exit {A} (what : bytes) (code : Z) (r : Result A) : Cmd A :=
  match r with
  | Value a => mret a
  | Failed status => _ ← complain (what ++ B " failed: " ++ c_str (Status_ToString status)); return_code code
  end.

(** The sum of two [long]s, undefined when it overflows. *)
Definition signed_sum (x y : Z) : Cmd Z := fun p => if i64 (x + y) then Some (Goes (x + y), p) else None.

Definition or_die {A} (message : bytes) (code : Z) (r : Result A) : Cmd A :=
  match r with Value a => mret a | Failed _ => Die message code end.

(** Models [Arguments], tools/fabric_reconcile_worker.cpp:40-49. *)
Record Arguments := mkArguments {
  ar_store : bytes;
  ar_mode : bytes;
  ar_scope : bytes;
  ar_kill_at : bytes;
  ar_subjects : Z;
  ar_seed : Z;
  ar_now : Z;
  ar_verbose : bool
}.

Definition arguments_new : Arguments := mkArguments [] [] (B "fabric/rack-7") [] 8 1 1000 false.

(** Models [main], tools/fabric_reconcile_worker.cpp:68-74: the options that take a value; [strtol]
    is on 64 bits. *)
Definition set_argument (a : Arguments) (token value : bytes) : option Arguments :=
  let is_ name := bool_decide (token = name) in
  if is_ (B "--store") then
    Some (mkArguments value (ar_mode a) (ar_scope a) (ar_kill_at a) (ar_subjects a) (ar_seed a) (ar_now a) (ar_verbose a))
  else if is_ (B "--mode") then
    Some (mkArguments (ar_store a) value (ar_scope a) (ar_kill_at a) (ar_subjects a) (ar_seed a) (ar_now a) (ar_verbose a))
  else if is_ (B "--scope") then
    Some (mkArguments (ar_store a) (ar_mode a) value (ar_kill_at a) (ar_subjects a) (ar_seed a) (ar_now a) (ar_verbose a))
  else if is_ (B "--kill-at") then
    Some (mkArguments (ar_store a) (ar_mode a) (ar_scope a) value (ar_subjects a) (ar_seed a) (ar_now a) (ar_verbose a))
  else if is_ (B "--subjects") then
    Some (mkArguments (ar_store a) (ar_mode a) (ar_scope a) (ar_kill_at a) (strtoll value) (ar_seed a) (ar_now a) (ar_verbose a))
  else if is_ (B "--seed") then
    Some (mkArguments (ar_store a) (ar_mode a) (ar_scope a) (ar_kill_at a) (ar_subjects a) (strtoll value) (ar_now a) (ar_verbose a))
  else if is_ (B "--now") then
    Some (mkArguments (ar_store a) (ar_mode a) (ar_scope a) (ar_kill_at a) (ar_subjects a) (ar_seed a) (strtoll value) (ar_verbose a))
  else None.

Definition set_verbose (a : Arguments) : Arguments :=
  mkArguments (ar_store a) (ar_mode a) (ar_scope a) (ar_kill_at a) (ar_subjects a) (ar_seed a) (ar_now a) true.

(** Models [main], tools/fabric_reconcile_worker.cpp:66-77: the loop over the arguments, with
    [Require] (lines 51-56) for a missing value. *)
Fixpoint parse_arguments (a : Arguments) (raw : list bytes) : Cmd Arguments :=
  match raw with
  | [] => mret a
  | token :: rest =>
    match set_argument a token [] with
    | Some _ =>
      match rest with
      | [] => Die (B "missing value for argument") 2
      | value :: rest => parse_arguments (default a (set_argument a token value)) rest
      end
    | None =>
      if bool_decide (token = B "--verbose") then parse_arguments (set_verbose a) rest
      else Die (B "unknown argument") 2
    end
  end.

(** ** The documents of the worker *)

(** Models [build_subject], tools/fabric_reconcile_worker.cpp:96-98. *)
Definition build_subject (index : Z) : bytes := B "node/n" ++ to_string index ++ B "/port/eth0".

Definition observed_mtu (index : Z) : Z := if Z.rem index 3 =? 0 then 1500 else 9000.

(** Models [main], tools/fabric_reconcile_worker.cpp:114-123: the loop that declares the subjects;
    a name that is no identity ends the process. *)
Fixpoint fill_subjects {V} (make : bytes -> Z -> V) (n : nat) (index : Z) (filled : list (bytes * V))
  : Cmd (list (bytes * V)) :=
  match n with
  | O => mret filled
  | S n =>
    match StringId_TryParse (build_subject index) with
    | None => Die (B "invalid subject") 2
    | Some subject =>
      fill_subjects make n (index + 1) (default filled (om_emplace subject (make subject index) filled))
    end
  end.

Definition declared_subject (subject : bytes) (_ : Z) : SubjectIntent := mkSubjectIntent subject true (mtu 9000).
Definition observed_subject (subject : bytes) (index : Z) : SubjectObservation :=
  mkSubjectObservation subject true (mtu (observed_mtu index)).

Section Worker.
Variable w : World.
Variable a : Arguments.

Definition worker_intent (id : bytes) (scope : bytes) (subjects : list (bytes * SubjectIntent)) : IntentDocument :=
  mkIntent id scope (B "definition/worker") 1 1 EC_Synthetic true subjects zero_digest.
Definition worker_submission (id : bytes) (scope : bytes) (generation : Z) (subjects : list (bytes * SubjectObservation))
  : ObservationSubmission :=
  mkSubmission id scope (B "reporter/worker") generation EC_Synthetic true true subjects.

(** ** Modes *)

(** Models [main], tools/fabric_reconcile_worker.cpp:100-133. *)
Definition mode_seed (scope : bytes) : Cmd Z :=
  subjects ← fill_subjects declared_subject (Z.to_nat (ar_subjects a)) 0 [];
  r ← engine_call (Engine_CommitIntent (wd_host w 1) (worker_intent (B "intent/worker-seed") scope subjects));
  '(_, result) ← or_exit (B "commit intent") 4 r;
  _ ← print (B "seeded subjects=" ++ to_string (ar_subjects a) ++ B " digest=" ++ ToHex (ic_digest result) ++ newline);
  mret 0.

(** Models [main], tools/fabric_reconcile_worker.cpp:135-168; the generation is the default one. *)
Definition mode_observe (scope : bytes) : Cmd Z :=
  subjects ← fill_subjects observed_subject (Z.to_nat (ar_subjects a)) 0 [];
  r ← engine_call (RecordObservationAt (wd_host w 1) (worker_submission (B "observation/worker/1") scope 0 subjects) (ar_now a));
  _ ← or_exit (B "record observation") 5 r;
  epoch ← engine_read Engine_epoch;
  _ ← print (B "observed subjects=" ++ to_string (ar_subjects a) ++ B " epoch=" ++ to_string epoch ++ newline);
  mret 0.

(** A named boundary at which the process may end itself. *)
Definition boundary (name : bytes) (code : Z) : Cmd unit :=
  if bool_decide (ar_kill_at a = name) then HardExit code else mret tt.

(** Models [main], tools/fabric_reconcile_worker.cpp:181-217: from the plan to the completion of the
    first action, as both modes do it; [on_failure] is how a refused completion ends. *)
Definition reconcile_plan (dispatch_call complete_call : nat) (plan : ReconciliationPlan)
    (on_failure : forall A, Result A -> Cmd A) : Cmd Z :=
  _ ← boundary (B "before_dispatch") 70;
  dispatched ← engine_call (Engine_Dispatch (wd_host w dispatch_call) plan);
  dispatched ← or_exit (B "dispatch") 7 dispatched;
  _ ← print (B "dispatched=" ++ to_string (blen (di_intents dispatched)) ++ newline);
  match di_intents dispatched with
  | [] => mret 0
  | front :: _ =>
    _ ← boundary (B "after_dispatch_before_ack") 71;
    epoch ← engine_read Engine_epoch;
    boot ← engine_read Engine_boot;
    at_unix_ms ← signed_sum (ar_now a) 10;
    _ ← boundary (B "before_completion_commit") 72;
    completed ← engine_call (Engine_Complete (wd_host w complete_call)
      (mkCompletion (ai_attempt front) epoch boot (ai_idempotency_key front) AS_Applied
         at_unix_ms RC_None []));
    outcome ← on_failure _ completed;
    _ ← print (B "applied attempt=" ++ to_string (oc_attempt outcome) ++ newline);
    _ ← boundary (B "after_apply_before_verify") 73;
    mret 0
  end.

Definition print_plan (plan : ReconciliationPlan) : Cmd unit :=
  print (B "plan id=" ++ c_str (pl_plan_id plan) ++ B " verdict=" ++ ConvergenceVerdict_ToText (pl_verdict plan) ++
         B " actions=" ++ to_string (MutationCount plan) ++ newline).

(** Models [main], tools/fabric_reconcile_worker.cpp:170-218. *)
Definition mode_reconcile (scope : bytes) : Cmd Z :=
  plan ← engine_call (Engine_Plan (wd_host w 1) (mkPlanRequest scope None (ar_now a) false));
  plan ← or_exit (B "plan") 6 plan;
  _ ← print_plan plan;
  reconcile_plan 2 3 plan (fun A => or_exit (B "complete") 8).

(** Models [main], tools/fabric_reconcile_worker.cpp:270-282: the generation after the newest the
    worker reported. *)
Definition next_generation (retained : list ObservationDocument) : Z :=
  foldl (fun generation document =>
           if negb (bool_decide (ob_reporter document = B "reporter/worker")) then generation
           else let next := wrap 64 (ob_generation document + 1) in
                if generation <? next then next else generation) 1 retained.

(** Models [main], tools/fabric_reconcile_worker.cpp:220-336. *)
Definition mode_scenario (scope : bytes) : Cmd Z :=
  declared ← fill_subjects declared_subject (Z.to_nat (ar_subjects a)) 0 [];
  seen ← fill_subjects observed_subject (Z.to_nat (ar_subjects a)) 0 [];
  committed ← engine_call (Engine_CommitIntent (wd_host w 1) (worker_intent (B "intent/worker-scenario") scope declared));
  _ ← or_die (B "scenario intent commit failed") 4 committed;
  retained ← engine_read (fun e => ObservationEvidence e scope);
  recorded ← engine_call (RecordObservationAt (wd_host w 2)
    (worker_submission (B "observation/worker/scenario") scope (next_generation retained) seen) (ar_now a));
  _ ← or_die (B "scenario observation failed") 5 recorded;
  plan ← engine_call (Engine_Plan (wd_host w 3) (mkPlanRequest scope None (ar_now a) false));
  plan ← or_exit (B "plan") 6 plan;
  _ ← print_plan plan;
  _ ← boundary (B "before_plan") 69;
  reconcile_plan 4 5 plan (fun A => or_die (B "scenario completion failed") 8).

(** Models [main], tools/fabric_reconcile_worker.cpp:338-356. *)
Definition mode_report (scope : bytes) : Cmd Z :=
  report ← engine_read en_boot_report;
  _ ← print (c_str (RenderBootReportText report));
  attempts ← engine_read (fun e => Engine_Attempts e scope);
  _ ← print (concat (map (fun attempt => c_str (RenderAttemptText attempt)) attempts));
  outcomes ← engine_read (fun e => Engine_Outcomes e scope);
  _ ← print (concat (map (fun outcome =>
        B "outcome attempt=" ++ to_string (oc_attempt outcome) ++ B " state=" ++
        AttemptState_ToText (oc_terminal_state outcome) ++ B " verified=" ++ yes_no (oc_verified outcome) ++
        B " ambiguous=" ++ yes_no (oc_ambiguous outcome) ++ newline) outcomes));
  mret 0.

(** Models [main], tools/fabric_reconcile_worker.cpp:358-366. *)
Definition mode_compact : Cmd Z :=
  r ← engine_call (Engine_Compact (wd_host w 1));
  _ ← or_exit (B "compact") 9 r;
  _ ← print (B "compacted" ++ newline);
  mret 0.
End Worker.

(** The engine of the worker; a failure to open it is exit code 3. *)
Definition worker_open (w : World) (a : Arguments) : Cmd unit := fun p =>
  match Engine_Open (wd_host w 0) (wd_boot w) (cli_engine_options (ar_store a)) (wd_disk w (ar_store a)) with
  | Failed status => (_ ← complain (B "open failed: " ++ c_str (Status_ToString status)); return_code 3) p
  | Value e => Some (Goes tt, mkProcess (Some e) (pc_out p) (pc_err p) (pc_written p))
  end.

(** Models [main], tools/fabric_reconcile_worker.cpp:78-369: what follows the arguments. *)
Definition worker_run (w : World) (a : Arguments) : Cmd Z :=
  if is_empty (ar_store a) || is_empty (ar_mode a) then Die (B "--store and --mode are required") 2
  else
    _ ← worker_open w a;
    match StringId_TryParse (ar_scope a) with
    | None => Die (B "invalid scope") 2
    | Some scope =>
      let is_ name := bool_decide (ar_mode a = name) in
      if is_ (B "seed") then mode_seed w a scope
      else if is_ (B "observe") then mode_observe w a scope
      else if is_ (B "reconcile") then mode_reconcile w a scope
      else if is_ (B "scenario") then mode_scenario w a scope
      else if is_ (B "report") then mode_report scope
      else if is_ (B "compact") then mode_compact w
      else Die (B "unknown mode") 2
    end.

(** Models [main], tools/fabric_reconcile_worker.cpp:60-369: a run of the worker. *)
Definition worker_main (w : World) (raw : list bytes) : option (Flow Z * Process) :=
  (arguments ← parse_arguments arguments_new raw; worker_run w arguments) process_new.
