(* ===== verification/WorkerSafety.v ===== *)
(** * What the worker leaves at each of its boundaries

    The worker ends itself with a code of its own at each durable boundary.  The theorem relates
    the code to the lineage the store then holds: nothing issued, an attempt dispatched and not
    heard of, or an attempt applied. *)

From Stdlib Require Import ZArith Lia.
From stdpp Require Import prelude.
From S2P Require Import Prelude OrdMap Hash Status Identity Canonical Value Policy Document Drift.
From S2P Require Import Authority Plan Lineage Journal Snapshot StoreState Store Engine Planner.
From S2P Require Import Lifecycle EngineRuns EngineSafety EngineGuards Wire WireOps Render Server ServerSafety.
From S2P Require Import Json DocumentJson Cli CliSafety Worker.
Local Open Scope Z_scope.

(** ** Requests that issue nothing *)

Definition same_attempts (s s' : DurableState) : Prop :=
  ds_attempts s' = ds_attempts s /\ ds_next_attempt s' = ds_next_attempt s.

(** An operation that keeps a sound engine sound and its attempts as they are. *)
Definition quiet {A} (m : Op A) (e : Engine) : Prop :=
  engine_ok (m e).2 /\ same_attempts (en_state e) (en_state (m e).2).

Lemma same_attempts_trans s1 s2 s3 : same_attempts s1 s2 -> same_attempts s2 s3 -> same_attempts s1 s3.
Proof. intros [H1 H2] [H3 H4]. split; congruence. Qed.

Lemma quiet_bind {A C} (m : Op A) (f : A -> Op C) e :
  quiet m e -> (forall a e1, engine_ok e1 -> quiet (f a) e1) -> quiet (m ≫= f) e.
Proof.
  intros [Hok Hs] Hf. unfold quiet, mbind, Op_bind. destruct (m e) as [[a|status] e1]; [|done].
  destruct (Hf a e1 Hok) as [Hok2 Hs2]. split; [done|]. by eapply same_attempts_trans.
Qed.

Lemma quiet_count {field n} e : engine_ok e -> quiet (count_stat field n) e.
Proof. intros Hok. split; [|done]. eapply engine_ok_evolves; [exact Hok|apply evolves_count_stat]. Qed.

Lemma quiet_ret {A} (a : A) e : engine_ok e -> quiet (mret a) e.
Proof. done. Qed.

Lemma quiet_compact host e : engine_ok e -> quiet (MaybeCompactLocked host) e.
Proof.
  intros Hok. destruct (MaybeCompactLocked_state host e Hok) as (_ & _ & Hst). apply compacted_fields in Hst as (Ha & _ & Hn & _).
  split; [|done]. eapply engine_ok_evolves; [exact Hok|by apply evolves_MaybeCompactLocked].
Qed.

Lemma mutate_quiet host event e :
  engine_ok e -> event_typed (en_limits e) event = true ->
  same_attempts (en_state e) (apply_event (en_limits e) event (en_state e)) -> quiet (mutate host event) e.
Proof.
  intros Hok Ht Hs. pose proof (mutate_spec host event e Hok Ht) as H. unfold quiet.
  destruct (mutate host event e) as [[u|status] e1] eqn:Em; destruct H as [Hf H]; cbn [snd].
  - destruct (mutate_commits host event e u e1 Hok Ht Em) as (Hok1 & _ & n & ->). by split.
  - split; [|by rewrite H]. apply (engine_ok_frame e); [done|done|]. rewrite H. by destruct Hok as (_ & _ & ? & _).
Qed.

Create HintDb quiet.
#[local] Hint Resolve quiet_count quiet_ret quiet_compact : quiet.
Ltac quiet_rest := repeat (apply quiet_bind; [auto with quiet|intros ? ? ?]); auto with quiet.

Lemma check_bind {A} status (f : unit -> Op A) e :
  (check status ≫= f) e = if Status_ok status then f tt e else (Failed status, e).
Proof. unfold check, mbind, Op_bind. by destruct (Status_ok status). Qed.

Lemma CommitIntent_quiet host document e :
  engine_ok e -> intent_typed (en_limits e) document = true -> quiet (Engine_CommitIntent host document) e.
Proof.
  intros Hok Ht. unfold quiet, Engine_CommitIntent. rewrite writable_bind. destruct (st_read_only _); [done|].
  rewrite get_bind, check_bind. destruct (Status_ok _); [|done]. cbv zeta.
  set (commit := mutate host _ ≫= _). assert (quiet commit e) as Hc.
  { apply quiet_bind; [by apply mutate_quiet|]. intros u e1 Hok1. quiet_rest. }
  clearbody commit. fold (quiet (A := Status * IntentCommitResult)). destruct (om_find _ _) as [existing|]; [|exact Hc].
  destruct (_ <? _); [done|]. destruct (_ =? _); [|exact Hc]. destruct (bool_decide _); [exact (quiet_count e Hok)|].
  exact (quiet_count e Hok).
Qed.

Lemma RecordObservation_quiet host submission now e :
  host_typed host = true -> engine_ok e -> submission_wf (en_limits e) submission = true -> i64 now = true ->
  quiet (RecordObservationAt host submission now) e.
Proof.
  intros Hh Hok Ht Hn. unfold quiet, RecordObservationAt. rewrite writable_bind. destruct (st_read_only _); [done|].
  rewrite get_bind, check_bind. destruct (Status_ok _); [|done]. cbv zeta.
  set (received := if now =? 0 then _ else _). assert (i64 received = true) as Hr.
  { unfold received, host_typed in *. bool_hyps. by destruct (now =? 0). }
  destruct (scan_stream _ _ _) as [retained| |highest]; [exact (quiet_count e Hok)|done|].
  destruct (match highest with Some _ => _ | None => _ end); [done|].
  apply quiet_bind; [|intros u e1 Hok1; quiet_rest]. apply mutate_quiet; [done| |done].
  cbn [event_typed]. apply stamp_wf; try done. by destruct Hok as (_ & _ & _ & ? & _).
Qed.

(** ** The documents of the worker *)

(** Sorted subjects with valid identities, however many. *)
Definition subjects_typed {V} (entry_wf : bytes * V -> bool) (subjects : list (bytes * V)) : Prop :=
  om_sorted subjects = true /\ Forall (fun entry => entry_wf entry = true) subjects.

Lemma typed_subjects_wf {V} (entry_wf : bytes * V -> bool) subjects :
  subjects_typed entry_wf subjects -> blen subjects <= max_subjects_per_document default_limits ->
  subjects_wf default_limits entry_wf subjects = true.
Proof.
  intros [Hs Hw] Hl. unfold subjects_wf. rewrite Hs, (proj2 (Z.leb_le _ _)), (proj2 (forallb_Forall _ _)) by done.
  rewrite (proj2 (Z.ltb_lt _ _)); [done|]. change (max_subjects_per_document default_limits) with 4000000 in Hl. lia.
Qed.

Lemma declared_wf subject index :
  IsValidIdentityText subject = true ->
  subject_intent_wf default_limits (subject, declared_subject subject index) = true.
Proof. intros H. unfold subject_intent_wf. cbn. by rewrite H, bool_decide_eq_true_2. Qed.

Lemma observed_wf subject index :
  IsValidIdentityText subject = true ->
  subject_observation_wf default_limits (subject, observed_subject subject index) = true.
Proof.
  intros H. unfold subject_observation_wf, observed_subject, observed_mtu. cbn [fst snd so_id so_observed].
  rewrite H, bool_decide_eq_true_2 by done. by destruct (_ =? 0).
Qed.

Definition served_quietly (e e' : Engine) : Prop := served e e' /\ same_attempts (en_state e) (en_state e').

Lemma commit_served host id scope subjects e :
  host_typed host = true -> engine_ok e -> en_limits e = default_limits ->
  IsValidIdentityText id = true -> IsValidIdentityText scope = true ->
  subjects_typed (subject_intent_wf default_limits) subjects ->
  served_quietly e (Engine_CommitIntent host (worker_intent id scope subjects) e).2.
Proof.
  intros Hh Hok Hl Hi Hsc Hs. destruct (Z.leb_spec (blen subjects) (max_subjects_per_document default_limits)) as [Hn|Hn].
  - assert (intent_typed (en_limits e) (worker_intent id scope subjects) = true) as Ht.
    { rewrite Hl. unfold intent_typed, intent_wf. cbn [with_intent_digest worker_intent in_intent in_scope in_definition
        in_generation in_policy_version in_subjects in_digest]. rewrite Hi, Hsc, (typed_subjects_wf _ _ Hs Hn).
      by rewrite bool_decide_eq_true_2. }
    split; [by apply (served_call host (RQ_CommitIntent (worker_intent id scope subjects)))|].
    by apply CommitIntent_quiet.
  - unfold Engine_CommitIntent. rewrite writable_bind. destruct (st_read_only _); [by split; [apply rtc_refl|]|].
    rewrite get_bind, check_bind. replace (Status_ok _) with false; [by split; [apply rtc_refl|]|].
    unfold ValidateIntent. destruct (_ || _); [done|]. rewrite Hl. cbn [worker_intent in_subjects].
    by rewrite (proj2 (Z.ltb_lt _ _)).
Qed.

Lemma record_served host id scope generation subjects now e :
  host_typed host = true -> engine_ok e -> en_limits e = default_limits -> i64 now = true ->
  IsValidIdentityText id = true -> IsValidIdentityText scope = true -> u64 generation = true ->
  subjects_typed (subject_observation_wf default_limits) subjects ->
  served_quietly e (RecordObservationAt host (worker_submission id scope generation subjects) now e).2.
Proof.
  intros Hh Hok Hl Hnow Hi Hsc Hg Hs. set (submission := worker_submission _ _ _ _).
  destruct (Z.leb_spec (blen subjects) (max_subjects_per_document default_limits)) as [Hn|Hn].
  - assert (submission_wf (en_limits e) submission = true) as Ht.
    { rewrite Hl. unfold submission_wf. cbn [submission worker_submission su_observation su_scope su_reporter
        su_generation su_subjects]. by rewrite Hi, Hsc, Hg, (typed_subjects_wf _ _ Hs Hn). }
    split; [|by apply RecordObservation_quiet].
    apply (served_call host (RQ_RecordObservation submission now)); [done|done| |done]. cbn [request_ok]. by rewrite Ht.
  - unfold RecordObservationAt. rewrite writable_bind. destruct (st_read_only _); [by split; [apply rtc_refl|]|].
    rewrite get_bind, check_bind. replace (Status_ok _) with false; [by split; [apply rtc_refl|]|].
    unfold ValidateSubmission. destruct (_ || _); [done|]. rewrite Hl. cbn [submission worker_submission su_subjects].
    by rewrite (proj2 (Z.ltb_lt _ _)).
Qed.

Lemma next_generation_u64 retained : u64 (next_generation retained) = true.
Proof.
  unfold next_generation. set (step := fun generation document => _).
  assert (forall g, u64 g = true -> u64 (foldl step g retained) = true) as H; [|by apply H].
  induction retained as [|d retained IH]; intros g Hg; [done|]. cbn [foldl]. apply IH. unfold step.
  destruct (negb _); [done|]. cbv zeta. destruct (_ <? _); [apply wrap_u64|done].
Qed.

(** ** Triples of the worker *)

(** The engine holds an attempt of its own epoch of which [P] holds. *)
Definition holds_attempt (P : AttemptRecord -> Prop) (e : Engine) : Prop :=
  exists a, om_find (at_id a) (ds_attempts (en_state e)) = Some a /\ at_epoch a = en_live_epoch e /\ P a.

Section Exits.
Variable w : World.

(** What each exit code says of the store. *)
Record worker_exit (code : Z) (p : Process) : Prop := {
  we_legal : legal w p;
  we_before : code = 69 \/ code = 70 ->
    opened_attempts w p /\ forall e, pc_engine p = Some e -> all_terminal e;
  we_issued : code = 71 \/ code = 72 ->
    exists e, pc_engine p = Some e /\ holds_attempt (fun a => at_state a = AS_Dispatched) e /\
      only_dispatched (en_state e);
  we_applied : code = 73 -> exists e, pc_engine p = Some e /\ holds_attempt (fun a => at_state a = AS_Applied) e
}.

Lemma t_complain {P} `{!Settled w P} E text : ends w E P (complain text) (fun _ => P).
Proof. intros p r p' Hp [= <- <-]. by apply (settled_engine w p). Qed.

Section Plain.
Context {P : Process -> Prop} `{!Settled w P} (code : Z) (Hcode : code < 69).

Lemma t_code {A} (Q : A -> Process -> Prop) : ends w worker_exit P (return_code code) Q.
Proof. intros p r p' Hp [= <- <-]. split; [by apply (settled_legal w)|lia|lia|lia]. Qed.

Lemma t_die {A} message (Q : A -> Process -> Prop) : ends w worker_exit P (Die message code) Q.
Proof. eapply t_bind; [apply t_complain|]. intros []. apply t_code. Qed.

Lemma t_or_exit {A} what (r : Result A) : ends w worker_exit P (or_exit what code r) (fun a p => P p /\ r = Value a).
Proof. destruct r; [by apply t_ret|]. eapply t_bind; [apply t_complain|]. intros []. apply t_code. Qed.

Lemma t_or_die {A} what (r : Result A) : ends w worker_exit P (or_die what code r) (fun a p => P p /\ r = Value a).
Proof. destruct r; [by apply t_ret|]. apply t_die. Qed.
End Plain.

Lemma t_sum {P} E x y : ends w E P (signed_sum x y) (fun z p => P p /\ z = x + y /\ i64 z = true).
Proof. intros p r p' Hp. unfold signed_sum. destruct (i64 (x + y)) eqn:Ei; [|done]. by intros [= <- <-]. Qed.

(** A boundary: what holds there must give what its code says. *)
Lemma t_boundary {P} a name code :
  (forall p, P p -> worker_exit code p) -> ends w worker_exit P (boundary a name code) (fun _ => P).
Proof.
  intros H. unfold boundary. destruct (bool_decide _); [|by apply t_ret]. intros p r p' Hp [= <- <-]. by apply H.
Qed.

Lemma t_fill {P} `{!Settled w P} {V} make (entry_wf : bytes * V -> bool) n : forall index filled,
  (forall subject index, IsValidIdentityText subject = true -> entry_wf (subject, make subject index) = true) ->
  subjects_typed entry_wf filled ->
  ends w worker_exit P (fill_subjects make n index filled) (fun l p => P p /\ subjects_typed entry_wf l).
Proof.
  induction n as [|n IH]; intros index filled Hm Hf; [by apply t_ret|]. cbn [fill_subjects].
  destruct (StringId_TryParse _) as [subject|] eqn:Es; [|apply t_die; first [apply _|done]]. apply IH; [done|].
  unfold om_emplace. destruct (om_find _ _); [done|]. cbn [default]. destruct Hf as [Hs Hw].
  split; [by apply om_sorted_insert|]. apply om_insert_Forall; [|done]. apply Hm. by eapply TryParse_valid.
Qed.
End Exits.

(** ** Completion *)

(** A completion that is accepted leaves its attempt applied. *)
Lemma Complete_applies host request e o e' :
  host_typed host = true -> engine_ok e -> completion_typed request = true -> cq_target request = AS_Applied ->
  Engine_Complete host request e = (Value o, e') -> holds_attempt (fun a => at_state a = AS_Applied) e'.
Proof.
  intros Hh Hok Ht Htgt. unfold Engine_Complete. rewrite writable_bind. destruct (st_read_only _); [done|].
  rewrite get_bind. destruct (om_find _ _) as [a0|] eqn:Ef; [|done]. destruct (negb _); [done|].
  destruct (negb (live e (cq_epoch request) _)); [done|]. destruct (live e (at_epoch a0) _) eqn:Elive; [|done]. cbn [negb].
  destruct (IsTerminalAttemptState (at_state a0)) eqn:Eterm; [done|].
  destruct (TransitionLegal (at_state a0) (cq_target request)) eqn:Eleg; [|done]. cbn [negb]. cbv zeta. rewrite Htgt in *.
  set (now := if cq_at_unix_ms request =? 0 then _ else _). set (reason := if cq_reason request =? RC_None then _ else _).
  set (a' := advance e a0 AS_Applied now reason RC_None). unfold completion_typed, host_typed in *. bool_hyps.
  assert (durable_wf (en_limits e) (en_state e) = true) as Hwf by (by destruct Hok as (_ & _ & ? & _)).
  destruct (attempt_found _ _ _ _ Hwf Ef) as [Hid Ha0].
  assert (attempt_wf (en_limits e) a' = true) as Ha'.
  { apply advance_wf; try done; [unfold now; by destruct (_ =? 0)|]. unfold reason. by destruct (_ =? RC_None). }
  unfold mbind at 1, Op_bind at 1. destruct (mutate host _ e) as [[u|status] e1] eqn:Em; [|done].
  pose proof (mutate_spec host (Ev_AttemptTransition a') e Hok Ha') as Hm. rewrite Em in Hm. destruct Hm as ((_ & Hep & _) & _).
  destruct (mutate_commits host (Ev_AttemptTransition a') e u e1 Hok Ha' Em) as (Hok1 & _ & n & Hst). rewrite count_bind.
  change (IsTerminalAttemptState (at_state a')) with false. cbv iota. set (e2 := with_stats _ e1).
  assert (engine_ok e2) as Hok2 by (eapply engine_ok_evolves; [exact Hok1|by apply evolves_state]).
  unfold mbind, Op_bind, mret, Op_ret.
  destruct (MaybeCompactLocked_state host e2 Hok2) as ((_ & Hep2 & _) & _ & Hc). apply compacted_fields in Hc as (Hat & _).
  destruct (MaybeCompactLocked host e2) as [[u2|status] e3]; [|done]. intros [= <- <-]. exists a'. cbn [snd] in *.
  rewrite Hat, Hep2. change (en_state e2) with (en_state e1). change (en_live_epoch e2) with (en_live_epoch e1).
  rewrite Hst, Hep. split; [|split; [|done]].
  - cbn [with_sequence apply_event apply_attempt with_attempts ds_attempts]. apply TrimAttempts_keeps; [|apply om_find_insert_eq|done].
    apply om_sorted_insert. exact (attempts_sorted _ _ Hwf).
  - unfold live in Elive. bool_hyps. done.
Qed.

(** ** Every mode *)

Section Modes.
Variable w : World.
Hypothesis Hw : world_ok w.
Hypothesis Hcounter : forall e, opened w e -> counter_open (en_state e).
Variable a : Arguments.
Hypothesis Hnow : i64 (ar_now a) = true.
Variable scope : bytes.
Hypothesis Hscope : IsValidIdentityText scope = true.

(** Served so far, with the attempts of the opening. *)
Definition kept (e0 e : Engine) : Prop := served_quietly e0 e.
#[local] Instance kept_settled : Settled w (at_engine w kept).
Proof. apply at_engine_settled. by intros e0 e [H _]. Qed.

Lemma kept_sound e0 e : opened w e0 -> served e0 e -> engine_ok e /\ en_limits e = default_limits.
Proof.
  intros H0 Hs. destruct (opened_engine_ok w Hw e0 H0) as (Hok & Hl & _). pose proof (served_evolves _ _ Hok Hs) as He.
  split; [by eapply engine_ok_evolves|]. destruct He as [(Ho & _) _]. unfold en_limits in *. by rewrite Ho.
Qed.

Lemma kept_counter e0 e : opened w e0 -> kept e0 e -> counter_open (en_state e) /\ attempts_room e.
Proof.
  intros H0 [Hs [Ha Hn]]. destruct (kept_sound e0 e H0 Hs) as [_ Hl].
  destruct (opened_engine_ok w Hw e0 H0) as (_ & Hl0 & _). pose proof (wo_room w Hw e0 H0) as Hr.
  unfold counter_open, ids_below_next, attempts_room in *. rewrite Ha, Hn, Hl, <- Hl0. split; [|done].
  exact (Hcounter e0 H0).
Qed.

Lemma kept_trans e0 e e' : kept e0 e -> served_quietly e e' -> kept e0 e'.
Proof. intros [H1 H2] [H3 H4]. split; [by etransitivity|]. by eapply same_attempts_trans. Qed.

Lemma kept_opened p : at_engine w kept p -> opened_attempts w p.
Proof.
  intros (e0 & e & H0 & He & _ & Ha & _) e1 He1. exists e0. split; [done|]. congruence.
Qed.

Lemma kept_exit code p : code <= 70 -> at_engine w kept p -> worker_exit w code p.
Proof.
  intros Hc Hk. split; [by apply (settled_legal w)| |lia|lia]. intros _. apply kept_opened in Hk. split; [done|].
  intros e He id x Hx. destruct (Hk e He) as (e0 & H0 & Ha). rewrite Ha in Hx.
  destruct (opened_engine_ok w Hw e0 H0) as (_ & _ & Hterm). by apply (Hterm id).
Qed.

(** A request that keeps the attempts. *)
Lemma t_kept {A E} (m : Op A) :
  (forall e, engine_ok e -> en_limits e = default_limits -> served_quietly e (m e).2) ->
  ends w E (at_engine w kept) (engine_call m) (fun _ => at_engine w kept).
Proof.
  intros Hm. apply (t_call w kept m (fun _ => kept)). intros e0 e H0 Hk.
  destruct (kept_sound e0 e H0 (proj1 Hk)). eapply kept_trans; [exact Hk|by apply Hm].
Qed.

Lemma t_commit {E} i id subjects :
  IsValidIdentityText id = true -> subjects_typed (subject_intent_wf default_limits) subjects ->
  ends w E (at_engine w kept) (engine_call (Engine_CommitIntent (wd_host w i) (worker_intent id scope subjects)))
    (fun _ => at_engine w kept).
Proof. intros Hi Hs. apply t_kept. intros e Hok Hl. apply commit_served; try done. apply (wo_hosts w Hw). Qed.

Lemma t_record {E} i id generation subjects :
  IsValidIdentityText id = true -> u64 generation = true -> subjects_typed (subject_observation_wf default_limits) subjects ->
  ends w E (at_engine w kept)
    (engine_call (RecordObservationAt (wd_host w i) (worker_submission id scope generation subjects) (ar_now a)))
    (fun _ => at_engine w kept).
Proof. intros Hi Hg Hs. apply t_kept. intros e Hok Hl. apply record_served; try done. apply (wo_hosts w Hw). Qed.

(** After a plan: nothing issued yet, and the plan can be dispatched. *)
Definition planned (r : Result ReconciliationPlan) (e0 e : Engine) : Prop :=
  kept e0 e /\ forall plan, r = Value plan -> request_ok e (RQ_Dispatch plan) = true.

Lemma planned_kept r p : at_engine w (planned r) p -> at_engine w kept p.
Proof. intros (e0 & e & H0 & He & Hk & _). by exists e0, e. Qed.

#[local] Instance planned_settled r : Settled w (at_engine w (planned r)).
Proof. apply at_engine_settled. by intros e0 e [[H _] _]. Qed.

Lemma t_plan {E} i request :
  pr_scope request = scope ->
  ends w E (at_engine w kept) (engine_call (Engine_Plan (wd_host w i) request)) (fun r => at_engine w (planned r)).
Proof.
  intros Hsc. apply t_call. intros e0 e H0 Hk. destruct (kept_sound e0 e H0 (proj1 Hk)) as [Hok Hl].
  destruct (kept_counter e0 e H0 Hk) as [_ Hr]. pose proof (keeps_Plan (wd_host w i) request e) as Hst.
  assert (served e (Engine_Plan (wd_host w i) request e).2) as Hp.
  { apply (served_call (wd_host w i) (RQ_Plan request)); [apply (wo_hosts w Hw)|done|done|done]. }
  split; [eapply kept_trans; [exact Hk|]; split; [done|by rewrite Hst]|].
  intros plan Hv. destruct (Engine_Plan _ _ _) as [r e1] eqn:Ep. cbn [fst snd] in *. subst r.
  eapply plan_request_ok; try done. by rewrite Hsc.
Qed.

(** After a dispatch: what it handed out has not been heard of. *)
Definition flying (e : Engine) : Prop :=
  holds_attempt (fun x => at_state x = AS_Dispatched) e /\ only_dispatched (en_state e).
Definition issued (r : Result DispatchResult) (e0 e : Engine) : Prop :=
  served e0 e /\ forall d, r = Value d -> di_intents d <> [] -> flying e.

#[local] Instance issued_settled r : Settled w (at_engine w (issued r)).
Proof. apply at_engine_settled. by intros e0 e [H _]. Qed.

Lemma intended_flying e intent ds intents :
  Forall2 (intended e intent) ds intents -> intents <> [] -> only_dispatched (en_state e) -> flying e.
Proof.
  intros [|d i ds' is' (x & [Hf Hr] & _) _]; [done|]. intros _ Hall. split; [|done]. exists x. unfold reusable in Hr. bool_hyps.
  split; [done|]. split; [done|]. by apply (Hall (at_id x)).
Qed.

Lemma t_dispatch {E} i plan :
  ends w E (at_engine w (planned (Value plan))) (engine_call (Engine_Dispatch (wd_host w i) plan))
    (fun r => at_engine w (issued r)).
Proof.
  apply t_call. intros e0 e H0 [Hk Hr]. specialize (Hr plan eq_refl). destruct (kept_sound e0 e H0 (proj1 Hk)) as [Hok Hl].
  destruct (kept_counter e0 e H0 Hk) as [Hc _]. split.
  - etransitivity; [exact (proj1 Hk)|]. apply (served_call (wd_host w i) (RQ_Dispatch plan)); [apply (wo_hosts w Hw)|done|done|done].
  - intros d Hv Hne. destruct (Engine_Dispatch _ _ _) as [r e1] eqn:Ed. cbn [fst snd] in *. subst r.
    destruct (Engine_Dispatch_spec _ plan e d e1 (wo_hosts w Hw i) Hok Hc Hr Ed) as (_ & _ & _ & _ & _ & intent & _ & Hall).
    eapply intended_flying; [done|done|].
    eapply Engine_Dispatch_only; [apply (wo_hosts w Hw i)|exact Hok|exact Hc|exact Hr|exact Ed|].
    intros id x Hx Ht. destruct Hk as [_ [Ha _]]. rewrite Ha in Hx. destruct (opened_engine_ok w Hw e0 H0) as (_ & _ & Hterm).
    by rewrite (Hterm id x Hx) in Ht.
Qed.

Definition in_flight (e0 e : Engine) : Prop := served e0 e /\ flying e.
Definition has_applied (r : Result ReconciliationOutcome) (e0 e : Engine) : Prop :=
  served e0 e /\ forall o, r = Value o -> holds_attempt (fun x => at_state x = AS_Applied) e.
#[local] Instance in_flight_settled : Settled w (at_engine w in_flight).
Proof. apply at_engine_settled. by intros e0 e [H _]. Qed.
#[local] Instance has_applied_settled r : Settled w (at_engine w (has_applied r)).
Proof. apply at_engine_settled. by intros e0 e [H _]. Qed.

Lemma in_flight_exit code p : code = 71 \/ code = 72 -> at_engine w in_flight p -> worker_exit w code p.
Proof.
  intros Hc Hf. split; [by apply (settled_legal w (P := at_engine w in_flight))|lia| |lia]. intros _. destruct Hf as (e0 & e & _ & He & _ & H).
  by exists e.
Qed.

Lemma applied_exit o p : at_engine w (has_applied (Value o)) p -> worker_exit w 73 p.
Proof.
  intros Hf. split; [by apply (settled_legal w (P := at_engine w (has_applied (Value o))))|lia|lia|]. intros _. destruct Hf as (e0 & e & _ & He & _ & H).
  exists e. split; [done|]. by apply (H o).
Qed.

Lemma t_complete {E} i request :
  completion_typed request = true -> cq_target request = AS_Applied ->
  ends w E (at_engine w in_flight) (engine_call (Engine_Complete (wd_host w i) request))
    (fun r => at_engine w (has_applied r)).
Proof.
  intros Ht Htgt. apply t_call. intros e0 e H0 [Hs _]. destruct (kept_sound e0 e H0 Hs) as [Hok Hl]. split.
  - etransitivity; [exact Hs|]. apply (served_call (wd_host w i) (RQ_Complete request)); [apply (wo_hosts w Hw)|done|done|done].
  - intros o Hv. destruct (Engine_Complete _ _ _) as [r e1] eqn:Ec. cbn [fst snd] in *. subst r.
    eapply Complete_applies; [apply (wo_hosts w Hw i)|done|done|done|exact Ec].
Qed.

(** A read of the engine. *)
Lemma t_read_at {A E} R (f : Engine -> A) : ends w E (at_engine w R) (engine_read f) (fun _ => at_engine w R).
Proof. apply t_read. intros p e0 e H0 HR He. by exists e0, e. Qed.

Lemma t_reconcile dispatch_call complete_call plan (on_failure : forall A, Result A -> Cmd A) :
  (forall A P r, Settled w P -> ends w (worker_exit w) P (on_failure A r) (fun x p => P p /\ r = Value x)) ->
  ends w (worker_exit w) (at_engine w (planned (Value plan)))
    (reconcile_plan w a dispatch_call complete_call plan on_failure) (fun _ => legal w).
Proof.
  intros Hfail. unfold reconcile_plan. eapply t_bind.
  { apply t_boundary. intros p Hp. apply kept_exit; [lia|]. by eapply planned_kept. }
  intros []. eapply t_bind; [apply t_dispatch|]. intros r. eapply t_bind; [apply t_or_exit; first [apply _|done]|]. intros d.
  apply t_fact. intros ->. eapply t_bind; [apply t_print; apply _|]. intros [].
  destruct (di_intents d) as [|front rest] eqn:Ei; [apply t_ret; intros ?; apply settled_legal; apply _|].
  apply (t_pre _ _ _ (at_engine w in_flight)).
  { intros p (e0 & e & H0 & He & Hs & Hfly). exists e0, e. split; [done|]. split; [done|]. split; [done|].
    apply (Hfly d); [done|]. by rewrite Ei. }
  eapply t_bind; [apply t_boundary; intros p; apply in_flight_exit; by left|]. intros [].
  eapply t_bind; [apply t_read_at|]. intros epoch. eapply t_bind; [apply t_read_at|]. intros boot.
  eapply t_bind; [apply t_sum|]. intros at_ms. apply t_fact. intros [_ Hat].
  eapply t_bind; [apply t_boundary; intros p; apply in_flight_exit; by right|]. intros [].
  eapply t_bind; [apply t_complete; [|done]; unfold completion_typed; cbn [cq_at_unix_ms cq_reason]; by rewrite Hat|].
  intros r. eapply t_bind; [apply Hfail; apply _|]. intros o. apply t_fact. intros ->.
  eapply t_bind; [apply t_print; apply _|]. intros []. eapply t_bind; [apply t_boundary; apply applied_exit|]. intros [].
  apply t_ret; intros ?; apply settled_legal; apply _.
Qed.

(** Passes a step of a mode. *)
Ltac mode :=
  lazymatch goal with
  | |- ends _ _ _ (mbind _ (or_exit _ _ _)) _ => eapply t_bind; [apply t_or_exit; first [apply _|done]|intros ?; apply t_fact; intros ->]
  | |- ends _ _ _ (mbind _ (or_die _ _ _)) _ => eapply t_bind; [apply t_or_die; first [apply _|done]|intros ?; apply t_fact; intros ->]
  | |- ends _ _ _ (mbind _ (print _)) _ => eapply t_bind; [apply t_print; apply _|intros []]
  | |- ends _ _ _ (mbind _ (print_plan _)) _ => eapply t_bind; [apply t_print; apply _|intros []]
  | |- ends _ _ _ (mbind _ (engine_read _)) _ => eapply t_bind; [apply t_read_at|intros ?]
  | |- ends _ _ _ (mret _) _ => apply t_ret; intros ?; apply settled_legal; apply _
  end.

Lemma run_seed : ends w (worker_exit w) (at_engine w kept) (mode_seed w a scope) (fun _ => legal w).
Proof.
  unfold mode_seed. eapply t_bind; [apply t_fill; first [apply _|apply declared_wf|by split]|]. intros subjects. apply t_fact. intros Hs.
  eapply t_bind; [by apply t_commit|]. intros r. eapply t_bind; [apply t_or_exit; first [apply _|done]|]. intros [status result].
  apply t_fact. intros _. repeat mode.
Qed.

Lemma run_worker_observe : ends w (worker_exit w) (at_engine w kept) (mode_observe w a scope) (fun _ => legal w).
Proof.
  unfold mode_observe. eapply t_bind; [apply t_fill; first [apply _|apply observed_wf|by split]|]. intros subjects. apply t_fact. intros Hs.
  eapply t_bind; [by apply t_record|]. intros r. repeat mode.
Qed.

Lemma run_reconcile : ends w (worker_exit w) (at_engine w kept) (mode_reconcile w a scope) (fun _ => legal w).
Proof.
  unfold mode_reconcile. eapply t_bind; [by apply t_plan|]. intros r. repeat mode. apply t_reconcile.
  intros A P x HP. by apply t_or_exit.
Qed.

Lemma run_worker_scenario : ends w (worker_exit w) (at_engine w kept) (mode_scenario w a scope) (fun _ => legal w).
Proof.
  unfold mode_scenario.
  eapply t_bind; [apply t_fill; first [apply _|apply declared_wf|by split]|]. intros declared. apply t_fact. intros Hd.
  eapply t_bind; [apply t_fill; first [apply _|apply observed_wf|by split]|]. intros seen. apply t_fact. intros Hs.
  eapply t_bind; [by apply t_commit|]. intros r1. repeat mode.
  eapply t_bind; [apply t_record; [done|apply next_generation_u64|done]|]. intros r2. repeat mode.
  eapply t_bind; [by apply t_plan|]. intros r3. repeat mode.
  eapply t_bind; [apply t_boundary; intros p Hp; apply kept_exit; [lia|by eapply planned_kept]|]. intros [].
  apply t_reconcile. intros A P x HP. by apply t_or_die.
Qed.

Lemma run_report : ends w (worker_exit w) (at_engine w kept) (mode_report scope) (fun _ => legal w).
Proof. unfold mode_report. repeat mode. Qed.

Lemma run_compact : ends w (worker_exit w) (at_engine w kept) (mode_compact w) (fun _ => legal w).
Proof.
  unfold mode_compact. eapply (t_bind w _ _ _ (fun _ => at_engine w served)).
  - apply (t_call w kept _ (fun _ => served)). intros e0 e H0 [Hs _]. etransitivity; [exact Hs|].
    apply (served_one (wd_host w 1) RQ_Compact); [apply (wo_hosts w Hw)|done|done].
  - intros r. repeat mode.
Qed.
End Modes.

Section Worker.
Variable w : World.
Hypothesis Hw : world_ok w.
Hypothesis Hcounter : forall e, opened w e -> counter_open (en_state e).

Lemma t_worker_open a : ends w (worker_exit w) unopened (worker_open w a) (fun _ => at_engine w kept).
Proof.
  intros p r p' Hp. unfold worker_open. destruct (Engine_Open _ _ _ _) as [e|status] eqn:Eo.
  - intros [= <- <-]. exists e, e. cbn [pc_engine]. split; [by exists (ar_store a)|]. split; [done|]. split; [apply rtc_refl|done].
  - revert p r p' Hp. eapply t_bind; [apply t_complain; apply _|]. intros []. apply t_code; first [apply _|done].
Qed.

Lemma set_argument_now a token value a' :
  i64 (ar_now a) = true -> set_argument a token value = Some a' -> i64 (ar_now a') = true.
Proof.
  unfold set_argument. intros Ha. cbv zeta.
  repeat (destruct (bool_decide _); [intros [= <-]; first [exact Ha|apply strtoll_i64]|]). done.
Qed.

Lemma t_parse_arguments raw : forall a, i64 (ar_now a) = true ->
  ends w (worker_exit w) unopened (parse_arguments a raw) (fun a p => unopened p /\ i64 (ar_now a) = true).
Proof.
  induction raw as [raw IH] using (induction_ltof1 _ (@length bytes)). intros a Ha.
  destruct raw as [|token rest]; [by apply t_ret|]. cbn [parse_arguments].
  destruct (set_argument a token []) as [a'|] eqn:E1.
  - destruct rest as [|value rest]; [apply t_die; first [apply _|done]|].
    apply IH; [unfold ltof; cbn; lia|]. destruct (set_argument a token value) eqn:E2; [by eapply set_argument_now|done].
  - destruct (bool_decide _); [apply IH; [unfold ltof; cbn; lia|done]|apply t_die; first [apply _|done]].
Qed.

Lemma worker_runs a : i64 (ar_now a) = true -> ends w (worker_exit w) unopened (worker_run w a) (fun _ => legal w).
Proof.
  intros Ha. unfold worker_run. destruct (_ || _); [apply t_die; first [apply _|done]|]. eapply t_bind; [apply t_worker_open|]. intros [].
  destruct (StringId_TryParse (ar_scope a)) as [scope|] eqn:Es; [|apply t_die; [apply kept_settled|done]].
  apply TryParse_valid in Es. cbv zeta.
  destruct (bool_decide _); [by apply run_seed|].
  destruct (bool_decide _); [by apply run_worker_observe|].
  destruct (bool_decide _); [by apply run_reconcile|].
  destruct (bool_decide _); [by apply run_worker_scenario|].
  destruct (bool_decide _); [by apply run_report|].
  destruct (bool_decide _); [by apply run_compact|].
  apply t_die; [apply kept_settled|done].
Qed.

Lemma worker_main_exits raw : ends w (worker_exit w) unopened (fun p => (arguments ← parse_arguments arguments_new raw; worker_run w arguments) p)
  (fun _ => legal w).
Proof. eapply t_bind; [by apply t_parse_arguments|]. intros a. apply t_fact. apply worker_runs. Qed.
End Worker.

(** ** Properties *)

Definition example_worker (kill_at : bytes) : list bytes :=
  [B "--store"; B "d"; B "--mode"; B "scenario"; B "--scope"; B "fabric/rack-9"; B "--subjects"; B "1";
   B "--kill-at"; kill_at].

(** How a run ended, and the states of the attempts the store then holds. *)
Definition trace (run : option (Flow Z * Process)) : option (Flow Z * list AttemptState) :=
  match run with
  | Some (flow, p) =>
    Some (flow, match pc_engine p with
                | Some e => map (fun entry => at_state entry.2) (ds_attempts (en_state e)) | None => [] end)
  | None => None
  end.

Example worker_before_dispatch :
  trace (worker_main example_world (example_worker (B "before_dispatch"))) = Some (Returns 70, []).
Proof. vm_compute. reflexivity. Qed.
Example worker_after_apply :
  trace (worker_main example_world (example_worker (B "after_apply_before_verify"))) = Some (Returns 73, [AS_Applied]).
Proof. vm_compute. reflexivity. Qed.
Lemma example_worker_run :
  trace (worker_main example_world (example_worker (B "after_dispatch_before_ack"))) = Some (Returns 71, [AS_Dispatched]).
Proof. vm_compute. reflexivity. Qed.

(** C13. The worker's boundaries, whatever its arguments, on a directory without a store or with
    what a crash left of one, whose attempt counter has not wrapped: when it ends itself before the
    dispatch (69 in the scenario, 70) the attempts are those the boot left, all of them ended; after
    the dispatch (71) and before the completion (72) an attempt of its epoch is in the state
    Dispatched, and so is every attempt in flight; after the completion (73) one is Applied; and in
    every case the engine only moved by requests within its contracts. *)
Theorem worker_exit_boundaries w raw code p :
  world_ok w -> (forall e, opened w e -> counter_open (en_state e)) ->
  worker_main w raw = Some (Returns code, p) -> worker_exit w code p.
Proof. intros Hw Hc. exact (worker_main_exits w Hw Hc raw process_new (Returns code) p eq_refl). Qed.

Lemma example_counter_check store :
  match Engine_Open (good_host 1700000000100) example_boot_host (cli_engine_options store) example_left_disk with
  | Value e => (0 <? ds_next_attempt (en_state e)) && (ds_next_attempt (en_state e) <? 2 ^ 64) && ids_below_next (en_state e)
  | Failed _ => true
  end = true.
Proof. unfold Engine_Open. destruct (is_empty _); [done|]. vm_compute. reflexivity. Qed.

Lemma example_counter e : opened example_world e -> counter_open (en_state e).
Proof.
  intros (store & He). pose proof (example_counter_check store) as Hr.
  change (Engine_Open (good_host 1700000000100) example_boot_host (cli_engine_options store) example_left_disk = Value e) in He.
  rewrite He in Hr. unfold counter_open. bool_hyps. done.
Qed.

Lemma worker_exit_boundaries_witness :
  exists p e, worker_main example_world (example_worker (B "after_dispatch_before_ack")) = Some (Returns 71, p) /\
    pc_engine p = Some e /\ holds_attempt (fun a => at_state a = AS_Dispatched) e.
Proof.
  pose proof example_worker_run as H.
  destruct (worker_main example_world (example_worker (B "after_dispatch_before_ack"))) as [[flow p]|] eqn:E; [|discriminate H].
  cbn [trace] in H. injection H as -> _.
  destruct (we_issued _ _ _ (worker_exit_boundaries _ _ 71 p example_world_ok example_counter E) (or_introl eq_refl)) as (e & He & Hf & _).
  exists p, e. split; [reflexivity|]. split; [exact He|exact Hf].
Defined.
