(* ===== verification/Bench.v ===== *)
(** * The scale benchmark and the example program (bench/, examples/)

    Two programs on the public interface of the engine: the benchmark, which reports the work
    the classifier did at four sizes and whether it grew as the size did, and the smallest
    complete use of the library.  Both run in the process model of the command line; the doubles
    of the benchmark are binary64 and its [printf] conversions are written out. *)

From Stdlib Require Import ZArith Lia SpecFloat.
From stdpp Require Import prelude.
From S2P Require Import Prelude OrdMap Hash Status Identity Canonical Value Policy Document Drift.
From S2P Require Import Authority Plan Lineage Journal Snapshot StoreState Store Engine Planner.
From S2P Require Import Lifecycle Wire WireOps Render Server Json DocumentJson Cli Worker.
Local Open Scope Z_scope.

(** ** Formatting *)

Definition double_div : spec_float -> spec_float -> spec_float := SFdiv 53 1024.
Definition double_add : spec_float -> spec_float -> spec_float := SFadd 53 1024.
Definition double_mul : spec_float -> spec_float -> spec_float := SFmul 53 1024.

Definition pad_left (width : nat) (text : bytes) : bytes := repeat Byte.x20 (width - length text) ++ text.
Definition pad_zeros (width : nat) (text : bytes) : bytes := repeat Byte.x30 (width - length text) ++ text.

(** The nearest integer to a ratio, ties to even. *)
Definition round_ratio (n d : Z) : Z :=
  let q := n / d in
  let r := n mod d in
  if 2 * r <? d then q else if d <? 2 * r then q + 1 else if Z.even q then q else q + 1.

(** [%.<digits>f]: the exact value, rounded to so many decimals. *)
Definition format_fixed (digits : nat) (f : spec_float) : bytes :=
  let scale := 10 ^ Z.of_nat digits in
  let text (negative : bool) (n : Z) :=
    (if negative then B "-" else []) ++ to_string (n / scale) ++ B "." ++ pad_zeros digits (to_string (n mod scale)) in
  match f with
  | S754_zero s => text s 0
  | S754_infinity s => if s then B "-inf" else B "inf"
  | S754_nan => B "nan"
  | S754_finite s m e =>
    text s (if 0 <=? e then Z.pos m * 2 ^ e * scale else round_ratio (Z.pos m * scale) (2 ^ (- e)))
  end.

(** [%<width>zu] and the like, and [%<width>.<digits>f]. *)
Definition column (width : nat) (n : Z) : bytes := pad_left width (to_string n).
Definition real_column (width digits : nat) (f : spec_float) : bytes := pad_left width (format_fixed digits f).

(** ** One case of the benchmark *)

(** Models [Result], bench/fabric_reconcile_bench.cpp:27-36. *)
Record CaseResult := mkCase {
  ca_subjects : Z;
  ca_classify_ms : spec_float;
  ca_plan_ms : spec_float;
  ca_subject_visits : Z;
  ca_attribute_comparisons : Z;
  ca_decisions : Z;
  ca_actions : Z;
  ca_plan_id : bytes
}.

(** What the host answers to the case of a size: what its directory holds once it has been
    removed as far as it could be, the boot, each engine call, and the two durations measured. *)
Record BenchHost := mkBenchHost {
  bn_disk : Z -> StoreDisk;
  bn_boot : Z -> BootHost;
  bn_host : Z -> nat -> Host;
  bn_classify_ms : Z -> spec_float;
  bn_plan_ms : Z -> spec_float
}.

(** The dereference of an optional, undefined when it is empty. *)
Definition valued {A} (x : option A) : Cmd A := fun p => match x with Some a => Some (Goes a, p) | None => None end.

(** Models [RunCase], bench/fabric_reconcile_bench.cpp:75-93: the loop that fills the two
    documents; every seventeenth subject is not observed, every [modulus]-th differs. *)
Fixpoint bench_subjects (modulus : Z) (n : nat) (index : Z) (declared : list (bytes * SubjectIntent))
    (seen : list (bytes * SubjectObservation)) : Cmd (list (bytes * SubjectIntent) * list (bytes * SubjectObservation)) :=
  match n with
  | O => mret (declared, seen)
  | S n =>
    match StringId_TryParse (build_subject index) with
    | None => return_code 2
    | Some subject =>
      let declared := default declared (om_emplace subject (mkSubjectIntent subject true (mtu 9000)) declared) in
      let seen :=
        if Z.rem index 17 =? 3 then seen
        else
          let value := if Z.rem index modulus =? 0 then 1500 else 9000 in
          default seen (om_emplace subject (mkSubjectObservation subject true (mtu value)) seen) in
      bench_subjects modulus n (index + 1) declared seen
    end
  end.

Section Case.
Variables (h : BenchHost) (root : bytes) (subjects mismatch_modulus : Z).

Definition case_directory : bytes := root ++ B "/" ++ B "case-" ++ to_string subjects.

(** Models [RunCase], bench/fabric_reconcile_bench.cpp:43-50: the engine of the case. *)
Definition case_open : Cmd unit := fun p =>
  match Engine_Open (bn_host h subjects 0) (bn_boot h subjects) (cli_engine_options case_directory) (bn_disk h subjects) with
  | Failed status => (_ ← complain (B "open failed: " ++ c_str (Status_ToString status)); return_code 2) p
  | Value e => Some (Goes tt, mkProcess (Some e) (pc_out p) (pc_err p) (pc_written p))
  end.

(** Models [RunCase], bench/fabric_reconcile_bench.cpp:38-138. *)
Definition RunCase : Cmd CaseResult :=
  _ ← case_open;
  match StringId_TryParse (B "fabric/bench"), StringId_TryParse (B "mtu") with
  | Some scope, Some _ =>
    intent_id ← valued (StringId_TryParse (B "intent/bench"));
    definition ← valued (StringId_TryParse (B "definition/bench"));
    observation_id ← valued (StringId_TryParse (B "observation/bench/1"));
    reporter ← valued (StringId_TryParse (B "reporter/bench"));
    '(declared, seen) ← bench_subjects mismatch_modulus (Z.to_nat subjects) 0 [] [];
    committed ← engine_call (Engine_CommitIntent (bn_host h subjects 1)
      (mkIntent intent_id scope definition 1 1 EC_Synthetic true declared zero_digest));
    _ ← or_exit (B "commit") 3 committed;
    recorded ← engine_call (RecordObservationAt (bn_host h subjects 2)
      (mkSubmission observation_id scope reporter 1 EC_Synthetic true true seen) 1000);
    _ ← or_exit (B "observe") 4 recorded;
    report ← engine_call (Engine_Classify (bn_host h subjects 3) scope 1000);
    report ← or_exit (B "classify") 5 report;
    plan ← engine_call (Engine_Plan (bn_host h subjects 4) (mkPlanRequest scope None 1000 true));
    plan ← or_exit (B "plan") 6 plan;
    mret (mkCase subjects (bn_classify_ms h subjects) (bn_plan_ms h subjects) (cr_subject_visits report)
            (cr_attribute_comparisons report) (blen (pl_decisions plan)) (MutationCount plan) (pl_plan_id plan))
  | _, _ => return_code 2
  end.
End Case.

(** ** The benchmark *)

(** Models [main], bench/fabric_reconcile_bench.cpp:149-149. *)
Definition bench_sizes : list Z := [2000; 8000; 32000; 128000].

Definition case_ms (r : CaseResult) : spec_float := double_add (ca_classify_ms r) (ca_plan_ms r).

(** Models [main], bench/fabric_reconcile_bench.cpp:164-165: how the size grew since the case
    before. *)
Definition size_ratio (previous r : CaseResult) : spec_float :=
  double_div (double_of_Z (ca_subjects r)) (double_of_Z (ca_subjects previous)).
(** Models [main], bench/fabric_reconcile_bench.cpp:166-168: and how the work did. *)
Definition work_ratio (previous r : CaseResult) : spec_float :=
  double_div (double_of_Z (ca_subject_visits r))
    (double_of_Z (if ca_subject_visits previous =? 0 then 1 else ca_subject_visits previous)).

(** Models [main], bench/fabric_reconcile_bench.cpp:171-171. *)
Definition declared_linear (previous r : CaseResult) : bool :=
  SFleb (work_ratio previous r) (double_mul (size_ratio previous r) (double_of_ratio false 105 100)).

(** Models [main], bench/fabric_reconcile_bench.cpp:157-162: the row of a case. *)
Definition case_row (previous : option CaseResult) (r : CaseResult) : bytes :=
  let zero := S754_zero false in
  let before := match previous with Some c => case_ms c | None => zero end in
  let growth := if SFltb zero before then double_div (case_ms r) before else zero in
  column 10 (ca_subjects r) ++ B " " ++ real_column 12 3 (ca_classify_ms r) ++ B " " ++
  real_column 12 3 (ca_plan_ms r) ++ B " " ++ column 14 (ca_subject_visits r) ++ B " " ++
  column 14 (ca_attribute_comparisons r) ++ B " " ++ column 10 (ca_decisions r) ++ B " " ++
  column 10 (ca_actions r) ++ B " " ++ real_column 8 2 growth ++ newline.

(** Models [main], bench/fabric_reconcile_bench.cpp:163-172: what follows it. *)
Definition growth_row (previous r : CaseResult) : bytes :=
  B "           size x" ++ format_fixed 2 (size_ratio previous r) ++ B "  subject-visit work x" ++
  format_fixed 2 (work_ratio previous r) ++ B "  declared-linear=" ++
  (if declared_linear previous r then B "yes" else B "NO") ++ newline.

(** Models [main], bench/fabric_reconcile_bench.cpp:155-176: the loop over the sizes. *)
Fixpoint bench_cases (h : BenchHost) (root : bytes) (sizes : list Z) (results : list CaseResult)
  : Cmd (list CaseResult) :=
  match sizes with
  | [] => mret results
  | size :: sizes =>
    r ← RunCase h root size 5;
    _ ← print (case_row (last results) r);
    _ ← (match last results with
         | Some previous => if negb (ca_subjects previous =? 0) then print (growth_row previous r) else mret tt
         | None => mret tt
         end);
    bench_cases h root sizes (results ++ [r])
  end.

Definition bench_header : bytes :=
  pad_left 10 (B "subjects") ++ B " " ++ pad_left 12 (B "classify_ms") ++ B " " ++ pad_left 12 (B "plan_ms") ++
  B " " ++ pad_left 14 (B "subject_visits") ++ B " " ++ pad_left 14 (B "attr_compare") ++ B " " ++
  pad_left 10 (B "decisions") ++ B " " ++ pad_left 10 (B "actions") ++ B " " ++ pad_left 8 (B "ratio") ++ newline.

(** Models [main], bench/fabric_reconcile_bench.cpp:142-183. *)
Definition bench_main (h : BenchHost) (root : bytes) : Cmd Z :=
  _ ← print bench_header;
  results ← bench_cases h root bench_sizes [];
  _ ← print (B "plan-ids:" ++ newline);
  _ ← print (concat (map (fun r => B "  " ++ column 8 (ca_subjects r) ++ B " " ++ c_str (ca_plan_id r) ++ newline) results));
  mret 0.

(** ** The example program *)

(** Models [main], examples/basic_plan.cpp:18-91. *)
Definition example_main (w : World) (directory : bytes) : Cmd Z :=
  _ ← (fun p =>
    match Engine_Open (wd_host w 0) (wd_boot w) (cli_engine_options directory) (wd_disk w directory) with
    | Failed status => (_ ← complain (B "open failed: " ++ c_str (Status_ToString status)); return_code 1) p
    | Value e => Some (Goes tt, mkProcess (Some e) (pc_out p) (pc_err p) (pc_written p))
    end);
  match StringId_TryParse (B "fabric/rack-7"), StringId_TryParse (B "node/n2/port/eth0"), StringId_TryParse (B "mtu") with
  | Some scope, Some subject, Some _ =>
    intent_id ← valued (StringId_TryParse (B "intent/rack-7"));
    definition ← valued (StringId_TryParse (B "definition/rack-7"));
    committed ← engine_call (Engine_CommitIntent (wd_host w 1)
      (mkIntent intent_id scope definition 1 1 EC_Synthetic true
         [(subject, mkSubjectIntent subject true (mtu 9000))] zero_digest));
    match committed with
    | Failed _ => return_code 1
    | Value _ =>
      observation_id ← valued (StringId_TryParse (B "observation/rack-7/1"));
      reporter ← valued (StringId_TryParse (B "reporter/probe"));
      recorded ← engine_call (RecordObservationAt (wd_host w 2)
        (mkSubmission observation_id scope reporter 1 EC_Synthetic true true
           [(subject, mkSubjectObservation subject true (mtu 1500))]) 1000);
      match recorded with
      | Failed _ => return_code 1
      | Value _ =>
        plan ← engine_call (Engine_Plan (wd_host w 3) (mkPlanRequest scope None 1000 true));
        plan ← or_exit (B "plan") 1 plan;
        _ ← print (c_str (RenderPlanText plan));
        _ ← print (B "example plan-id=" ++ c_str (pl_plan_id plan) ++ B " actions=" ++
                   to_string (MutationCount plan) ++ newline);
        mret 0
      end
    end
  | _, _, _ => return_code 1
  end.
