(* ===== verification/BenchFacts.v ===== *)
(** * What the benchmark measures

    The scale benchmark reports the work of the classifier at growing sizes.  Here a case of any
    size is shown to end with an exit code of its own or with exactly the counters its size
    determines: one visit per subject, one comparison per subject observed, one decision per
    subject up to the bound of a plan. *)

From Stdlib Require Import ZArith Lia SpecFloat DecimalString DecimalPos DecimalZ.
From stdpp Require Import prelude.
From S2P Require Import Prelude OrdMap Hash Status Identity Canonical Value Policy Document Drift Work.
From S2P Require Import Authority Plan Lineage Journal Snapshot StoreState Store Engine Planner.
From S2P Require Import Lifecycle EngineRuns EngineSafety EngineGuards Wire WireOps Render Server ServerSafety.
From S2P Require Import Json DocumentJson Cli CliSafety Worker WorkerSafety Bench.
Local Open Scope Z_scope.

(** ** The names of the subjects *)

Lemma to_int_printable n : Z.to_int n <> Decimal.Pos Decimal.Nil /\ Z.to_int n <> Decimal.Neg Decimal.Nil.
Proof. destruct n as [|p|p]; cbn; (split; [|done || idtac]); try done; intros [= H]; by apply (Unsigned.to_uint_nonnil p). Qed.

Lemma to_string_inj n m : to_string n = to_string m -> n = m.
Proof.
  unfold to_string. intros H. apply (f_equal String.string_of_list_byte) in H.
  rewrite !String.string_of_list_byte_of_string in H. apply (f_equal NilZero.int_of_string) in H.
  destruct (to_int_printable n), (to_int_printable m). rewrite !NilZero.isi in H by done.
  injection H as H. by apply to_int_inj.
Qed.

Lemma build_subject_inj i j : build_subject i = build_subject j -> i = j.
Proof.
  unfold build_subject. intros H. apply app_inv_head in H. apply app_inv_tail in H. by apply to_string_inj.
Qed.

(** ** The two documents *)

(** How many of the first subjects are observed. *)
Definition observed_count (n : Z) : Z := n - (n + 13) / 17.

Lemma observed_count_next n :
  0 <= n -> observed_count (n + 1) = if Z.rem n 17 =? 3 then observed_count n else observed_count n + 1.
Proof.
  intros Hn. unfold observed_count. rewrite Z.rem_mod_nonneg by lia.
  destruct (Z.eqb_spec (n mod 17) 3); pose proof (Z.div_mod n 17 ltac:(lia)); pose proof (Z.mod_pos_bound n 17 ltac:(lia));
    pose proof (Z.div_mod (n + 13) 17 ltac:(lia)); pose proof (Z.mod_pos_bound (n + 13) 17 ltac:(lia));
    pose proof (Z.div_mod (n + 1 + 13) 17 ltac:(lia)); pose proof (Z.mod_pos_bound (n + 1 + 13) 17 ltac:(lia)); lia.
Qed.

(** What the documents hold after the subjects below an index. *)
Record filled (index : Z) (declared : list (bytes * SubjectIntent)) (seen : list (bytes * SubjectObservation)) : Prop := {
  fi_declared : subjects_typed (subject_intent_wf default_limits) declared;
  fi_seen : subjects_typed (subject_observation_wf default_limits) seen;
  fi_declared_size : blen declared = index;
  fi_seen_size : blen seen = observed_count index;
  fi_named k : k ∈ declared.*1 -> exists i, i < index /\ k = build_subject i;
  fi_included k : k ∈ seen.*1 -> k ∈ declared.*1;
  fi_wanted k d : om_find k declared = Some d -> exists value, si_desired d = mtu value;
  fi_reported k o : om_find k seen = Some o -> exists value, so_observed o = mtu value
}.

Lemma filled_nothing : filled 0 [] [].
Proof. split; try done; by intros k ?%elem_of_nil. Qed.

Lemma insert_keys {V} (k k' : bytes) (v : V) m : k' ∈ (om_insert k v m).*1 <-> k' = k \/ k' ∈ m.*1.
Proof.
  rewrite <- !om_find_is_Some_keys. destruct (decide (k' = k)) as [->|Hn].
  - rewrite om_find_insert_eq. split; [by left|by eexists].
  - rewrite om_find_insert_ne by done. naive_solver.
Qed.

Lemma insert_size {V} (k : bytes) (v : V) m : k ∉ m.*1 -> blen (om_insert k v m) = blen m + 1.
Proof. intros H. unfold blen. rewrite om_length_insert_new by (by apply om_find_None_keys). lia. Qed.

Lemma typed_insert {V} (entry_wf : bytes * V -> bool) k v m :
  entry_wf (k, v) = true -> subjects_typed entry_wf m -> subjects_typed entry_wf (om_insert k v m).
Proof. intros Hw [Hs Hf]. split; [by apply om_sorted_insert|by apply om_insert_Forall]. Qed.

Lemma insert_lookup {V} (P : V -> Prop) (k : bytes) (v : V) m :
  P v -> (forall k' v', om_find k' m = Some v' -> P v') -> forall k' v', om_find k' (om_insert k v m) = Some v' -> P v'.
Proof.
  intros Hv Hm k' v'. destruct (decide (k' = k)) as [->|Hn]; [rewrite om_find_insert_eq; congruence|].
  rewrite om_find_insert_ne by done. apply Hm.
Qed.

Lemma filled_fresh index declared seen :
  filled index declared seen -> build_subject index ∉ declared.*1 /\ build_subject index ∉ seen.*1.
Proof.
  intros []. assert (build_subject index ∉ declared.*1) as Hd; [|auto].
  intros (i & Hi & Heq)%fi_named0. apply build_subject_inj in Heq. lia.
Qed.

Lemma filled_next index declared seen value :
  0 <= index -> value ∈ [1500; 9000] -> IsValidIdentityText (build_subject index) = true -> filled index declared seen ->
  let subject := build_subject index in
  filled (index + 1) (om_insert subject (mkSubjectIntent subject true (mtu 9000)) declared)
    (if Z.rem index 17 =? 3 then seen else om_insert subject (mkSubjectObservation subject true (mtu value)) seen).
Proof.
  intros Hi Hv Hid Hf subject. destruct (filled_fresh _ _ _ Hf) as [Hd Hs]. destruct Hf. fold subject in Hid, Hd, Hs.
  assert (subject = build_subject index) as Hsub by done. clearbody subject.
  assert (subject_intent_wf default_limits (subject, mkSubjectIntent subject true (mtu 9000)) = true) as Hwd
    by (unfold subject_intent_wf; cbn; by rewrite Hid, bool_decide_eq_true_2).
  assert (subject_observation_wf default_limits (subject, mkSubjectObservation subject true (mtu value)) = true) as Hwo.
  { unfold subject_observation_wf. cbn [fst snd so_id so_observed]. rewrite Hid, bool_decide_eq_true_2 by done.
    apply elem_of_cons in Hv as [->|Hv]; [done|]. by apply list_elem_of_singleton in Hv as ->. }
  split.
  - by apply typed_insert.
  - destruct (_ =? 3); [done|]. by apply typed_insert.
  - rewrite insert_size by done. lia.
  - rewrite observed_count_next by done. destruct (_ =? 3); [done|]. rewrite insert_size by done. lia.
  - intros k [->|(i & Hlt & ->)%fi_named0]%insert_keys; [exists index; split; [lia|done]|exists i; split; [lia|done]].
  - intros k Hk. apply insert_keys. destruct (_ =? 3); [by right; apply fi_included0|].
    apply insert_keys in Hk as [->|Hk]; [by left|right; by apply fi_included0].
  - apply (insert_lookup (fun d => exists value, si_desired d = mtu value)); [by eexists|done].
  - destruct (_ =? 3); [done|].
    apply (insert_lookup (fun o => exists value, so_observed o = mtu value)); [by eexists|done].
Qed.

(** ** Pieces of a case *)

(** From [P], a piece is defined and goes on with [Q], or the process exits with a code of a
    case. *)
Definition yields {A} (P : Process -> Prop) (m : Cmd A) (Q : A -> Process -> Prop) : Prop :=
  forall p, P p -> match m p with
    | Some (Goes a, p') => Q a p'
    | Some (Returns code, _) => 2 <= code <= 6
    | _ => False
    end.

Lemma y_ret {A} (P : Process -> Prop) (a : A) Q : (forall p, P p -> Q a p) -> yields P (mret a) Q.
Proof. intros H p Hp. by apply H. Qed.

Lemma y_bind {A C} P (m : Cmd A) Q (f : A -> Cmd C) R :
  yields P m Q -> (forall a, yields (Q a) (f a) R) -> yields P (m ≫= f) R.
Proof.
  intros Hm Hf p Hp. specialize (Hm p Hp). unfold mbind, Cmd_bind.
  destruct (m p) as [[[a|code|] p']|]; try done. by apply Hf.
Qed.

Lemma y_fix {A} P (C : Prop) (m : Cmd A) Q : (C -> yields P m Q) -> yields (fun p => P p /\ C) m Q.
Proof. intros H p [Hp Hc]. by apply H. Qed.

Lemma y_valued {A} P (x : option A) (a : A) : x = Some a -> yields P (valued x) (fun b p => P p /\ b = a).
Proof. intros -> p Hp. done. Qed.

(** The process runs an engine of which [I] holds. *)
Definition running (I : Engine -> Prop) (p : Process) : Prop := exists e, pc_engine p = Some e /\ I e.

(** A call whose failure ends the process. *)
Lemma y_call {A C} (I : Engine -> Prop) (m : Op A) what code (J : A -> Engine -> Prop) (f : A -> Cmd C) R :
  2 <= code <= 6 -> (forall e a e', I e -> m e = (Value a, e') -> J a e') ->
  (forall a, yields (running (J a)) (f a) R) ->
  yields (running I) (r ← engine_call m; a ← or_exit what code r; f a) R.
Proof.
  intros Hcode H Hf p (e & Hp & He). unfold mbind, Cmd_bind, engine_call. rewrite Hp.
  destruct (m e) as [[a|status] e'] eqn:E; [|done]. apply Hf. exists e'. split; [done|]. by eapply H.
Qed.

Lemma y_subjects P modulus n : forall index declared seen,
  0 <= index -> filled index declared seen ->
  yields P (bench_subjects modulus n index declared seen)
    (fun r p => P p /\ filled (index + Z.of_nat n) r.1 r.2).
Proof.
  induction n as [|n IH]; intros index declared seen Hi Hf; cbn [bench_subjects].
  - apply y_ret. intros p Hp. by rewrite Z.add_0_r.
  - destruct (StringId_TryParse _) as [subject|] eqn:Es; [|by intros p Hp].
    pose proof (TryParse_valid _ _ Es) as Hid. unfold StringId_TryParse in Es.
    destruct (IsValidIdentityText _); [|done]. injection Es as <-.
    destruct (filled_fresh _ _ _ Hf) as [Hd Hs].
    unfold om_emplace. rewrite (proj2 (om_find_None_keys _ declared) Hd), (proj2 (om_find_None_keys _ seen) Hs).
    cbn [default]. replace (index + Z.of_nat (S n)) with (index + 1 + Z.of_nat n) by lia.
    apply IH; [lia|]. apply filled_next; [done| |done|done]. destruct (_ =? 0); set_solver.
Qed.

(** ** The engine of a case *)

(** What a benchmark relies on: the directory of the case was removed, its calls are answered, and
    the values the host gives are of their types. *)
Record fresh_case (h : BenchHost) (n : Z) : Prop := {
  fc_disk : bn_disk h n = empty_disk;
  fc_fresh : length (bh_fresh_store (bn_boot h n)) = 16%nat;
  fc_clock : i64 (bh_now_header (bn_boot h n)) = true;
  fc_boot : BootId_valid (bh_boot (bn_boot h n)) = true;
  fc_hosts k : host_typed (bn_host h n k) = true
}.

(** The engine, and the documents it holds. *)
Record holds (intents : list (bytes * IntentDocument)) (streams : list (bytes * list ObservationDocument)) (e : Engine)
  : Prop := {
  ho_ok : engine_ok e;
  ho_limits : en_limits e = default_limits;
  ho_intents : ds_intents (en_state e) = intents;
  ho_streams : ds_observations (en_state e) = streams
}.

Lemma y_open h root n :
  fresh_case h n -> yields (fun _ => True) (case_open h root n) (fun _ => running (holds [] [])).
Proof.
  intros [] p _. unfold case_open. rewrite fc_disk0.
  destruct (Engine_Open _ _ _ _) as [e|status] eqn:E; [|done].
  assert (boot_options_ok (cli_engine_options (case_directory root n)) (bn_boot h n) && host_typed (bn_host h n 0) = true) as Hb.
  { rewrite fc_hosts0, andb_true_r. unfold boot_options_ok. rewrite fc_boot0, andb_true_r. vm_compute. reflexivity. }
  destruct (created_engine _ _ _ _ e Hb empty_unborn fc_fresh0 fc_clock0 E) as (Hok & Hopt & sid & Hre).
  destruct Hre as (_ & _ & Hi & Ho & _). exists e. split; [done|]. split; try done. unfold en_limits. by rewrite Hopt.
Qed.

(** What a request does after its commit keeps the documents. *)
Lemma settled_holds {A} host field n (a : A) intents streams e r e' :
  holds intents streams e ->
  (_ ← count_stat field n; _ ← MaybeCompactLocked host; mret a) e = (Value r, e') ->
  holds intents streams e' /\ en_live_epoch e' = en_live_epoch e.
Proof.
  intros [] H. op_step H. set (e1 := with_stats _ e) in *.
  assert (engine_ok e1) as Hok1 by (eapply engine_ok_evolves; [exact ho_ok0|apply (evolves_count_stat field n)]).
  destruct (MaybeCompactLocked_state host e1 Hok1) as (Hf & _ & Hst). apply compacted_fields in Hst as (_ & _ & _ & Hk).
  assert (engine_ok (MaybeCompactLocked host e1).2) as Hok2
    by (eapply engine_ok_evolves; [exact Hok1|by apply evolves_MaybeCompactLocked]).
  unfold mbind, Op_bind in H. destruct (MaybeCompactLocked host e1) as [[u|status] e2]; [|done].
  injection H as _ <-. cbn [snd] in *. destruct Hk as (_ & _ & _ & _ & Hi & Ho & _). destruct Hf as (Hopt & Hep & _).
  split; [|exact Hep]. split; [done| | |]; [unfold en_limits in *; by rewrite Hopt|by rewrite Hi|by rewrite Ho].
Qed.


Definition bench_scope : bytes := B "fabric/bench".
Definition bench_intent (declared : list (bytes * SubjectIntent)) : IntentDocument :=
  mkIntent (B "intent/bench") bench_scope (B "definition/bench") 1 1 EC_Synthetic true declared zero_digest.
Definition bench_submission (seen : list (bytes * SubjectObservation)) : ObservationSubmission :=
  mkSubmission (B "observation/bench/1") bench_scope (B "reporter/bench") 1 EC_Synthetic true true seen.
Definition committed_intent (declared : list (bytes * SubjectIntent)) : IntentDocument :=
  with_intent_digest (ComputeIntentDigest (bench_intent declared)) (bench_intent declared).

(** A mutation that succeeds, as the documents see it. *)
Lemma mutate_holds host event intents streams e u e' :
  holds intents streams e -> event_typed default_limits event = true -> mutate host event e = (Value u, e') ->
  let s := apply_event default_limits event (en_state e) in
  holds (ds_intents s) (ds_observations s) e' /\ en_live_epoch e' = en_live_epoch e.
Proof.
  intros [] Ht H. rewrite <- ho_limits0 in Ht.
  destruct (mutate_commits host event e u e' ho_ok0 Ht H) as (Hok & Hl & n & Hs).
  pose proof (mutate_spec host event e ho_ok0 Ht) as Hm. rewrite H in Hm. destruct Hm as ((_ & He & _) & _).
  cbv zeta. split; [|done]. rewrite ho_limits0 in *. split; [done|done| |]; by rewrite Hs.
Qed.

(** The digest does not depend on the one a document carries. *)
Lemma sealed_digest digest d : ComputeIntentDigest (with_intent_digest digest d) = ComputeIntentDigest d.
Proof.
  unfold ComputeIntentDigest. by replace (put_intent_fields (with_intent_digest digest d)) with (put_intent_fields d).
Qed.

Lemma case_commits host declared e r e' :
  holds [] [] e -> subjects_typed (subject_intent_wf default_limits) declared ->
  Engine_CommitIntent host (bench_intent declared) e = (Value r, e') ->
  holds [(bench_scope, committed_intent declared)] [] e'.
Proof.
  intros He Hd. pose proof He as [_ Hl Hi Ho]. unfold Engine_CommitIntent. rewrite writable_bind.
  destruct (st_read_only _); [done|]. rewrite get_bind, check_bind. destruct (Status_ok _) eqn:Ev; [|done]. cbv zeta.
  fold (committed_intent declared). rewrite Hi. cbn [om_find]. intros H. op_step H.
  assert (intent_wf default_limits (committed_intent declared) = true) as Ht.
  { rewrite Hl in Ev. unfold ValidateIntent in Ev. destruct (_ || _); [done|].
    destruct (Z.ltb_spec (max_subjects_per_document default_limits) (blen (in_subjects (bench_intent declared)))); [done|].
    assert (bool_decide (in_digest (committed_intent declared) = ComputeIntentDigest (committed_intent declared)) = true) as Hdig
      by (apply bool_decide_eq_true_2; symmetry; apply sealed_digest).
    unfold intent_wf. rewrite Hdig. cbn [committed_intent with_intent_digest bench_intent in_intent in_scope in_definition
      in_generation in_policy_version in_subjects]. by rewrite (typed_subjects_wf _ _ Hd). }
  destruct (mutate_holds _ (Ev_Intent (committed_intent declared)) _ _ _ _ _ He Ht Hop) as [H1 _].
  apply (settled_holds _ _ _ _ _ _ _ _ _ H1) in H as [H _]. cbn in H. by rewrite Hi, Ho in H.
Qed.

(** The observation a case records, under the epoch of its engine. *)
Definition recorded_observation (seen : list (bytes * SubjectObservation)) (e : Engine) : ObservationDocument :=
  stamp (bench_submission seen) (en_live_epoch e) 1000.

(** The engine of a case once both documents are in. *)
Definition evidenced (declared : list (bytes * SubjectIntent)) (seen : list (bytes * SubjectObservation)) (e : Engine) : Prop :=
  holds [(bench_scope, committed_intent declared)] [(bench_scope, [recorded_observation seen e])] e.

Lemma case_records host declared seen e r e' :
  holds [(bench_scope, committed_intent declared)] [] e -> subjects_typed (subject_observation_wf default_limits) seen ->
  RecordObservationAt host (bench_submission seen) 1000 e = (Value r, e') -> evidenced declared seen e'.
Proof.
  intros He Hs. pose proof He as [Hok Hl Hi Ho]. unfold RecordObservationAt. rewrite writable_bind.
  destruct (st_read_only _); [done|]. rewrite get_bind, check_bind. destruct (Status_ok _) eqn:Ev; [|done]. cbv zeta.
  rewrite Ho. cbn [om_find default scan_stream Z.eqb]. fold (recorded_observation seen e). intros H. op_step H.
  assert (observation_wf default_limits (recorded_observation seen e) = true) as Ht.
  { apply stamp_wf; [|by destruct Hok as (_ & _ & _ & ? & _)|done].
    rewrite Hl in Ev. unfold ValidateSubmission in Ev. destruct (_ || _); [done|].
    destruct (Z.ltb_spec (max_subjects_per_document default_limits) (blen (su_subjects (bench_submission seen)))); [done|].
    unfold submission_wf. cbn [bench_submission su_observation su_scope su_reporter su_generation su_subjects].
    by rewrite (typed_subjects_wf _ _ Hs). }
  destruct (mutate_holds _ (Ev_Observation (recorded_observation seen e)) _ _ _ _ _ He Ht Hop) as [H1 Hep1].
  apply (settled_holds _ _ _ _ _ _ _ _ _ H1) in H as [H Hep]. cbn in H. rewrite Hi, Ho in H.
  unfold evidenced, recorded_observation. rewrite Hep, Hep1. exact H.
Qed.

(** ** The counters of a case *)

Lemma sum_indicator {A} (P : A -> Prop) `{forall a, base.Decision (P a)} l :
  sum_Z (map (fun a => if decide (P a) then 1 else 0) l) = blen (filter P l).
Proof.
  induction l as [|a l IH]; [done|]. rewrite filter_cons. cbn [map]. change (sum_Z (?x :: ?t)) with (x + sum_Z t).
  rewrite IH. destruct (decide (P a)); rewrite ?blen_cons; lia.
Qed.

(** One attribute on both sides costs one comparison. *)
Lemma case_comparisons n declared seen policy intent observation k :
  filled n declared seen -> in_subjects intent = declared -> ob_subjects observation = seen -> k ∈ declared.*1 ->
  subject_comparisons policy intent observation k = if decide (k ∈ seen.*1) then 1 else 0.
Proof.
  intros [] Hi Ho Hk. unfold subject_comparisons. rewrite Hi, Ho.
  apply om_find_is_Some_keys in Hk as [d Hd]. rewrite Hd. destruct (decide _) as [Hin|Hout].
  - apply om_find_is_Some_keys in Hin as [o Hf]. rewrite Hf. unfold walk_subject.
    destruct (fi_wanted0 _ _ Hd) as [v ->], (fi_reported0 _ _ Hf) as [w ->].
    by rewrite WalkAttributes_reference.
  - apply om_find_None_keys in Hout. by rewrite Hout.
Qed.

Lemma case_keys n declared seen : filled n declared seen -> merge_keys declared seen = declared.*1.
Proof.
  intros []. apply os_ext; [apply merge_keys_sorted|rewrite os_sorted_keys; apply fi_declared0|].
  intros k. rewrite elem_merge_keys. naive_solver.
Qed.

Lemma case_observed n declared seen :
  filled n declared seen -> blen (filter (fun k => k ∈ seen.*1) declared.*1) = observed_count n.
Proof.
  intros []. rewrite <- fi_seen_size0. unfold blen. f_equal. rewrite <- (length_fmap fst seen). apply Permutation_length, NoDup_Permutation.
  - apply NoDup_filter, os_sorted_NoDup. rewrite os_sorted_keys. apply fi_declared0.
  - apply os_sorted_NoDup. rewrite os_sorted_keys. apply fi_seen0.
  - intros k. rewrite list_elem_of_filter. naive_solver.
Qed.

(** A single candidate is selected. *)
Lemma selects_intent d : sel_selected (SelectCurrentIntent [Some d]) = Some d.
Proof. unfold SelectCurrentIntent, disagrees. cbn. by rewrite bool_decide_eq_true_2, andb_false_r. Qed.

Lemma selects_observation d : sel_selected (SelectCurrentObservation [Some d]) = Some d.
Proof. unfold SelectCurrentObservation, disagrees. cbn. by rewrite bool_decide_eq_true_2, andb_false_r. Qed.

(** Under any policy, the evidence of a case is compared, at the cost its size determines. *)
Lemma case_report n declared seen e policy report :
  filled n declared seen -> evidenced declared seen e ->
  ClassifyScope (classification_input e bench_scope policy 1000) = Value report ->
  cr_subject_visits report = n /\ cr_attribute_comparisons report = observed_count n /\ blen (cr_records report) = n.
Proof.
  intros Hf [] Hc. set (input := classification_input e bench_scope policy 1000) in *.
  assert (selected_intent input = Some (committed_intent declared)) as Hsi.
  { unfold selected_intent. replace (default [] _) with [Some (committed_intent declared)]; [apply selects_intent|].
    unfold input, classification_input, scope_intents. rewrite ho_intents0. cbn [om_find]. by rewrite key_eqb_refl. }
  assert (selected_observation input = Some (recorded_observation seen e)) as Hso.
  { unfold selected_observation. replace (default [] _) with [Some (recorded_observation seen e)]; [apply selects_observation|].
    unfold input, classification_input, scope_observations. rewrite ho_streams0. cbn [om_find]. by rewrite key_eqb_refl. }
  assert (compared input report policy (committed_intent declared) (recorded_observation seen e)) as Hcmp.
  { apply ClassifyScope_compares; try done.
    - unfold input, classification_input. rewrite ho_intents0. cbn [om_find ci_committed_intent_generation].
      by rewrite key_eqb_refl.
    - unfold EvaluateFreshness, input, classification_input. cbn [ci_live_epoch ci_now_unix_ms].
      cbn [recorded_observation stamp with_observation_digest ob_received_epoch ob_received_unix_ms].
      rewrite Z.eqb_refl, andb_false_r. destruct (Z.ltb_spec 0 (max_observation_age_ms (freshness policy))); [|done].
      cbn [Z.ltb]. change (sub_i64 1000 1000) with 0. destruct (Z.ltb_spec (max_observation_age_ms (freshness policy)) 0); [lia|done]. }
  destruct Hcmp as (_ & _ & _ & _ & _ & Hcs).
  rewrite classify_subjects_reference in Hcs by apply Hf. injection Hcs as Hrec -> ->.
  change (in_subjects (committed_intent declared)) with declared in *.
  change (ob_subjects (recorded_observation seen e)) with seen in *.
  pose proof (records_subjects bench_scope policy (ev_evidence (cr_evidence report)) (committed_intent declared)
    (recorded_observation seen e) _ (fun k Hk => Hk)) as Hs.
  change (in_subjects (committed_intent declared)) with declared in *.
  change (ob_subjects (recorded_observation seen e)) with seen in *.
  rewrite (case_keys n) in * by done. rewrite <- Hrec in Hs.
  assert (blen declared.*1 = n) as Hn by (unfold blen; rewrite length_fmap; apply Hf).
  split; [done|]. split; [|by rewrite <- Hs in Hn; unfold blen in *; rewrite length_map in Hn].
  rewrite <- (case_observed n declared seen Hf), <- sum_indicator. f_equal. apply map_ext_in.
  intros k Hk%list_elem_of_In. by eapply case_comparisons.
Qed.

Lemma case_classifies host n declared seen e report e' :
  filled n declared seen -> evidenced declared seen e ->
  Engine_Classify host bench_scope 1000 e = (Value report, e') ->
  evidenced declared seen e' /\ cr_subject_visits report = n /\ cr_attribute_comparisons report = observed_count n.
Proof.
  intros Hf He H. unfold Engine_Classify, ClassifyLocked in H. do 3 op_step H. cbn [Z.eqb] in H.
  unfold classify_counted in H. destruct (ClassifyScope _) as [report0|] eqn:Hc; [|done]. do 2 op_step H.
  injection H as -> <-. destruct (case_report _ _ _ _ _ _ Hf He Hc) as (Hv & Ha & _). split; [|done].
  by destruct He.
Qed.

Lemma case_plans host n declared seen dry e plan e' :
  filled n declared seen -> evidenced declared seen e ->
  Engine_Plan host (mkPlanRequest bench_scope None 1000 dry) e = (Value plan, e') ->
  blen (pl_decisions plan) = Z.min n (max_plan_actions default_limits).
Proof.
  intros Hf He H. apply Engine_Plan_inv in H as (report & Hc & -> & _).
  destruct (case_report _ _ _ _ _ _ Hf He Hc) as (_ & _ & Hn).
  match goal with |- context [make_plan e ?s ?p report] => destruct (make_plan_decisions e s p report) as (-> & _) end.
  unfold blen in *. rewrite length_map, length_take, (ho_limits _ _ _ He).
  assert (0 <= max_plan_actions default_limits) by done. lia.
Qed.

(** What the size of a case determines. *)
Definition case_counts (n : Z) (r : CaseResult) : Prop :=
  ca_subjects r = n /\ ca_subject_visits r = n /\ ca_attribute_comparisons r = observed_count n /\
  ca_decisions r = Z.min n (max_plan_actions default_limits).

Lemma y_case h root n modulus :
  0 <= n -> fresh_case h n -> yields (fun _ => True) (RunCase h root n modulus) (fun r _ => case_counts n r).
Proof.
  intros Hn Hc. unfold RunCase. eapply y_bind; [by apply y_open|]. intros [].
  change (StringId_TryParse (B "fabric/bench")) with (Some bench_scope).
  change (StringId_TryParse (B "mtu")) with (Some (B "mtu")). cbv iota.
  do 4 (eapply y_bind; [by apply y_valued|]; intros ?; apply y_fix; intros ->).
  eapply y_bind; [apply (y_subjects _ _ _ 0 [] []); [done|exact filled_nothing]|].
  intros [declared seen]. apply y_fix. cbn [fst snd]. rewrite Z.add_0_l, Z2Nat.id by done. intros Hf.
  eapply (y_call _ _ _ _ (fun _ => holds [(bench_scope, committed_intent declared)] [])); [lia| |].
  { intros e a e' He. apply case_commits; [done|apply Hf]. }
  intros _. eapply (y_call _ _ _ _ (fun _ => evidenced declared seen)); [lia| |].
  { intros e a e' He. apply case_records; [done|apply Hf]. }
  intros _. eapply (y_call _ _ _ _ (fun report e => evidenced declared seen e /\
    cr_subject_visits report = n /\ cr_attribute_comparisons report = observed_count n)); [lia| |].
  { intros e a e' He. by apply case_classifies. }
  intros report. eapply (y_call _ _ _ _ (fun plan _ => blen (pl_decisions plan) = Z.min n (max_plan_actions default_limits) /\
    cr_subject_visits report = n /\ cr_attribute_comparisons report = observed_count n)); [lia| |].
  { intros e a e' (He & Hv & Ha) Hp. split; [|done]. by eapply case_plans. }
  intros plan. apply y_ret. intros p (e & _ & Hd & Hv & Ha). done.
Qed.

Lemma y_weaken {A} (P P' : Process -> Prop) (m : Cmd A) Q : (forall p, P p -> P' p) -> yields P' m Q -> yields P m Q.
Proof. intros H Hm p Hp. by apply Hm, H. Qed.

Lemma y_print P text : yields P (print text) (fun _ _ => True).
Proof. by intros p Hp. Qed.

Lemma y_cases h root sizes : Forall (fun n => 0 <= n) sizes -> Forall (fresh_case h) sizes ->
  forall before results, Forall2 case_counts before results ->
  yields (fun _ => True) (bench_cases h root sizes results) (fun rs _ => Forall2 case_counts (before ++ sizes) rs).
Proof.
  intros Hpos Hfresh. induction Hfresh as [|n sizes Hn Hfresh IH]; intros before results Hr; cbn [bench_cases].
  - apply y_ret. intros _ _. by rewrite app_nil_r.
  - apply Forall_cons in Hpos as [H0 Hpos]. eapply y_bind; [by apply y_case|]. intros r.
    apply (y_weaken _ (fun _ => True /\ case_counts n r)); [done|]. apply y_fix. intros Hc.
    eapply (y_bind _ _ (fun _ _ => True)); [apply y_print|]. intros ?.
    eapply (y_bind _ _ (fun _ _ => True)); [destruct (last results); [destruct (negb _)|]; by intros p Hp|]. intros ?.
    replace (before ++ n :: sizes) with ((before ++ [n]) ++ sizes) by (by rewrite <- app_assoc).
    apply IH; [done|]. by apply Forall2_app; [|constructor].
Qed.

(** ** Properties *)

(** The row under each case, when the work grew with the size. *)
Definition linear_row : bytes := B "           size x4.00  subject-visit work x4.00  declared-linear=yes" ++ newline.

Lemma growth_linear a b n m :
  case_counts n a -> case_counts m b -> (n, m) ∈ [(2000, 8000); (8000, 32000); (32000, 128000)] -> growth_row a b = linear_row.
Proof.
  intros (Ha & Hva & _) (Hb & Hvb & _) H. unfold growth_row, declared_linear, work_ratio, size_ratio.
  rewrite Ha, Hva, Hb, Hvb.
  repeat (apply elem_of_cons in H as [[= -> ->]|H]; [vm_compute; reflexivity|]). by apply elem_of_nil in H.
Qed.

(** The comparisons of the four cases, as README.md tabulates them. *)
Example tabulated_comparisons : map observed_count bench_sizes = [1882; 7529; 30117; 120470].
Proof. reflexivity. Qed.

(** C27. The benchmark measures linear work: on removed directories, whatever the clocks and the
    writes answer and whatever the sizes, its loop is defined and ends with an exit code of a case or
    with one result per size, whose counters are exactly one visit per subject, one comparison per
    subject observed and one decision per subject up to the bound of a plan; the work grew exactly
    as the size did; and each row under the four sizes it uses reports it. *)
Theorem benchmark_work_is_linear h root sizes p :
  Forall (fun n => 0 <= n) sizes -> Forall (fresh_case h) sizes ->
  match bench_cases h root sizes [] p with
  | Some (Goes results, _) =>
    Forall2 case_counts sizes results /\
    forall i a b, results !! i = Some a -> results !! S i = Some b ->
      (ca_subjects a <> 0 -> work_ratio a b = size_ratio a b) /\
      (sizes = bench_sizes -> growth_row a b = linear_row)
  | Some (Returns code, _) => 2 <= code <= 6
  | _ => False
  end.
Proof.
  intros Hpos Hfresh. pose proof (y_cases h root sizes Hpos Hfresh [] [] ltac:(constructor) p I) as H.
  destruct (bench_cases _ _ _ _ _) as [[[results|code|] p']|]; try done. split; [done|]. intros i a b Ha Hb.
  destruct (Forall2_lookup_r _ _ _ _ _ H Ha) as (n & Hn & Hca), (Forall2_lookup_r _ _ _ _ _ H Hb) as (m & Hm & Hcb).
  split.
  - intros Hne. destruct Hca as (Hsa & Hva & _), Hcb as (Hsb & Hvb & _). unfold work_ratio, size_ratio.
    destruct (Z.eqb_spec (ca_subject_visits a) 0); congruence.
  - intros ->. eapply growth_linear; [exact Hca|exact Hcb|].
    destruct i as [|[|[|i]]]; cbn in Hn, Hm; simplify_eq; set_solver.
Qed.

Definition bench_host : BenchHost :=
  mkBenchHost (fun _ => empty_disk) (fun _ => example_boot_host) (fun _ _ => good_host 1700000000010)
    (fun _ => double_of_Z 1) (fun _ => double_of_Z 2).

Lemma bench_host_fresh n : fresh_case bench_host n.
Proof. by split. Qed.

Lemma bench_host_completes :
  match bench_cases bench_host (B "bench") [1; 4] [] process_new with
  | Some (Goes results, p) => bool_decide (map ca_actions results = [1; 2]) && bool_decide (pc_err p = [])
  | _ => false
  end = true.
Proof. vm_compute. reflexivity. Qed.

Lemma benchmark_work_is_linear_witness :
  exists results p, bench_cases bench_host (B "bench") [1; 4] [] process_new = Some (Goes results, p) /\
    Forall2 case_counts [1; 4] results.
Proof.
  assert (Forall (fun n => 0 <= n) [1; 4]) as Hpos by (repeat constructor; lia).
  assert (Forall (fresh_case bench_host) [1; 4]) as Hf by (repeat constructor; apply bench_host_fresh).
  pose proof bench_host_completes as Hc.
  pose proof (benchmark_work_is_linear bench_host (B "bench") [1; 4] process_new Hpos Hf) as H.
  destruct (bench_cases bench_host (B "bench") [1; 4] [] process_new) as [[[results|code|] p]|]; try discriminate Hc.
  exists results, p. split; [reflexivity|]. exact (proj1 H).
Defined.
